(* ===== verification/_CoqProject ===== *)
-Q . S2P
Prelude.v
Json.v
Proto.v
WireInstance.v
Crypto.v
Principal.v
Fsm.v
Core.v
Derive.v
Body.v
BodyProps.v
Envelope.v
EnvelopeProps.v
Mailbox.v
Origin.v
Serde.v
Codec.v
DrainWalk.v
Authorship.v
BrokerState.v
Awaiting.v
Handle.v
BrokerInv.v
Scenario.v
Executor.v
BrokerProps.v
SessionProps.v
Lifecycle.v
AwaitProps.v
Delivery.v
Process.v
Findings.v
InboxReader.v
Clock.v
NonceTable.v
Relay.v
RelayProps.v
Guard.v
GuardProps.v
Keyring.v
KeyringProps.v
KeyringFile.v
Ingress.v
IngressProps.v
Transport.v
RelayFetch.v
Egress.v
EgressProps.v
RelayFetchProps.v
Client.v
ClientSend.v
ClientSendProps.v
Pairing.v
PairPin.v
PairingProps.v
TaskDir.v
Inspect.v
InspectProps.v
Render.v
Receive.v
McpTools.v
McpServer.v
ReceiveProps.v
McpProps.v
Peer.v
PeerProps.v
PeerTrust.v
PairFlow.v
GatewayStart.v
GatewayBoot.v
HookScan.v
StopLock.v
Hook.v
HookProps.v
HostConfig.v
HostConfigProps.v
ListenWake.v
CodexConfig.v
CodexProps.v
DaemonService.v
