(* ===== verification/Prelude.v ===== *)
(** * FAMP: a verification development

    FAMP lets agents on one machine exchange messages through a local broker,
    and agents on different machines through gateways that sign and verify
    envelopes for their domain.  This library models both halves from the Rust
    sources under [src/crates] and proves what makes them correct.

    ** The program's parts and how they interact

    - The broker ([famp-bus]): a pure state machine [handle] over
      sessions, channel rosters, mailbox cursors and parked awaits.  It reads
      mailboxes through an environment and answers with a list of effects.
    - The broker process ([famp/src/cli/broker]): feeds frames, disconnects and
      ticks to [handle] and executes its effects on JSONL mailbox files, the
      cursor files, the session log and the sockets.
    - The envelope layer ([famp-core], [famp-envelope], [famp-fsm],
      [famp-crypto]): identities, six message bodies with their rules, signed and
      unsigned envelopes, the task state machine.
    - Trust ([famp-keyring]): pinned keys with states and windows, rotation,
      revocation, the keyring file.
    - The gateway ([famp-gateway]): stands in for remote agents on the local bus.
      Egress drains their mailboxes, signs and posts; ingress guards, verifies,
      strips and delivers; pairing exchanges the domains' keys.
    - The relay ([famp-relay]): a store-and-forward queue for a gateway that
      cannot be reached, drained by signed fetches.
    - Transports ([famp-transport], [famp-transport-http]): an in-process one and
      an HTTP one.
    - The clients ([famp/src/bus_client], [famp/src/cli]): connect to the broker
      as a named holder or as a proxy of one, send, list, await, tail, and show
      what remote agents wrote only in quarantine.
    - The MCP server ([famp/src/cli/mcp]): one session over JSON-RPC lines whose
      tools are those clients.
    - The inspector ([famp-inspect-proto], [famp-inspect-server]): read-only
      reports over a snapshot of the broker, the mailboxes and the task directory.
    - The task directory ([famp-taskdir]): a file per task record.
    - The peer commands ([famp/src/cli/peer]): export, import, trust, retire and
      revoke the keys of other domains, by which two machines learn to verify one
      another.
    - The hooks by which an agent's host wakes it ([famp/src/cli/hook],
      [cli/listen_wake.rs]), the installers that enter them into the host's
      configuration ([cli/install], [cli/uninstall]), and the commands that tell
      whether waking can work and keep the broker running ([cli/inspect/wake.rs],
      [cli/daemon]).

    ** Files

    Foundations: [Prelude] (results and their notations, machine integers,
    ordered iteration of maps, shared lemmas), [Json] (values, objects, the JSON
    library as the class [WireLib] with its laws [WireLaws]), [WireInstance] (a
    concrete instance), [Crypto] ([famp-crypto]; Ed25519, SHA-256 and base64 as
    [CryptoLib]/[CryptoLaws], with a concrete instance), [Principal]
    ([famp-core/src/identity.rs]), [Core] (ids, scopes, artifacts, error kinds),
    [Derive] (what serde's derived decoders do), [Clock] (timestamps).

    The bus: [Proto], [Serde], [Codec] (messages, their JSON images, frames),
    [Mailbox], [Origin] (the mailbox contract, its in-memory and file readers,
    provenance stamps), [DrainWalk] ([drain_walk.rs]), [Authorship],
    [BrokerState], [Awaiting], [Handle] ([broker/*.rs], one definition per
    handler), [BrokerInv], [BrokerProps], [SessionProps], [Lifecycle],
    [AwaitProps] (its theorems), [Executor], [Process] (the run loop and effect
    execution), [Delivery] (the broker and its disk together), [InboxReader]
    ([famp-inbox]), [Scenario], [Findings] (concrete runs).

    Envelopes: [Fsm], [Body], [BodyProps], [Envelope], [EnvelopeProps].

    Federation: [NonceTable], [Guard], [GuardProps] ([ingress_guard.rs]),
    [Keyring], [KeyringProps], [KeyringFile], [Relay], [RelayProps], [Ingress],
    [IngressProps], [Transport], [Egress], [EgressProps], [RelayFetch],
    [RelayFetchProps], [Pairing], [PairPin], [PairingProps], [PairFlow], [Peer],
    [PeerProps], [PeerTrust] (the peer commands; trust made and revoked across two
    machines), [GatewayStart], [GatewayBoot] (the gateway's flags, its start and
    the world in which it then stands in).

    Clients: [Client] (identity, handshake, the socket as the class [BusSocket]
    with the broker process as an instance), [ClientSend], [ClientSendProps]
    ([famp send]), [TaskDir], [Inspect], [InspectProps], [Render]
    ([cli/render.rs]), [Receive], [ReceiveProps] (the receiving commands; the bus
    directory as the class [BusDir]), [McpTools], [McpServer], [McpProps].

    Hosts: [HookScan] (the stop hook's payload and transcript), [StopLock] (its
    lock file, one system call at a time), [Hook], [HookProps], [ListenWake] (the
    wake helper), [HostConfig], [HostConfigProps] (the JSON merge, Claude Code),
    [CodexConfig], [CodexProps] (the TOML merge, Codex, Grok, [inspect wake]),
    [DaemonService] (the generated service files, restart and status).

    The state of a component is a record with the source struct's fields
    ([BrokerState], [ClientState], [World], [IngressGuard], [RelayState],
    [InviteRecord], ...), a [HashMap] a [gmap], and each method a function from
    the old state to the new one and its answer.  Names follow the source; a
    trailing underscore or a prefix only avoids a clash.  Code that is
    interleaved in the program (the relay's handlers around their locks, a
    redemption around its unlocked read, the ingress around its awaits) is split
    at those points and composed by a step function over a shared world
    ([relay_step], [pair_step], [step]); the two lock files are read and written
    by several processes, whose calls interleave as a list of events ([lock_run]).

    ** Groups of theorems

    - Broker: the session invariant over all reachable states, authenticity of
      every staged append, errors that change nothing, exclusivity of names,
      proxies acting as their holder, ticks and disconnects, totality.
    - Mailboxes: the drain walk accounts for every record and capped polling is
      complete; files only grow; a send is delivered and the inbox reads back
      exactly the log; the file reader, the in-memory mailbox and [famp-inbox]
      agree; stamps round-trip and cannot be forged by content.
    - Awaits: pushed mail is local and filtered, wakes are answered, parking
      happens only when idle.
    - Envelopes: any envelope a sender can build is signed, encoded, verified and
      decoded back; acceptance means the body's rules hold.
    - Keyring: at most one active key, exact trust decision, final revocation,
      authorized signed revocation, file round trip, validated pins.
    - Guard and relay: replay needs a gap or a flood, single use of a fetch
      authorization, no drain without authorization, verbatim forwarding; a relay
      that reports ready serves the keys its flags name.
    - Gateway: ingress delivers only vouched envelopes and they reach the
      mailbox; egress signs only for its own domain; what one gateway relays the
      other delivers as the original; failures are reported.
    - Pairing: single use, bounded guesses, authenticated redemption, validated
      pins, and completion of an honest pairing.
    - Clients: [famp send] over the broker process delivers or reports why not, a
      remote send is relayed as built, [famp_inbox] reads on where it stopped,
      [famp_verify] never misleads and confirms what was sent; no surface shows a
      remote body outside a quarantine block, which its text cannot close.
    - MCP: every request is answered once and in order, the session's identity
      moves only on purpose, a dead connection needs a new registration.
    - Inspector and task directory: the reported states are the engine's, reports
      depend on no body, the listing is what reading each record gives.
    - Peers and the gateway's start: two machines that exchange exports verify each
      other's envelopes, a revocation blob crosses and is final, pins move only as
      a command says; a gateway that reports ready stands in for what its flags
      declared.
    - The stop hook: its reading of a transcript is the last successful action's,
      it speaks only for its own session and shows no body, its lock is exclusive
      among processes that take turns and not among those that race.
    - The wake helper: lines are scrubbed, each wake is printed once, it gives up
      after the documented failures.
    - Installation: for Claude Code and Codex an installation enters what the host
      then reads (the trust hash and key are those the diagnosis computes) and
      uninstalling gives the user's documents back; texts placed in shell, XML and
      unit files are read back as they were; what goes wrong (a hook sharing an
      entry, a user's hook losing its trust entry) is proved as well.
    - The service: the restart's wait is bounded and reports only the service's own
      broker; status agrees with it; installing writes only the unit.

    ** Fuel and bounds

    Recursion is structural except for the mailbox line scanner ([raw_loop], fuel
    the length of the file, which every iteration shortens) and the polling
    driver of the completeness theorem (fuel the number of records), the retry
    loops of the lock files (the source's own bounds on attempts) and the wait for a
    restarted broker (51 turns of at least 100 ms in a budget of 5000); all end
    within their fuel.  The wake helper's endless loop is run for
    its hundred failures.  [u64] and [u32] values are [N] with
    their wrap-around written where the code adds; frame, batch, queue and
    attempt limits are the source's constants.

    ** Parameters

    Third-party code is an argument: the JSON library ([WireLib]), cryptography
    ([CryptoLib]), date arithmetic ([TimeLib], [add_24h] of [PairLib]), the
    pairing word list and hexadecimal text ([PairLib]), the HTTP client
    ([HttpClient]), the printers of JSON and TOML documents ([PrettyLib],
    [TomlDocLib]), the service managers and the process table ([ServiceHost],
    [HookHost]), the answers of the operating system ([Io], [PairIo], [HostIo]), clocks,
    random values ([Fresh]) and the iteration order of hash maps.  Their laws are
    classes with a concrete instance each, so that every theorem that assumes
    them is applied to one.

    ** Not modelled

    The positional (array) form serde also accepts for the variants of bus
    messages (bodies and envelopes do model it); the wording of serde's errors
    (a parameter); TLS set-up, URL parsing, the HTTP server's routing; file
    modes, directories and syncing; the JSON image of the pairing store; command-line
    parsing by clap and the text the commands print, the inspector's tables among it;
    spawning a broker in the background and the reconnect loop of [famp register]
    (processes and timers, no state of their own); the probe of a program's version,
    the search for a Codex rollout file, git roots; canonical
    JSON, which is a third-party crate wrapped; [famp-inbox]'s lock, which nothing
    calls; the text of the MCP tool descriptors. *)

From Stdlib Require Import Strings.Byte.
From Stdlib Require Export Lia Zify ZifyN ZifyNat ZifyBool.
From stdpp Require Import gmap strings list fin_maps sorting.

(** ** Fallible results

    Rust's [Result<A, E>]. *)
Inductive result (A E : Type) : Type :=
| Ok (a : A)
| Err (e : E).
Arguments Ok {A E} a.
Arguments Err {A E} e.

Definition is_ok {A E} (r : result A E) : bool :=
  match r with Ok _ => true | Err _ => false end.

Definition result_map {A B E} (f : A -> B) (r : result A E) : result B E :=
  match r with Ok a => Ok (f a) | Err e => Err e end.

Definition map_err {A E F} (f : E -> F) (r : result A E) : result A F :=
  match r with Ok a => Ok a | Err e => Err (f e) end.

(** Rust's [let Ok(x) = c else { return r };], [let Some(x) = c else ...]
    and the error-binding form [match c { Ok(x) => x, Err(e) => return r }]. *)
Declare Scope famp_scope.
Delimit Scope famp_scope with famp.
Notation "'letok' x ':=' c 'orelse' r 'in' k" :=
  (match c with Ok x => k | Err _ => r end)
  (at level 10, x pattern, c at level 100, r at level 100, k at level 200) : famp_scope.
Notation "'trying' x ':=' c 'catch' e '=>' r 'in' k" :=
  (match c with Ok x => k | Err e => r end)
  (at level 10, x pattern, c at level 100, e name, r at level 100, k at level 200) : famp_scope.
Notation "'letsome' x ':=' c 'orelse' r 'in' k" :=
  (match c with Some x => k | None => r end)
  (at level 10, x pattern, c at level 100, r at level 100, k at level 200) : famp_scope.
(** [c?]. *)
Notation "'try' x ':=' c 'in' k" :=
  (match c with Ok x => k | Err e => Err e end)
  (at level 10, x pattern, c at level 100, k at level 200) : famp_scope.
Open Scope famp_scope.

(** ** Machine integers

    [u64] values are kept in [N]; addition on them wraps, as it does in the
    release profile (no [overflow-checks] in the workspace's Cargo.toml). *)
Definition u64_max : N := 18446744073709551615%N.
Definition u32_max : N := 4294967295%N.
Definition u64_add (x y : N) : N := ((x + y) mod 18446744073709551616)%N.

Lemma u64_add_small x y : (x + y <= u64_max)%N -> u64_add x y = (x + y)%N.
Proof. unfold u64_add, u64_max. intros H. apply N.mod_small. lia. Qed.

(** ** Bytes *)
Abbreviation bytes := (list byte).
Definition NEWLINE : byte := x0a.
Definition LF : Ascii.ascii := Ascii.ascii_of_nat 10.
#[export] Instance byte_eq_decision : EqDecision byte := Byte.byte_eq_dec.

(** Lengths of Rust buffers as [u64]. *)
Definition blen (b : bytes) : N := N.of_nat (length b).

Lemma blen_app a b : blen (a ++ b) = (blen a + blen b)%N.
Proof. unfold blen. rewrite length_app. lia. Qed.
Lemma blen_nil : blen [] = 0%N.
Proof. done. Qed.

(** ** Ordered iteration

    The source keeps its tables in [BTreeMap]/[BTreeSet]: contents are a
    finite map, and iteration visits the keys in ascending order.  The
    contents are stdpp's [gmap]/[gset]; [bt_iter] and [bs_iter] are the
    iterators. *)
Section ordered_iteration.
Context {V : Type}.

Definition key_le (p q : N * V) : Prop := (p.1 <= q.1)%N.

#[export] Instance key_le_dec : RelDecision key_le.
Proof. intros p q. unfold key_le. apply _. Defined.
#[export] Instance key_le_total : Total key_le.
Proof. intros p q. unfold key_le. lia. Qed.
#[export] Instance key_le_trans : Transitive key_le.
Proof. intros p q r. unfold key_le. lia. Qed.

Definition bt_iter (m : gmap N V) : list (N * V) :=
  merge_sort key_le (map_to_list m).
Definition bt_values (m : gmap N V) : list V := (bt_iter m).*2.

Lemma bt_iter_perm (m : gmap N V) : bt_iter m ≡ₚ map_to_list m.
Proof. apply merge_sort_Permutation. Qed.

Lemma elem_of_bt_iter (m : gmap N V) k v :
  (k, v) ∈ bt_iter m <-> m !! k = Some v.
Proof. rewrite bt_iter_perm. apply elem_of_map_to_list. Qed.

Lemma bt_iter_sorted (m : gmap N V) : StronglySorted key_le (bt_iter m).
Proof. apply StronglySorted_merge_sort; apply _. Qed.

Lemma bt_iter_keys_NoDup (m : gmap N V) : NoDup (bt_iter m).*1.
Proof. rewrite bt_iter_perm. apply NoDup_fst_map_to_list. Qed.

Lemma elem_of_bt_values (m : gmap N V) v :
  v ∈ bt_values m <-> exists k, m !! k = Some v.
Proof.
  unfold bt_values. rewrite list_elem_of_fmap. split.
  - intros [[k w] [-> Hin]]. exists k. by apply elem_of_bt_iter.
  - intros [k Hk]. exists (k, v). split; [done|]. by apply elem_of_bt_iter.
Qed.

Lemma bt_iter_empty : bt_iter (∅ : gmap N V) = [].
Proof. unfold bt_iter. by rewrite map_to_list_empty. Qed.
End ordered_iteration.

Definition bs_iter (s : gset string) : list string := merge_sort String.le (elements s).

Lemma elem_of_bs_iter (s : gset string) x : x ∈ bs_iter s <-> x ∈ s.
Proof. unfold bs_iter. rewrite merge_sort_Permutation. apply elem_of_elements. Qed.

Lemma bs_iter_NoDup (s : gset string) : NoDup (bs_iter s).
Proof. unfold bs_iter. rewrite merge_sort_Permutation. apply NoDup_elements. Qed.

(** ** Texts *)
Lemma str_app_assoc (a b c : string) : (a +:+ b) +:+ c = a +:+ (b +:+ c).
Proof. induction a as [|x a IH]; [done|]. exact (f_equal (String x) IH). Qed.
Lemma str_app_nil (a : string) : a +:+ EmptyString = a.
Proof. induction a as [|c a IH]; [done|]. exact (f_equal (String c) IH). Qed.

(** ** Iterator adaptors as the source uses them *)
Definition iter_any {A} (f : A -> bool) (l : list A) : bool := existsb f l.

Fixpoint find_map {A B} (f : A -> option B) (l : list A) : option B :=
  match l with
  | [] => None
  | x :: l => match f x with Some y => Some y | None => find_map f l end
  end.

Definition is_some {A} (o : option A) : bool :=
  match o with Some _ => true | None => false end.
Definition is_none {A} (o : option A) : bool := negb (is_some o).
Definition unwrap_or {A} (o : option A) (d : A) : A := default d o.
Definition option_filter {A} (p : A -> bool) (o : option A) : option A :=
  match o with Some x => if p x then Some x else None | None => None end.
Definition opt_or_else {A} (o p : option A) : option A :=
  match o with Some x => Some x | None => p end.

Lemma iter_any_true {A} (f : A -> bool) l :
  iter_any f l = true <-> exists x, x ∈ l /\ f x = true.
Proof.
  unfold iter_any. rewrite existsb_exists. by setoid_rewrite list_elem_of_In.
Qed.
Lemma iter_any_false {A} (f : A -> bool) l :
  iter_any f l = false <-> forall x, x ∈ l -> f x = false.
Proof.
  split.
  - intros H x Hx. destruct (f x) eqn:E; [|done].
    assert (iter_any f l = true) by (apply iter_any_true; eauto). congruence.
  - intros H. destruct (iter_any f l) eqn:E; [|done].
    apply iter_any_true in E as (x & Hx & Hf). rewrite H in Hf; done.
Qed.

Lemma find_map_Some {A B} (f : A -> option B) l y :
  find_map f l = Some y -> exists x, x ∈ l /\ f x = Some y.
Proof.
  induction l as [|a l IH]; simpl; [done|]. destruct (f a) eqn:E.
  - intros [= ->]. exists a. split; [left|done].
  - intros H. destruct (IH H) as (x & ? & ?). exists x. split; [by right|done].
Qed.
Lemma find_map_None {A B} (f : A -> option B) l :
  find_map f l = None <-> forall x, x ∈ l -> f x = None.
Proof.
  induction l as [|a l IH]; simpl.
  - split; [intros _ x Hx; by apply elem_of_nil in Hx|done].
  - destruct (f a) eqn:E; split; try done.
    + intros H. rewrite H in E; [done|left].
    + intros H x [->|Hx]%elem_of_cons; [done|]. by apply IH.
    + intros H. apply IH. intros x Hx. apply H. by right.
Qed.

(** ** Automation *)
(** Destruct the scrutinee of some [match]/[if] in the goal (or a
    hypothesis), remembering the equation. *)
Ltac case_goal :=
  match goal with
  | |- context [match ?x with _ => _ end] => destruct x eqn:?
  end.
Ltac case_in H :=
  match type of H with
  | context [match ?x with _ => _ end] => destruct x eqn:?
  end.

Lemma is_some_true {A} (o : option A) : is_some o = true <-> exists x, o = Some x.
Proof. destruct o; simpl; naive_solver. Qed.
Lemma is_some_false {A} (o : option A) : is_some o = false <-> o = None.
Proof. destruct o; simpl; naive_solver. Qed.

Create HintDb famp discriminated.
