(* ===== verification/Json.v ===== *)
(** * JSON values

    The fragment of [serde_json::Value] the bus uses, and the interface of the
    third-party JSON code it relies on: RFC 8785 canonicalization
    ([serde_jcs] behind [famp_canonical::canonicalize]), the JSON printer and
    parsers, the wording of errors and UUID text.  The broker's theorems are
    proved against [WireLib]; where they need a property of that code it is a
    named field of [WireLaws]. *)

From stdpp Require Import gmap strings list fin_maps sorting.
From S2P Require Import Prelude.

(** [serde_json::Number] is a [u64], a negative [i64] or a finite [f64]
    (kept as its bit pattern: nothing here computes with floats). *)
Inductive Number := PosInt (n : N) | NegInt (z : Z) | Float (bits : N).

(** [serde_json::Value].  [serde_json] is built without [preserve_order], so an
    object is a [BTreeMap<String, Value>]: an association list in ascending
    key order. *)
Inductive Value :=
| VNull
| VBool (b : bool)
| VNumber (n : Number)
| VString (s : string)
| VArray (l : list Value)
| VObject (m : list (string * Value)).

Fixpoint obj_get {A} (k : string) (m : list (string * A)) : option A :=
  match m with
  | [] => None
  | (k', v) :: m => if String.eqb k k' then Some v else obj_get k m
  end.

(** [Value::get(key)], [Value::as_str], [Value::as_object]. *)
Definition get (v : Value) (k : string) : option Value :=
  match v with VObject m => obj_get k m | _ => None end.
Definition as_str (v : Value) : option string :=
  match v with VString s => Some s | _ => None end.
Definition as_object (v : Value) : option (list (string * Value)) :=
  match v with VObject m => Some m | _ => None end.

Definition get_str (v : Value) (k : string) : option string :=
  get v k ≫= as_str.

(** [Map::insert] into a [BTreeMap] object. *)
Fixpoint obj_insert {A} (k : string) (v : A) (m : list (string * A)) : list (string * A) :=
  match m with
  | [] => [(k, v)]
  | (k', v') :: m' =>
      match String.compare k k' with
      | Lt => (k, v) :: m
      | Eq => (k, v) :: m'
      | Gt => (k', v') :: obj_insert k v m'
      end
  end.

(** Build an object from fields in any order. *)
Definition json_obj (fields : list (string * Value)) : Value :=
  VObject (foldr (fun f m => obj_insert f.1 f.2 m) [] fields).

(** ** Well-formed values: every object's keys strictly ascend *)
Fixpoint keys_ascend {A} (m : list (string * A)) : bool :=
  match m with
  | (k, _) :: ((k', _) :: _) as t =>
      (match String.compare k k' with Lt => true | _ => false end) && keys_ascend t
  | _ => true
  end.

(** Numbers whose RFC 8785 text reads back as the same [Number]: the
    integers of magnitude at most [2^53]. *)
Definition number_safe (n : Number) : bool :=
  match n with PosInt n => (n <=? 9007199254740992)%N | _ => false end.

(** The numbers [serde_json] can hold: a [u64], a negative [i64], a finite
    [f64] (exponent not all ones). *)
Definition number_ok (n : Number) : bool :=
  match n with
  | PosInt n => (n <=? u64_max)%N
  | NegInt z => ((-9223372036854775808 <=? z) && (z <? 0))%Z
  | Float bits => (bits <=? u64_max)%N && negb ((bits / 2 ^ 52) mod 2 ^ 11 =? 2047)%N
  end.

(** Well-formed, with numbers of one kind and nested at most [d] deep. *)
Fixpoint wf_at (num : Number -> bool) (d : N) (v : Value) : bool :=
  match v with
  | VNull | VBool _ | VString _ => true
  | VNumber n => num n
  | VArray l => (0 <? d)%N && forallb (wf_at num (N.pred d)) l
  | VObject m => (0 <? d)%N && (keys_ascend m && forallb (fun kv => wf_at num (N.pred d) kv.2) m)
  end.

(** [serde_json]'s readers refuse a text nested 128 deep or more. *)
Definition JSON_DEPTH_LIMIT : N := 127.
(** What canonical JSON carries faithfully, and what an envelope is taken to be:
    a few levels less, so that its record, its frame and its listing can still
    be read. *)
Definition json_wf (v : Value) : bool := wf_at number_safe JSON_DEPTH_LIMIT v.
Definition ENVELOPE_DEPTH : N := 120.
Definition value_wf (v : Value) : bool := wf_at number_safe ENVELOPE_DEPTH v.
(** Every value a JSON text can hold. *)
Definition doc_wf (v : Value) : bool := wf_at number_ok JSON_DEPTH_LIMIT v.

(** ** Induction over nested values *)
Section value_ind.
Variable P : Value -> Prop.
Hypothesis Hnull : P VNull.
Hypothesis Hbool : forall b, P (VBool b).
Hypothesis Hnum : forall n, P (VNumber n).
Hypothesis Hstr : forall s, P (VString s).
Hypothesis Harr : forall l, Forall P l -> P (VArray l).
Hypothesis Hobj : forall m, Forall (fun kv => P kv.2) m -> P (VObject m).

Fixpoint value_ind_nested (v : Value) : P v :=
  match v with
  | VNull => Hnull
  | VBool b => Hbool b
  | VNumber n => Hnum n
  | VString s => Hstr s
  | VArray l =>
      Harr l ((fix go (l : list Value) : Forall P l :=
        match l with
        | [] => List.Forall_nil _
        | x :: t => List.Forall_cons _ x t (value_ind_nested x) (go t)
        end) l)
  | VObject m =>
      Hobj m ((fix go (m : list (string * Value)) : Forall (fun kv => P kv.2) m :=
        match m with
        | [] => List.Forall_nil _
        | kv :: t => List.Forall_cons _ kv t (value_ind_nested kv.2) (go t)
        end) m)
  end.
End value_ind.

Lemma wf_at_mono (num num' : Number -> bool) d d' v :
  (forall n, num n = true -> num' n = true) -> (d <= d')%N ->
  wf_at num d v = true -> wf_at num' d' v = true.
Proof.
  intros Hn. revert d d'.
  induction v as [|b|n|s|l IH|m IH] using value_ind_nested; intros d d' Hd; cbn [wf_at];
    try done; auto.
  - rewrite !andb_true_iff, !N.ltb_lt, !forallb_forall. intros [H0 H]. split; [lia|]. intros x Hx.
    rewrite List.Forall_forall in IH. apply (IH x Hx (N.pred d)); [lia|by apply H].
  - rewrite !andb_true_iff, !N.ltb_lt, !forallb_forall. intros (H0 & Hk & H). split_and!; [lia|done|]. intros x Hx.
    rewrite List.Forall_forall in IH. apply (IH x Hx (N.pred d)); [lia|by apply H].
Qed.

Lemma wf_at_weaken num d d' v : (d <= d')%N -> wf_at num d v = true -> wf_at num d' v = true.
Proof. intros Hd. by apply wf_at_mono. Qed.

Lemma number_safe_ok n : number_safe n = true -> number_ok n = true.
Proof. destruct n; simpl; try done. rewrite !N.leb_le. unfold u64_max. lia. Qed.
Lemma json_wf_doc v : json_wf v = true -> doc_wf v = true.
Proof. apply wf_at_mono; [apply number_safe_ok|done]. Qed.
Lemma value_wf_json v : value_wf v = true -> json_wf v = true.
Proof. by apply wf_at_weaken. Qed.

(** ** UUIDs: 128-bit values *)
Abbreviation Uuid := N (only parsing).
Definition uuid_nil : N := 0%N.

(** ** Errors of derived deserializers

    What [serde]'s generated code can object to; its wording is [serde_text]. *)
Inductive SerdeError :=
| UnknownField (field : string) | MissingField_ (field : string)
| UnknownVariant (variant : string)
| InvalidType | InvalidValue | InvalidLength
| Custom (msg : string).

(** ** The third-party JSON interface *)
Class WireLib := {
  (** [famp_canonical::canonicalize] = [serde_jcs::to_vec]; an error is its
      [Display] text. *)
  canonicalize : Value -> result bytes string;
  (** [famp_canonical::from_slice_strict]: strict parse, duplicate keys rejected. *)
  from_slice_strict : bytes -> result Value string;
  (** [serde_json::from_slice]. *)
  from_slice : bytes -> result Value string;
  (** [serde_json::to_vec]; an error is its [Display] text. *)
  to_vec : Value -> result bytes string;
  (** [Display] of a deserialization error, of an [f64] (its bits) and of a
      rejected UUID's error; [Debug] of a string. *)
  serde_text : SerdeError -> string;
  f64_text : N -> string;
  uuid_error : string -> string;
  str_debug : string -> string;
  (** [uuid::Uuid::parse_str], its [Deserialize] and its hyphenated
      [Display]/[Serialize] text. *)
  uuid_parse_str : string -> option N;
  uuid_of_value : Value -> option N;
  uuid_to_string : N -> string
}.

(** What the code relies on: a value within the limits of [json_wf] has a
    canonical text, that text parses back to the value under both parsers and
    contains no raw newline (RFC 8785 emits no whitespace and escapes control
    characters), no JSON text is empty, printing without canonicalizing also
    parses back, what the strict parser accepts the plain one reads alike (its
    second pass), what the plain one reads is a value a text can hold, and a
    printed UUID has 36 characters and parses back. *)
Class WireLaws `{WL : WireLib} : Prop := {
  canonicalize_total v : json_wf v = true -> exists b, canonicalize v = Ok b;
  canonicalize_parse v b :
    json_wf v = true -> canonicalize v = Ok b -> from_slice b = Ok v;
  canonicalize_parse_strict v b :
    json_wf v = true -> canonicalize v = Ok b -> from_slice_strict b = Ok v;
  canonicalize_nonempty v b : canonicalize v = Ok b -> b <> [];
  canonicalize_no_newline v b :
    json_wf v = true -> canonicalize v = Ok b -> NEWLINE ∉ b;
  to_vec_total v : json_wf v = true -> exists b, to_vec v = Ok b;
  to_vec_parse_strict v b :
    json_wf v = true -> to_vec v = Ok b -> from_slice_strict b = Ok v;
  from_slice_wf b v : from_slice b = Ok v -> doc_wf v = true;
  from_slice_of_strict b v : from_slice_strict b = Ok v -> from_slice b = Ok v;
  uuid_text_length u : (u < 2 ^ 128)%N -> String.length (uuid_to_string u) = 36%nat;
  uuid_roundtrip u : (u < 2 ^ 128)%N -> uuid_parse_str (uuid_to_string u) = Some u;
  uuid_value_roundtrip u :
    (u < 2 ^ 128)%N -> uuid_of_value (VString (uuid_to_string u)) = Some u;
  uuid_value_bound v u : uuid_of_value v = Some u -> (u < 2 ^ 128)%N
}.
