(* ===== verification/Proto.v ===== *)
(** * Bus protocol data

    [crates/famp-bus/src/{error,origin,mailbox,proto}.rs]: the message, reply
    and error types of the broker's wire protocol, the provenance stamp, and
    the two anchored patterns the protocol checks strings against. *)

From Stdlib Require Import Ascii.
From stdpp Require Import gmap strings list fin_maps sorting.
From S2P Require Import Prelude Json.

(** ** Errors: [error.rs] *)
Inductive BusErrorKind :=
| NotRegistered
| NameTaken
| ChannelNameInvalid
| NotJoined
| EnvelopeInvalid
| EnvelopeTooLarge
| TaskNotFound
| BrokerProtoMismatch
| BrokerUnreachable
| Internal.

Definition BusErrorKind_ALL : list BusErrorKind :=
  [NotRegistered; NameTaken; ChannelNameInvalid; NotJoined; EnvelopeInvalid;
   EnvelopeTooLarge; TaskNotFound; BrokerProtoMismatch; BrokerUnreachable; Internal].

(** ** Provenance: [origin.rs] *)
Inductive Origin := Local | Gateway | Unknown.
#[export] Instance origin_eq_dec : EqDecision Origin.
Proof. solve_decision. Defined.
#[export] Instance busErrorKind_eq_dec : EqDecision BusErrorKind.
Proof. solve_decision. Defined.

Definition origin_eqb (a b : Origin) : bool := bool_decide (a = b).

(** [impl Default for Origin]: absence resolves to untrusted. *)
Definition Origin_default : Origin := Unknown.

Record StampedEnvelope := mkStamped { st_origin : Origin; st_envelope : Value }.

(** ** Mailbox names: [mailbox.rs] *)
Inductive MailboxName := MbAgent (name : string) | MbChannel (name : string).
#[export] Instance mailboxName_eq_dec : EqDecision MailboxName.
Proof. solve_decision. Defined.
#[export] Instance mailboxName_countable : Countable MailboxName.
Proof.
  refine (inj_countable'
    (fun m => match m with MbAgent n => inl n | MbChannel n => inr n end)
    (fun s => match s with inl n => MbAgent n | inr n => MbChannel n end) _).
  by intros [].
Defined.

(** [impl Display for MailboxName]: the bare name for both kinds. *)
Definition MailboxName_display (m : MailboxName) : string :=
  match m with MbAgent n | MbChannel n => n end.

(** ** Protocol types: [proto.rs] *)
Definition BUS_PROTO_VERSION : N := 3%N.

(** [ClientId(u64)]. *)
Abbreviation ClientId := N (only parsing).

Inductive AwaitFilter := FilterAny | FilterTask (task : N).
#[export] Instance awaitFilter_eq_dec : EqDecision AwaitFilter.
Proof. solve_decision. Defined.

Inductive Target := TgtAgent (name : string) | TgtChannel (name : string).

Inductive InspectKind :=
| InspectBroker
| InspectIdentities
| InspectTasks (id : option N) (full : bool)
| InspectMessages (to : option string) (tail : option N)
| InspectWaiters.

Inductive BusMessage :=
| Hello (bus_proto : N) (client : string) (bind_as : option string)
| Register (name : string) (pid : N) (cwd : option string) (listen : bool)
    (origin : option Origin)
| Send (to : Target) (envelope : Value)
| Inbox (since : option N) (include_terminal : option bool)
| Await (timeout_ms : N) (task : option N)
| Join (channel : string) (role : option string)
| Leave (channel : string)
| Sessions
| Whoami
| Inspect (kind : InspectKind)
| SetListen (listen : bool)
| SetWakeAddr (wake_addr : option string).

Record Delivered := mkDelivered {
  dv_to : Target; dv_ok : bool; dv_woken : bool; dv_wake_addr : option string }.
Record SessionRow := mkSessionRow {
  sr_name : string; sr_pid : N; sr_joined : list string }.
Record MemberInfo := mkMemberInfo { mi_name : string; mi_role : option string }.

Inductive BusReply :=
| HelloOk (bus_proto : N)
| HelloErr (kind : BusErrorKind) (message : string)
| RegisterOk (active : string) (drained : list StampedEnvelope) (peers : list string)
| SendOk (task_id : N) (delivered : list Delivered)
| InboxOk (envelopes : list StampedEnvelope) (next_offset : N)
| AwaitOk (envelopes : list StampedEnvelope) (mailbox : MailboxName) (next_offset : N)
| AwaitTimeout
| JoinOk (channel : string) (members : list MemberInfo) (drained : list StampedEnvelope)
| LeaveOk (channel : string)
| SessionsOk (rows : list SessionRow)
| WhoamiOk (active : option string) (joined : list string)
| InspectOk (payload : Value)
| SetListenOk (listen_mode : bool)
| SetWakeAddrOk (wake_addr : option string)
| ReplyErr (kind : BusErrorKind) (message : string).

(** [BusReply::variant_name]: the name, never the payload. *)
Definition variant_name (r : BusReply) : string :=
  match r with
  | HelloOk _ => "HelloOk" | HelloErr _ _ => "HelloErr"
  | RegisterOk _ _ _ => "RegisterOk" | SendOk _ _ => "SendOk"
  | InboxOk _ _ => "InboxOk" | AwaitOk _ _ _ => "AwaitOk"
  | AwaitTimeout => "AwaitTimeout" | JoinOk _ _ _ => "JoinOk"
  | LeaveOk _ => "LeaveOk" | SessionsOk _ => "SessionsOk"
  | WhoamiOk _ _ => "WhoamiOk" | InspectOk _ => "InspectOk"
  | SetListenOk _ => "SetListenOk" | SetWakeAddrOk _ => "SetWakeAddrOk"
  | ReplyErr _ _ => "Err"
  end.

(** ** The anchored patterns *)
Definition ascii_between (lo hi c : Ascii.ascii) : bool :=
  ((Ascii.N_of_ascii lo <=? Ascii.N_of_ascii c) &&
   (Ascii.N_of_ascii c <=? Ascii.N_of_ascii hi))%N.
Definition is_digit (c : Ascii.ascii) : bool := ascii_between "0"%char "9"%char c.
Definition is_lower (c : Ascii.ascii) : bool := ascii_between "a"%char "z"%char c.

Fixpoint string_forall (p : Ascii.ascii -> bool) (s : string) : bool :=
  match s with
  | EmptyString => true
  | String c s => p c && string_forall p s
  end.

(** [str::strip_prefix]. *)
Fixpoint strip_prefix (pre s : string) : option string :=
  match pre, s with
  | EmptyString, _ => Some s
  | String c pre, String d s => if Ascii.eqb c d then strip_prefix pre s else None
  | String _ _, EmptyString => None
  end.

(** [CHANNEL_RE]: [^#[a-z0-9][a-z0-9_-]{0,31}$]. *)
Definition channel_char (c : Ascii.ascii) : bool :=
  is_lower c || is_digit c || Ascii.eqb c "_"%char || Ascii.eqb c "-"%char.
Definition channel_re_is_match (s : string) : bool :=
  match s with
  | String h (String c rest) =>
      Ascii.eqb h "#"%char && (is_lower c || is_digit c) &&
      string_forall channel_char rest && (String.length rest <=? 31)%nat
  | _ => false
  end.

(** Leading digits of [s] (at most all of it) and what follows them. *)
Fixpoint span_digits (s : string) : nat * string :=
  match s with
  | String c s' =>
      if is_digit c then let (n, r) := span_digits s' in (S n, r) else (0, s)
  | EmptyString => (0, s)
  end.

(** [WAKE_ADDR_RE]: [^uds:/tmp/cc-socks/[0-9]{1,10}\.sock$].  The digits are
    followed by a dot, so the only possible match takes all of them. *)
Definition wake_addr_valid (candidate : string) : bool :=
  match strip_prefix "uds:/tmp/cc-socks/" candidate with
  | None => false
  | Some rest =>
      let (n, tail) := span_digits rest in
      (1 <=? n)%nat && (n <=? 10)%nat && String.eqb tail ".sock"
  end.
