(* ===== verification/WireInstance.v ===== *)
(** * A concrete instance of the JSON interface

    A self-delimiting binary text for JSON values that satisfies every law of
    [WireLaws], so that the theorems stated against the interface can be
    applied to concrete runs.  It is not RFC 8785: it only shows that the
    interface is inhabited. *)

From Stdlib Require Import Strings.Byte Ascii.
From stdpp Require Import gmap strings list fin_maps sorting countable pretty.
From S2P Require Import Prelude Json.

Abbreviation tree := (gen_tree (string + (N + Z))).

Fixpoint value_to_tree (v : Value) : tree :=
  match v with
  | VNull => GenNode 0 []
  | VBool true => GenNode 1 []
  | VBool false => GenNode 2 []
  | VNumber (PosInt n) => GenNode 3 [GenLeaf (inr (inl n))]
  | VNumber (NegInt z) => GenNode 4 [GenLeaf (inr (inr z))]
  | VNumber (Float b) => GenNode 5 [GenLeaf (inr (inl b))]
  | VString s => GenNode 6 [GenLeaf (inl s)]
  | VArray l => GenNode 7 (map value_to_tree l)
  | VObject m =>
      GenNode 8 (map (fun '(k, v) => GenNode 9 [GenLeaf (inl k); value_to_tree v]) m)
  end.

Fixpoint tree_to_value (t : tree) : Value :=
  match t with
  | GenNode 1 _ => VBool true
  | GenNode 2 _ => VBool false
  | GenNode 3 [GenLeaf (inr (inl n))] => VNumber (PosInt n)
  | GenNode 4 [GenLeaf (inr (inr z))] => VNumber (NegInt z)
  | GenNode 5 [GenLeaf (inr (inl b))] => VNumber (Float b)
  | GenNode 6 [GenLeaf (inl s)] => VString s
  | GenNode 7 l => VArray (map tree_to_value l)
  | GenNode 8 l =>
      VObject (map (fun c => match c with
                             | GenNode 9 [GenLeaf (inl k); v] => (k, tree_to_value v)
                             | _ => (EmptyString, VNull)
                             end) l)
  | _ => VNull
  end.

Lemma tree_value_roundtrip v : tree_to_value (value_to_tree v) = v.
Proof.
  induction v as [|b|n|s|l IH|m IH] using value_ind_nested; simpl.
  - done.
  - by destruct b.
  - by destruct n.
  - done.
  - f_equal. induction IH as [|x l Hx _ IHl]; simpl; [done|]. by rewrite Hx, IHl.
  - f_equal. induction IH as [|[k x] m Hx _ IHm]; simpl in *; [done|]. by rewrite Hx, IHm.
Qed.

(** [Value: PartialEq]. *)
#[export] Instance value_eq_dec : EqDecision Value.
Proof.
  intros x y. destruct (decide (value_to_tree x = value_to_tree y)) as [H|H].
  - left. by rewrite <- (tree_value_roundtrip x), H, tree_value_roundtrip.
  - right. by intros ->.
Defined.

Fixpoint pos_bits (p : positive) : bytes :=
  match p with
  | xH => []
  | xO p => x00 :: pos_bits p
  | xI p => x01 :: pos_bits p
  end.
Fixpoint bits_pos (b : bytes) : option positive :=
  match b with
  | [] => Some xH
  | x00 :: b => xO <$> bits_pos b
  | x01 :: b => xI <$> bits_pos b
  | _ => None
  end.
Lemma bits_pos_bits p : bits_pos (pos_bits p) = Some p.
Proof. induction p as [p IH|p IH|]; simpl; [by rewrite IH|by rewrite IH|done]. Qed.
Lemma pos_bits_no_newline p : NEWLINE ∉ pos_bits p.
Proof.
  induction p as [p IH|p IH|]; simpl; [|..|by intros ?%elem_of_nil];
    intros [?|?]%elem_of_cons; done.
Qed.

Definition toy_print (v : Value) : bytes := x02 :: pos_bits (encode (value_to_tree v)).
Definition toy_tree (b : bytes) : option Value :=
  match b with x02 :: b => tree_to_value <$> (bits_pos b ≫= decode) | _ => None end.
Definition toy_parse (b : bytes) : result Value string :=
  match toy_tree b with
  | Some v => if doc_wf v then Ok v else Err "recursion limit exceeded"
  | None => Err "syntax"
  end.
Lemma toy_tree_print v : toy_tree (toy_print v) = Some v.
Proof. unfold toy_tree, toy_print. rewrite bits_pos_bits. simpl. rewrite decode_encode. simpl. by rewrite tree_value_roundtrip. Qed.
Lemma toy_parse_print v : doc_wf v = true -> toy_parse (toy_print v) = Ok v.
Proof.
  intros Hv. unfold toy_parse. by rewrite toy_tree_print, Hv.
Qed.
Lemma toy_parse_wf b v : toy_parse b = Ok v -> doc_wf v = true.
Proof.
  unfold toy_parse. intros H. repeat case_match; simplify_eq; done.
Qed.

(** UUIDs in hyphenated lower-case hexadecimal; the reader skips hyphens. *)
Definition hex_digit (n : N) : ascii := ascii_of_N (if (n <? 10)%N then n + 48 else n + 87)%N.
Definition hex_value (c : ascii) : option N :=
  let n := N_of_ascii c in
  if ((48 <=? n) && (n <=? 57))%N then Some (n - 48)%N
  else if ((97 <=? n) && (n <=? 102))%N then Some (n - 87)%N else None.
Fixpoint hex_text (k : nat) (u : N) (tail : string) : string :=
  match k with
  | O => tail
  | S k => hex_text k (u / 16)%N (String (hex_digit (u mod 16)) tail)
  end.
Fixpoint hex_read (acc : N) (s : string) : option N :=
  match s with
  | EmptyString => Some acc
  | String c s =>
      if Ascii.eqb c "-" then hex_read acc s
      else d ← hex_value c; hex_read (16 * acc + d)%N s
  end.
Fixpoint hyphenate (i : nat) (s : string) : string :=
  match s with
  | EmptyString => EmptyString
  | String c s =>
      let rest := String c (hyphenate (S i) s) in
      if existsb (Nat.eqb i) [8; 12; 16; 20]%nat then String "-" rest else rest
  end.
Definition toy_uuid_to_string (u : N) : string := hyphenate 0 (hex_text 32 u EmptyString).
Definition toy_uuid_parse (s : string) : option N :=
  if (String.length s =? 36)%nat then
    match hex_read 0 s with Some u => if (u <? 2 ^ 128)%N then Some u else None | None => None end
  else None.

Lemma hex_value_digit n : (n < 16)%N -> hex_value (hex_digit n) = Some n /\ hex_digit n <> "-"%char.
Proof.
  intros H. assert (n ∈ [0;1;2;3;4;5;6;7;8;9;10;11;12;13;14;15]%N) as Hin.
  { rewrite !elem_of_cons. lia. }
  repeat (apply elem_of_cons in Hin as [->|Hin]; [split; [reflexivity|discriminate]|]).
  by apply elem_of_nil in Hin.
Qed.
Lemma hex_read_hyphenate s : forall i acc, hex_read acc (hyphenate i s) = hex_read acc s.
Proof.
  induction s as [|c s IH]; intros i acc; [done|].
  cbn [hyphenate]. destruct (existsb _ _); cbn [hex_read].
  - change (Ascii.eqb "-" "-") with true. cbn. destruct (Ascii.eqb c "-"); [apply IH|].
    destruct (hex_value c); simpl; [apply IH|done].
  - destruct (Ascii.eqb c "-"); [apply IH|]. destruct (hex_value c); simpl; [apply IH|done].
Qed.
Lemma hex_read_text k : forall u acc tail,
  (u < 16 ^ N.of_nat k)%N ->
  hex_read acc (hex_text k u tail) = hex_read (acc * 16 ^ N.of_nat k + u)%N tail.
Proof.
  induction k as [|k IH]; intros u acc tail Hu.
  - cbn. f_equal. change (16 ^ N.of_nat 0)%N with 1%N in *. lia.
  - cbn [hex_text]. rewrite Nnat.Nat2N.inj_succ, N.pow_succ_r' in *.
    rewrite IH by (apply N.Div0.div_lt_upper_bound; lia).
    destruct (hex_value_digit (u mod 16)) as [Hv Hd]; [apply N.mod_lt; lia|].
    cbn [hex_read]. rewrite (proj2 (Ascii.eqb_neq _ _) Hd), Hv. cbn. f_equal.
    pose proof (N.div_mod u 16). lia.
Qed.
Lemma toy_uuid_length u : String.length (toy_uuid_to_string u) = 36%nat.
Proof.
  unfold toy_uuid_to_string. cbn [hex_text]. reflexivity.
Qed.
Lemma toy_uuid_roundtrip u : (u < 2 ^ 128)%N -> toy_uuid_parse (toy_uuid_to_string u) = Some u.
Proof.
  intros Hu. unfold toy_uuid_parse. rewrite toy_uuid_length. simpl (36 =? 36)%nat. cbv iota.
  unfold toy_uuid_to_string. rewrite hex_read_hyphenate, hex_read_text by exact Hu.
  rewrite N.mul_0_l, N.add_0_l. cbn [hex_read]. by rewrite (proj2 (N.ltb_lt _ _) Hu).
Qed.
Lemma toy_uuid_bound s u : toy_uuid_parse s = Some u -> (u < 2 ^ 128)%N.
Proof.
  unfold toy_uuid_parse. destruct (_ =? 36)%nat; [|done]. destruct (hex_read 0 s) as [n|]; [|done].
  destruct (N.ltb_spec n (2 ^ 128)); [|done]. by intros [= <-].
Qed.

#[export] Instance toy_wire : WireLib := {|
  canonicalize v := Ok (toy_print v);
  from_slice_strict := toy_parse;
  from_slice := toy_parse;
  to_vec v := Ok (toy_print v);
  serde_text e := match e with UnknownField f => f | MissingField_ f => f | Custom m => m | _ => "invalid" end;
  f64_text := pretty;
  uuid_error s := "invalid uuid";
  str_debug s := s;
  uuid_parse_str := toy_uuid_parse;
  uuid_of_value v := as_str v ≫= toy_uuid_parse;
  uuid_to_string := toy_uuid_to_string
|}.

#[export] Instance toy_wire_laws : WireLaws.
Proof.
  split; simpl.
  - eauto.
  - intros v b Hv [= <-]. by apply toy_parse_print, json_wf_doc.
  - intros v b Hv [= <-]. by apply toy_parse_print, json_wf_doc.
  - by intros v b [= <-].
  - intros v b _ [= <-]. intros [?|?]%elem_of_cons; [done|]. by eapply pos_bits_no_newline.
  - eauto.
  - intros v b Hv [= <-]. by apply toy_parse_print, json_wf_doc.
  - exact toy_parse_wf.
  - by intros b v.
  - intros u _. exact (toy_uuid_length u).
  - exact toy_uuid_roundtrip.
  - exact toy_uuid_roundtrip.
  - intros v u. destruct (as_str v); [apply toy_uuid_bound|done].
Qed.
