(* ===== verification/Crypto.v ===== *)
(** * Signatures and keys

    [crates/famp-crypto/src/{prefix,keys,sign,verify,hash}.rs].  Ed25519
    ([ed25519-dalek]), SHA-256 ([sha2]) and base64url ([base64]) are
    third-party code: operations of [CryptoLib], with the documented behaviour
    some theorems rely on in [CryptoLaws].  What the crate itself adds, the
    domain-separation prefix in front of RFC 8785 text and the ingress checks
    on keys and signatures, is defined here. *)

From Stdlib Require Import Strings.Byte Ascii.
From stdpp Require Import gmap strings list.
From S2P Require Import Prelude Json WireInstance.

Class CryptoLib := {
  (** [SigningKey::verifying_key] on seed bytes. *)
  ed_public : bytes -> bytes;
  (** [VerifyingKey::from_bytes] succeeds; [VerifyingKey::is_weak]. *)
  ed_decodes : bytes -> bool;
  ed_is_weak : bytes -> bool;
  (** [SigningKey::sign] and [VerifyingKey::verify_strict]. *)
  ed_sign : bytes -> bytes -> bytes;
  ed_verify_strict : bytes -> bytes -> bytes -> bool;
  sha256_digest : bytes -> bytes;
  (** [URL_SAFE_NO_PAD.encode] and [.decode]. *)
  b64url_encode : bytes -> string;
  b64url_decode : string -> option bytes
}.

(** Ed25519 is correct on honest signatures, keys and signatures have their
    lengths, base64url is strict and stays within its alphabet. *)
Definition b64url_char (c : ascii) : bool :=
  let n := N_of_ascii c in
  (((65 <=? n) && (n <=? 90)) || ((97 <=? n) && (n <=? 122)) ||
   ((48 <=? n) && (n <=? 57)) || (n =? 45) || (n =? 95))%N.

Class CryptoLaws `{CL : CryptoLib} : Prop := {
  ed_sign_length sk m : length (ed_sign sk m) = 64%nat;
  ed_public_length sk : length (ed_public sk) = 32%nat;
  sha256_length b : length (sha256_digest b) = 32%nat;
  ed_sign_verifies sk m : ed_verify_strict (ed_public sk) m (ed_sign sk m) = true;
  b64url_roundtrip b : b64url_decode (b64url_encode b) = Some b;
  b64url_strict s b : b64url_decode s = Some b -> b64url_encode b = s;
  b64url_nonempty b : b <> [] -> b64url_encode b <> EmptyString;
  b64url_alphabet b c :
    In c (String.list_ascii_of_string (b64url_encode b)) -> b64url_char c = true
}.

(** ** Keys and signatures *)
Record FampSigningKey := mkSigningKey { sk_seed : bytes }.
(** Built only by [TrustedVerifyingKey::from_bytes] and [from_b64url]. *)
Record TrustedVerifyingKey := mkVerifyingKey { as_bytes : bytes }.
Record FampSignature := mkSignature { sig_bytes : bytes }.

#[export] Instance vk_eq_dec : EqDecision TrustedVerifyingKey.
Proof. solve_decision. Defined.

Inductive CryptoError :=
| InvalidKeyEncoding | InvalidSignatureEncoding | WeakKey
| Canonicalization (e : string) | VerificationFailed.

(** [b"FAMP-sig-v1\0"]. *)
Definition DOMAIN_PREFIX : bytes :=
  [x46; x41; x4d; x50; x2d; x73; x69; x67; x2d; x76; x31; x00].

Section crypto.
Context `{CL : CryptoLib} `{WL : WireLib}.

Definition verifying_key (sk : FampSigningKey) : TrustedVerifyingKey :=
  mkVerifyingKey (ed_public (sk_seed sk)).

Definition vk_from_bytes (b : bytes) : result TrustedVerifyingKey CryptoError :=
  if negb (ed_decodes b) then Err InvalidKeyEncoding
  else if ed_is_weak b then Err WeakKey
  else Ok (mkVerifyingKey b).

Definition vk_from_b64url (input : string) : result TrustedVerifyingKey CryptoError :=
  letsome v := b64url_decode input orelse Err InvalidKeyEncoding in
  if (length v =? 32)%nat then vk_from_bytes v else Err InvalidKeyEncoding.

Definition vk_to_b64url (k : TrustedVerifyingKey) : string := b64url_encode (as_bytes k).

(** First 16 characters of the base64url digest of the key. *)
Definition key_id (k : TrustedVerifyingKey) : string :=
  String.substring 0 16 (b64url_encode (sha256_digest (as_bytes k))).

Definition sig_from_b64url (input : string) : result FampSignature CryptoError :=
  letsome v := b64url_decode input orelse Err InvalidSignatureEncoding in
  if (length v =? 64)%nat then Ok (mkSignature v) else Err InvalidSignatureEncoding.

Definition sig_to_b64url (s : FampSignature) : string := b64url_encode (sig_bytes s).

(** ** Signing and verifying *)
Definition sign_canonical_bytes (sk : FampSigningKey) (canonical : bytes) : FampSignature :=
  mkSignature (ed_sign (sk_seed sk) (DOMAIN_PREFIX ++ canonical)).

Definition sign_value (sk : FampSigningKey) (v : Value) : result FampSignature CryptoError :=
  trying canonical := canonicalize v catch e => Err (Canonicalization e) in
  Ok (sign_canonical_bytes sk canonical).

Definition verify_canonical_bytes (k : TrustedVerifyingKey) (canonical : bytes)
    (s : FampSignature) : result unit CryptoError :=
  if ed_verify_strict (as_bytes k) (DOMAIN_PREFIX ++ canonical) (sig_bytes s)
  then Ok tt else Err VerificationFailed.

Definition verify_value (k : TrustedVerifyingKey) (v : Value) (s : FampSignature) :
    result unit CryptoError :=
  trying canonical := canonicalize v catch e => Err (Canonicalization e) in
  verify_canonical_bytes k canonical s.

(** ** What a signature says *)

(** The key vouched for exactly this value: Ed25519 accepts the signature over
    the domain prefix followed by the value's canonical text. *)
Definition vouches (k : TrustedVerifyingKey) (v : Value) (s : FampSignature) : Prop :=
  exists canonical, canonicalize v = Ok canonical /\
    ed_verify_strict (as_bytes k) (DOMAIN_PREFIX ++ canonical) (sig_bytes s) = true.

Lemma verify_value_vouches k v s : is_ok (verify_value k v s) = true <-> vouches k v s.
Proof.
  unfold verify_value, verify_canonical_bytes, vouches.
  destruct (canonicalize v) as [c|e]; [|naive_solver].
  destruct (ed_verify_strict _ _ _) eqn:E; naive_solver.
Qed.

(** Two values with the same signed text are the same value. *)
Lemma signed_text_injective `{!WireLaws} v v' c c' :
  json_wf v = true -> json_wf v' = true ->
  canonicalize v = Ok c -> canonicalize v' = Ok c' ->
  DOMAIN_PREFIX ++ c = DOMAIN_PREFIX ++ c' -> v = v'.
Proof.
  intros Hv Hv' Hc Hc' Heq. apply (inj (DOMAIN_PREFIX ++.)) in Heq as ->.
  pose proof (canonicalize_parse v c' Hv Hc) as E. rewrite (canonicalize_parse v' c' Hv' Hc') in E.
  by injection E.
Qed.

Lemma sign_verify `{!CryptoLaws} sk v s :
  sign_value sk v = Ok s -> verify_value (verifying_key sk) v s = Ok tt.
Proof.
  unfold sign_value, verify_value, verify_canonical_bytes.
  destruct (canonicalize v) as [c|e]; intros [= <-]. simpl. by rewrite ed_sign_verifies.
Qed.

Lemma sig_b64url_roundtrip `{!CryptoLaws} sk c :
  sig_from_b64url (sig_to_b64url (sign_canonical_bytes sk c)) = Ok (sign_canonical_bytes sk c).
Proof.
  unfold sig_from_b64url, sig_to_b64url. rewrite b64url_roundtrip. simpl.
  by rewrite ed_sign_length.
Qed.

Lemma sign_value_b64url `{!CryptoLaws} sk v s :
  sign_value sk v = Ok s -> sig_from_b64url (sig_to_b64url s) = Ok s.
Proof.
  unfold sign_value. destruct (canonicalize v); [|done]. intros [= <-]. apply sig_b64url_roundtrip.
Qed.

Lemma vk_b64url_roundtrip `{!CryptoLaws} k :
  length (as_bytes k) = 32%nat -> vk_from_bytes (as_bytes k) = Ok k ->
  vk_from_b64url (vk_to_b64url k) = Ok k.
Proof.
  intros Hl Hk. unfold vk_from_b64url, vk_to_b64url. rewrite b64url_roundtrip, Hl. done.
Qed.
End crypto.

(** ** A concrete instance

    Deterministic and insecure; it only shows that the laws can hold. *)
Definition toy_char (p q r : bool) : ascii :=
  match p, q, r with
  | true, true, true => "h" | true, true, false => "g"
  | true, false, true => "f" | true, false, false => "e"
  | false, true, true => "d" | false, true, false => "c"
  | false, false, true => "b" | false, false, false => "a"
  end%char.
Definition toy_bits (c : ascii) : option (bool * bool * bool) :=
  match c with
  | "h" => Some (true, true, true) | "g" => Some (true, true, false)
  | "f" => Some (true, false, true) | "e" => Some (true, false, false)
  | "d" => Some (false, true, true) | "c" => Some (false, true, false)
  | "b" => Some (false, false, true) | "a" => Some (false, false, false)
  | _ => None
  end%char.

Fixpoint toy_b64_encode (b : bytes) : string :=
  match b with
  | [] => EmptyString
  | x :: b =>
      let '(a0, (a1, (a2, (a3, (a4, (a5, (a6, a7))))))) := Byte.to_bits x in
      String (toy_char a0 a1 a2) (String (toy_char a3 a4 a5)
        (String (toy_char a6 a7 false) (toy_b64_encode b)))
  end.

Fixpoint toy_b64_read (s : string) : option bytes :=
  match s with
  | EmptyString => Some []
  | String c (String d (String e s)) =>
      match toy_bits c, toy_bits d, toy_bits e, toy_b64_read s with
      | Some (a0, a1, a2), Some (a3, a4, a5), Some (a6, a7, _), Some b =>
          Some (Byte.of_bits (a0, (a1, (a2, (a3, (a4, (a5, (a6, a7))))))) :: b)
      | _, _, _, _ => None
      end
  | _ => None
  end.

Definition toy_b64_decode (s : string) : option bytes :=
  option_filter (fun b => String.eqb (toy_b64_encode b) s) (toy_b64_read s).

Lemma toy_b64_roundtrip b : toy_b64_decode (toy_b64_encode b) = Some b.
Proof.
  assert (toy_b64_read (toy_b64_encode b) = Some b) as H.
  { induction b as [|x b IH]; [done|]. destruct x; simpl; rewrite IH; reflexivity. }
  unfold toy_b64_decode. rewrite H. simpl. by rewrite String.eqb_refl.
Qed.

Lemma toy_b64_strict s b : toy_b64_decode s = Some b -> toy_b64_encode b = s.
Proof.
  unfold toy_b64_decode, option_filter. repeat case_match; try done. intros [= <-].
  by apply String.eqb_eq.
Qed.

Lemma toy_b64_alphabet b c :
  In c (String.list_ascii_of_string (toy_b64_encode b)) -> b64url_char c = true.
Proof.
  induction b as [|x b IH]; [done|].
  destruct x; simpl; intros [<-|[<-|[<-|H]]]; try reflexivity; by apply IH.
Qed.

(** Keys are their own public halves, a signature is the first 64 bytes of a
    keyed pairing of the message, a digest is the text itself. *)
Definition toy_pad (n : nat) (b : bytes) : bytes := take n (b ++ replicate n x00).
Lemma toy_pad_length n b : length (toy_pad n b) = n.
Proof. unfold toy_pad. rewrite length_take, length_app, length_replicate. lia. Qed.

Definition toy_sign (pk m : bytes) : bytes := toy_pad 64 (toy_pad 32 pk ++ m).

#[export] Instance toy_crypto : CryptoLib := {|
  ed_public := toy_pad 32;
  ed_decodes b := (length b =? 32)%nat;
  ed_is_weak b := forallb (fun x => bool_decide (x = x00)) b;
  ed_sign sk := toy_sign (toy_pad 32 sk);
  ed_verify_strict pk m s := bool_decide (s = toy_sign pk m);
  sha256_digest := toy_pad 32;
  b64url_encode := toy_b64_encode;
  b64url_decode := toy_b64_decode
|}.

#[export] Instance toy_crypto_laws : CryptoLaws.
Proof.
  split; simpl.
  - intros sk m. apply toy_pad_length.
  - intros sk. apply toy_pad_length.
  - intros b. apply toy_pad_length.
  - intros sk m. by apply bool_decide_eq_true.
  - apply toy_b64_roundtrip.
  - apply toy_b64_strict.
  - intros [|x b] Hb; [done|]. by destruct x.
  - apply toy_b64_alphabet.
Qed.
