(* ===== verification/Principal.v ===== *)
(** * Identities: principals and instances

    [crates/famp-core/src/identity.rs]: the two parsers, their validators and
    printers. *)

From Stdlib Require Import Ascii.
From stdpp Require Import base strings list.
From S2P Require Import Prelude Json Proto.

Record Principal := mkPrincipal { pr_authority : string; pr_name : string }.
Record Instance_ := mkInstance {
  in_authority : string; in_name : string; in_instance_id : string }.

Inductive ParsePrincipalError :=
| PMissingScheme | PUnexpectedInstanceTail | PInvalidAuthority (why : string)
| PInvalidName (why : string) | PMissingNameSeparator.

Inductive ParseInstanceError :=
| IMissingScheme | IMissingInstanceTail | IInvalidAuthority (why : string)
| IInvalidName (why : string) | IInvalidInstanceId (why : string) | IMissingNameSeparator.

Definition ParsePrincipalError_display (e : ParsePrincipalError) : string :=
  match e with
  | PMissingScheme => "principal must start with 'agent:'"
  | PUnexpectedInstanceTail => "principal must not carry an instance tail '#...'"
  | PInvalidAuthority why => "authority is empty or malformed: " +:+ why
  | PInvalidName why => "name is empty or malformed: " +:+ why
  | PMissingNameSeparator => "missing '/' between authority and name"
  end.

(** ** Strings as bytes *)

(** [str::contains(char)]. *)
Definition contains (c : ascii) (s : string) : bool :=
  negb (string_forall (fun d => negb (Ascii.eqb d c)) s).

(** [find(c)] with the slices on either side of the hit. *)
Fixpoint split_at_char (c : ascii) (s : string) : option (string * string) :=
  match s with
  | EmptyString => None
  | String d r =>
      if Ascii.eqb d c then Some (EmptyString, r)
      else '(a, b) ← split_at_char c r; Some (String d a, b)
  end.

(** [str::split(c)]: never empty. *)
Fixpoint split_char (c : ascii) (s : string) : list string :=
  match s with
  | EmptyString => [EmptyString]
  | String d r =>
      if Ascii.eqb d c then EmptyString :: split_char c r
      else match split_char c r with
           | l :: ls => String d l :: ls
           | [] => [String d EmptyString]
           end
  end.

Definition is_ascii (s : string) : bool := string_forall (fun c => (N_of_ascii c <? 128)%N) s.
Definition is_upper (c : ascii) : bool := ascii_between "A"%char "Z"%char c.
Definition is_alphanumeric (c : ascii) : bool := is_digit c || is_lower c || is_upper c.

Fixpoint last_char (s : string) : option ascii :=
  match s with
  | EmptyString => None
  | String c EmptyString => Some c
  | String _ s => last_char s
  end.
Definition first_char (s : string) : option ascii :=
  match s with EmptyString => None | String c _ => Some c end.

(** ** Validators *)
Definition DASH : ascii := "-"%char.

(** The body of the loop over labels; [Err] is its early return. *)
Definition validate_label (label : string) : result unit string :=
  if String.eqb label EmptyString then Err "empty label"
  else if bool_decide (first_char label = Some DASH) || bool_decide (last_char label = Some DASH)
  then Err "label must not start or end with '-'"
  else if negb (string_forall (fun b => is_alphanumeric b || Ascii.eqb b DASH) label)
  then Err "label contains invalid character"
  else Ok tt.

Fixpoint validate_labels (labels : list string) : result unit string :=
  match labels with
  | [] => Ok tt
  | l :: ls => trying _ := validate_label l catch e => Err e in validate_labels ls
  end.

Definition validate_authority (s : string) : result unit string :=
  if String.eqb s EmptyString then Err "empty authority"
  else if (253 <? String.length s)%nat then Err "authority exceeds 253 bytes"
  else if negb (is_ascii s) then Err "authority must be ASCII"
  else
    trying _ := validate_labels (split_char "."%char s) catch e => Err e in
    if (length (split_char "."%char s) =? 0)%nat
    then Err "authority requires at least one label" else Ok tt.

Definition name_char (b : ascii) : bool :=
  is_alphanumeric b || Ascii.eqb b "."%char || Ascii.eqb b "_"%char || Ascii.eqb b DASH.

Definition validate_name_or_instance_id (s : string) : result unit string :=
  if String.eqb s EmptyString then Err "empty"
  else if (64 <? String.length s)%nat then Err "length exceeds 64 bytes"
  else if negb (is_ascii s) then Err "must be ASCII"
  else if negb (string_forall name_char s) then Err "contains invalid character"
  else Ok tt.

(** ** Parsers and printers *)
Definition Principal_from_str (s : string) : result Principal ParsePrincipalError :=
  letsome rest := strip_prefix "agent:" s orelse Err PMissingScheme in
  if contains "#"%char rest then Err PUnexpectedInstanceTail else
  letsome (authority, nm) := split_at_char "/"%char rest orelse Err PMissingNameSeparator in
  trying _ := validate_authority authority catch e => Err (PInvalidAuthority e) in
  trying _ := validate_name_or_instance_id nm catch e => Err (PInvalidName e) in
  Ok (mkPrincipal authority nm).

Definition Instance_from_str (s : string) : result Instance_ ParseInstanceError :=
  letsome rest := strip_prefix "agent:" s orelse Err IMissingScheme in
  letsome (authority, tail) := split_at_char "/"%char rest orelse Err IMissingNameSeparator in
  letsome (nm, instance_id) := split_at_char "#"%char tail orelse Err IMissingInstanceTail in
  if contains "#"%char instance_id then Err (IInvalidInstanceId "multiple '#' separators") else
  trying _ := validate_authority authority catch e => Err (IInvalidAuthority e) in
  trying _ := validate_name_or_instance_id nm catch e => Err (IInvalidName e) in
  trying _ := validate_name_or_instance_id instance_id catch e => Err (IInvalidInstanceId e) in
  Ok (mkInstance authority nm instance_id).

Definition Principal_display (p : Principal) : string :=
  "agent:" +:+ pr_authority p +:+ "/" +:+ pr_name p.
Definition Instance_display (i : Instance_) : string :=
  "agent:" +:+ in_authority i +:+ "/" +:+ in_name i +:+ "#" +:+ in_instance_id i.

(** What the parsers accept. *)
Definition principal_ok (p : Principal) : Prop :=
  validate_authority (pr_authority p) = Ok tt /\
  validate_name_or_instance_id (pr_name p) = Ok tt.
Definition instance_ok (i : Instance_) : Prop :=
  validate_authority (in_authority i) = Ok tt /\
  validate_name_or_instance_id (in_name i) = Ok tt /\
  validate_name_or_instance_id (in_instance_id i) = Ok tt.

(** ** Lemmas on strings *)
Lemma string_forall_app p a b :
  string_forall p (a +:+ b) = string_forall p a && string_forall p b.
Proof. induction a as [|c a IH]; simpl; [done|]. by rewrite IH, andb_assoc. Qed.

Lemma string_forall_impl p q s :
  (forall c, p c = true -> q c = true) -> string_forall p s = true -> string_forall q s = true.
Proof.
  intros H. induction s as [|c s IH]; simpl; [done|]. rewrite !andb_true_iff. naive_solver.
Qed.

Lemma strip_prefix_app pre s : strip_prefix pre (pre +:+ s) = Some s.
Proof. induction pre as [|c pre IH]; simpl; [done|]. by rewrite Ascii.eqb_refl. Qed.

Lemma strip_prefix_Some pre s r : strip_prefix pre s = Some r -> s = pre +:+ r.
Proof.
  revert s. induction pre as [|c pre IH]; intros s; simpl; [by intros [= ->]|].
  destruct s as [|d s]; [done|]. destruct (Ascii.eqb_spec c d) as [->|]; [|done].
  by intros ->%IH.
Qed.

Lemma contains_false c s :
  contains c s = false <-> string_forall (fun d => negb (Ascii.eqb d c)) s = true.
Proof. unfold contains. by rewrite negb_false_iff. Qed.

Lemma contains_app c a b : contains c (a +:+ b) = contains c a || contains c b.
Proof. unfold contains. by rewrite string_forall_app, negb_andb. Qed.

Lemma split_at_char_app c a b :
  contains c a = false -> split_at_char c (a +:+ String c b) = Some (a, b).
Proof.
  rewrite contains_false. induction a as [|d a IH]; simpl.
  - by rewrite Ascii.eqb_refl.
  - intros [Hd Ha]%andb_true_iff. apply negb_true_iff in Hd. by rewrite Hd, IH.
Qed.

Lemma split_at_char_Some c s a b :
  split_at_char c s = Some (a, b) -> s = a +:+ String c b /\ contains c a = false.
Proof.
  revert a b. induction s as [|d s IH]; intros a b; simpl; [done|].
  destruct (Ascii.eqb_spec d c) as [->|Hne]; [by intros [= <- <-]|].
  destruct (split_at_char c s) as [[a' b']|]; [|done]. simpl. intros [= <- <-].
  destruct (IH a' b' eq_refl) as [-> Hc]. split; [done|].
  unfold contains in *. simpl. by rewrite (proj2 (Ascii.eqb_neq d c) Hne).
Qed.

(** What survives validation contains no separator. *)
Lemma is_alphanumeric_not b c :
  is_alphanumeric b = true ->
  (c = "/"%char \/ c = "#"%char \/ c = "."%char) -> Ascii.eqb b c = false.
Proof.
  intros Hb Hc. apply Ascii.eqb_neq. intros ->. destruct Hc as [->|[->| ->]]; discriminate Hb.
Qed.

Lemma name_char_not b c :
  name_char b = true -> (c = "/"%char \/ c = "#"%char) -> Ascii.eqb b c = false.
Proof.
  intros Hb Hc. apply Ascii.eqb_neq. intros ->. destruct Hc as [->| ->]; discriminate Hb.
Qed.

Lemma valid_name_no c s :
  validate_name_or_instance_id s = Ok tt -> (c = "/"%char \/ c = "#"%char) ->
  contains c s = false.
Proof.
  unfold validate_name_or_instance_id. intros Hv Hc. repeat case_match; try done.
  apply contains_false. apply negb_false_iff in H2.
  eapply string_forall_impl; [|done]. intros b Hb. by rewrite (name_char_not b c Hb Hc).
Qed.

Lemma valid_labels_no c ls :
  (c = "/"%char \/ c = "#"%char) -> validate_labels ls = Ok tt ->
  Forall (fun l => contains c l = false) ls.
Proof.
  intros Hc. induction ls as [|l ls IH]; simpl; [constructor|].
  destruct (validate_label l) as [[]|] eqn:El; [|done]. intros Hv. constructor; [|auto].
  unfold validate_label in El. repeat case_match; try done. apply contains_false.
  apply negb_false_iff in H1. eapply string_forall_impl; [|done].
  intros b [Hb|Hb%Ascii.eqb_eq]%orb_true_iff.
  - by rewrite is_alphanumeric_not by naive_solver.
  - subst b. by destruct Hc as [->| ->].
Qed.

Lemma split_char_no c d s :
  c <> d -> Forall (fun l => contains c l = false) (split_char d s) -> contains c s = false.
Proof.
  intros Hne. induction s as [|x s IH]; simpl; [done|].
  destruct (Ascii.eqb_spec x d) as [->|Hx].
  - intros [_ Hs]%Forall_cons. unfold contains in *. simpl.
    rewrite (proj2 (Ascii.eqb_neq d c)) by done. by apply IH.
  - destruct (split_char d s) as [|l ls] eqn:Es.
    + intros [Hl _]%Forall_cons. destruct s as [|y s]; [done|]. exfalso. simpl in Es.
      repeat case_match; discriminate Es.
    + intros [Hl Hls]%Forall_cons. unfold contains in Hl. simpl in Hl.
      apply negb_false_iff, andb_true_iff in Hl as [Hx' Hl].
      unfold contains. simpl. rewrite Hx'. simpl. apply IH. constructor; [|done].
      by apply contains_false.
Qed.

Lemma valid_authority_no c s :
  validate_authority s = Ok tt -> (c = "/"%char \/ c = "#"%char) -> contains c s = false.
Proof.
  unfold validate_authority. intros Hv Hc. repeat case_match; try done.
  apply (split_char_no c "."%char); [by destruct Hc as [->| ->]|].
  match goal with H : validate_labels _ = Ok ?u |- _ => destruct u; by apply valid_labels_no end.
Qed.

Lemma Principal_from_str_sound s p :
  Principal_from_str s = Ok p -> s = Principal_display p /\ principal_ok p.
Proof.
  unfold Principal_from_str, principal_ok, Principal_display.
  destruct (strip_prefix "agent:" s) as [rest|] eqn:Ep; [|done].
  apply strip_prefix_Some in Ep as ->. destruct (contains _ rest); [done|].
  destruct (split_at_char _ rest) as [[a n]|] eqn:Es; [|done].
  apply split_at_char_Some in Es as [-> _].
  destruct (validate_authority a) as [[]|] eqn:Ea; [|done].
  destruct (validate_name_or_instance_id n) as [[]|] eqn:En; [|done]. by intros [= <-].
Qed.

Lemma Principal_from_str_display p :
  principal_ok p -> Principal_from_str (Principal_display p) = Ok p.
Proof.
  unfold Principal_from_str, principal_ok, Principal_display.
  destruct p as [a n]. cbn [pr_authority pr_name]. intros (Ha & Hn).
  rewrite (strip_prefix_app "agent:"), !contains_app.
  rewrite (valid_authority_no _ a), (valid_name_no _ n) by auto.
  change (contains "#"%char "/") with false. cbn [orb].
  change ("/" +:+ n) with (String "/" n).
  rewrite split_at_char_app by (apply valid_authority_no; auto). by rewrite Ha, Hn.
Qed.

Lemma Principal_display_inj p q :
  principal_ok p -> principal_ok q -> Principal_display p = Principal_display q -> p = q.
Proof.
  intros Hp Hq H. apply Principal_from_str_display in Hp, Hq. rewrite H, Hq in Hp. by injection Hp.
Qed.

(** Parsing and printing principals are inverse, byte for byte: a string
    parses to a principal exactly when it is that principal's printed form and
    both components are valid; nothing is normalised and no two strings name the
    same principal. *)
Theorem principal_parse_print s p :
  Principal_from_str s = Ok p <-> s = Principal_display p /\ principal_ok p.
Proof.
  split; [apply Principal_from_str_sound|]. intros [-> Hp]. by apply Principal_from_str_display.
Qed.

(** The same for instances, and the two grammars are disjoint: no string is
    both a principal and an instance. *)
Theorem instance_parse_print s i :
  (Instance_from_str s = Ok i <-> s = Instance_display i /\ instance_ok i) /\
  (Instance_from_str s = Ok i -> is_ok (Principal_from_str s) = false).
Proof.
  assert (Hiff : Instance_from_str s = Ok i <-> s = Instance_display i /\ instance_ok i).
  { unfold Instance_from_str, instance_ok, Instance_display. split.
    - destruct (strip_prefix "agent:" s) as [rest|] eqn:Ep; [|done].
      apply strip_prefix_Some in Ep as ->.
      destruct (split_at_char _ rest) as [[a t]|] eqn:Es; [|done].
      apply split_at_char_Some in Es as [-> _].
      destruct (split_at_char "#"%char t) as [[n x]|] eqn:Et; [|done].
      apply split_at_char_Some in Et as [-> _]. destruct (contains _ x); [done|].
      destruct (validate_authority a) as [[]|] eqn:Ea; [|done].
      destruct (validate_name_or_instance_id n) as [[]|] eqn:En; [|done].
      destruct (validate_name_or_instance_id x) as [[]|] eqn:Ex; [|done]. by intros [= <-].
    - destruct i as [a n x]. cbn [in_authority in_name in_instance_id].
      intros (-> & Ha & Hn & Hx).
      rewrite (strip_prefix_app "agent:").
      change ("/" +:+ n +:+ "#" +:+ x) with (String "/" (n +:+ String "#" x)).
      rewrite split_at_char_app by (apply valid_authority_no; auto).
      rewrite split_at_char_app by (apply valid_name_no; auto).
      rewrite (valid_name_no _ x) by auto. by rewrite Ha, Hn, Hx. }
  split; [done|]. intros [-> _]%Hiff. unfold Principal_from_str, Instance_display.
  rewrite (strip_prefix_app "agent:"), !contains_app.
  assert (contains "#"%char "#" = true) as -> by done. by rewrite !orb_true_r.
Qed.

Lemma instance_parse_print_witness :
  Instance_from_str "agent:example.com/alice#dev-1" = Ok (mkInstance "example.com" "alice" "dev-1") /\
  is_ok (Principal_from_str "agent:example.com/alice#dev-1") = false.
Proof.
  split; [reflexivity|].
  apply (instance_parse_print _ (mkInstance "example.com" "alice" "dev-1")). reflexivity.
Qed.
