(* ===== verification/Fsm.v ===== *)
(** * The task state machine

    [crates/famp-fsm/src/{state,input,error,engine}.rs] with
    [MessageClass] and [TerminalStatus] of [crates/famp-core]. *)

From stdpp Require Import base strings list decidable.
From S2P Require Import Prelude.

Inductive MessageClass := Request | Commit | Deliver | Ack | Control | AuditLog.
Inductive TerminalStatus := TsCompleted | TsFailed | TsCancelled.
Inductive TaskState := Requested | Committed | Completed | Failed | Cancelled.

#[export] Instance taskState_eq_dec : EqDecision TaskState.
Proof. solve_decision. Defined.

(** [impl Display for MessageClass], also its serde name. *)
Definition MessageClass_display (c : MessageClass) : string :=
  match c with
  | Request => "request" | Commit => "commit" | Deliver => "deliver"
  | Ack => "ack" | Control => "control" | AuditLog => "audit_log"
  end.

Record TaskTransitionInput := mkInput {
  ti_class : MessageClass;
  ti_terminal_status : option TerminalStatus
}.

Inductive TaskFsmError :=
| IllegalTransition (from : TaskState) (class : MessageClass)
    (terminal_status : option TerminalStatus).

Record TaskFsm := mkFsm { fsm_state : TaskState }.

Definition TaskFsm_new : TaskFsm := mkFsm Requested.
Definition TaskFsm_resume (state : TaskState) : TaskFsm := mkFsm state.

(** [TaskFsm::step]: the machine after the call, and its return value. *)
Definition fsm_step (self : TaskFsm) (input : TaskTransitionInput)
  : TaskFsm * result TaskState TaskFsmError :=
  let next :=
    match fsm_state self, ti_class input, ti_terminal_status input with
    | Requested, Commit, None => Ok Committed
    | Committed, Deliver, Some TsCompleted => Ok Completed
    | Committed, Deliver, Some TsFailed => Ok Failed
    | Requested, Control, None | Committed, Control, None => Ok Cancelled
    | _, _, _ =>
        Err (IllegalTransition (fsm_state self) (ti_class input) (ti_terminal_status input))
    end in
  match next with
  | Ok next => (mkFsm next, Ok next)
  | Err e => (self, Err e)
  end.

(** A conversation: every input in turn, and the state each accepted one
    reached. *)
Fixpoint fsm_run (self : TaskFsm) (inputs : list TaskTransitionInput)
  : TaskFsm * list TaskState :=
  match inputs with
  | [] => (self, [])
  | i :: rest =>
      let '(self, r) := fsm_step self i in
      let '(self, accepted) := fsm_run self rest in
      (self, match r with Ok st => st :: accepted | Err _ => accepted end)
  end.

(** ** The lifecycle as the README draws it *)
Inductive lifecycle : TaskState -> TaskTransitionInput -> TaskState -> Prop :=
| lc_commit : lifecycle Requested (mkInput Commit None) Committed
| lc_complete : lifecycle Committed (mkInput Deliver (Some TsCompleted)) Completed
| lc_fail : lifecycle Committed (mkInput Deliver (Some TsFailed)) Failed
| lc_cancel st : st = Requested \/ st = Committed ->
    lifecycle st (mkInput Control None) Cancelled.

Definition terminal (st : TaskState) : bool :=
  match st with Completed | Failed | Cancelled => true | _ => false end.

Lemma fsm_step_cases self input :
  (exists st, lifecycle (fsm_state self) input st /\ fsm_step self input = (mkFsm st, Ok st)) \/
  ((forall st, ~ lifecycle (fsm_state self) input st) /\
   fsm_step self input = (self, Err (IllegalTransition (fsm_state self) (ti_class input)
     (ti_terminal_status input)))).
Proof.
  destruct self as [st], input as [cl ts].
  destruct st, cl, ts as [[]|]; simpl;
    first [ left; eexists; split; [constructor; auto|reflexivity]
          | right; split; [intros st' H; inversion H; naive_solver|reflexivity] ].
Qed.

Lemma lifecycle_deterministic st i a b : lifecycle st i a -> lifecycle st i b -> a = b.
Proof. intros Ha Hb. inversion Ha; subst; inversion Hb; subst; naive_solver. Qed.

(** The engine is exactly the lifecycle: a step is accepted if and only if
    the published state diagram has that edge, it then moves to the edge's
    target and reports it; otherwise the error names the state and the input and
    the machine has not moved. *)
Theorem fsm_step_is_the_lifecycle self input :
  (forall st, (fsm_step self input).2 = Ok st <-> lifecycle (fsm_state self) input st) /\
  match fsm_step self input with
  | (self', Ok st) => fsm_state self' = st
  | (self', Err e) => self' = self /\
      e = IllegalTransition (fsm_state self) (ti_class input) (ti_terminal_status input)
  end.
Proof.
  destruct (fsm_step_cases self input) as [(st & Hl & ->)|[Hno ->]]; simpl.
  - split; [|done]. intros st'. split; [by intros [= <-]|].
    intros Hl'. f_equal. by eapply lifecycle_deterministic.
  - split; [|done]. intros st. split; [done|]. intros H. by destruct (Hno st).
Qed.

(** Distance to the end of the longest path. *)
Definition steps_left (st : TaskState) : nat :=
  match st with Requested => 2 | Committed => 1 | _ => 0 end.

Lemma lifecycle_decreases st i st' : lifecycle st i st' -> (steps_left st' < steps_left st)%nat.
Proof. destruct 1 as [| | |st [->| ->]]; simpl; lia. Qed.

Lemma lifecycle_from_terminal st i st' : terminal st = true -> ~ lifecycle st i st'.
Proof. intros Ht Hl. destruct Hl as [| | |st [->| ->]]; discriminate Ht. Qed.

(** Walking the lifecycle through the accepted states. *)
Inductive path : TaskState -> list TaskState -> TaskState -> Prop :=
| path_nil st : path st [] st
| path_cons st i st1 l st2 : lifecycle st i st1 -> path st1 l st2 -> path st (st1 :: l) st2.

Lemma fsm_run_path self inputs :
  path (fsm_state self) (fsm_run self inputs).2 (fsm_state (fsm_run self inputs).1).
Proof.
  revert self. induction inputs as [|i inputs IH]; intros self; simpl; [constructor|].
  destruct (fsm_step_cases self i) as [(st & Hl & ->)|[_ ->]].
  - specialize (IH (mkFsm st)). destruct (fsm_run (mkFsm st) inputs) as [self' acc]. simpl in *.
    by econstructor.
  - specialize (IH self). by destruct (fsm_run self inputs).
Qed.

Lemma path_length st l st' : path st l st' -> (length l + steps_left st' <= steps_left st)%nat.
Proof.
  induction 1 as [|st i st1 l st2 Hl _ IH]; simpl; [lia|].
  apply lifecycle_decreases in Hl. lia.
Qed.

Lemma path_from_terminal st l st' : path st l st' -> terminal st = true -> l = [] /\ st' = st.
Proof.
  intros Hp Ht. destruct Hp as [|st i st1 l st2 Hl _]; [done|].
  by apply lifecycle_from_terminal in Hl.
Qed.

(** A task's history is short and final: however many messages arrive, in any
    order, the accepted ones form a path of the lifecycle from the starting
    state, at most two are ever accepted, and once a task is completed, failed
    or cancelled no later message changes it. *)
Theorem fsm_history_is_final self inputs later :
  path (fsm_state self) (fsm_run self inputs).2 (fsm_state (fsm_run self inputs).1) /\
  (length (fsm_run self inputs).2 <= 2)%nat /\
  (terminal (fsm_state (fsm_run self inputs).1) = true ->
   fsm_run (fsm_run self inputs).1 later = ((fsm_run self inputs).1, [])).
Proof.
  pose proof (fsm_run_path self inputs) as Hp. split; [done|]. split.
  - apply path_length in Hp. destruct (fsm_state self); simpl in Hp; lia.
  - intros Ht. set (m := (fsm_run self inputs).1) in *.
    pose proof (path_from_terminal _ _ _ (fsm_run_path m later) Ht) as [Hl Hs].
    destruct (fsm_run m later) as [m' acc]. simpl in *. subst acc. f_equal.
    destruct m', m. simpl in *. congruence.
Qed.

(** Outcomes are earned: a task that ran from Requested to Completed or
    Failed was committed first and then got exactly one terminal delivery; one
    that was cancelled had not been delivered. *)
Theorem fsm_outcomes_are_earned inputs :
  let '(self, accepted) := fsm_run TaskFsm_new inputs in
  match fsm_state self with
  | Requested => accepted = []
  | Committed => accepted = [Committed]
  | Completed => accepted = [Committed; Completed]
  | Failed => accepted = [Committed; Failed]
  | Cancelled => accepted = [Cancelled] \/ accepted = [Committed; Cancelled]
  end.
Proof.
  pose proof (fsm_run_path TaskFsm_new inputs) as Hp.
  destruct (fsm_run TaskFsm_new inputs) as [self acc]. simpl in Hp.
  inversion Hp as [st H1 H2|st i st1 l st2 Hl Hp1 H1 H2]; subst.
  { done. }
  inversion Hl; subst.
  - inversion Hp1 as [|? ? st3 l' ? Hl' Hp2]; subst; [done|].
    assert (Ht : terminal st3 = true) by (inversion Hl'; subst; done).
    apply path_from_terminal in Hp2 as [-> ->]; [|done].
    inversion Hl'; subst; auto.
  - apply path_from_terminal in Hp1 as [-> Hs]; [|done]. rewrite Hs. auto.
Qed.
