(* ===== verification/Core.v ===== *)
(** * Identifiers, authority scopes and error kinds

    [crates/famp-core/src/{ids,scope,artifact,error}.rs]. *)

From Stdlib Require Import Ascii.
From stdpp Require Import base strings list.
From S2P Require Import Prelude Json Proto Principal.

(** ** [define_uuid_newtype!]: [MessageId] and its siblings *)
Abbreviation MessageId := N (only parsing).

Definition MessageId_from_str `{WireLib} (s : string) : option MessageId :=
  if (String.length s =? 36)%nat then uuid_parse_str s else None.

(** ** [AuthorityScope] *)
Inductive AuthorityScope := Advisory | Negotiate | CommitLocal | CommitDelegate | Transfer.
#[export] Instance authorityScope_eq_dec : EqDecision AuthorityScope.
Proof. solve_decision. Defined.

Definition AuthorityScope_ALL : list AuthorityScope :=
  [Advisory; Negotiate; CommitLocal; CommitDelegate; Transfer].

Definition as_wire (a : AuthorityScope) : string :=
  match a with
  | Advisory => "advisory" | Negotiate => "negotiate" | CommitLocal => "commit_local"
  | CommitDelegate => "commit_delegate" | Transfer => "transfer"
  end.

Definition rank (a : AuthorityScope) : N :=
  match a with
  | Advisory => 0 | Negotiate => 1 | CommitLocal => 2 | CommitDelegate => 3 | Transfer => 4
  end%N.

Definition satisfies (self required : AuthorityScope) : bool := (rank required <=? rank self)%N.

Definition AuthorityScope_from_str (s : string) : option AuthorityScope :=
  if String.eqb s "advisory" then Some Advisory
  else if String.eqb s "negotiate" then Some Negotiate
  else if String.eqb s "commit_local" then Some CommitLocal
  else if String.eqb s "commit_delegate" then Some CommitDelegate
  else if String.eqb s "transfer" then Some Transfer
  else None.

(** ** [ArtifactId] *)
Inductive ParseArtifactIdError := MissingPrefix | UnsupportedAlgorithm | InvalidHex.

Definition lower_hex (c : ascii) : bool := is_digit c || ascii_between "a"%char "f"%char c.

Definition ArtifactId_from_str (s : string) : result string ParseArtifactIdError :=
  letsome (algo, hex) := split_at_char ":"%char s orelse Err MissingPrefix in
  if negb (String.eqb algo "sha256") then Err UnsupportedAlgorithm
  else if negb (String.length hex =? 64)%nat then Err InvalidHex
  else if negb (string_forall lower_hex hex) then Err InvalidHex
  else Ok s.

Definition ParseArtifactIdError_display (e : ParseArtifactIdError) : string :=
  match e with
  | MissingPrefix => "missing 'sha256:' prefix"
  | UnsupportedAlgorithm => "unsupported algorithm (only 'sha256' accepted in v0.6)"
  | InvalidHex => "hex payload must be exactly 64 lowercase hex characters"
  end.

(** ** [ProtocolErrorKind] *)
Inductive ProtocolErrorKind :=
| PkMalformed | PkUnsupported | PkUnauthorized | PkStale | PkDuplicate | PkOrphaned
| PkOutOfScope | PkCapacityExceeded | PkPolicyBlocked | PkCommitmentMissing
| PkDelegationForbidden | PkProvenanceIncomplete | PkConflict | PkConditionFailed | PkExpired.

Definition ProtocolErrorKind_display (k : ProtocolErrorKind) : string :=
  match k with
  | PkMalformed => "malformed" | PkUnsupported => "unsupported" | PkUnauthorized => "unauthorized"
  | PkStale => "stale" | PkDuplicate => "duplicate" | PkOrphaned => "orphaned"
  | PkOutOfScope => "out_of_scope" | PkCapacityExceeded => "capacity_exceeded"
  | PkPolicyBlocked => "policy_blocked" | PkCommitmentMissing => "commitment_missing"
  | PkDelegationForbidden => "delegation_forbidden"
  | PkProvenanceIncomplete => "provenance_incomplete" | PkConflict => "conflict"
  | PkConditionFailed => "condition_failed" | PkExpired => "expired"
  end.

Record ProtocolError := mkProtocolError { pe_kind : ProtocolErrorKind; pe_detail : option string }.

(** ** Lemmas *)

(** The scopes form a ladder: [satisfies] is a total order, and printing and
    parsing are inverse. *)
Lemma satisfies_refl a : satisfies a a = true.
Proof. by destruct a. Qed.
Lemma satisfies_trans a b c : satisfies a b = true -> satisfies b c = true -> satisfies a c = true.
Proof. by destruct a, b, c. Qed.
Lemma satisfies_antisym a b : satisfies a b = true -> satisfies b a = true -> a = b.
Proof. by destruct a, b. Qed.
Lemma satisfies_total a b : satisfies a b || satisfies b a = true.
Proof. by destruct a, b. Qed.

Lemma AuthorityScope_roundtrip s a : AuthorityScope_from_str s = Some a <-> s = as_wire a.
Proof.
  split; [|intros ->; by destruct a].
  unfold AuthorityScope_from_str.
  repeat (case_match; [intros [= <-]; by apply String.eqb_eq|]). done.
Qed.

(** An artifact id is exactly the tag followed by 64 lower-case hex digits, and
    is kept verbatim. *)
Lemma ArtifactId_from_str_spec s a :
  ArtifactId_from_str s = Ok a <->
  a = s /\ exists hex, s = "sha256:" +:+ hex /\ String.length hex = 64%nat /\
    string_forall lower_hex hex = true.
Proof.
  unfold ArtifactId_from_str. split.
  - destruct (split_at_char ":" s) as [[algo hex]|] eqn:Hs; [|done].
    destruct (String.eqb_spec algo "sha256") as [->|]; [|done]. simpl negb. cbv iota.
    destruct (Nat.eqb_spec (String.length hex) 64) as [Hl|]; [|done]. simpl negb. cbv iota.
    destruct (string_forall lower_hex hex) eqn:Hh; [|done]. intros [= <-].
    split; [done|]. exists hex. split_and!; [|done..]. by apply split_at_char_Some in Hs as [-> _].
  - intros [-> (hex & -> & Hl & Hh)].
    change (split_at_char ":" ("sha256:" +:+ hex)) with (Some ("sha256", hex)).
    cbv iota beta. by rewrite Hl, Hh.
Qed.
