(* ===== verification/Derive.v ===== *)
(** * Derived deserializers

    What [#[derive(Deserialize)]] generates for the structs and unit enums of the
    workspace, run by [serde_json::from_value]: field scanning in the order the
    object stores its keys, unknown-field rejection, missing fields, null for an
    absent option, and the positional form (a JSON array) every derived struct
    also accepts. *)

From Stdlib Require Import Ascii Sorting.Sorted.
From stdpp Require Import gmap strings list.
From S2P Require Import Prelude Json Proto.

Abbreviation decoder A := (Value -> result A SerdeError).

(** ** Leaves *)
Definition d_string : decoder string :=
  fun v => match v with VString s => Ok s | _ => Err InvalidType end.
Definition d_boolean : decoder bool :=
  fun v => match v with VBool b => Ok b | _ => Err InvalidType end.
Definition d_value : decoder Value := Ok.
Definition d_unsigned (max : N) : decoder N := fun v =>
  match v with
  | VNumber (PosInt n) => if (n <=? max)%N then Ok n else Err InvalidValue
  | VNumber (NegInt _) => Err InvalidValue
  | _ => Err InvalidType
  end.

(** [n as f64] for an unsigned 64-bit [n], as the bits of the double: round to
    nearest, ties to even. *)
Definition f64_of_u64 (n : N) : N :=
  (if n =? 0 then 0 else
   let e := N.log2 n in
   if e <=? 52 then N.shiftl (e + 1022) 52 + N.shiftl n (52 - e)
   else
     let s := e - 52 in
     let q := N.shiftr n s in
     let r := n - N.shiftl q s in
     let half := N.shiftl 1 (s - 1) in
     let up := (half <? r) || (half =? r) && N.odd q in
     N.shiftl (e + 1022) 52 + q + (if up then 1 else 0))%N.
Definition f64_sign : N := N.shiftl 1 63.
Definition f64_of_number (n : Number) : N :=
  match n with
  | PosInt n => f64_of_u64 n
  | NegInt z => (f64_sign + f64_of_u64 (Z.to_N (- z)))%N
  | Float bits => bits
  end.
Definition d_f64 : decoder N :=
  fun v => match v with VNumber n => Ok (f64_of_number n) | _ => Err InvalidType end.

(** ** Containers *)
Definition d_option {A} (d : decoder A) : decoder (option A) := fun v =>
  match v with VNull => Ok None | _ => result_map Some (d v) end.
Fixpoint d_list {A} (d : decoder A) (l : list Value) : result (list A) SerdeError :=
  match l with
  | [] => Ok []
  | v :: l => try x := d v in try xs := d_list d l in Ok (x :: xs)
  end.
Definition d_vec {A} (d : decoder A) : decoder (list A) := fun v =>
  match v with VArray l => d_list d l | _ => Err InvalidType end.
Definition d_btree : decoder (list (string * Value)) := fun v =>
  match v with VObject m => Ok m | _ => Err InvalidType end.

(** A fieldless enum: its name, or the object form with a null payload. *)
Definition d_variant {A} (variants : list (string * A)) (name : string) : result A SerdeError :=
  letsome a := obj_get name variants orelse Err (UnknownVariant name) in Ok a.
Definition d_enum {A} (variants : list (string * A)) : decoder A := fun v =>
  match v with
  | VString s => d_variant variants s
  | VObject [(s, payload)] =>
      try a := d_variant variants s in
      match payload with VNull => Ok a | _ => Err InvalidType end
  | VObject _ => Err InvalidValue
  | _ => Err InvalidType
  end.

(** ** Structs *)
Abbreviation field_specs := (list (string * (Value -> option SerdeError))).

Definition fault {A} (d : decoder A) (v : Value) : option SerdeError :=
  match d v with Ok _ => None | Err e => Some e end.

(** [visit_map]: the first objection in the object's key order. *)
Fixpoint visit_map (specs : field_specs) (m : list (string * Value)) : option SerdeError :=
  match m with
  | [] => None
  | (k, v) :: m =>
      match obj_get k specs with
      | None => Some (UnknownField k)
      | Some check =>
          match check v with Some e => Some e | None => visit_map specs m end
      end
  end.

(** [visit_seq] and the length check after it. *)
Fixpoint visit_seq (specs : field_specs) (l : list Value) : result (list (string * Value)) SerdeError :=
  match specs, l with
  | [], [] => Ok []
  | (k, check) :: specs, v :: l =>
      match check v with
      | Some e => Err e
      | None => try m := visit_seq specs l in Ok ((k, v) :: m)
      end
  | _, _ => Err InvalidLength
  end.

(** The fields of a struct, each of which its own decoder accepts. *)
Definition struct_fields (specs : field_specs) : decoder (list (string * Value)) := fun v =>
  match v with
  | VObject m => match visit_map specs m with Some e => Err e | None => Ok m end
  | VArray l => visit_seq specs l
  | _ => Err InvalidType
  end.

Definition required {A} (d : decoder A) (m : list (string * Value)) (k : string) :
    result A SerdeError :=
  letsome v := obj_get k m orelse Err (MissingField_ k) in d v.
Definition optional {A} (d : decoder A) (m : list (string * Value)) (k : string) :
    result (option A) SerdeError :=
  letsome v := obj_get k m orelse Ok None in d_option d v.

(** ** Serialization: [skip_serializing_if = "Option::is_none"] *)
Definition field_opt {A} (k : string) (f : A -> Value) (o : option A) : list (string * Value) :=
  match o with Some a => [(k, f a)] | None => [] end.

(** ** Lemmas *)
Lemma obj_get_insert {A} k k' (v : A) m :
  obj_get k (obj_insert k' v m) = if String.eqb k k' then Some v else obj_get k m.
Proof.
  induction m as [|[k1 v1] m IH]; simpl; [done|].
  destruct (String.compare k' k1) eqn:Hc; simpl.
  - apply String.compare_eq_iff in Hc as ->. by destruct (String.eqb k k1).
  - by destruct (String.eqb k k').
  - rewrite IH. destruct (String.eqb_spec k k1) as [->|]; [|done].
    destruct (String.eqb_spec k1 k') as [->|]; [|done].
    pose proof (String.compare_antisym k' k') as E. rewrite Hc in E. done.
Qed.

Lemma obj_get_fields {A} k (fs : list (string * A)) :
  obj_get k (foldr (fun f m => obj_insert f.1 f.2 m) [] fs) = obj_get k fs.
Proof.
  induction fs as [|[k' v] fs IH]; [done|]. simpl. rewrite obj_get_insert, IH. done.
Qed.

Lemma obj_get_app {A} k (l l' : list (string * A)) :
  obj_get k (l ++ l') = match obj_get k l with Some v => Some v | None => obj_get k l' end.
Proof. induction l as [|[k' v] l IH]; simpl; [done|]. by destruct (String.eqb k k'). Qed.

Lemma obj_get_field_opt {A} k k' (f : A -> Value) o :
  obj_get k (field_opt k' f o) = if String.eqb k k' then f <$> o else None.
Proof. destruct o; simpl; by destruct (String.eqb k k'). Qed.

Lemma obj_insert_elem {A} k (v : A) m kv :
  kv ∈ obj_insert k v m -> kv = (k, v) \/ kv ∈ m.
Proof.
  induction m as [|[k' v'] m IH]; simpl.
  - intros H%list_elem_of_singleton. by left.
  - destruct (String.compare k k'); rewrite ?elem_of_cons; naive_solver.
Qed.

Lemma obj_fields_elem {A} (fs : list (string * A)) kv :
  kv ∈ foldr (fun f m => obj_insert f.1 f.2 m) [] fs -> kv ∈ fs.
Proof.
  induction fs as [|[k v] fs IH]; [done|]. simpl. intros [->|H]%obj_insert_elem.
  - left.
  - right. by apply IH.
Qed.

(** The scan of an object accepts exactly when every entry is a known field its
    decoder accepts. *)
Lemma visit_map_None specs m :
  visit_map specs m = None <->
  Forall (fun kv => match obj_get kv.1 specs with Some c => c kv.2 = None | None => False end) m.
Proof.
  induction m as [|[k v] m IH]; simpl; [by split; [constructor|]|].
  rewrite Forall_cons, <- IH. simpl. destruct (obj_get k specs) as [c|]; [|naive_solver].
  destruct (c v); naive_solver.
Qed.

Lemma struct_fields_json specs fs :
  Forall (fun kv => match obj_get kv.1 specs with Some c => c kv.2 = None | None => False end) fs ->
  exists m, struct_fields specs (json_obj fs) = Ok m /\ forall k, obj_get k m = obj_get k fs.
Proof.
  intros H. unfold struct_fields, json_obj.
  rewrite (proj2 (visit_map_None specs _)).
  - eexists. split; [done|]. intros k. apply obj_get_fields.
  - rewrite Forall_forall in *. intros kv Hkv. by apply H, obj_fields_elem.
Qed.

Lemma required_ok {A} (d : decoder A) m k v a :
  obj_get k m = Some v -> d v = Ok a -> required d m k = Ok a.
Proof. unfold required. by intros -> ->. Qed.
Lemma optional_ok {A} (d : decoder A) m k (f : A -> Value) o :
  obj_get k m = f <$> o -> (forall a, o = Some a -> d (f a) = Ok a /\ f a <> VNull) ->
  optional d m k = Ok o.
Proof.
  unfold optional. intros -> H. destruct o as [a|]; [|done]. simpl.
  destruct (H a eq_refl) as [Hd Hn]. unfold d_option. destruct (f a); try done; by rewrite Hd.
Qed.

Lemma optional_absent {A} (d : decoder A) m k : obj_get k m = None -> optional d m k = Ok None.
Proof. by unfold optional; intros ->. Qed.

Lemma optional_present {A} (d : decoder A) m k v a :
  obj_get k m = Some v -> d v = Ok a -> v <> VNull -> optional d m k = Ok (Some a).
Proof. unfold optional, d_option. intros -> Hd Hn. destruct v; try done; by rewrite Hd. Qed.

(** ** Objects: keys strictly ascend, and stay so *)
Definition key_lt {A} (p q : string * A) : Prop := String.compare p.1 q.1 = Lt.

Lemma compare_lt_trans a b c :
  String.compare a b = Lt -> String.compare b c = Lt -> String.compare a c = Lt.
Proof.
  intros Hab Hbc. assert (Hle : String.le a c).
  { transitivity b; unfold String.le, String.leb; by rewrite ?Hab, ?Hbc. }
  unfold String.le, String.leb in Hle. destruct (String.compare a c) eqn:Hac; [|done|done].
  apply String.compare_eq_iff in Hac as <-. by rewrite String.compare_antisym, Hab in Hbc.
Qed.

Lemma keys_ascend_sorted {A} (m : list (string * A)) :
  keys_ascend m = true <-> StronglySorted key_lt m.
Proof.
  split.
  - intros H. apply Sorted_StronglySorted.
    { intros [a ?] [b ?] [c ?]. apply compare_lt_trans. }
    induction m as [|[k v] [|[k' v'] m] IH]; [constructor|by repeat constructor|].
    cbn in H. apply andb_true_iff in H as [H1 H2]. constructor; [by apply IH|].
    constructor. unfold key_lt. simpl. by destruct (String.compare k k').
  - induction 1 as [|[k v] m Hm IH Hk]; [done|]. destruct m as [|[k' v'] m]; [done|].
    cbn. apply Forall_inv in Hk. unfold key_lt in Hk. simpl in Hk. rewrite Hk. exact IH.
Qed.

Lemma key_lt_insert {A} (k : string) (v : A) p m :
  key_lt p (k, v) -> Forall (key_lt p) m -> Forall (key_lt p) (obj_insert k v m).
Proof.
  intros Hk H. apply Forall_forall. intros kv [->|Hin]%obj_insert_elem; [done|].
  by eapply Forall_forall in H.
Qed.

Lemma keys_ascend_insert {A} k (v : A) m :
  keys_ascend m = true -> keys_ascend (obj_insert k v m) = true.
Proof.
  rewrite !keys_ascend_sorted. induction 1 as [|[k' v'] m Hm IH Hk]; simpl.
  { repeat constructor. }
  destruct (String.compare k k') eqn:Hc.
  - apply String.compare_eq_iff in Hc as ->. by constructor.
  - constructor; [by constructor|]. constructor; [done|].
    eapply Forall_impl; [exact Hk|]. intros [q w]. unfold key_lt. simpl. intros Hq.
    by eapply compare_lt_trans.
  - constructor; [done|]. apply key_lt_insert; [|done]. unfold key_lt. simpl.
    rewrite String.compare_antisym, Hc. done.
Qed.

Lemma keys_ascend_filter {A} (p : string * A -> bool) m :
  keys_ascend m = true -> keys_ascend (List.filter p m) = true.
Proof.
  rewrite !keys_ascend_sorted. induction 1 as [|kv m Hm IH Hk]; simpl; [constructor|].
  destruct (p kv); [|done]. constructor; [done|]. apply Forall_forall. intros x Hx.
  rewrite Forall_forall in Hk. apply Hk. apply list_elem_of_In, filter_In in Hx as [Hx _].
  by apply list_elem_of_In.
Qed.

Lemma wf_at_object num d m :
  wf_at num d (VObject m) = true <->
  (0 < d)%N /\ keys_ascend m = true /\ Forall (fun kv => wf_at num (N.pred d) kv.2 = true) m.
Proof. cbn [wf_at]. rewrite !andb_true_iff, N.ltb_lt, forallb_forall, List.Forall_forall. done. Qed.

Lemma wf_at_ascend num d m : wf_at num d (VObject m) = true -> keys_ascend m = true.
Proof. by intros (_ & ? & _)%wf_at_object. Qed.

Lemma wf_at_insert num d k v m :
  wf_at num (N.pred d) v = true -> wf_at num d (VObject m) = true ->
  wf_at num d (VObject (obj_insert k v m)) = true.
Proof.
  rewrite !wf_at_object. intros Hv (Hd & Hk & Hm). split_and!; [done|by apply keys_ascend_insert|].
  apply Forall_forall. intros kv [->|Hin]%obj_insert_elem; [done|]. by eapply Forall_forall in Hm.
Qed.

Lemma wf_at_json_obj num d fs :
  (0 < d)%N -> Forall (fun kv => wf_at num (N.pred d) kv.2 = true) fs -> wf_at num d (json_obj fs) = true.
Proof.
  intros Hd. unfold json_obj. induction 1 as [|[k v] fs Hv _ IH]; [|by apply wf_at_insert].
  by apply wf_at_object.
Qed.

Lemma wf_at_filter num d p m :
  wf_at num d (VObject m) = true -> wf_at num d (VObject (List.filter p m)) = true.
Proof.
  rewrite !wf_at_object. intros (Hd & Hk & Hm). split_and!; [done|by apply keys_ascend_filter|].
  apply List.Forall_forall. intros kv [Hin _]%filter_In. by eapply List.Forall_forall in Hm.
Qed.

Lemma obj_get_elem {A} k (m : list (string * A)) v : obj_get k m = Some v -> (k, v) ∈ m.
Proof.
  induction m as [|[k' v'] m IH]; simpl; [done|].
  destruct (String.eqb_spec k k') as [->|]; [intros [= <-]; left|right; by apply IH].
Qed.

Lemma wf_at_get num d k m v :
  wf_at num d (VObject m) = true -> obj_get k m = Some v -> wf_at num (N.pred d) v = true.
Proof.
  rewrite wf_at_object. intros (_ & _ & Hm) Hg%obj_get_elem. by eapply Forall_forall in Hm; [|exact Hg].
Qed.

Lemma compare_lt_irrefl a : String.compare a a <> Lt.
Proof. intros H. pose proof (String.compare_antisym a a) as E. by rewrite H in E. Qed.

Lemma compare_lt_eqb a b : String.compare a b = Lt -> String.eqb a b = false.
Proof. intros H. apply String.eqb_neq. intros ->. by apply compare_lt_irrefl in H. Qed.

Lemma obj_get_above {A} (k : string) (p : string * A) m :
  String.compare k p.1 = Lt -> Forall (key_lt p) m -> obj_get k m = None.
Proof.
  intros Hk H. induction H as [|[q v] m Hq _ IH]; [done|]. simpl.
  assert (String.compare k q = Lt) as Hkq by (by eapply compare_lt_trans).
  by rewrite compare_lt_eqb.
Qed.

Lemma keys_ascend_ext {A} (m m' : list (string * A)) :
  keys_ascend m = true -> keys_ascend m' = true ->
  (forall k, obj_get k m = obj_get k m') -> m = m'.
Proof.
  rewrite !keys_ascend_sorted. intros H. revert m'.
  assert (Hne : forall k (v : A) m k' v' m', String.compare k k' = Lt ->
    Forall (key_lt (k', v')) m' ->
    ~ (forall q, obj_get q ((k, v) :: m) = obj_get q ((k', v') :: m'))).
  { clear. intros k v m k' v' m' Hc Hm' Hext. specialize (Hext k). simpl in Hext.
    rewrite String.eqb_refl in Hext.
    rewrite (compare_lt_eqb k k' Hc), (obj_get_above k (k', v')) in Hext; done. }
  induction H as [|[k v] m Hm IH Hk]; intros m' H'.
  - destruct m' as [|[k' v'] m']; [done|]. intros Hext. specialize (Hext k'). simpl in Hext.
    by rewrite String.eqb_refl in Hext.
  - destruct H' as [|[k' v'] m' Hm' Hk']; intros Hext.
    { specialize (Hext k). simpl in Hext. by rewrite String.eqb_refl in Hext. }
    destruct (String.compare k k') eqn:Hc.
    + apply String.compare_eq_iff in Hc as <-. pose proof (Hext k) as Hv. simpl in Hv.
      rewrite String.eqb_refl in Hv. injection Hv as <-. f_equal. apply IH; [done|].
      intros q. specialize (Hext q). simpl in Hext.
      destruct (String.eqb_spec q k) as [Hq|]; [subst q|exact Hext].
      assert (Hself : forall l : list (string * A), Forall (key_lt (k, v)) l -> obj_get k l = None).
      { clear. induction 1 as [|[q w] l Hq _ IH]; [done|]. simpl.
        by rewrite compare_lt_eqb. }
      by rewrite !Hself.
    + exfalso. by apply (Hne k v m k' v' m').
    + exfalso. apply (Hne k' v' m' k v m); [|done|by intros q; rewrite Hext].
      by rewrite String.compare_antisym, Hc.
Qed.
