(* ===== verification/Body.v ===== *)
(** * Message bodies

    [crates/famp-envelope/src/{error,timestamp,scope,causality}.rs] and
    [src/body/*.rs]: decoding errors, the pieces of the header, and the six body
    schemas with their cross-field checks, as instances of [BodySchema]. *)

From Stdlib Require Import Strings.Byte Ascii.
From stdpp Require Import gmap strings list pretty.
From S2P Require Import Prelude Json Proto WireInstance Crypto Principal Fsm Core Derive.

(** ** Errors: [error.rs] *)
Inductive EnvelopeScope := Standalone | Conversation | Task.
#[export] Instance envelopeScope_eq_dec : EqDecision EnvelopeScope.
Proof. solve_decision. Defined.
#[export] Instance messageClass_eq_dec : EqDecision MessageClass.
Proof. solve_decision. Defined.

Definition EnvelopeScope_display (s : EnvelopeScope) : string :=
  match s with Standalone => "standalone" | Conversation => "conversation" | Task => "task" end.

Inductive EnvelopeDecodeError :=
| MalformedJson (e : string)
| MissingField (field : string)
| UnknownEnvelopeField (field : string)
| UnknownBodyField (class : MessageClass) (field : string)
| UnsupportedVersion (found : string)
| UnknownClass (found : string)
| ClassMismatch (expected got : MessageClass)
| ScopeMismatch (class : MessageClass) (expected got : EnvelopeScope)
| MissingSignature
| UnexpectedSignature
| EnvInvalidSignatureEncoding (e : CryptoError)
| SignatureInvalid
| InvalidControlAction (found : string)
| InterimWithTerminalStatus
| TerminalWithoutStatus
| MissingErrorDetail
| MissingProvenance
| InsufficientBounds (count : nat)
| BodyValidation (msg : string).

Definition EnvelopeDecodeError_display `{WireLib} (e : EnvelopeDecodeError) : string :=
  match e with
  | MalformedJson e => "malformed envelope JSON: " +:+ e
  | MissingField f => "missing required envelope field: " +:+ f
  | UnknownEnvelopeField f => "unknown envelope field: " +:+ f
  | UnknownBodyField c f =>
      "unknown body field at depth: " +:+ MessageClass_display c +:+ "." +:+ f
  | UnsupportedVersion found =>
      "envelope.famp = " +:+ str_debug found +:+ "; expected " +:+ str_debug "0.5.2"
  | UnknownClass found =>
      "envelope.class = " +:+ str_debug found +:+ " not a known message class"
  | ClassMismatch expected got =>
      "envelope.class = " +:+ MessageClass_display got +:+ " does not match expected " +:+
      MessageClass_display expected
  | ScopeMismatch class expected got =>
      "envelope.scope = " +:+ EnvelopeScope_display got +:+ " does not match expected " +:+
      EnvelopeScope_display expected +:+ " for class " +:+ MessageClass_display class
  | MissingSignature => "envelope is unsigned — signature field absent"
  | UnexpectedSignature => "bus envelope MUST NOT carry signature field (BUS-11)"
  | EnvInvalidSignatureEncoding _ => "signature encoding malformed"
  | SignatureInvalid => "signature verification failed (verify_strict)"
  | InvalidControlAction found =>
      "control.action = " +:+ str_debug found +:+ "; v0.7 supports only `cancel`"
  | InterimWithTerminalStatus => "deliver.interim = true but envelope.terminal_status is set"
  | TerminalWithoutStatus => "deliver.interim = false but envelope.terminal_status is absent"
  | MissingErrorDetail => "deliver.error_detail required when terminal_status = failed"
  | MissingProvenance => "deliver.provenance required on terminal delivery"
  | InsufficientBounds count =>
      "bounds requires ≥2 keys from §9.3 set; got " +:+ pretty count
  | BodyValidation msg => "body field validation failed: " +:+ msg
  end.

(** [impl From<EnvelopeDecodeError> for ProtocolError]. *)
Definition protocol_kind (e : EnvelopeDecodeError) : ProtocolErrorKind :=
  match e with
  | MissingSignature | EnvInvalidSignatureEncoding _ | SignatureInvalid => PkUnauthorized
  | UnsupportedVersion _ => PkUnsupported
  | _ => PkMalformed
  end.
Definition to_protocol_error `{WireLib} (e : EnvelopeDecodeError) : ProtocolError :=
  mkProtocolError (protocol_kind e) (Some (EnvelopeDecodeError_display e)).

(** ** Timestamps: [timestamp.rs] *)
Definition byte_at (i : nat) (p : ascii -> bool) (s : string) : bool :=
  match String.get i s with Some c => p c | None => false end.

Definition shallow_validate (v : string) : bool :=
  let len := String.length v in
  if (len <? 20)%nat then false
  else if negb (byte_at 4 (Ascii.eqb "-") v && byte_at 7 (Ascii.eqb "-") v &&
                byte_at 10 (Ascii.eqb "T") v) then false
  else if negb (byte_at 13 (Ascii.eqb ":") v && byte_at 16 (Ascii.eqb ":") v) then false
  else if byte_at (len - 1) (Ascii.eqb "Z") v then true
  else if (len <? 25)%nat then false
  else byte_at (len - 6) (fun c => Ascii.eqb c "+" || Ascii.eqb c "-") v &&
       byte_at (len - 5) is_digit v && byte_at (len - 4) is_digit v &&
       byte_at (len - 3) (Ascii.eqb ":") v &&
       byte_at (len - 2) is_digit v && byte_at (len - 1) is_digit v.

Definition is_canonical_utc_form (v : string) : bool :=
  shallow_validate v && (String.length v =? 20)%nat && byte_at 19 (Ascii.eqb "Z") v.

Abbreviation Timestamp := string (only parsing).
Definition d_timestamp : decoder Timestamp := fun v =>
  try s := d_string v in if shallow_validate s then Ok s else Err InvalidValue.

(** ** Header pieces: [scope.rs], [causality.rs], [version.rs] *)
Definition FAMP_SPEC_VERSION : string := "0.5.2".
Definition SIGNATURE_FIELD : string := "signature".

Inductive Relation := Acknowledges | Requests | Commits | Delivers | Cancels | Audits.
Record Causality := mkCausality { ca_rel : Relation; ca_referenced : N }.

Definition Relation_name (r : Relation) : string :=
  match r with
  | Acknowledges => "acknowledges" | Requests => "requests" | Commits => "commits"
  | Delivers => "delivers" | Cancels => "cancels" | Audits => "audits"
  end.
Definition TerminalStatus_name (t : TerminalStatus) : string :=
  match t with TsCompleted => "completed" | TsFailed => "failed" | TsCancelled => "cancelled" end.

Definition by_name {A} (name : A -> string) (l : list A) : list (string * A) :=
  map (fun a => (name a, a)) l.
Definition d_scope : decoder EnvelopeScope :=
  d_enum (by_name EnvelopeScope_display [Standalone; Conversation; Task]).
Definition d_class : decoder MessageClass :=
  d_enum (by_name MessageClass_display [Request; Commit; Deliver; Ack; Control; AuditLog]).
Definition d_authority : decoder AuthorityScope := d_enum (by_name as_wire AuthorityScope_ALL).
Definition d_relation : decoder Relation :=
  d_enum (by_name Relation_name [Acknowledges; Requests; Commits; Delivers; Cancels; Audits]).
Definition d_terminal_status : decoder TerminalStatus :=
  d_enum (by_name TerminalStatus_name [TsCompleted; TsFailed; TsCancelled]).

Definition d_principal : decoder Principal := fun v =>
  try s := d_string v in
  map_err (fun e => Custom (ParsePrincipalError_display e)) (Principal_from_str s).
Definition v_enum {A} (name : A -> string) (a : A) : Value := VString (name a).
Definition v_num (n : N) : Value := VNumber (PosInt n).
Definition v_principal (p : Principal) : Value := VString (Principal_display p).

Section ids.
Context `{WL : WireLib}.
Definition d_message_id : decoder N := fun v =>
  try s := d_string v in
  letsome u := MessageId_from_str s
    orelse Err (Custom (uuid_error (if (String.length s =? 36)%nat then s else "!"))) in
  Ok u.
Definition v_message_id (u : N) : Value := VString (uuid_to_string u).

Definition causality_specs : field_specs :=
  [("rel", fault d_relation); ("ref", fault d_message_id)].
Definition d_causality : decoder Causality := fun v =>
  try m := struct_fields causality_specs v in
  try rel := required d_relation m "rel" in
  try referenced := required d_message_id m "ref" in
  Ok (mkCausality rel referenced).
Definition v_causality (c : Causality) : Value :=
  json_obj [("rel", v_enum Relation_name (ca_rel c)); ("ref", v_message_id (ca_referenced c))].
End ids.

(** ** Bounds: [body/bounds.rs] *)
Record Budget := mkBudget { bu_amount : string; bu_unit : string }.
Definition budget_specs : field_specs :=
  [("amount", fault d_string); ("unit", fault d_string)].
Definition d_budget : decoder Budget := fun v =>
  try m := struct_fields budget_specs v in
  try amount := required d_string m "amount" in
  try unit_ := required d_string m "unit" in
  Ok (mkBudget amount unit_).
Definition v_budget (b : Budget) : Value :=
  json_obj [("amount", VString (bu_amount b)); ("unit", VString (bu_unit b))].

(** [confidence_floor] is the bits of the double. *)
Record Bounds := mkBounds {
  bo_deadline : option string;
  bo_budget : option Budget;
  bo_hop_limit : option N;
  bo_policy_domain : option string;
  bo_authority_scope : option AuthorityScope;
  bo_max_artifact_size : option N;
  bo_confidence_floor : option N;
  bo_recursion_depth : option N }.

Definition d_u64 : decoder N := d_unsigned u64_max.
Definition d_u8 : decoder N := d_unsigned 255.
Definition bounds_specs : field_specs :=
  [("deadline", fault (d_option d_string)); ("budget", fault (d_option d_budget));
   ("hop_limit", fault (d_option d_u64)); ("policy_domain", fault (d_option d_string));
   ("authority_scope", fault (d_option d_authority));
   ("max_artifact_size", fault (d_option d_u64));
   ("confidence_floor", fault (d_option d_f64)); ("recursion_depth", fault (d_option d_u8))].
Definition d_bounds : decoder Bounds := fun v =>
  try m := struct_fields bounds_specs v in
  try deadline := optional d_string m "deadline" in
  try budget := optional d_budget m "budget" in
  try hop_limit := optional d_u64 m "hop_limit" in
  try policy_domain := optional d_string m "policy_domain" in
  try authority_scope := optional d_authority m "authority_scope" in
  try max_artifact_size := optional d_u64 m "max_artifact_size" in
  try confidence_floor := optional d_f64 m "confidence_floor" in
  try recursion_depth := optional d_u8 m "recursion_depth" in
  Ok (mkBounds deadline budget hop_limit policy_domain authority_scope max_artifact_size
        confidence_floor recursion_depth).
Definition v_bounds (b : Bounds) : Value :=
  json_obj (field_opt "deadline" VString (bo_deadline b) ++
            field_opt "budget" v_budget (bo_budget b) ++
            field_opt "hop_limit" v_num (bo_hop_limit b) ++
            field_opt "policy_domain" VString (bo_policy_domain b) ++
            field_opt "authority_scope" (v_enum as_wire) (bo_authority_scope b) ++
            field_opt "max_artifact_size" v_num (bo_max_artifact_size b) ++
            field_opt "confidence_floor" (fun f => VNumber (Float f)) (bo_confidence_floor b) ++
            field_opt "recursion_depth" v_num (bo_recursion_depth b)).

(** Finite, and between 0.0 and 1.0 (negative zero included). *)
Definition f64_is_finite (bits : N) : bool :=
  negb (N.land (N.shiftr bits 52) 2047 =? 2047)%N.
Definition f64_one : N := N.shiftl 1023 52.
Definition f64_in_unit (bits : N) : bool := ((bits <=? f64_one) || (bits =? f64_sign))%N.

Definition bounds_count (b : Bounds) : nat :=
  length (List.filter (fun x : bool => x)
    [is_some (bo_deadline b); is_some (bo_budget b); is_some (bo_hop_limit b);
     is_some (bo_policy_domain b); is_some (bo_authority_scope b);
     is_some (bo_max_artifact_size b); is_some (bo_confidence_floor b);
     is_some (bo_recursion_depth b)]).

Definition bounds_validate `{WireLib} (b : Bounds) : result unit EnvelopeDecodeError :=
  let count := bounds_count b in
  if (count <? 2)%nat then Err (InsufficientBounds count) else
  match bo_confidence_floor b with
  | Some cf =>
      if negb (f64_is_finite cf) || negb (f64_in_unit cf)
      then Err (BodyValidation ("confidence_floor must be finite in [0.0, 1.0], got " +:+ f64_text cf))
      else Ok tt
  | None => Ok tt
  end.

(** ** The sealed trait [BodySchema]: [body/mod.rs] *)
Class BodySchema (B : Type) := {
  CLASS : MessageClass;
  SCOPE : EnvelopeScope;
  d_body : decoder B;
  body_to_value : B -> Value;
  post_decode_validate : B -> option TerminalStatus -> result unit EnvelopeDecodeError
}.
#[global] Arguments CLASS B {_}.
#[global] Arguments SCOPE B {_}.

Definition v_texts (l : list string) : Value := VArray (map VString l).

(** ** [body/request.rs] *)
Record RequestBody := mkRequestBody {
  rb_scope : Value; rb_bounds : Bounds; rb_natural_language_summary : option string }.
Definition request_specs : field_specs :=
  [("scope", fault d_value); ("bounds", fault d_bounds);
   ("natural_language_summary", fault (d_option d_string))].
Definition d_request : decoder RequestBody := fun v =>
  try m := struct_fields request_specs v in
  try scope := required d_value m "scope" in
  try bounds := required d_bounds m "bounds" in
  try summary := optional d_string m "natural_language_summary" in
  Ok (mkRequestBody scope bounds summary).
Definition v_request (b : RequestBody) : Value :=
  json_obj ([("scope", rb_scope b); ("bounds", v_bounds (rb_bounds b))] ++
            field_opt "natural_language_summary" VString (rb_natural_language_summary b)).

(** ** [body/commit.rs] *)
Record CommitBody := mkCommitBody {
  cb_scope : Value;
  cb_scope_subset : option bool;
  cb_bounds : Bounds;
  cb_accepted_policies : list string;
  cb_delegation_permissions : option Value;
  cb_reporting_obligations : option Value;
  cb_terminal_condition : Value;
  cb_conditions : option (list Value);
  cb_natural_language_summary : option string }.
Definition commit_specs : field_specs :=
  [("scope", fault d_value); ("scope_subset", fault (d_option d_boolean));
   ("bounds", fault d_bounds); ("accepted_policies", fault (d_vec d_string));
   ("delegation_permissions", fault (d_option d_value));
   ("reporting_obligations", fault (d_option d_value));
   ("terminal_condition", fault d_value); ("conditions", fault (d_option (d_vec d_value)));
   ("natural_language_summary", fault (d_option d_string))].
Definition d_commit : decoder CommitBody := fun v =>
  try m := struct_fields commit_specs v in
  try scope := required d_value m "scope" in
  try scope_subset := optional d_boolean m "scope_subset" in
  try bounds := required d_bounds m "bounds" in
  try accepted_policies := required (d_vec d_string) m "accepted_policies" in
  try delegation_permissions := optional d_value m "delegation_permissions" in
  try reporting_obligations := optional d_value m "reporting_obligations" in
  try terminal_condition := required d_value m "terminal_condition" in
  try conditions := optional (d_vec d_value) m "conditions" in
  try summary := optional d_string m "natural_language_summary" in
  Ok (mkCommitBody scope scope_subset bounds accepted_policies delegation_permissions
        reporting_obligations terminal_condition conditions summary).
Definition v_commit (b : CommitBody) : Value :=
  json_obj ([("scope", cb_scope b)] ++
            field_opt "scope_subset" VBool (cb_scope_subset b) ++
            [("bounds", v_bounds (cb_bounds b));
             ("accepted_policies", v_texts (cb_accepted_policies b))] ++
            field_opt "delegation_permissions" (fun v => v) (cb_delegation_permissions b) ++
            field_opt "reporting_obligations" (fun v => v) (cb_reporting_obligations b) ++
            [("terminal_condition", cb_terminal_condition b)] ++
            field_opt "conditions" VArray (cb_conditions b) ++
            field_opt "natural_language_summary" VString (cb_natural_language_summary b)).

(** ** [body/deliver.rs] *)
Inductive ErrorCategory :=
| EcMalformed | EcUnauthorized | EcUnsupportedVersion | EcTimeout | EcInternal | EcOther.
Definition ErrorCategory_name (c : ErrorCategory) : string :=
  match c with
  | EcMalformed => "malformed" | EcUnauthorized => "unauthorized"
  | EcUnsupportedVersion => "unsupported_version" | EcTimeout => "timeout"
  | EcInternal => "internal" | EcOther => "other"
  end.
Definition d_category : decoder ErrorCategory :=
  d_enum (by_name ErrorCategory_name
    [EcMalformed; EcUnauthorized; EcUnsupportedVersion; EcTimeout; EcInternal; EcOther]).

Record Artifact := mkArtifact { ar_id : string; ar_media_type : string; ar_size : N }.
Definition d_artifact_id : decoder string := fun v =>
  try s := d_string v in
  map_err (fun e => Custom (ParseArtifactIdError_display e)) (ArtifactId_from_str s).
Definition artifact_specs : field_specs :=
  [("id", fault d_artifact_id); ("media_type", fault d_string); ("size", fault d_u64)].
Definition d_artifact : decoder Artifact := fun v =>
  try m := struct_fields artifact_specs v in
  try id := required d_artifact_id m "id" in
  try media_type := required d_string m "media_type" in
  try size := required d_u64 m "size" in
  Ok (mkArtifact id media_type size).
Definition v_artifact (a : Artifact) : Value :=
  json_obj [("id", VString (ar_id a)); ("media_type", VString (ar_media_type a));
            ("size", v_num (ar_size a))].

Record ErrorDetail := mkErrorDetail {
  ed_category : ErrorCategory; ed_message : string; ed_diagnostic : option Value }.
Definition error_detail_specs : field_specs :=
  [("category", fault d_category); ("message", fault d_string);
   ("diagnostic", fault (d_option d_value))].
Definition d_error_detail : decoder ErrorDetail := fun v =>
  try m := struct_fields error_detail_specs v in
  try category := required d_category m "category" in
  try message := required d_string m "message" in
  try diagnostic := optional d_value m "diagnostic" in
  Ok (mkErrorDetail category message diagnostic).
Definition v_error_detail (e : ErrorDetail) : Value :=
  json_obj ([("category", v_enum ErrorCategory_name (ed_category e));
             ("message", VString (ed_message e))] ++
            field_opt "diagnostic" (fun v => v) (ed_diagnostic e)).

Record DeliverBody := mkDeliverBody {
  db_interim : bool;
  db_artifacts : option (list Artifact);
  db_result : option Value;
  db_usage_metrics : option Value;
  db_error_detail : option ErrorDetail;
  db_provenance : option Value;
  db_natural_language_summary : option string }.
Definition deliver_specs : field_specs :=
  [("interim", fault d_boolean); ("artifacts", fault (d_option (d_vec d_artifact)));
   ("result", fault (d_option d_value)); ("usage_metrics", fault (d_option d_value));
   ("error_detail", fault (d_option d_error_detail));
   ("provenance", fault (d_option d_value));
   ("natural_language_summary", fault (d_option d_string))].
Definition d_deliver : decoder DeliverBody := fun v =>
  try m := struct_fields deliver_specs v in
  try interim := required d_boolean m "interim" in
  try artifacts := optional (d_vec d_artifact) m "artifacts" in
  try result_ := optional d_value m "result" in
  try usage_metrics := optional d_value m "usage_metrics" in
  try error_detail := optional d_error_detail m "error_detail" in
  try provenance := optional d_value m "provenance" in
  try summary := optional d_string m "natural_language_summary" in
  Ok (mkDeliverBody interim artifacts result_ usage_metrics error_detail provenance summary).
Definition v_deliver (b : DeliverBody) : Value :=
  json_obj ([("interim", VBool (db_interim b))] ++
            field_opt "artifacts" (fun l => VArray (map v_artifact l)) (db_artifacts b) ++
            field_opt "result" (fun v => v) (db_result b) ++
            field_opt "usage_metrics" (fun v => v) (db_usage_metrics b) ++
            field_opt "error_detail" v_error_detail (db_error_detail b) ++
            field_opt "provenance" (fun v => v) (db_provenance b) ++
            field_opt "natural_language_summary" VString (db_natural_language_summary b)).

Definition validate_against_terminal_status (b : DeliverBody)
    (terminal_status : option TerminalStatus) : result unit EnvelopeDecodeError :=
  match db_interim b, terminal_status with
  | true, Some _ => Err InterimWithTerminalStatus
  | false, None => Err TerminalWithoutStatus
  | false, Some status =>
      if (match status with TsFailed => true | _ => false end) && is_none (db_error_detail b)
      then Err MissingErrorDetail
      else if is_none (db_provenance b) then Err MissingProvenance
      else Ok tt
  | true, None => Ok tt
  end.

(** ** [body/ack.rs] *)
Inductive AckDisposition :=
| AdAccepted | AdRejected | AdReceived | AdCompleted | AdFailed | AdCancelled.
Definition AckDisposition_name (d : AckDisposition) : string :=
  match d with
  | AdAccepted => "accepted" | AdRejected => "rejected" | AdReceived => "received"
  | AdCompleted => "completed" | AdFailed => "failed" | AdCancelled => "cancelled"
  end.
Definition d_ack_disposition : decoder AckDisposition :=
  d_enum (by_name AckDisposition_name
    [AdAccepted; AdRejected; AdReceived; AdCompleted; AdFailed; AdCancelled]).
Record AckBody := mkAckBody { ab_disposition : AckDisposition; ab_reason : option string }.
Definition ack_specs : field_specs :=
  [("disposition", fault d_ack_disposition); ("reason", fault (d_option d_string))].
Definition d_ack : decoder AckBody := fun v =>
  try m := struct_fields ack_specs v in
  try disposition := required d_ack_disposition m "disposition" in
  try reason := optional d_string m "reason" in
  Ok (mkAckBody disposition reason).
Definition v_ack (b : AckBody) : Value :=
  json_obj ([("disposition", v_enum AckDisposition_name (ab_disposition b))] ++
            field_opt "reason" VString (ab_reason b)).

(** ** [body/control.rs] *)
Inductive ControlTarget := CtTask.
Inductive ControlAction := CaCancel.
Inductive ControlDisposition := CdAccepted | CdRejected.
Definition ControlDisposition_name (d : ControlDisposition) : string :=
  match d with CdAccepted => "accepted" | CdRejected => "rejected" end.
Definition d_control_target : decoder ControlTarget := d_enum [("task", CtTask)].
Definition d_control_action : decoder ControlAction := d_enum [("cancel", CaCancel)].
Definition d_control_disposition : decoder ControlDisposition :=
  d_enum (by_name ControlDisposition_name [CdAccepted; CdRejected]).
Record ControlBody := mkControlBody {
  ctl_target : ControlTarget;
  ctl_action : ControlAction;
  ctl_disposition : option ControlDisposition;
  ctl_reason : option string;
  ctl_affected_ids : option (list string) }.
Definition control_specs : field_specs :=
  [("target", fault d_control_target); ("action", fault d_control_action);
   ("disposition", fault (d_option d_control_disposition));
   ("reason", fault (d_option d_string)); ("affected_ids", fault (d_option (d_vec d_string)))].
Definition d_control : decoder ControlBody := fun v =>
  try m := struct_fields control_specs v in
  try target := required d_control_target m "target" in
  try action := required d_control_action m "action" in
  try disposition := optional d_control_disposition m "disposition" in
  try reason := optional d_string m "reason" in
  try affected_ids := optional (d_vec d_string) m "affected_ids" in
  Ok (mkControlBody target action disposition reason affected_ids).
Definition v_control (b : ControlBody) : Value :=
  json_obj ([("target", VString "task"); ("action", VString "cancel")] ++
            field_opt "disposition" (v_enum ControlDisposition_name) (ctl_disposition b) ++
            field_opt "reason" VString (ctl_reason b) ++
            field_opt "affected_ids" v_texts (ctl_affected_ids b)).

(** ** [body/audit_log.rs] *)
Record AuditLogBody := mkAuditLogBody {
  al_event : string; al_subject : option string; al_details : option Value }.
Definition audit_log_specs : field_specs :=
  [("event", fault d_string); ("subject", fault (d_option d_string));
   ("details", fault (d_option d_value))].
Definition d_audit_log : decoder AuditLogBody := fun v =>
  try m := struct_fields audit_log_specs v in
  try event := required d_string m "event" in
  try subject := optional d_string m "subject" in
  try details := optional d_value m "details" in
  Ok (mkAuditLogBody event subject details).
Definition v_audit_log (b : AuditLogBody) : Value :=
  json_obj ([("event", VString (al_event b))] ++
            field_opt "subject" VString (al_subject b) ++
            field_opt "details" (fun v => v) (al_details b)).

(** ** The six implementations *)
Section schemas.
Context `{WL : WireLib}.

#[export] Instance request_schema : BodySchema RequestBody := {|
  CLASS := Request; SCOPE := Standalone; d_body := d_request; body_to_value := v_request;
  post_decode_validate b _ := bounds_validate (rb_bounds b) |}.
#[export] Instance commit_schema : BodySchema CommitBody := {|
  CLASS := Commit; SCOPE := Task; d_body := d_commit; body_to_value := v_commit;
  post_decode_validate b _ := bounds_validate (cb_bounds b) |}.
#[export] Instance deliver_schema : BodySchema DeliverBody := {|
  CLASS := Deliver; SCOPE := Task; d_body := d_deliver; body_to_value := v_deliver;
  post_decode_validate := validate_against_terminal_status |}.
#[export] Instance ack_schema : BodySchema AckBody := {|
  CLASS := Ack; SCOPE := Standalone; d_body := d_ack; body_to_value := v_ack;
  post_decode_validate _ _ := Ok tt |}.
#[export] Instance control_schema : BodySchema ControlBody := {|
  CLASS := Control; SCOPE := Task; d_body := d_control; body_to_value := v_control;
  post_decode_validate _ _ := Ok tt |}.
#[export] Instance audit_log_schema : BodySchema AuditLogBody := {|
  CLASS := AuditLog; SCOPE := Standalone; d_body := d_audit_log; body_to_value := v_audit_log;
  post_decode_validate b _ :=
    if String.eqb (al_event b) EmptyString
    then Err (BodyValidation "audit_log.event must be non-empty") else Ok tt |}.
End schemas.
