(* ===== verification/BodyProps.v ===== *)
(** * Bodies: what is written is read back

    Every decoder of [Body.v] inverts its serializer on the values a sender can
    hold, and [SchemaLaws] packages this per body. *)

From Stdlib Require Import Ascii.
From stdpp Require Import gmap strings list.
From S2P Require Import Prelude Json Proto WireInstance Crypto Principal Fsm Core Derive Body.

(** ** Shared steps *)
Lemma fault_ok {A} (d : decoder A) v a : d v = Ok a -> fault d v = None.
Proof. unfold fault. by intros ->. Qed.
Lemma fault_some {A} (d : decoder A) v a : d v = Ok a -> fault (d_option d) v = None.
Proof. unfold fault, d_option. destruct v; intros Hd; try done; by rewrite Hd. Qed.

Definition spec_ok (specs : field_specs) (kv : string * Value) : Prop :=
  match obj_get kv.1 specs with Some c => c kv.2 = None | None => False end.

Lemma spec_intro specs k v c : obj_get k specs = Some c -> c v = None -> spec_ok specs (k, v).
Proof. unfold spec_ok. simpl. by intros -> ->. Qed.

Lemma Forall_field_opt {A} specs k (f : A -> Value) o :
  (forall a, o = Some a -> spec_ok specs (k, f a)) -> Forall (spec_ok specs) (field_opt k f o).
Proof. destruct o; intros H; simpl; repeat constructor. by apply H. Qed.

Lemma d_list_map {A} (d : decoder A) (f : A -> Value) l :
  Forall (fun a => d (f a) = Ok a) l -> d_list d (map f l) = Ok l.
Proof. induction 1 as [|a l Ha _ IH]; simpl; [done|]. by rewrite Ha, IH. Qed.
Lemma d_list_value l : d_list d_value l = Ok l.
Proof. induction l as [|v l IH]; simpl; [done|]. by rewrite IH. Qed.
Lemma d_strings_ok l : d_vec d_string (v_texts l) = Ok l.
Proof. apply d_list_map, Forall_true. done. Qed.

Lemma Principal_decodes p : principal_ok p -> d_principal (v_principal p) = Ok p.
Proof.
  intros H. unfold d_principal, v_principal. simpl. by rewrite Principal_from_str_display.
Qed.

Lemma unsigned_ok max n : (n <= max)%N -> d_unsigned max (v_num n) = Ok n.
Proof. intros H. simpl. by rewrite (proj2 (N.leb_le _ _) H). Qed.

Lemma timestamp_ok s : shallow_validate s = true -> d_timestamp (VString s) = Ok s.
Proof. intros H. unfold d_timestamp. simpl. by rewrite H. Qed.

Lemma scope_ok s : d_scope (v_enum EnvelopeScope_display s) = Ok s.
Proof. by destruct s. Qed.
Lemma class_ok c : d_class (v_enum MessageClass_display c) = Ok c.
Proof. by destruct c. Qed.
Lemma authority_ok a : d_authority (v_enum as_wire a) = Ok a.
Proof. by destruct a. Qed.
Lemma relation_ok r : d_relation (v_enum Relation_name r) = Ok r.
Proof. by destruct r. Qed.
Lemma status_ok t : d_terminal_status (v_enum TerminalStatus_name t) = Ok t.
Proof. by destruct t. Qed.
Lemma category_ok c : d_category (v_enum ErrorCategory_name c) = Ok c.
Proof. by destruct c. Qed.
Lemma ack_disposition_ok d : d_ack_disposition (v_enum AckDisposition_name d) = Ok d.
Proof. by destruct d. Qed.
Lemma control_disposition_ok d : d_control_disposition (v_enum ControlDisposition_name d) = Ok d.
Proof. by destruct d. Qed.

#[export] Hint Resolve Principal_decodes unsigned_ok timestamp_ok scope_ok class_ok authority_ok
  relation_ok status_ok category_ok ack_disposition_ok control_disposition_ok d_strings_ok
  : decode.

(** A [Some(Value::Null)] is written as null and read back as absent. *)
Definition not_null (o : option Value) : Prop := o <> Some VNull.

Lemma value_option_ok v : fault (d_option d_value) v = None.
Proof. by destruct v. Qed.
Lemma option_eta {A} (o : option A) : match o with Some a => Some a | None => None end = o.
Proof. by destruct o. Qed.

(** [scan] discharges the field scan of a struct, [req] and [opt] one field
    read each, from the fields that were written. *)
Ltac decoded := first [reflexivity | solve [eauto with decode]].
Ltac spec :=
  eapply spec_intro; [reflexivity|]; cbv beta;
  first [reflexivity | apply value_option_ok | eapply fault_ok; decoded | eapply fault_some; decoded].
Ltac scan :=
  rewrite ?Forall_app, ?Forall_cons, ?Forall_nil; split_and?; try exact I; try spec;
  try (apply Forall_field_opt; intros; simplify_eq; spec).
Ltac lookup Hget :=
  rewrite Hget; repeat (rewrite ?obj_get_app, ?obj_get_field_opt; simpl);
  rewrite ?option_eta; reflexivity.
Ltac req Hget := erewrite required_ok; [|lookup Hget|decoded].
Ltac opt Hget :=
  erewrite optional_ok; [|lookup Hget|
    intros ? ?; simplify_eq; split; [decoded | try discriminate; try solve [intros ->; unfold not_null in *; eauto]]].
Ltac fields_written Hget :=
  let m := fresh "m" in let Hm := fresh "Hm" in
  match goal with |- context [struct_fields ?specs (json_obj ?l)] =>
    destruct (struct_fields_json specs l) as (m & Hm & Hget); [scan|]; rewrite Hm end.

(** ** Structs *)
Lemma budget_ok b : d_budget (v_budget b) = Ok b.
Proof. unfold d_budget, v_budget. fields_written Hget. req Hget. req Hget. by destruct b. Qed.
#[export] Hint Resolve budget_ok : decode.

Lemma v_budget_not_null b : v_budget b <> VNull.
Proof. done. Qed.

Definition within (max : N) (o : option N) : Prop := forall n, o = Some n -> (n <= max)%N.

Record bounds_ok (b : Bounds) : Prop := {
  bo_hop : within u64_max (bo_hop_limit b);
  bo_size : within u64_max (bo_max_artifact_size b);
  bo_depth : within 255 (bo_recursion_depth b) }.

Lemma d_u64_ok n : (n <= u64_max)%N -> d_u64 (v_num n) = Ok n.
Proof. apply unsigned_ok. Qed.
Lemma d_u8_ok n : (n <= 255)%N -> d_u8 (v_num n) = Ok n.
Proof. apply unsigned_ok. Qed.
#[export] Hint Resolve d_u64_ok d_u8_ok : decode.

Lemma bounds_decodes b : bounds_ok b -> d_bounds (v_bounds b) = Ok b.
Proof.
  intros [Hh Hs Hd]. unfold d_bounds, v_bounds. fields_written Hget.
  opt Hget. opt Hget. opt Hget. opt Hget. opt Hget. opt Hget. opt Hget. opt Hget. by destruct b.
Qed.
#[export] Hint Resolve bounds_decodes : decode.

Record artifact_ok (a : Artifact) : Prop := {
  ar_id_ok : ArtifactId_from_str (ar_id a) = Ok (ar_id a);
  ar_size_ok : (ar_size a <= u64_max)%N }.

Lemma artifact_id_decodes s : ArtifactId_from_str s = Ok s -> d_artifact_id (VString s) = Ok s.
Proof. intros H. unfold d_artifact_id. simpl. by rewrite H. Qed.
#[export] Hint Resolve artifact_id_decodes : decode.

Lemma artifact_decodes a : artifact_ok a -> d_artifact (v_artifact a) = Ok a.
Proof.
  intros [Hid Hsize]. unfold d_artifact, v_artifact. fields_written Hget.
  req Hget. req Hget. req Hget. by destruct a.
Qed.

Lemma artifacts_decode l : Forall artifact_ok l -> d_vec d_artifact (VArray (map v_artifact l)) = Ok l.
Proof. intros H. apply d_list_map. eapply Forall_impl; [exact H|]. apply artifact_decodes. Qed.
#[export] Hint Resolve artifacts_decode : decode.

Lemma error_detail_decodes e : not_null (ed_diagnostic e) -> d_error_detail (v_error_detail e) = Ok e.
Proof.
  intros Hn. unfold d_error_detail, v_error_detail. fields_written Hget.
  req Hget. req Hget. opt Hget. by destruct e.
Qed.
#[export] Hint Resolve error_detail_decodes : decode.

Lemma values_decode l : d_vec d_value (VArray l) = Ok l.
Proof. apply d_list_value. Qed.
#[export] Hint Resolve values_decode : decode.

(** ** The laws of a body schema *)
Class SchemaLaws (B : Type) `{BodySchema B} := {
  body_ok : B -> Prop;
  body_decodes b : body_ok b -> d_body (body_to_value b) = Ok b;
  body_not_null b : body_to_value b <> VNull
}.

Section laws.
Context `{WL : WireLib}.

Lemma request_decodes b : bounds_ok (rb_bounds b) -> d_request (v_request b) = Ok b.
Proof.
  intros Hb. unfold d_request, v_request. fields_written Hget.
  req Hget. req Hget. opt Hget. by destruct b.
Qed.
#[export] Instance request_laws : SchemaLaws RequestBody :=
  {| body_ok b := bounds_ok (rb_bounds b); body_decodes := request_decodes;
     body_not_null b := ltac:(done) |}.

Record commit_ok (b : CommitBody) : Prop := {
  co_bounds : bounds_ok (cb_bounds b);
  co_delegation : not_null (cb_delegation_permissions b);
  co_reporting : not_null (cb_reporting_obligations b) }.
Lemma commit_decodes b : commit_ok b -> d_commit (v_commit b) = Ok b.
Proof.
  intros [Hb Hd Hr]. unfold d_commit, v_commit. fields_written Hget.
  req Hget. opt Hget. req Hget. req Hget. opt Hget. opt Hget. req Hget.
  opt Hget. opt Hget. by destruct b.
Qed.
#[export] Instance commit_laws : SchemaLaws CommitBody :=
  {| body_ok := commit_ok; body_decodes := commit_decodes;
     body_not_null b := ltac:(done) |}.

Record deliver_ok (b : DeliverBody) : Prop := {
  do_artifacts : forall l, db_artifacts b = Some l -> Forall artifact_ok l;
  do_result : not_null (db_result b);
  do_metrics : not_null (db_usage_metrics b);
  do_detail : forall e, db_error_detail b = Some e -> not_null (ed_diagnostic e);
  do_provenance : not_null (db_provenance b) }.
Lemma deliver_decodes b : deliver_ok b -> d_deliver (v_deliver b) = Ok b.
Proof.
  intros [Ha Hr Hm0 He Hp]. unfold d_deliver, v_deliver. fields_written Hget.
  req Hget. opt Hget. opt Hget. opt Hget. opt Hget.
  opt Hget. opt Hget. by destruct b.
Qed.
#[export] Instance deliver_laws : SchemaLaws DeliverBody :=
  {| body_ok := deliver_ok; body_decodes := deliver_decodes;
     body_not_null b := ltac:(done) |}.

Lemma ack_decodes b : d_ack (v_ack b) = Ok b.
Proof. unfold d_ack, v_ack. fields_written Hget. req Hget. opt Hget. by destruct b. Qed.
#[export] Instance ack_laws : SchemaLaws AckBody :=
  {| body_ok _ := True; body_decodes b _ := ack_decodes b;
     body_not_null b := ltac:(done) |}.

Lemma control_decodes b : d_control (v_control b) = Ok b.
Proof.
  unfold d_control, v_control. fields_written Hget. req Hget. req Hget. opt Hget. opt Hget.
  opt Hget. by destruct b as [[] []].
Qed.
#[export] Instance control_laws : SchemaLaws ControlBody :=
  {| body_ok _ := True; body_decodes b _ := control_decodes b;
     body_not_null b := ltac:(done) |}.

Lemma audit_log_decodes b : not_null (al_details b) -> d_audit_log (v_audit_log b) = Ok b.
Proof.
  intros Hn. unfold d_audit_log, v_audit_log. fields_written Hget.
  req Hget. opt Hget. opt Hget. by destruct b.
Qed.
#[export] Instance audit_log_laws : SchemaLaws AuditLogBody :=
  {| body_ok b := not_null (al_details b); body_decodes := audit_log_decodes;
     body_not_null b := ltac:(done) |}.
End laws.
