(* ===== verification/Envelope.v ===== *)
(** * Envelopes

    [crates/famp-envelope/src/{wire,envelope,dispatch,bus,peek,view}.rs]: the
    wire envelope, the unsigned and signed type states, the verifying decoder
    and its dispatch on the class, the unsigned bus decoder, and the structural
    view that reads fields before any verification. *)

From Stdlib Require Import Strings.Byte Ascii.
From stdpp Require Import gmap strings list.
From S2P Require Import Prelude Json Proto WireInstance Crypto Principal Fsm Core Derive Body.

(** ** The wire envelope: [wire.rs]

    [UnsignedEnvelope<B>] has the same fields; [decode_value] copies them one
    by one, so one record stands for both. *)
Record UnsignedEnvelope (B : Type) := mkEnvelope {
  ue_famp : string;
  ue_id : N;
  ue_from : Principal;
  ue_to : Principal;
  ue_scope : EnvelopeScope;
  ue_class : MessageClass;
  ue_causality : option Causality;
  ue_authority : AuthorityScope;
  ue_ts : string;
  ue_terminal_status : option TerminalStatus;
  ue_idempotency_key : option string;
  ue_extensions : option (list (string * Value));
  ue_from_domain : option string;
  ue_to_domain : option string;
  ue_sender_key_id : option string;
  ue_nonce : option string;
  ue_expiry : option string;
  ue_capability : option Value;
  ue_approval : option Value;
  ue_body : B }.
Arguments mkEnvelope {B}.
Arguments ue_famp {B} _.
Arguments ue_id {B} _.
Arguments ue_from {B} _.
Arguments ue_to {B} _.
Arguments ue_scope {B} _.
Arguments ue_class {B} _.
Arguments ue_causality {B} _.
Arguments ue_authority {B} _.
Arguments ue_ts {B} _.
Arguments ue_terminal_status {B} _.
Arguments ue_idempotency_key {B} _.
Arguments ue_extensions {B} _.
Arguments ue_from_domain {B} _.
Arguments ue_to_domain {B} _.
Arguments ue_sender_key_id {B} _.
Arguments ue_nonce {B} _.
Arguments ue_expiry {B} _.
Arguments ue_capability {B} _.
Arguments ue_approval {B} _.
Arguments ue_body {B} _.

Record SignedEnvelope (B : Type) := mkSigned {
  inner : UnsignedEnvelope B; signature : FampSignature }.
Arguments mkSigned {B}.
Arguments inner {B} _.
Arguments signature {B} _.

Inductive AnySignedEnvelope :=
| SRequest (e : SignedEnvelope RequestBody)
| SCommit (e : SignedEnvelope CommitBody)
| SDeliver (e : SignedEnvelope DeliverBody)
| SAck (e : SignedEnvelope AckBody)
| SControl (e : SignedEnvelope ControlBody)
| SAuditLog (e : SignedEnvelope AuditLogBody).

(** [BusEnvelope<B>] wraps a wire envelope. *)
Inductive AnyBusEnvelope :=
| BRequest (e : UnsignedEnvelope RequestBody)
| BCommit (e : UnsignedEnvelope CommitBody)
| BDeliver (e : UnsignedEnvelope DeliverBody)
| BAck (e : UnsignedEnvelope AckBody)
| BControl (e : UnsignedEnvelope ControlBody)
| BAuditLog (e : UnsignedEnvelope AuditLogBody).

Definition obj_remove {A} (k : string) (m : list (string * A)) : list (string * A) :=
  List.filter (fun kv => negb (String.eqb kv.1 k)) m.

Section wire.
Context `{WL : WireLib}.

Definition wire_specs {B} `{BodySchema B} : field_specs :=
  [("famp", fault d_string); ("id", fault d_message_id); ("from", fault d_principal);
   ("to", fault d_principal); ("scope", fault d_scope); ("class", fault d_class);
   ("causality", fault (d_option d_causality)); ("authority", fault d_authority);
   ("ts", fault d_timestamp); ("terminal_status", fault (d_option d_terminal_status));
   ("idempotency_key", fault (d_option d_string)); ("extensions", fault (d_option d_btree));
   ("from_domain", fault (d_option d_string)); ("to_domain", fault (d_option d_string));
   ("sender_key_id", fault (d_option d_string)); ("nonce", fault (d_option d_string));
   ("expiry", fault (d_option d_timestamp)); ("capability", fault (d_option d_value));
   ("approval", fault (d_option d_value)); ("body", fault (d_body (B:=B)))].

(** [serde_json::from_value::<WireEnvelope<B>>]. *)
Definition wire_of_value (B : Type) `{BodySchema B} : decoder (UnsignedEnvelope B) := fun v =>
  try m := struct_fields (wire_specs (B:=B)) v in
  try famp := required d_string m "famp" in
  try id := required d_message_id m "id" in
  try from := required d_principal m "from" in
  try to := required d_principal m "to" in
  try scope := required d_scope m "scope" in
  try class := required d_class m "class" in
  try causality := optional d_causality m "causality" in
  try authority := required d_authority m "authority" in
  try ts := required d_timestamp m "ts" in
  try terminal_status := optional d_terminal_status m "terminal_status" in
  try idempotency_key := optional d_string m "idempotency_key" in
  try extensions := optional d_btree m "extensions" in
  try from_domain := optional d_string m "from_domain" in
  try to_domain := optional d_string m "to_domain" in
  try sender_key_id := optional d_string m "sender_key_id" in
  try nonce := optional d_string m "nonce" in
  try expiry := optional d_timestamp m "expiry" in
  try capability := optional d_value m "capability" in
  try approval := optional d_value m "approval" in
  try body := required d_body m "body" in
  Ok (mkEnvelope famp id from to scope class causality authority ts terminal_status
        idempotency_key extensions from_domain to_domain sender_key_id nonce expiry
        capability approval body).

(** [WireEnvelopeRef], the serialized projection. *)
Definition wire_fields {B} `{BodySchema B} (e : UnsignedEnvelope B) : list (string * Value) :=
  [("famp", VString (ue_famp e)); ("id", v_message_id (ue_id e));
   ("from", v_principal (ue_from e)); ("to", v_principal (ue_to e));
   ("scope", v_enum EnvelopeScope_display (ue_scope e));
   ("class", v_enum MessageClass_display (ue_class e))] ++
  field_opt "causality" v_causality (ue_causality e) ++
  [("authority", v_enum as_wire (ue_authority e)); ("ts", VString (ue_ts e))] ++
  field_opt "terminal_status" (v_enum TerminalStatus_name) (ue_terminal_status e) ++
  field_opt "idempotency_key" VString (ue_idempotency_key e) ++
  field_opt "extensions" VObject (ue_extensions e) ++
  field_opt "from_domain" VString (ue_from_domain e) ++
  field_opt "to_domain" VString (ue_to_domain e) ++
  field_opt "sender_key_id" VString (ue_sender_key_id e) ++
  field_opt "nonce" VString (ue_nonce e) ++
  field_opt "expiry" VString (ue_expiry e) ++
  field_opt "capability" (fun v => v) (ue_capability e) ++
  field_opt "approval" (fun v => v) (ue_approval e) ++
  [("body", body_to_value (ue_body e))].
Definition wire_to_value {B} `{BodySchema B} (e : UnsignedEnvelope B) : Value :=
  json_obj (wire_fields e).

(** ** [UnsignedEnvelope]: [envelope.rs] *)
Definition envelope_new {B} `{BodySchema B} (id : N) (from to : Principal)
    (authority : AuthorityScope) (ts : string) (body : B) : UnsignedEnvelope B :=
  mkEnvelope FAMP_SPEC_VERSION id from to (SCOPE B) (CLASS B) None authority ts None None None
    None None None None None None None body.

Section sign.
Context `{CL : CryptoLib}.

Definition sign {B} `{BodySchema B} (e : UnsignedEnvelope B) (sk : FampSigningKey) :
    result (SignedEnvelope B) EnvelopeDecodeError :=
  trying s := sign_value sk (wire_to_value e) catch err => Err (EnvInvalidSignatureEncoding err) in
  Ok (mkSigned e s).

Definition signed_value {B} `{BodySchema B} (e : SignedEnvelope B) : Value :=
  match wire_to_value (inner e) with
  | VObject m => VObject (obj_insert SIGNATURE_FIELD (VString (sig_to_b64url (signature e))) m)
  | v => v
  end.
Definition encode {B} `{BodySchema B} (e : SignedEnvelope B) : result bytes EnvelopeDecodeError :=
  map_err BodyValidation (to_vec (signed_value e)).

(** ** [SignedEnvelope::decode_value] *)
Definition before_backtick (s : string) : string :=
  match split_at_char "`" s with Some (a, _) => a | None => s end.
Definition map_serde_error (e : SerdeError) : EnvelopeDecodeError :=
  match e with
  | UnknownField f => UnknownEnvelopeField (before_backtick f)
  | e => BodyValidation (serde_text e)
  end.

Definition check_version (obj : list (string * Value)) : result unit EnvelopeDecodeError :=
  match obj_get "famp" obj with
  | None => Err (MissingField "famp")
  | Some (VString s) =>
      if String.eqb s FAMP_SPEC_VERSION then Ok tt else Err (UnsupportedVersion s)
  | Some _ => Err (BodyValidation "envelope.famp must be a string")
  end.

(** The class and scope of the body, and the body's own rules. *)
Definition cross_check {B} `{BodySchema B} (wire : UnsignedEnvelope B) :
    result unit EnvelopeDecodeError :=
  if bool_decide (ue_class wire <> CLASS B) then Err (ClassMismatch (CLASS B) (ue_class wire))
  else if bool_decide (ue_scope wire <> SCOPE B)
  then Err (ScopeMismatch (CLASS B) (SCOPE B) (ue_scope wire))
  else post_decode_validate (ue_body wire) (ue_terminal_status wire).

Definition decode_value (B : Type) `{BodySchema B} (value : Value)
    (verifier : TrustedVerifyingKey) : result (SignedEnvelope B) EnvelopeDecodeError :=
  letsome obj := as_object value
    orelse Err (BodyValidation "envelope root is not a JSON object") in
  letsome sig_val := obj_get SIGNATURE_FIELD obj orelse Err MissingSignature in
  letsome sig_str := as_str sig_val orelse Err MissingSignature in
  trying sig := sig_from_b64url sig_str catch e => Err (EnvInvalidSignatureEncoding e) in
  let obj := obj_remove SIGNATURE_FIELD obj in
  letok _ := verify_value verifier (VObject obj) sig orelse Err SignatureInvalid in
  try _ := check_version obj in
  try wire := map_err map_serde_error (wire_of_value B (VObject obj)) in
  try _ := cross_check wire in
  Ok (mkSigned wire sig).

Definition decode (B : Type) `{BodySchema B} (body : bytes) (verifier : TrustedVerifyingKey) :
    result (SignedEnvelope B) EnvelopeDecodeError :=
  try value := map_err MalformedJson (from_slice_strict body) in
  decode_value B value verifier.

(** ** [AnySignedEnvelope]: [dispatch.rs] *)
Definition AnySignedEnvelope_decode (body : bytes) (verifier : TrustedVerifyingKey) :
    result AnySignedEnvelope EnvelopeDecodeError :=
  try value := map_err MalformedJson (from_slice_strict body) in
  letsome class_str := get_str value "class" orelse Err (MissingField "class") in
  if String.eqb class_str "request" then
    result_map SRequest (decode_value RequestBody value verifier)
  else if String.eqb class_str "commit" then
    result_map SCommit (decode_value CommitBody value verifier)
  else if String.eqb class_str "deliver" then
    result_map SDeliver (decode_value DeliverBody value verifier)
  else if String.eqb class_str "ack" then
    result_map SAck (decode_value AckBody value verifier)
  else if String.eqb class_str "control" then
    result_map SControl (decode_value ControlBody value verifier)
  else if String.eqb class_str "audit_log" then
    result_map SAuditLog (decode_value AuditLogBody value verifier)
  else Err (UnknownClass class_str).
End sign.

(** ** The bus decoder: [bus.rs] *)
Definition bus_decode (B : Type) `{BodySchema B} (body : bytes) :
    result (UnsignedEnvelope B) EnvelopeDecodeError :=
  try value := map_err MalformedJson (from_slice_strict body) in
  letsome obj := as_object value
    orelse Err (BodyValidation "envelope root is not a JSON object") in
  if is_some (obj_get "signature" obj) then Err UnexpectedSignature else
  try _ := check_version obj in
  try wire := map_err (fun e => BodyValidation (serde_text e)) (wire_of_value B value) in
  try _ := cross_check wire in
  Ok wire.

Definition AnyBusEnvelope_decode (body : bytes) : result AnyBusEnvelope EnvelopeDecodeError :=
  try value := map_err MalformedJson (from_slice_strict body) in
  letsome class_str := get_str value "class" orelse Err (MissingField "class") in
  if String.eqb class_str "request" then result_map BRequest (bus_decode RequestBody body)
  else if String.eqb class_str "commit" then result_map BCommit (bus_decode CommitBody body)
  else if String.eqb class_str "deliver" then result_map BDeliver (bus_decode DeliverBody body)
  else if String.eqb class_str "ack" then result_map BAck (bus_decode AckBody body)
  else if String.eqb class_str "control" then result_map BControl (bus_decode ControlBody body)
  else if String.eqb class_str "audit_log" then
    result_map BAuditLog (bus_decode AuditLogBody body)
  else Err (UnknownClass class_str).

(** ** Before verification: [view.rs], [peek.rs] *)
Definition view_principal (value : Value) (field : string) : option Principal :=
  s ← get_str value field;
  match Principal_from_str s with Ok p => Some p | Err _ => None end.
Definition view_from (value : Value) : option Principal := view_principal value "from".
Definition view_to (value : Value) : option Principal := view_principal value "to".
Definition view_class (value : Value) : option string := get_str value "class".

Definition NEW_TASK_EVENT : string := "famp.send.new_task".
Definition view_task_id (value : Value) : option string :=
  match (c ← get value "causality"; get_str c "ref") with
  | Some task_id => Some task_id
  | None =>
      match (b ← get value "body"; d ← get b "details"; get_str d "task") with
      | Some task_id => Some task_id
      | None =>
          if bool_decide ((b ← get value "body"; get_str b "event") = Some NEW_TASK_EVENT)
          then get_str value "id"
          else if bool_decide (view_class value = Some "request") then get_str value "id"
          else None
      end
  end.

Definition peek_sender (body : bytes) : result Principal EnvelopeDecodeError :=
  try value := map_err MalformedJson (from_slice_strict body) in
  letsome p := view_from value orelse Err (MissingField "from") in Ok p.
End wire.

(** ** [SignedEnvelope::federation_format_ok] *)
Definition federation_format_ok {B} (e : SignedEnvelope B) : bool :=
  match ue_nonce (inner e) with
  | Some nonce => negb (String.eqb nonce EmptyString)
  | None => true
  end &&
  match ue_expiry (inner e) with
  | Some expiry =>
      shallow_validate expiry &&
      (is_canonical_utc_form expiry && is_canonical_utc_form (ue_ts (inner e))) &&
      negb (String.leb expiry (ue_ts (inner e)))
  | None => true
  end.

(** A bus envelope from the given author, for concrete runs. *)
Definition note_from (from event : string) : Value :=
  json_obj
    [("famp", VString FAMP_SPEC_VERSION);
     ("id", VString "00000000-0000-7000-8000-000000000001");
     ("from", VString from); ("to", VString "agent:h/alice");
     ("scope", VString "standalone"); ("class", VString "audit_log");
     ("authority", VString "advisory"); ("ts", VString "2026-01-01T00:00:00Z");
     ("body", VObject [("event", VString event)])].
Definition msg_from (from : string) : Value := note_from from "note".
