(* ===== verification/EnvelopeProps.v ===== *)
(** * Envelopes: what a decoder accepts

    The typed fields of a decoded envelope are exactly the fields of its object;
    signing, encoding and decoding are inverse; an accepted signature vouches for
    everything but itself; and an envelope stripped of its federation wrapper is
    still an envelope the bus decodes. *)

From Stdlib Require Import Strings.Byte Ascii.
From stdpp Require Import gmap strings list.
From S2P Require Import Prelude Json Proto WireInstance Crypto Principal Fsm Core Derive Body.
From S2P Require Import BodyProps Envelope.

(** ** Reading the object *)
Section reads.
Context `{WL : WireLib} {B : Type} `{BS : BodySchema B}.

Record wire_reads (m : list (string * Value)) (e : UnsignedEnvelope B) : Prop := {
  wr_known : visit_map (wire_specs (B:=B)) m = None;
  wr_famp : required d_string m "famp" = Ok (ue_famp e);
  wr_id : required d_message_id m "id" = Ok (ue_id e);
  wr_from : required d_principal m "from" = Ok (ue_from e);
  wr_to : required d_principal m "to" = Ok (ue_to e);
  wr_scope : required d_scope m "scope" = Ok (ue_scope e);
  wr_class : required d_class m "class" = Ok (ue_class e);
  wr_causality : optional d_causality m "causality" = Ok (ue_causality e);
  wr_authority : required d_authority m "authority" = Ok (ue_authority e);
  wr_ts : required d_timestamp m "ts" = Ok (ue_ts e);
  wr_terminal : optional d_terminal_status m "terminal_status" = Ok (ue_terminal_status e);
  wr_idem : optional d_string m "idempotency_key" = Ok (ue_idempotency_key e);
  wr_ext : optional d_btree m "extensions" = Ok (ue_extensions e);
  wr_from_domain : optional d_string m "from_domain" = Ok (ue_from_domain e);
  wr_to_domain : optional d_string m "to_domain" = Ok (ue_to_domain e);
  wr_key_id : optional d_string m "sender_key_id" = Ok (ue_sender_key_id e);
  wr_nonce : optional d_string m "nonce" = Ok (ue_nonce e);
  wr_expiry : optional d_timestamp m "expiry" = Ok (ue_expiry e);
  wr_capability : optional d_value m "capability" = Ok (ue_capability e);
  wr_approval : optional d_value m "approval" = Ok (ue_approval e);
  wr_body : required d_body m "body" = Ok (ue_body e) }.

Lemma wire_of_value_reads m e :
  wire_of_value B (VObject m) = Ok e <-> wire_reads m e.
Proof.
  unfold wire_of_value, struct_fields. split.
  - destruct (visit_map _ m) eqn:Hv; [done|]. intros H.
    repeat match type of H with
           | (try _ := ?c in _) = _ => let E := fresh "E" in destruct c eqn:E; [|discriminate H]
           end.
    injection H as <-. by split.
  - intros [-> -> -> -> -> -> -> -> -> -> -> -> -> -> -> -> -> -> -> -> ->]. by destruct e.
Qed.
End reads.

(** The wire form of a string field that was read. *)
Lemma required_string m k s : required d_string m k = Ok s -> obj_get k m = Some (VString s).
Proof.
  unfold required. destruct (obj_get k m) as [v|]; [|done]. destruct v; try done. by intros [= ->].
Qed.
Lemma required_principal_get m k p :
  required d_principal m k = Ok p -> obj_get k m = Some (v_principal p) /\ principal_ok p.
Proof.
  unfold required, d_principal. destruct (obj_get k m) as [v|]; [|done]. destruct v; try done.
  simpl. destruct (Principal_from_str s) as [p'|] eqn:Hp; [|done]. intros [= ->].
  apply Principal_from_str_sound in Hp as [-> ?]. done.
Qed.
Lemma required_timestamp m k s :
  required d_timestamp m k = Ok s -> obj_get k m = Some (VString s) /\ shallow_validate s = true.
Proof.
  unfold required, d_timestamp. destruct (obj_get k m) as [v|]; [|done]. destruct v; try done.
  simpl. destruct (shallow_validate s0) eqn:Hs; [|done]. by intros [= ->].
Qed.
Lemma optional_string_get m k o :
  optional d_string m k = Ok o ->
  match o with
  | Some s => obj_get k m = Some (VString s)
  | None => obj_get k m = None \/ obj_get k m = Some VNull
  end.
Proof.
  unfold optional, d_option. destruct (obj_get k m) as [v|]; [|intros [= <-]; by left].
  destruct v; try done; intros [= <-]; [by right|done].
Qed.

(** ** Writing and reading back *)
Lemma obj_get_remove {A} k k' (m : list (string * A)) :
  obj_get k (obj_remove k' m) = if String.eqb k k' then None else obj_get k m.
Proof.
  induction m as [|[k1 v] m IH]; simpl; [by destruct (String.eqb k k')|].
  destruct (String.eqb_spec k1 k') as [->|Hne]; simpl; rewrite IH.
  - by destruct (String.eqb k k').
  - destruct (String.eqb_spec k k1) as [->|]; [|done].
    by rewrite (proj2 (String.eqb_neq _ _) Hne).
Qed.

Lemma obj_remove_insert {A} k (v : A) m :
  obj_get k m = None -> obj_remove k (obj_insert k v m) = m.
Proof.
  assert (Hid : forall m : list (string * A), obj_get k m = None -> obj_remove k m = m).
  { clear. induction m as [|[k' v'] m IH]; simpl; [done|].
    destruct (String.eqb_spec k k') as [->|Hne]; [done|]. intros H.
    rewrite (proj2 (String.eqb_neq k' k)) by congruence. simpl. by rewrite IH. }
  induction m as [|[k' v'] m IH]; simpl; intros H; [by rewrite String.eqb_refl|].
  destruct (String.eqb_spec k k') as [->|Hne]; [done|].
  destruct (String.compare k k') eqn:Hc; simpl.
  - by apply String.compare_eq_iff in Hc.
  - rewrite String.eqb_refl. simpl. rewrite (proj2 (String.eqb_neq k' k)) by congruence.
    simpl. by rewrite (Hid m H).
  - rewrite (proj2 (String.eqb_neq k' k)) by congruence. simpl. by rewrite IH.
Qed.

Section roundtrip.
Context `{WLaws : WireLaws} `{CLaws : CryptoLaws} {B : Type} `{BS : BodySchema B} `{SL : !SchemaLaws B}.

(** Envelopes a sender can build: [new] fixes version, scope and class, the
    rest is in range and has no explicit null. *)
Record envelope_ok (e : UnsignedEnvelope B) : Prop := {
  eo_famp : ue_famp e = FAMP_SPEC_VERSION;
  eo_scope : ue_scope e = SCOPE B;
  eo_class : ue_class e = CLASS B;
  eo_id : (ue_id e < 2 ^ 128)%N;
  eo_from : principal_ok (ue_from e);
  eo_to : principal_ok (ue_to e);
  eo_causality : forall c, ue_causality e = Some c -> (ca_referenced c < 2 ^ 128)%N;
  eo_ts : shallow_validate (ue_ts e) = true;
  eo_expiry : forall t, ue_expiry e = Some t -> shallow_validate t = true;
  eo_capability : not_null (ue_capability e);
  eo_approval : not_null (ue_approval e);
  eo_body : body_ok (ue_body e);
  eo_rules : post_decode_validate (ue_body e) (ue_terminal_status e) = Ok tt }.

Lemma message_id_decodes u : (u < 2 ^ 128)%N -> d_message_id (v_message_id u) = Ok u.
Proof.
  intros Hu. unfold d_message_id, v_message_id, MessageId_from_str. simpl d_string. cbv iota.
  by rewrite uuid_text_length, uuid_roundtrip.
Qed.
#[local] Hint Resolve message_id_decodes : decode.

Lemma causality_decodes c :
  (ca_referenced c < 2 ^ 128)%N -> d_causality (v_causality c) = Ok c.
Proof.
  intros Hu. unfold d_causality, v_causality. fields_written Hget.
  req Hget. req Hget. by destruct c.
Qed.
#[local] Hint Resolve causality_decodes body_decodes : decode.

Lemma wire_roundtrip e : envelope_ok e -> wire_of_value B (wire_to_value e) = Ok e.
Proof.
  intros [Hf Hs Hc Hid Hfr Hto Hca Hts Hex Hcap Hap Hb _].
  unfold wire_of_value, wire_to_value, wire_fields. fields_written Hget.
  req Hget. req Hget. req Hget. req Hget. req Hget. req Hget.
  opt Hget. req Hget. req Hget. opt Hget. opt Hget. opt Hget. opt Hget. opt Hget.
  opt Hget. opt Hget. opt Hget. opt Hget. opt Hget. req Hget. by destruct e.
Qed.
Lemma wire_field e k :
  obj_get k (foldr (fun f m => obj_insert f.1 f.2 m) [] (wire_fields e)) = obj_get k (wire_fields e).
Proof. apply obj_get_fields. Qed.

Lemma wire_no_signature e : obj_get SIGNATURE_FIELD (wire_fields e) = None.
Proof. unfold wire_fields. repeat (rewrite ?obj_get_app, ?obj_get_field_opt; simpl). done. Qed.

Lemma decode_signed e sk s :
  envelope_ok e -> sign e sk = Ok s ->
  decode_value B (signed_value s) (verifying_key sk) = Ok s.
Proof.
  intros He. unfold sign. destruct (sign_value sk (wire_to_value e)) as [sg|] eqn:Hs; [|done].
  intros [= <-]. unfold decode_value, signed_value. cbn [inner signature wire_to_value json_obj].
  unfold wire_to_value, json_obj. cbn [as_object].
  rewrite obj_get_insert, String.eqb_refl. cbn [as_str].
  rewrite (sign_value_b64url _ _ _ Hs).
  rewrite obj_remove_insert by (rewrite wire_field; apply wire_no_signature).
  match goal with |- context [verify_value _ ?v _] => change v with (wire_to_value e) end.
  rewrite (sign_verify sk _ sg Hs). cbv iota.
  unfold check_version. rewrite wire_field. change (obj_get "famp" (wire_fields e)) with
    (Some (VString (ue_famp e))). rewrite (eo_famp e He), String.eqb_refl. cbv iota.
  rewrite (wire_roundtrip e He). simpl.
  unfold cross_check. rewrite (eo_class e He), (eo_scope e He).
  rewrite !bool_decide_eq_false_2 by tauto. by rewrite (eo_rules e He).
Qed.
End roundtrip.

(** The six kinds of envelope and the constructor each decodes into. *)
Inductive signed_kind `{WireLib} :
    forall (B : Type), BodySchema B -> (SignedEnvelope B -> AnySignedEnvelope) -> Prop :=
| kind_request : signed_kind RequestBody _ SRequest
| kind_commit : signed_kind CommitBody _ SCommit
| kind_deliver : signed_kind DeliverBody _ SDeliver
| kind_ack : signed_kind AckBody _ SAck
| kind_control : signed_kind ControlBody _ SControl
| kind_audit_log : signed_kind AuditLogBody _ SAuditLog.

(** C31. Signing and verifying are inverse: an envelope a sender can build (of any
    of the six bodies), whose JSON image is within [value_wf] (numbers are
    integers up to 2^53, nesting at most 120), can be signed and encoded, and
    under the signer's public key both decoders, the typed
    [SignedEnvelope::decode] and the dispatching [AnySignedEnvelope::decode],
    read the encoded bytes back as the same envelope and signature, the latter
    under the constructor of its kind. *)
Theorem envelope_roundtrip `{WireLaws} `{CryptoLaws} B `{BS : BodySchema B} `{!SchemaLaws B}
    (e : UnsignedEnvelope B) kind sk :
  signed_kind B BS kind -> envelope_ok e -> value_wf (wire_to_value e) = true ->
  exists s b, sign e sk = Ok s /\ inner s = e /\ encode s = Ok b /\
    decode B b (verifying_key sk) = Ok s /\
    AnySignedEnvelope_decode b (verifying_key sk) = Ok (kind s).
Proof.
  intros Hk He Hwf. pose proof (value_wf_json _ Hwf) as Hj. destruct (canonicalize_total _ Hj) as [c Hc].
  set (sg := sign_canonical_bytes sk c). set (s := mkSigned e sg).
  assert (Hsign : sign e sk = Ok s) by (unfold sign, sign_value; by rewrite Hc).
  assert (Hv : json_wf (signed_value s) = true) by (by apply wf_at_insert).
  destruct (to_vec_total _ Hv) as [b Hb]. exists s, b.
  pose proof (decode_signed e sk s He Hsign) as Hd.
  assert (Hcls : get_str (signed_value s) "class" = Some (MessageClass_display (CLASS B))).
  { rewrite <- (eo_class e He). unfold signed_value, wire_to_value, json_obj, get_str. cbn [get].
    rewrite obj_get_insert. cbn [String.eqb]. rewrite wire_field. reflexivity. }
  unfold encode, decode, AnySignedEnvelope_decode. rewrite Hb, (to_vec_parse_strict _ b Hv Hb).
  cbn [map_err]. rewrite Hcls. split_and!; [done..|].
  destruct Hk; by rewrite Hd.
Qed.

Definition demo_from : Principal := mkPrincipal "a.example" "alice".
Definition demo_to : Principal := mkPrincipal "b.example" "bob".
Definition demo_request : UnsignedEnvelope RequestBody :=
  envelope_new 7 demo_from demo_to CommitLocal "2026-01-01T00:00:00Z"
    (mkRequestBody (VObject [("task", VString "translate")])
       (mkBounds (Some "2026-02-01T00:00:00Z") None (Some 3%N) None None None None None) None).
Definition demo_key : FampSigningKey := mkSigningKey [x01; x02; x03].

Lemma envelope_roundtrip_witness :
  exists s b, sign demo_request demo_key = Ok s /\ inner s = demo_request /\ encode s = Ok b /\
    decode RequestBody b (verifying_key demo_key) = Ok s /\
    AnySignedEnvelope_decode b (verifying_key demo_key) = Ok (SRequest s).
Proof.
  apply (envelope_roundtrip RequestBody demo_request SRequest demo_key);
    [apply kind_request| |vm_compute; reflexivity].
  split; try reflexivity; try discriminate; try (split; reflexivity).
  split; intros n [= <-]; vm_compute; discriminate.
Defined.

(** ** What acceptance means *)
Section sound.
Context `{WL : WireLib} `{CL : CryptoLib} {B : Type} `{BS : BodySchema B}.

(** The object is the envelope's, the version is right, class and scope are the
    body's, and the body's own rules hold. *)
Record accepted (m : list (string * Value)) (e : UnsignedEnvelope B) : Prop := {
  ac_reads : wire_reads m e;
  ac_version : ue_famp e = FAMP_SPEC_VERSION;
  ac_class : ue_class e = CLASS B;
  ac_scope : ue_scope e = SCOPE B;
  ac_rules : post_decode_validate (ue_body e) (ue_terminal_status e) = Ok tt }.

Lemma cross_check_ok (e : UnsignedEnvelope B) :
  cross_check e = Ok tt <->
  ue_class e = CLASS B /\ ue_scope e = SCOPE B /\
  post_decode_validate (ue_body e) (ue_terminal_status e) = Ok tt.
Proof.
  unfold cross_check. case_bool_decide; [naive_solver|]. case_bool_decide; [naive_solver|].
  destruct (decide (ue_class e = CLASS B)), (decide (ue_scope e = SCOPE B)); naive_solver.
Qed.

Lemma check_version_ok m :
  check_version m = Ok tt <-> obj_get "famp" m = Some (VString FAMP_SPEC_VERSION).
Proof.
  unfold check_version. destruct (obj_get "famp" m) as [v|]; [|done]. destruct v; try done.
  destruct (String.eqb_spec s FAMP_SPEC_VERSION) as [->|Hne]; [done|].
  split; [done|]. intros [= ->]. done.
Qed.

(** Both decoders run these checks in this order. *)
Lemma typed_checks (f : SerdeError -> EnvelopeDecodeError) m e :
  (try _ := check_version m in
   try wire := map_err f (wire_of_value B (VObject m)) in
   try _ := cross_check wire in Ok wire) = Ok e <-> accepted m e.
Proof.
  split.
  - destruct (check_version m) as [[]|] eqn:Hv; [|done]. cbv beta iota.
    destruct (wire_of_value B (VObject m)) as [w|] eqn:Hw; [|done]. simpl.
    destruct (cross_check w) as [[]|] eqn:Hc; [|done]. intros [= <-].
    apply cross_check_ok in Hc as (? & ? & ?). apply wire_of_value_reads in Hw.
    split; try done. apply check_version_ok in Hv. pose proof (wr_famp _ _ Hw) as Hf.
    apply required_string in Hf. congruence.
  - intros [Hr Hv Hc Hs Hp]. pose proof (wr_famp _ _ Hr) as Hf. apply required_string in Hf.
    rewrite (proj2 (check_version_ok m)) by congruence. cbv beta iota.
    rewrite (proj2 (wire_of_value_reads m e) Hr). simpl.
    by rewrite (proj2 (cross_check_ok e)) by done.
Qed.

Lemma decode_value_sound v k s :
  decode_value B v k = Ok s ->
  exists obj txt,
    v = VObject obj /\ obj_get SIGNATURE_FIELD obj = Some (VString txt) /\
    sig_from_b64url txt = Ok (signature s) /\
    vouches k (VObject (obj_remove SIGNATURE_FIELD obj)) (signature s) /\
    accepted (obj_remove SIGNATURE_FIELD obj) (inner s).
Proof.
  unfold decode_value. destruct v as [| | | | |obj]; try done. simpl.
  destruct (obj_get SIGNATURE_FIELD obj) as [sv|] eqn:Hg; [|done].
  destruct sv as [| | |txt| |]; try done. simpl.
  destruct (sig_from_b64url txt) as [sg|] eqn:Hsig; [|done].
  destruct (verify_value k _ sg) as [[]|] eqn:Hver; [|done]. intros H.
  assert (accepted (obj_remove SIGNATURE_FIELD obj) (inner s) /\ sg = signature s) as [Ha ->].
  { rewrite <- (typed_checks map_serde_error).
    destruct (check_version _) as [[]|]; [|done]. cbv beta iota in *.
    destruct (wire_of_value _ _) as [w|]; [|done]. simpl in *.
    destruct (cross_check w) as [[]|]; [|done]. by injection H as <-. }
  exists obj, txt. split_and!; try done. apply verify_value_vouches. by rewrite Hver.
Qed.
End sound.

(** ** Without the federation wrapper *)
Section strip.
Context `{WL : WireLib} {B : Type} `{BS : BodySchema B}.

Lemma visit_map_remove specs k m :
  visit_map specs m = None -> visit_map specs (obj_remove k m) = None.
Proof.
  rewrite !visit_map_None. intros H. apply List.Forall_forall. intros kv [Hin _]%filter_In.
  by eapply List.Forall_forall in H.
Qed.

(** The eight keys only a gateway writes. *)
Definition wrapper_keys : list string :=
  ["signature"; "from_domain"; "to_domain"; "sender_key_id"; "nonce"; "expiry";
   "capability"; "approval"].
Definition without_wrapper (m : list (string * Value)) : list (string * Value) :=
  foldl (fun m k => obj_remove k m) m wrapper_keys.

Definition unfederated (e : UnsignedEnvelope B) : UnsignedEnvelope B :=
  mkEnvelope (ue_famp e) (ue_id e) (ue_from e) (ue_to e) (ue_scope e) (ue_class e)
    (ue_causality e) (ue_authority e) (ue_ts e) (ue_terminal_status e) (ue_idempotency_key e)
    (ue_extensions e) None None None None None None None (ue_body e).

Lemma obj_get_without {A} k (m : list (string * A)) keys :
  obj_get k (foldl (fun m k => obj_remove k m) m keys) =
  if existsb (String.eqb k) keys then None else obj_get k m.
Proof.
  revert m. induction keys as [|k' keys IH]; intros m; simpl; [done|].
  rewrite IH, obj_get_remove. destruct (String.eqb k k'); [|done]. by destruct (existsb _ keys).
Qed.

Lemma get_without_wrapper k m :
  existsb (String.eqb k) wrapper_keys = false ->
  obj_get k (without_wrapper m) = obj_get k (obj_remove SIGNATURE_FIELD m).
Proof.
  intros Hk. unfold without_wrapper. rewrite obj_get_without, obj_get_remove, Hk.
  simpl in Hk. apply orb_false_iff in Hk as [Hk _]. unfold SIGNATURE_FIELD. by rewrite Hk.
Qed.
Lemma required_without {A} (d : decoder A) k m :
  existsb (String.eqb k) wrapper_keys = false ->
  required d (without_wrapper m) k = required d (obj_remove SIGNATURE_FIELD m) k.
Proof. intros Hk. unfold required. by rewrite get_without_wrapper. Qed.
Lemma optional_without {A} (d : decoder A) k m :
  existsb (String.eqb k) wrapper_keys = false ->
  optional d (without_wrapper m) k = optional d (obj_remove SIGNATURE_FIELD m) k.
Proof. intros Hk. unfold optional. by rewrite get_without_wrapper. Qed.
Lemma optional_gone {A} (d : decoder A) k m :
  existsb (String.eqb k) wrapper_keys = true -> optional d (without_wrapper m) k = Ok None.
Proof. intros Hk. unfold optional, without_wrapper. by rewrite obj_get_without, Hk. Qed.

Lemma accepted_without_wrapper m e :
  accepted (obj_remove SIGNATURE_FIELD m) e -> accepted (without_wrapper m) (unfederated e).
Proof.
  intros [Hr Hv Hc Hs Hp]. split; try done. destruct Hr. split; try done.
  { unfold without_wrapper. simpl. do 7 apply visit_map_remove. assumption. }
  all: try (rewrite required_without by done; assumption).
  all: try (rewrite optional_without by done; assumption).
  all: by rewrite optional_gone.
Qed.

(** The bus accepts what is left of an accepted envelope. *)
Lemma bus_decode_stripped m e body :
  accepted (obj_remove SIGNATURE_FIELD m) e ->
  from_slice_strict body = Ok (VObject (without_wrapper m)) ->
  bus_decode B body = Ok (unfederated e).
Proof.
  intros Ha Hb. unfold bus_decode. rewrite Hb. simpl map_err. cbv beta iota.
  change (as_object (VObject ?x)) with (Some x). cbv beta iota.
  unfold without_wrapper at 1. rewrite obj_get_without. simpl is_some. cbv iota.
  by apply typed_checks, accepted_without_wrapper.
Qed.
End strip.

(** ** With the federation fields *)
Section federate.
Context `{WL : WireLib} {B : Type} `{BS : BodySchema B}.

Lemma visit_map_insert specs k v m c :
  visit_map specs m = None -> obj_get k specs = Some c -> c v = None ->
  visit_map specs (obj_insert k v m) = None.
Proof.
  rewrite !visit_map_None, !Forall_forall. intros H Hk Hv kv [->|Hin]%obj_insert_elem; [|by apply H].
  simpl. by rewrite Hk.
Qed.
Lemma required_insert {A} (d : decoder A) k k' v m :
  String.eqb k k' = false -> required d (obj_insert k' v m) k = required d m k.
Proof. intros Hk. unfold required. by rewrite obj_get_insert, Hk. Qed.
Lemma optional_insert {A} (d : decoder A) k k' v m :
  String.eqb k k' = false -> optional d (obj_insert k' v m) k = optional d m k.
Proof. intros Hk. unfold optional. by rewrite obj_get_insert, Hk. Qed.
Lemma optional_inserted {A} (d : decoder A) k v a m :
  d v = Ok a -> v <> VNull -> optional d (obj_insert k v m) k = Ok (Some a).
Proof.
  intros Hd Hn. unfold optional. rewrite obj_get_insert, String.eqb_refl.
  unfold d_option. destruct v; try done; by rewrite Hd.
Qed.

Definition with_from_domain (e : UnsignedEnvelope B) (d : string) : UnsignedEnvelope B :=
  mkEnvelope (ue_famp e) (ue_id e) (ue_from e) (ue_to e) (ue_scope e) (ue_class e)
    (ue_causality e) (ue_authority e) (ue_ts e) (ue_terminal_status e) (ue_idempotency_key e)
    (ue_extensions e) (Some d) (ue_to_domain e) (ue_sender_key_id e) (ue_nonce e) (ue_expiry e)
    (ue_capability e) (ue_approval e) (ue_body e).
Definition with_to_domain (e : UnsignedEnvelope B) (d : string) : UnsignedEnvelope B :=
  mkEnvelope (ue_famp e) (ue_id e) (ue_from e) (ue_to e) (ue_scope e) (ue_class e)
    (ue_causality e) (ue_authority e) (ue_ts e) (ue_terminal_status e) (ue_idempotency_key e)
    (ue_extensions e) (ue_from_domain e) (Some d) (ue_sender_key_id e) (ue_nonce e) (ue_expiry e)
    (ue_capability e) (ue_approval e) (ue_body e).
Definition with_sender_key_id (e : UnsignedEnvelope B) (d : string) : UnsignedEnvelope B :=
  mkEnvelope (ue_famp e) (ue_id e) (ue_from e) (ue_to e) (ue_scope e) (ue_class e)
    (ue_causality e) (ue_authority e) (ue_ts e) (ue_terminal_status e) (ue_idempotency_key e)
    (ue_extensions e) (ue_from_domain e) (ue_to_domain e) (Some d) (ue_nonce e) (ue_expiry e)
    (ue_capability e) (ue_approval e) (ue_body e).
Definition with_nonce (e : UnsignedEnvelope B) (d : string) : UnsignedEnvelope B :=
  mkEnvelope (ue_famp e) (ue_id e) (ue_from e) (ue_to e) (ue_scope e) (ue_class e)
    (ue_causality e) (ue_authority e) (ue_ts e) (ue_terminal_status e) (ue_idempotency_key e)
    (ue_extensions e) (ue_from_domain e) (ue_to_domain e) (ue_sender_key_id e) (Some d)
    (ue_expiry e) (ue_capability e) (ue_approval e) (ue_body e).
Definition with_expiry (e : UnsignedEnvelope B) (d : string) : UnsignedEnvelope B :=
  mkEnvelope (ue_famp e) (ue_id e) (ue_from e) (ue_to e) (ue_scope e) (ue_class e)
    (ue_causality e) (ue_authority e) (ue_ts e) (ue_terminal_status e) (ue_idempotency_key e)
    (ue_extensions e) (ue_from_domain e) (ue_to_domain e) (ue_sender_key_id e) (ue_nonce e)
    (Some d) (ue_capability e) (ue_approval e) (ue_body e).

(** Setting one optional text field of an accepted object. *)
Ltac set_field :=
  intros [Hr Hv Hc Hs Hp]; split; try done; destruct Hr; split; try done;
  first [ by (eapply visit_map_insert; [eassumption|reflexivity|reflexivity])
        | by rewrite required_insert by done
        | by rewrite optional_insert by done
        | by apply optional_inserted ].

Lemma accepted_from_domain m e d :
  accepted m e -> accepted (obj_insert "from_domain" (VString d) m) (with_from_domain e d).
Proof. set_field. Qed.
Lemma accepted_to_domain m e d :
  accepted m e -> accepted (obj_insert "to_domain" (VString d) m) (with_to_domain e d).
Proof. set_field. Qed.
Lemma accepted_sender_key_id m e d :
  accepted m e -> accepted (obj_insert "sender_key_id" (VString d) m) (with_sender_key_id e d).
Proof. set_field. Qed.
Lemma accepted_nonce m e d :
  accepted m e -> accepted (obj_insert "nonce" (VString d) m) (with_nonce e d).
Proof. set_field. Qed.
Lemma accepted_expiry m e d :
  shallow_validate d = true ->
  accepted m e -> accepted (obj_insert "expiry" (VString d) m) (with_expiry e d).
Proof.
  intros Hd. assert (Ht : d_timestamp (VString d) = Ok d) by (by apply timestamp_ok).
  assert (fault (d_option d_timestamp) (VString d) = None) by (by eapply fault_some).
  intros [Hr Hv Hc Hs Hp]; split; try done; destruct Hr; split; try done;
  first [ by (eapply visit_map_insert; [eassumption|reflexivity|])
        | by rewrite required_insert by done | by rewrite optional_insert by done
        | by apply optional_inserted ].
Qed.
End federate.

(** The signed and the bus dispatcher pick the same body from the same class. *)
Section dispatch.
Context `{WL : WireLib} `{CL : CryptoLib}.

(** An accepted envelope, seen through its class: [P] of its typed form. *)
Definition any_typed (P : forall B, BodySchema B -> SignedEnvelope B -> Prop)
    (env : AnySignedEnvelope) : Prop :=
  match env with
  | SRequest e => P _ request_schema e | SCommit e => P _ commit_schema e
  | SDeliver e => P _ deliver_schema e | SAck e => P _ ack_schema e
  | SControl e => P _ control_schema e | SAuditLog e => P _ audit_log_schema e
  end.

Definition accepted_by (k : TrustedVerifyingKey) (obj : list (string * Value))
    (B : Type) (BS : BodySchema B) (s : SignedEnvelope B) : Prop :=
  obj_get "class" obj = Some (VString (MessageClass_display (CLASS B))) /\
  (exists txt, obj_get SIGNATURE_FIELD obj = Some (VString txt) /\
     sig_from_b64url txt = Ok (signature s)) /\
  vouches k (VObject (obj_remove SIGNATURE_FIELD obj)) (signature s) /\
  accepted (obj_remove SIGNATURE_FIELD obj) (inner s).

Lemma any_decode_sound body k env :
  AnySignedEnvelope_decode body k = Ok env ->
  exists obj, from_slice_strict body = Ok (VObject obj) /\ any_typed (accepted_by k obj) env.
Proof.
  unfold AnySignedEnvelope_decode. destruct (from_slice_strict body) as [v|]; [|done]. simpl.
  destruct (get_str v "class") as [cls|] eqn:Hcls; [|done].
  assert (Hmain : forall B (BS : BodySchema B) (s : SignedEnvelope B),
    decode_value B v k = Ok s -> cls = MessageClass_display (CLASS B) ->
    exists obj, Ok v = Ok (A := Value) (E := string) (VObject obj) /\ accepted_by k obj B BS s).
  { intros B BS s Hs ->. apply decode_value_sound in Hs as (obj & txt & -> & ? & ? & ? & ?).
    exists obj. split; [done|]. unfold get_str in Hcls. simpl in Hcls.
    destruct (obj_get "class" obj) as [[]|] eqn:Hg; try done. simpl in Hcls. injection Hcls as ->.
    split_and!; eauto. }
  repeat match goal with
  | |- context [if String.eqb cls ?c then _ else _] =>
      destruct (String.eqb_spec cls c);
      [match goal with |- context [decode_value ?B v k] =>
         destruct (decode_value B v k) as [s|] eqn:Hd; [|done]; intros [= <-];
         apply (Hmain _ _ s Hd); done end|]
  end. done.
Qed.

Lemma any_bus_of_signed k env obj body' :
  any_typed (accepted_by k obj) env ->
  from_slice_strict body' = Ok (VObject (without_wrapper obj)) ->
  is_ok (AnyBusEnvelope_decode body') = true.
Proof.
  intros He Hb. unfold AnyBusEnvelope_decode. rewrite Hb. simpl map_err. cbv beta iota.
  assert (Hcls : forall c, obj_get "class" obj = Some (VString c) ->
    get_str (VObject (without_wrapper obj)) "class" = Some c).
  { intros c Hc. change (obj_get "class" (without_wrapper obj) ≫= as_str = Some c).
    unfold without_wrapper. by rewrite obj_get_without, Hc. }
  destruct env as [s|s|s|s|s|s]; destruct He as (Hc & _ & _ & Ha); rewrite (Hcls _ Hc);
    cbn -[bus_decode]; by rewrite (bus_decode_stripped _ _ _ Ha Hb).
Qed.

(** An object without the signature that the bus accepts, and whose signed form
    the key vouches for, is an envelope the signed dispatcher accepts. *)
Lemma decode_value_complete B (BS : BodySchema B) obj k txt sg (e : UnsignedEnvelope B) :
  obj_get SIGNATURE_FIELD obj = Some (VString txt) -> sig_from_b64url txt = Ok sg ->
  verify_value k (VObject (obj_remove SIGNATURE_FIELD obj)) sg = Ok tt ->
  accepted (obj_remove SIGNATURE_FIELD obj) e ->
  decode_value B (VObject obj) k = Ok (mkSigned e sg).
Proof.
  intros Hg Hs Hv Ha. unfold decode_value. cbn [as_object]. rewrite Hg. cbn [as_str].
  rewrite Hs, Hv. apply (typed_checks map_serde_error) in Ha.
  destruct (check_version _) as [[]|]; [|done]. cbv beta iota in *.
  destruct (wire_of_value _ _) as [w|]; [|done]. simpl in *.
  destruct (cross_check w) as [[]|]; [|done]. by injection Ha as ->.
Qed.

Lemma bus_decode_sound B (BS : BodySchema B) line obj (e : UnsignedEnvelope B) :
  from_slice_strict line = Ok (VObject obj) -> bus_decode B line = Ok e ->
  obj_get "signature" obj = None /\ accepted obj e.
Proof.
  intros Hl. unfold bus_decode. rewrite Hl. simpl map_err. cbv beta iota. cbn [as_object].
  destruct (is_some (obj_get "signature" obj)) eqn:Hs; [done|].
  apply is_some_false in Hs. intros H. split; [done|].
  apply (typed_checks (fun e => BodyValidation (serde_text e))). exact H.
Qed.

(** The bus form of an envelope, seen through its class. *)
Definition bus_typed (P : forall B, BodySchema B -> UnsignedEnvelope B -> Prop)
    (env : AnyBusEnvelope) : Prop :=
  match env with
  | BRequest e => P _ request_schema e | BCommit e => P _ commit_schema e
  | BDeliver e => P _ deliver_schema e | BAck e => P _ ack_schema e
  | BControl e => P _ control_schema e | BAuditLog e => P _ audit_log_schema e
  end.

Definition bus_accepted (obj : list (string * Value)) (B : Type) (BS : BodySchema B)
    (e : UnsignedEnvelope B) : Prop :=
  obj_get "class" obj = Some (VString (MessageClass_display (CLASS B))) /\
  obj_get "signature" obj = None /\ accepted obj e.

Lemma any_bus_sound line obj :
  from_slice_strict line = Ok (VObject obj) -> is_ok (AnyBusEnvelope_decode line) = true ->
  exists env, AnyBusEnvelope_decode line = Ok env /\ bus_typed (bus_accepted obj) env.
Proof.
  intros Hl. destruct (AnyBusEnvelope_decode line) as [env|] eqn:He; [|done]. intros _.
  exists env. split; [done|]. revert He. unfold AnyBusEnvelope_decode. rewrite Hl.
  simpl map_err. cbv beta iota.
  destruct (get_str (VObject obj) "class") as [cls|] eqn:Hcls; [|done].
  unfold get_str in Hcls. cbn [get] in Hcls.
  destruct (obj_get "class" obj) as [[]|] eqn:Hg; try done. injection Hcls as ->.
  repeat match goal with
  | |- context [if String.eqb cls ?c then _ else _] =>
      destruct (String.eqb_spec cls c) as [->|];
      [match goal with |- context [bus_decode ?B line] =>
         destruct (bus_decode B line) as [e|] eqn:Hd; [|done]; intros [= <-];
         destruct (bus_decode_sound _ _ _ _ _ Hl Hd); split_and!; done end|]
  end. done.
Qed.

(** Conversely, whatever some body schema accepts in its class decodes. *)
Lemma bus_decode_complete B (BS : BodySchema B) line obj (e : UnsignedEnvelope B) :
  from_slice_strict line = Ok (VObject obj) -> bus_accepted obj B BS e -> bus_decode B line = Ok e.
Proof.
  intros Hl (_ & Hs & Ha). unfold bus_decode. rewrite Hl. simpl map_err. cbv beta iota.
  cbn [as_object]. rewrite Hs. cbn [is_some]. by apply typed_checks.
Qed.

Lemma any_bus_complete line obj env :
  from_slice_strict line = Ok (VObject obj) -> bus_typed (bus_accepted obj) env ->
  AnyBusEnvelope_decode line = Ok env.
Proof.
  intros Hl He. unfold AnyBusEnvelope_decode. rewrite Hl. simpl map_err. cbv beta iota.
  unfold get_str. cbn [get].
  destruct env as [e|e|e|e|e|e]; pose proof (bus_decode_complete _ _ line obj e Hl He) as Hd;
    destruct He as (Hc & _); rewrite Hc; cbn -[bus_decode]; by rewrite Hd.
Qed.

(** A well-formed envelope, written out, is accepted in its class. *)
Lemma written_accepted `{!WireLaws} B (BS : BodySchema B) (SL : SchemaLaws B) (e : UnsignedEnvelope B) :
  envelope_ok e ->
  bus_accepted (foldr (fun f m => obj_insert f.1 f.2 m) [] (wire_fields e)) B BS e.
Proof.
  intros Hok. pose proof (wire_roundtrip e Hok) as Hw. destruct Hok. split; [|split].
  - rewrite wire_field. unfold wire_fields. simpl. by rewrite eo_class0.
  - rewrite wire_field. apply wire_no_signature.
  - split; try done. exact (proj1 (wire_of_value_reads _ _) Hw).
Qed.

(** Signing what the bus accepted, with some of its fields changed. *)
Definition signed_of (F : forall B, UnsignedEnvelope B -> UnsignedEnvelope B) (sg : FampSignature)
    (env : AnyBusEnvelope) : AnySignedEnvelope :=
  match env with
  | BRequest e => SRequest (mkSigned (F _ e) sg) | BCommit e => SCommit (mkSigned (F _ e) sg)
  | BDeliver e => SDeliver (mkSigned (F _ e) sg) | BAck e => SAck (mkSigned (F _ e) sg)
  | BControl e => SControl (mkSigned (F _ e) sg) | BAuditLog e => SAuditLog (mkSigned (F _ e) sg)
  end.

Lemma any_signed_complete F env obj obj' body k txt sg :
  bus_typed (bus_accepted obj) env ->
  (forall B (BS : BodySchema B) (e : UnsignedEnvelope B),
     accepted obj e -> accepted (obj_remove SIGNATURE_FIELD obj') (F B e)) ->
  obj_get "class" obj' = obj_get "class" obj ->
  from_slice_strict body = Ok (VObject obj') ->
  obj_get SIGNATURE_FIELD obj' = Some (VString txt) -> sig_from_b64url txt = Ok sg ->
  verify_value k (VObject (obj_remove SIGNATURE_FIELD obj')) sg = Ok tt ->
  AnySignedEnvelope_decode body k = Ok (signed_of F sg env).
Proof.
  intros He HF Hcls Hb Hg Hs Hv. unfold AnySignedEnvelope_decode. rewrite Hb.
  simpl map_err. cbv beta iota. unfold get_str. cbn [get].
  destruct env as [e|e|e|e|e|e]; destruct He as (Hc & _ & Ha); rewrite Hcls, Hc;
    cbn -[decode_value];
    by rewrite (decode_value_complete _ _ obj' k txt sg _ Hg Hs Hv (HF _ _ _ Ha)).
Qed.
End dispatch.
