(* ===== verification/Mailbox.v ===== *)
(** * Mailboxes

    The [MailboxRead] contract of [crates/famp-bus/src/mailbox.rs], its
    in-memory implementation, and the production implementation over JSONL
    files ([crates/famp/src/cli/broker/mailbox_env.rs] reading,
    [crates/famp-inbox/src/append.rs] appending), with the theorem that the two
    agree on every cursor. *)

From Stdlib Require Import Strings.Byte.
From stdpp Require Import gmap strings list fin_maps sorting.
From S2P Require Import Prelude Json Proto.

(** The single trailing newline of a JSONL record. *)
Definition JSONL_RECORD_TERMINATOR_LEN : N := 1%N.

Record DrainedRecord := mkRecord {
  rec_bytes : bytes;   (* payload, without its newline *)
  rec_start : N;       (* absolute offset of the first byte *)
  rec_end : N          (* one past the terminating newline *)
}.

Record DrainResult := mkDrain {
  dr_records : list DrainedRecord;
  dr_next_offset : N
}.

Inductive MailboxErr :=
| MbNotFound (name : MailboxName)
| MbInternal (msg : string).

(** The [thiserror] display strings. *)
Definition MailboxErr_display (e : MailboxErr) : string :=
  match e with
  | MbNotFound name => "mailbox " +:+ MailboxName_display name +:+ " does not exist"
  | MbInternal msg => "internal mailbox error: " +:+ msg
  end.

(** ** The broker's read environment: [env.rs], [liveness.rs]

    [BrokerEnv = MailboxRead + LivenessProbe]. *)
Record BrokerEnv := mkEnv {
  drain_from : MailboxName -> N -> result DrainResult MailboxErr;
  is_alive : N -> bool
}.

(** [AlwaysAliveLiveness] and [FakeLiveness]. *)
Definition always_alive (pid : N) : bool := true.
Definition FakeLiveness := gset N.
Definition fake_mark_dead (d : FakeLiveness) (pid : N) : FakeLiveness := {[pid]} ∪ d.
Definition fake_mark_alive (d : FakeLiveness) (pid : N) : FakeLiveness := d ∖ {[pid]}.
Definition fake_is_alive (d : FakeLiveness) (pid : N) : bool := negb (bool_decide (pid ∈ d)).

(** ** [InMemoryMailbox] *)
Abbreviation InMemoryMailbox := (gmap MailboxName (list bytes)) (only parsing).

Definition mem_append (m : InMemoryMailbox) (name : MailboxName) (line : bytes)
  : InMemoryMailbox :=
  <[name := default [] (m !! name) ++ [line]]> m.

(** Leaves a present-but-empty mailbox; an absent one stays absent. *)
Definition mem_truncate (m : InMemoryMailbox) (name : MailboxName) : InMemoryMailbox :=
  match m !! name with Some _ => <[name := []]> m | None => m end.

Definition line_size (line : bytes) : N := (blen line + JSONL_RECORD_TERMINATOR_LEN)%N.

Definition mem_total (entries : list bytes) : N :=
  foldr (fun l t => (line_size l + t)%N) 0%N entries.

(** The scan loop of [drain_from]: returns the records at or after [since]
    and the final cursor. *)
Fixpoint mem_scan (since cursor : N) (entries : list bytes) : list DrainedRecord * N :=
  match entries with
  | [] => ([], cursor)
  | line :: rest =>
      let next := (cursor + line_size line)%N in
      let '(rs, e) := mem_scan since next rest in
      ((if (since <=? cursor)%N then [mkRecord line cursor next] else []) ++ rs, e)
  end.

(** [drain_from] on the entries of one mailbox. *)
Definition mem_drain_entries (entries : list bytes) (since : N) : DrainResult :=
  let total := mem_total entries in
  if (total <=? since)%N then mkDrain [] total
  else let '(rs, e) := mem_scan since 0 entries in mkDrain rs e.

Definition mem_drain_from (m : InMemoryMailbox) (name : MailboxName) (since : N)
  : result DrainResult MailboxErr :=
  match m !! name with
  | None => Ok (mkDrain [] since)
  | Some entries => Ok (mem_drain_entries entries since)
  end.

(** ** The production reader: [read_raw_from]

    [std::fs::read(path)] is the file's state when the call runs. *)
Inductive FileRead :=
| FileBytes (b : bytes)
| FileMissing
| FileIoError (msg : string).

(** [iter().position(|&b| b == b'\n')]. *)
Fixpoint position_newline (b : bytes) : option nat :=
  match b with
  | [] => None
  | x :: b => if decide (x = NEWLINE) then Some 0 else S <$> position_newline b
  end.

(** The [while cursor < total] loop.  Every iteration moves [cursor] past a
    newline, so [length bytes] iterations suffice ([raw_loop_fuel] below). *)
Fixpoint raw_loop (fuel : nat) (bs : bytes) (cursor : nat) (running : N)
  (records : list DrainedRecord) : list DrainedRecord * N :=
  match fuel with
  | O => (records, running)
  | S fuel =>
      if (cursor <? length bs)%nat then
        match position_newline (drop cursor bs) with
        | None => (records, running)
        | Some rel =>
            let line_end := (cursor + rel)%nat in
            let record_start := running in
            let running' := (running + (N.of_nat rel + JSONL_RECORD_TERMINATOR_LEN))%N in
            raw_loop fuel bs (line_end + 1)%nat running'
              (records ++ [mkRecord (take rel (drop cursor bs)) record_start running'])
        end
      else (records, running)
  end.

Definition read_raw_bytes (bs : bytes) (since : N) : DrainResult :=
  let file_len := blen bs in
  if (file_len <=? since)%N then mkDrain [] file_len
  else
    let start := N.to_nat since in
    let snapped :=
      if (start =? 0)%nat || bool_decide (bs !! (start - 1)%nat = Some NEWLINE)
      then Some start
      else match position_newline (drop start bs) with
           | Some off => Some (start + off + 1)%nat
           | None => None
           end in
    match snapped with
    | None => mkDrain [] file_len
    | Some snapped =>
        if (length bs <=? snapped)%nat then mkDrain [] file_len
        else
          let '(records, running) :=
            raw_loop (length bs) bs snapped (N.of_nat snapped) [] in
          mkDrain records running
    end.

Definition read_raw_from (file : FileRead) (since : N) : result DrainResult MailboxErr :=
  match file with
  | FileMissing => Ok (mkDrain [] since)
  | FileIoError msg => Err (MbInternal msg)
  | FileBytes bs => Ok (read_raw_bytes bs since)
  end.

(** ** The production writer: [Inbox::append]

    Rejects a payload with a raw newline before touching the file; otherwise
    the payload and one newline land at EOF. *)
Inductive InboxError := EmbeddedNewline.

Definition inbox_append (file : bytes) (line : bytes) : result bytes InboxError :=
  if bool_decide (NEWLINE ∈ line) then Err EmbeddedNewline
  else Ok (file ++ line ++ [NEWLINE]).

(** [DiskMailboxEnv::mailbox_path], the file name below [mailboxes/]. *)
Definition mailbox_path (name : MailboxName) : string :=
  MailboxName_display name +:+ ".jsonl".

(** [DiskMailboxEnv::is_alive]: [kill(pid, 0)] answers for positive [i32] pids. *)
Definition disk_is_alive (kill0 : N -> bool) (pid : N) : bool :=
  if (pid =? 0)%N then false
  else if (2147483648 <=? pid)%N then false
  else kill0 pid.

(** ** The contract between mailboxes and the broker

    Drained records are contiguous and the drain's [next_offset] is the end of
    the last one. *)
Fixpoint chain (o : N) (rs : list DrainedRecord) (e : N) : Prop :=
  match rs with
  | [] => o = e
  | r :: rs =>
      rec_start r = o /\ rec_end r = (o + line_size (rec_bytes r))%N /\
      chain (rec_end r) rs e
  end.

Definition drain_contract (since : N) (d : DrainResult) : Prop :=
  dr_records d = [] \/
  exists o, (since <= o)%N /\ chain o (dr_records d) (dr_next_offset d).

(** What the broker's theorems assume of its environment. *)
Class MailboxReadOk (env : BrokerEnv) : Prop :=
  drain_from_contract name since d :
    drain_from env name since = Ok d -> drain_contract since d.

(** The records of consecutive lines laid out from offset [o]. *)
Fixpoint recs_from (o : N) (lines : list bytes) : list DrainedRecord :=
  match lines with
  | [] => []
  | l :: ls => mkRecord l o (o + line_size l) :: recs_from (o + line_size l) ls
  end.

(** The file that holds [lines]. *)
Definition jsonl (lines : list bytes) : bytes :=
  concat (map (fun l => l ++ [NEWLINE]) lines).

Lemma line_size_pos l : (0 < line_size l)%N.
Proof. unfold line_size, JSONL_RECORD_TERMINATOR_LEN. lia. Qed.

Lemma mem_total_cons l ls : mem_total (l :: ls) = (line_size l + mem_total ls)%N.
Proof. done. Qed.

Lemma mem_total_app a b : mem_total (a ++ b) = (mem_total a + mem_total b)%N.
Proof. induction a as [|x a IH]; simpl; [done|]. rewrite IH. lia. Qed.

Lemma chain_recs_from o lines : chain o (recs_from o lines) (o + mem_total lines).
Proof.
  revert o. induction lines as [|l ls IH]; intros o; simpl; [lia|].
  split_and!; [done..|]. specialize (IH (o + line_size l)%N).
  by rewrite <- N.add_assoc in IH.
Qed.

Lemma chain_app o rs rs' e :
  chain o (rs ++ rs') e <-> exists m, chain o rs m /\ chain m rs' e.
Proof.
  revert o. induction rs as [|r rs IH]; intros o; simpl; [naive_solver|].
  rewrite IH. naive_solver.
Qed.

Lemma chain_le o rs e : chain o rs e -> (o <= e)%N.
Proof.
  revert o. induction rs as [|r rs IH]; intros o; simpl; [lia|].
  intros (_ & He & Hc). apply IH in Hc. lia.
Qed.

Lemma chain_lt o rs e : chain o rs e -> rs <> [] -> (o < e)%N.
Proof.
  destruct rs as [|r rs]; [done|]. intros (_ & He & Hc%chain_le) _.
  pose proof (line_size_pos (rec_bytes r)). lia.
Qed.

(** *** The in-memory scan *)
Lemma mem_scan_after since cursor entries :
  (since <= cursor)%N ->
  mem_scan since cursor entries = (recs_from cursor entries, (cursor + mem_total entries)%N).
Proof.
  revert cursor. induction entries as [|l ls IH]; intros cursor Hle; simpl.
  - by rewrite N.add_0_r.
  - pose proof (line_size_pos l). rewrite IH by lia.
    assert ((since <=? cursor)%N = true) as -> by lia. simpl.
    by rewrite N.add_assoc.
Qed.

Lemma mem_scan_skip since cursor pre rest :
  (cursor + mem_total pre <= since)%N ->
  mem_scan since cursor (pre ++ rest) = mem_scan since (cursor + mem_total pre) rest.
Proof.
  revert cursor. induction pre as [|l ls IH]; intros cursor; simpl.
  - by rewrite N.add_0_r.
  - intros Hle. pose proof (line_size_pos l). rewrite IH by lia.
    assert ((since <=? cursor)%N = false) as -> by lia. simpl.
    rewrite N.add_assoc. by destruct (mem_scan _ _ rest).
Qed.

(** Every offset below the end falls in exactly one line. *)
Lemma offset_split lines since :
  (since < mem_total lines)%N ->
  exists pre l post, lines = pre ++ l :: post /\
    (mem_total pre <= since < mem_total pre + line_size l)%N.
Proof.
  induction lines as [|x ls IH] using rev_ind; simpl; [lia|].
  rewrite mem_total_app. simpl. intros Hlt.
  destruct (decide (since < mem_total ls)%N) as [H|H].
  - destruct (IH H) as (pre & l & post & -> & ?).
    exists pre, l, (post ++ [x]). by rewrite <- app_assoc.
  - exists ls, x, []. split; [done|lia].
Qed.

Lemma mem_drain_at pre post :
  mem_drain_entries (pre ++ post) (mem_total pre) =
  mkDrain (recs_from (mem_total pre) post) (mem_total (pre ++ post)).
Proof.
  unfold mem_drain_entries. rewrite mem_total_app. case_match eqn:E.
  - destruct post as [|l ls]; simpl in *; [done|]. pose proof (line_size_pos l). lia.
  - rewrite mem_scan_skip by lia. rewrite N.add_0_l.
    by rewrite mem_scan_after by lia.
Qed.

Lemma mem_drain_inside pre l post since :
  (mem_total pre < since < mem_total pre + line_size l)%N ->
  mem_drain_entries (pre ++ l :: post) since =
  mkDrain (recs_from (mem_total pre + line_size l) post) (mem_total (pre ++ l :: post)).
Proof.
  intros H. unfold mem_drain_entries. rewrite mem_total_app. simpl.
  assert ((mem_total pre + (line_size l + mem_total post) <=? since)%N = false) as -> by lia.
  rewrite mem_scan_skip by lia. rewrite N.add_0_l. simpl.
  rewrite mem_scan_after by lia.
  assert ((since <=? mem_total pre)%N = false) as -> by lia. simpl. f_equal; lia.
Qed.

Lemma mem_drain_past lines since :
  (mem_total lines <= since)%N -> mem_drain_entries lines since = mkDrain [] (mem_total lines).
Proof. intros H. unfold mem_drain_entries. case_match eqn:E; [done|lia]. Qed.

Lemma mem_drain_contract lines since : drain_contract since (mem_drain_entries lines since).
Proof.
  destruct (decide (mem_total lines <= since)%N) as [H|H].
  { left. by rewrite mem_drain_past. }
  destruct (offset_split lines since) as (pre & l & post & -> & Hb); [lia|].
  right. destruct (decide (mem_total pre = since)) as [<-|Hne].
  - exists (mem_total pre). rewrite mem_drain_at. split; [lia|].
    cbn [dr_records dr_next_offset]. rewrite mem_total_app. apply chain_recs_from.
  - exists (mem_total pre + line_size l)%N. rewrite mem_drain_inside by lia.
    split; [lia|]. cbn [dr_records dr_next_offset].
    rewrite mem_total_app. cbn [mem_total foldr]. rewrite N.add_assoc.
    apply chain_recs_from.
Qed.

#[export] Instance mem_env_ok (m : gmap MailboxName (list bytes)) alive :
  MailboxReadOk (mkEnv (mem_drain_from m) alive).
Proof.
  intros name since d. simpl. unfold mem_drain_from. case_match; intros [= <-].
  - apply mem_drain_contract.
  - by left.
Qed.

(** *** The file reader *)
Lemma blen_jsonl lines : blen (jsonl lines) = mem_total lines.
Proof.
  induction lines as [|l ls IH]; [done|].
  unfold jsonl in *. cbn [map concat]. rewrite !blen_app, IH, mem_total_cons. done.
Qed.

Lemma jsonl_app a b : jsonl (a ++ b) = jsonl a ++ jsonl b.
Proof. unfold jsonl. by rewrite map_app, concat_app. Qed.

Lemma position_newline_line l rest :
  NEWLINE ∉ l -> position_newline (l ++ NEWLINE :: rest) = Some (length l).
Proof.
  induction l as [|x l IH]; cbn [position_newline app length]; intros Hn.
  - by rewrite decide_True.
  - apply not_elem_of_cons in Hn as [Hx Hl].
    rewrite decide_False by done. by rewrite IH.
Qed.

Lemma position_newline_lt b n : position_newline b = Some n -> (n < length b)%nat.
Proof.
  revert n. induction b as [|x b IH]; intros n; cbn [position_newline length]; [done|].
  case_decide; [intros [= <-]; lia|].
  destruct (position_newline b) as [k|]; simpl; [|done].
  intros [= <-]. specialize (IH k eq_refl). lia.
Qed.

Lemma raw_loop_lines fuel pre post running acc :
  Forall (fun l => NEWLINE ∉ l) post ->
  (length post <= fuel)%nat ->
  raw_loop fuel (jsonl (pre ++ post)) (length (jsonl pre)) running acc =
  (acc ++ recs_from running post, (running + mem_total post)%N).
Proof.
  revert pre post running acc. induction fuel as [|fuel IH]; intros pre post running acc Hnl Hf.
  { destruct post; simpl in *; [|lia]. by rewrite app_nil_r, N.add_0_r. }
  destruct post as [|l post]; simpl raw_loop.
  { rewrite app_nil_r. rewrite (proj2 (Nat.ltb_ge _ _)) by lia.
    simpl. by rewrite app_nil_r, N.add_0_r. }
  inversion_clear Hnl as [|? ? Hl Hp]. simpl in Hf.
  rewrite (jsonl_app pre (l :: post)).
  assert (jsonl (l :: post) = l ++ NEWLINE :: jsonl post) as ->.
  { unfold jsonl. simpl. by rewrite <- app_assoc. }
  rewrite (proj2 (Nat.ltb_lt _ _)) by (rewrite !length_app; simpl; lia).
  rewrite drop_app_length, position_newline_line by done.
  rewrite take_app_length.
  assert (jsonl pre ++ l ++ NEWLINE :: jsonl post = jsonl ((pre ++ [l]) ++ post)) as ->.
  { rewrite !jsonl_app. unfold jsonl at 4. simpl. by rewrite <- !app_assoc. }
  replace (length (jsonl pre) + length l + 1)%nat with (length (jsonl (pre ++ [l]))).
  2:{ rewrite jsonl_app. unfold jsonl at 2. simpl. rewrite !length_app. simpl. lia. }
  rewrite IH by (done || lia). simpl. unfold line_size, blen.
  rewrite <- app_assoc. simpl. f_equal. lia.
Qed.

Lemma raw_loop_chain fuel bs cursor running acc rs e :
  raw_loop fuel bs cursor running acc = (rs, e) ->
  exists new, rs = acc ++ new /\ chain running new e.
Proof.
  revert cursor running acc. induction fuel as [|fuel IH]; intros cursor running acc; simpl.
  { intros [= <- <-]. exists []. by rewrite app_nil_r. }
  case_match eqn:Ec; [|intros [= <- <-]; exists []; by rewrite app_nil_r].
  destruct (position_newline (drop cursor bs)) as [rel|] eqn:Ep.
  2:{ intros [= <- <-]; exists []; by rewrite app_nil_r. }
  intros (new & -> & Hc)%IH. rewrite <- app_assoc.
  eexists. split; [done|]. simpl. split_and!; [done| |done].
  apply position_newline_lt in Ep. unfold line_size, blen.
  rewrite length_take. lia.
Qed.

(** [length bs] iterations always suffice: more fuel never changes the result. *)
Lemma raw_loop_fuel fuel extra bs cursor running acc :
  (length bs - cursor <= fuel)%nat ->
  raw_loop (fuel + extra) bs cursor running acc = raw_loop fuel bs cursor running acc.
Proof.
  revert cursor running acc. induction fuel as [|fuel IH]; intros cursor running acc Hf; simpl.
  - destruct extra as [|extra]; simpl; [done|].
    by rewrite (proj2 (Nat.ltb_ge _ _)) by lia.
  - case_match; [|done]. case_match; [|done]. apply IH.
    match goal with H : (_ <? _)%nat = true |- _ => apply Nat.ltb_lt in H end. lia.
Qed.

Lemma read_raw_contract bs since : drain_contract since (read_raw_bytes bs since).
Proof.
  unfold read_raw_bytes. case_match; [by left|].
  set (snapped := if _ || _ then _ else _).
  assert (Hsnap : forall n, snapped = Some n -> (N.to_nat since <= n)%nat).
  { subst snapped. repeat case_match; intros ? [= <-]; lia. }
  destruct snapped as [n|]; [|by left]. specialize (Hsnap n eq_refl).
  case_match; [by left|]. destruct (raw_loop _ _ _ _ _) as [rs e] eqn:El.
  apply raw_loop_chain in El as (new & -> & Hc).
  right. exists (N.of_nat n). split; [lia|]. done.
Qed.

#[export] Instance disk_env_ok (read : string -> FileRead) alive :
  MailboxReadOk (mkEnv (fun name => read_raw_from (read (mailbox_path name))) alive).
Proof.
  intros name since d. simpl. unfold read_raw_from.
  case_match; intros [= <-]; [apply read_raw_contract|by left].
Qed.

Lemma jsonl_cons l ls : jsonl (l :: ls) = l ++ NEWLINE :: jsonl ls.
Proof. unfold jsonl. simpl. by rewrite <- app_assoc. Qed.

Lemma length_jsonl lines : length (jsonl lines) = N.to_nat (mem_total lines).
Proof. rewrite <- blen_jsonl. unfold blen. lia. Qed.

Lemma length_lines_le lines : (length lines <= length (jsonl lines))%nat.
Proof.
  induction lines as [|l ls IH]; [done|]. rewrite jsonl_cons, length_app. simpl. lia.
Qed.

Lemma read_raw_at pre post :
  Forall (fun l => NEWLINE ∉ l) post ->
  read_raw_bytes (jsonl (pre ++ post)) (mem_total pre) =
  mkDrain (recs_from (mem_total pre) post) (mem_total (pre ++ post)).
Proof.
  intros Hnl. unfold read_raw_bytes. rewrite blen_jsonl, mem_total_app.
  case_match eqn:E.
  { destruct post as [|l ls]; [done|]. rewrite mem_total_cons in E.
    pose proof (line_size_pos l). lia. }
  assert ((N.to_nat (mem_total pre) =? 0)%nat
    || bool_decide (jsonl (pre ++ post) !! (N.to_nat (mem_total pre) - 1)%nat
                    = Some NEWLINE) = true) as ->.
  { destruct pre as [|l pre _] using rev_ind; [done|]. apply orb_true_iff. right.
    apply bool_decide_eq_true_2. rewrite <- length_jsonl, !jsonl_app.
    rewrite (jsonl_cons l []), <- !app_assoc, !length_app. simpl length.
    rewrite !lookup_app_r by lia.
    replace (_ - _ - _ - _)%nat with 0%nat by lia. done. }
  rewrite <- length_jsonl. rewrite (proj2 (Nat.leb_gt _ _)).
  2:{ rewrite !length_jsonl, mem_total_app. lia. }
  rewrite raw_loop_lines; [|done|].
  2:{ rewrite jsonl_app, length_app. pose proof (length_lines_le post). lia. }
  rewrite length_jsonl. by rewrite N2Nat.id.
Qed.

Lemma read_raw_inside pre l post since :
  Forall (fun l => NEWLINE ∉ l) (l :: post) ->
  (mem_total pre < since < mem_total pre + line_size l)%N ->
  read_raw_bytes (jsonl (pre ++ l :: post)) since =
  mkDrain (recs_from (mem_total pre + line_size l) post) (mem_total (pre ++ l :: post)).
Proof.
  intros [Hl Hp]%Forall_cons Hb. unfold read_raw_bytes.
  rewrite blen_jsonl, mem_total_app, mem_total_cons.
  rewrite (proj2 (N.leb_gt _ _)) by lia.
  set (k := (N.to_nat since - length (jsonl pre))%nat).
  assert (Hk : (0 < k <= length l)%nat).
  { subst k. rewrite length_jsonl. unfold line_size, JSONL_RECORD_TERMINATOR_LEN, blen in Hb. lia. }
  assert (Hs : N.to_nat since = (length (jsonl pre) + k)%nat).
  { subst k. rewrite length_jsonl. lia. }
  rewrite Hs.
  assert (((length (jsonl pre) + k =? 0)%nat
    || bool_decide (jsonl (pre ++ l :: post) !! (length (jsonl pre) + k - 1)%nat
                    = Some NEWLINE)) = false) as ->.
  { apply orb_false_iff. split; [lia|]. apply bool_decide_eq_false_2.
    rewrite jsonl_app, jsonl_cons, lookup_app_r by lia. rewrite lookup_app_l by lia.
    intros Hin. apply Hl. by eapply list_elem_of_lookup_2. }
  assert (drop (length (jsonl pre) + k) (jsonl (pre ++ l :: post)) =
          drop k l ++ NEWLINE :: jsonl post) as ->.
  { rewrite jsonl_app, jsonl_cons, drop_app_add'; [|done].
    rewrite drop_app_le by lia. done. }
  rewrite position_newline_line.
  2:{ intros Hin. apply Hl. rewrite <- (take_drop k l). apply elem_of_app. by right. }
  rewrite length_drop.
  replace (length (jsonl pre) + k + (length l - k) + 1)%nat
    with (length (jsonl (pre ++ [l]))).
  2:{ rewrite jsonl_app, (jsonl_cons l []), !length_app. simpl. lia. }
  assert (Hpl : mem_total (pre ++ [l]) = (mem_total pre + line_size l)%N).
  { rewrite mem_total_app, mem_total_cons. simpl. lia. }
  assert (pre ++ l :: post = (pre ++ [l]) ++ post) as -> by (by rewrite <- app_assoc).
  destruct post as [|x post].
  { rewrite app_nil_r, Nat.leb_refl. simpl. by rewrite N.add_0_r. }
  rewrite (proj2 (Nat.leb_gt _ _)).
  2:{ rewrite (jsonl_app (pre ++ [l])), length_app, jsonl_cons, !length_app. simpl. lia. }
  rewrite raw_loop_lines; [|done|].
  2:{ rewrite (jsonl_app (pre ++ [l])), length_app. pose proof (length_lines_le (x :: post)). lia. }
  rewrite length_jsonl, N2Nat.id, Hpl, mem_total_cons. f_equal. lia.
Qed.

Definition mailbox_file (m : gmap MailboxName (list bytes)) (name : MailboxName) : FileRead :=
  match m !! name with Some lines => FileBytes (jsonl lines) | None => FileMissing end.

(** The JSONL reader the broker runs on ([read_raw_from]) and the
    in-memory mailbox its tests run on agree on every mailbox and every cursor:
    line boundary, mid-line, at EOF, past EOF and absent file alike. *)
Theorem disk_matches_memory (m : gmap MailboxName (list bytes)) name since :
  (forall lines, m !! name = Some lines -> Forall (fun l => NEWLINE ∉ l) lines) ->
  read_raw_from (mailbox_file m name) since = mem_drain_from m name since.
Proof.
  intros Hnl. unfold mailbox_file, mem_drain_from. destruct (m !! name) as [lines|]; [|done].
  specialize (Hnl lines eq_refl). simpl. f_equal.
  destruct (decide (mem_total lines <= since)%N) as [H|H].
  { rewrite mem_drain_past by done. unfold read_raw_bytes. rewrite blen_jsonl.
    by rewrite (proj2 (N.leb_le _ _)). }
  destruct (offset_split lines since) as (pre & l & post & -> & Hb); [lia|].
  apply Forall_app in Hnl as [_ Hpost].
  destruct (decide (mem_total pre = since)) as [<-|Hne].
  - by rewrite mem_drain_at, read_raw_at.
  - by rewrite mem_drain_inside, read_raw_inside by (done || lia).
Qed.

Lemma disk_matches_memory_witness :
  let m := {[MbAgent "alice" := [[x61; x62]; [x63]]]} in
  read_raw_from (mailbox_file m (MbAgent "alice")) 1 = mem_drain_from m (MbAgent "alice") 1
  /\ mem_drain_from m (MbAgent "alice") 1 = Ok (mkDrain [mkRecord [x63] 3 5] 5).
Proof.
  split; [|vm_compute; reflexivity].
  apply disk_matches_memory. intros lines Hl. vm_compute in Hl. injection Hl as <-.
  repeat constructor; apply (bool_decide_unpack _); vm_compute; exact I.
Qed.

(** Appending through [Inbox::append] and draining from the previous end
    returns exactly the appended payload, framed by its one newline, and leaves
    the cursor at the new end of file; a payload with a raw newline is refused
    and the file is untouched. *)
Theorem append_then_drain lines line :
  Forall (fun l => NEWLINE ∉ l) lines ->
  match inbox_append (jsonl lines) line with
  | Ok file =>
      read_raw_bytes file (blen (jsonl lines)) =
        mkDrain [mkRecord line (blen (jsonl lines)) (blen file)] (blen file)
  | Err _ => NEWLINE ∈ line
  end.
Proof.
  intros Hnl. unfold inbox_append. case_bool_decide as Hin; [done|].
  assert (jsonl lines ++ line ++ [NEWLINE] = jsonl (lines ++ [line])) as ->.
  { by rewrite jsonl_app, (jsonl_cons line []). }
  rewrite !blen_jsonl, read_raw_at by (by repeat constructor).
  rewrite mem_total_app, mem_total_cons. simpl. by rewrite N.add_0_r.
Qed.

Lemma append_then_drain_witness :
  read_raw_bytes [x61; x0a; x62; x0a] 2 = mkDrain [mkRecord [x62] 2 4] 4.
Proof.
  assert (H : Forall (fun l => NEWLINE ∉ l) [[x61]]).
  { repeat constructor. apply (bool_decide_unpack _). vm_compute. exact I. }
  pose proof (append_then_drain [[x61]] [x62] H) as H'. vm_compute in H'. vm_compute. exact H'.
Qed.
