(* ===== verification/Origin.v ===== *)
(** * Provenance stamps

    [crates/famp-bus/src/origin.rs] ([stamp_line], [split_stamped]) and the one
    place drained bytes are decoded, [decode_line] of
    [crates/famp-bus/src/broker/handle.rs]. *)

From stdpp Require Import gmap strings list fin_maps sorting.
From S2P Require Import Prelude Json Proto WireInstance Derive Body Envelope.

(** [#[serde(rename_all = "snake_case")]] names of [Origin]. *)
Definition origin_name (o : Origin) : string :=
  match o with Local => "local" | Gateway => "gateway" | Unknown => "unknown" end.

Definition origin_of_name (s : string) : option Origin :=
  if String.eqb s "local" then Some Local
  else if String.eqb s "gateway" then Some Gateway
  else if String.eqb s "unknown" then Some Unknown
  else None.

(** [serde_json::from_value::<Origin>]: an externally tagged unit variant is
    its name, or a one-entry object from the name to null. *)
Definition origin_of_value (v : Value) : option Origin :=
  match v with
  | VString s => origin_of_name s
  | VObject [(k, VNull)] => origin_of_name k
  | _ => None
  end.

(** The [Serialize] image of [StampedEnvelope]. *)
Definition stamped_to_value (s : StampedEnvelope) : Value :=
  VObject [("envelope", st_envelope s); ("origin", VString (origin_name (st_origin s)))].

Section with_wire.
Context `{WL : WireLib}.

Definition stamp_line (envelope_line : bytes) (origin : Origin) : result bytes string :=
  trying envelope := from_slice envelope_line
    catch e => Err ("invalid JSON input: " +:+ e) in
  canonicalize (stamped_to_value (mkStamped origin envelope)).

Definition split_stamped (line : Value) : Origin * Value :=
  letsome obj := as_object line orelse (Unknown, line) in
  if negb (length obj =? 2)%nat then (Unknown, line) else
  match obj_get "origin" obj, obj_get "envelope" obj with
  | Some origin_value, Some envelope_value =>
      match origin_of_value origin_value with
      | Some origin => (origin, envelope_value)
      | None => (Unknown, line)
      end
  | _, _ => (Unknown, line)
  end.

Definition decode_line (line : bytes) : result (Origin * Value) string :=
  trying raw := from_slice_strict line catch e => Err e in
  let (origin, inner) := split_stamped raw in
  trying inner_bytes := canonicalize inner
    catch e => Err ("re-canonicalizing inner envelope failed: " +:+ e) in
  trying _ := AnyBusEnvelope_decode inner_bytes
    catch e => Err ("drain line rejected by AnyBusEnvelope::decode: " +:+
                    EnvelopeDecodeError_display e) in
  Ok (origin, inner).

(** ** Theorems *)
Lemma origin_name_roundtrip o : origin_of_name (origin_name o) = Some o.
Proof. by destruct o. Qed.

Lemma split_stamped_of_stamp s :
  split_stamped (stamped_to_value s) = (st_origin s, st_envelope s).
Proof. destruct s as [o e]. by destruct o. Qed.

Lemma stamped_wf s : value_wf (st_envelope s) = true -> json_wf (stamped_to_value s) = true.
Proof.
  destruct s as [o e]. intros He. unfold json_wf. simpl st_envelope in He.
  apply (wf_at_weaken _ _ 126) in He; [|done]. cbn [stamped_to_value st_origin st_envelope].
  apply wf_at_object. split_and!; [done..|]. by repeat constructor.
Qed.

(** A stamp other than [Unknown] is read off exactly the two-key shape. *)
Lemma split_stamped_trusted v o inner :
  split_stamped v = (o, inner) -> o <> Unknown ->
  exists obj ov, v = VObject obj /\ length obj = 2%nat /\
    obj_get "origin" obj = Some ov /\ obj_get "envelope" obj = Some inner /\
    origin_of_value ov = Some o.
Proof.
  unfold split_stamped. destruct v as [| | | | |obj]; simpl; try naive_solver.
  destruct (length obj =? 2)%nat eqn:El; simpl; [|naive_solver].
  apply Nat.eqb_eq in El.
  destruct (obj_get "origin" obj) as [ov|] eqn:Eo; [|naive_solver].
  destruct (obj_get "envelope" obj) as [ev|] eqn:Ee; [|naive_solver].
  destruct (origin_of_value ov) as [o'|] eqn:Ev; [|naive_solver].
  intros [= -> ->] _. eauto 10.
Qed.

Section with_laws.
Context {WLaws : WireLaws}.

Lemma stamp_line_ok env line o :
  value_wf env = true -> canonicalize env = Ok line ->
  exists b, stamp_line line o = Ok b /\
    canonicalize (stamped_to_value (mkStamped o env)) = Ok b.
Proof.
  intros Hwf Hc. unfold stamp_line. rewrite (canonicalize_parse env) by (by try apply value_wf_json).
  destruct (canonicalize_total (stamped_to_value (mkStamped o env))) as [b Hb].
  { by apply stamped_wf. }
  eauto.
Qed.

Lemma decode_stamped env line o b :
  value_wf env = true -> canonicalize env = Ok line ->
  stamp_line line o = Ok b ->
  decode_line b = match AnyBusEnvelope_decode line with
                  | Ok _ => Ok (o, env)
                  | Err e => Err ("drain line rejected by AnyBusEnvelope::decode: " +:+
                                  EnvelopeDecodeError_display e)
                  end.
Proof.
  intros Hwf Hc Hs. destruct (stamp_line_ok env line o Hwf Hc) as (b' & Hb' & Hcb).
  assert (b' = b) as -> by congruence. unfold decode_line.
  rewrite (canonicalize_parse_strict _ b) with (2 := Hcb) by (by apply stamped_wf).
  rewrite split_stamped_of_stamp. simpl. rewrite Hc. done.
Qed.

Lemma stamped_no_newline env line o b :
  value_wf env = true -> canonicalize env = Ok line ->
  stamp_line line o = Ok b -> NEWLINE ∉ b.
Proof.
  intros Hwf Hc Hs. destruct (stamp_line_ok env line o Hwf Hc) as (b' & Hb' & Hcb).
  assert (b' = b) as -> by congruence.
  eapply canonicalize_no_newline; [|done]. by apply stamped_wf.
Qed.
End with_laws.
End with_wire.

(** Stamping is lossless and line-safe: the canonical line of any well-formed
    envelope, stamped with any origin, is one newline-free record that the
    reader decodes back to exactly that origin and that envelope (provided the
    bus envelope decoder accepts it). *)
Theorem stamp_roundtrip `{WireLaws} env line o :
  value_wf env = true -> canonicalize env = Ok line -> is_ok (AnyBusEnvelope_decode line) = true ->
  exists b, stamp_line line o = Ok b /\ decode_line b = Ok (o, env) /\ NEWLINE ∉ b.
Proof.
  intros Hwf Hc Hd. destruct (stamp_line_ok env line o Hwf Hc) as (b & Hb & _).
  exists b. split; [done|]. split; [|by eapply stamped_no_newline].
  rewrite (decode_stamped env line o b Hwf Hc Hb). by destruct (AnyBusEnvelope_decode line).
Qed.

Lemma stamp_roundtrip_witness :
  let e := msg_from "agent:h/bob" in
  exists b, stamp_line (toy_print e) Gateway = Ok b /\ decode_line b = Ok (Gateway, e) /\
    NEWLINE ∉ b.
Proof. intros e. apply stamp_roundtrip; vm_compute; reflexivity. Qed.

(** Trust is never inferred (D-02): a record reads as Local or Gateway only if
    its text is an object with exactly the two keys of the stamp, whose origin
    field names that origin and whose envelope field is the delivered envelope;
    a bare envelope, an extra key or an unknown origin reads as Unknown. *)
Theorem trust_needs_a_stamp `{WireLib} b o v :
  decode_line b = Ok (o, v) -> o <> Unknown ->
  exists obj ov,
    from_slice_strict b = Ok (VObject obj) /\ length obj = 2%nat /\
    obj_get "origin" obj = Some ov /\ origin_of_value ov = Some o /\
    obj_get "envelope" obj = Some v.
Proof.
  unfold decode_line. destruct (from_slice_strict b) as [raw|]; [|done].
  destruct (split_stamped raw) as [o' inner] eqn:Es.
  destruct (canonicalize inner); [|done]. destruct (AnyBusEnvelope_decode _); [|done].
  intros [= -> ->] Hne.
  destruct (split_stamped_trusted raw o v Es Hne) as (obj & ov & -> & ? & ? & ? & ?). eauto 10.
Qed.

Lemma trust_needs_a_stamp_witness :
  exists b obj ov,
    decode_line b = Ok (Local, msg_from "agent:h/bob") /\
    from_slice_strict b = Ok (VObject obj) /\ length obj = 2%nat /\
    obj_get "origin" obj = Some ov /\ origin_of_value ov = Some Local /\
    obj_get "envelope" obj = Some (msg_from "agent:h/bob").
Proof.
  pose (b := toy_print (stamped_to_value (mkStamped Local (msg_from "agent:h/bob")))).
  assert (Hd : decode_line b = Ok (Local, msg_from "agent:h/bob")) by (vm_compute; reflexivity).
  destruct (trust_needs_a_stamp b Local (msg_from "agent:h/bob") Hd) as (obj & ov & H); [discriminate|].
  exists b, obj, ov. split; [exact Hd|exact H].
Qed.
