(* ===== verification/Serde.v ===== *)
(** * The JSON images of the protocol types

    The [serde] derives of [crates/famp-bus/src/{error,mailbox,proto}.rs] and
    [crates/famp-inspect-proto/src/lib.rs]: [Serialize] for replies and
    messages, [Deserialize] for messages in their object form ([tag = "op"],
    [deny_unknown_fields], defaulted and skipped fields), with the round trip. *)

From stdpp Require Import gmap strings list fin_maps sorting.
From S2P Require Import Prelude Json Proto Mailbox Origin WireInstance.

Definition error_kind_name (k : BusErrorKind) : string :=
  match k with
  | NotRegistered => "not_registered"
  | NameTaken => "name_taken"
  | ChannelNameInvalid => "channel_name_invalid"
  | NotJoined => "not_joined"
  | EnvelopeInvalid => "envelope_invalid"
  | EnvelopeTooLarge => "envelope_too_large"
  | TaskNotFound => "task_not_found"
  | BrokerProtoMismatch => "broker_proto_mismatch"
  | BrokerUnreachable => "broker_unreachable"
  | Internal => "internal"
  end.

Definition v_nat (n : N) : Value := VNumber (PosInt n).
Definition v_strs (l : list string) : Value := VArray (map VString l).
Definition v_opt_str (o : option string) : Value :=
  match o with Some s => VString s | None => VNull end.
Definition v_opt_nat (o : option N) : Value :=
  match o with Some n => v_nat n | None => VNull end.

(** [skip_serializing_if = "Option::is_none"] / ["Not::not"]. *)
Definition skip_none {A} (k : string) (f : A -> Value) (o : option A) : list (string * Value) :=
  match o with Some a => [(k, f a)] | None => [] end.
Definition skip_false (k : string) (b : bool) : list (string * Value) :=
  if b then [(k, VBool true)] else [].

Definition mailbox_to_value (m : MailboxName) : Value :=
  match m with
  | MbAgent n => json_obj [("kind", VString "agent"); ("name", VString n)]
  | MbChannel n => json_obj [("kind", VString "channel"); ("name", VString n)]
  end.

Definition target_to_value (t : Target) : Value :=
  match t with
  | TgtAgent n => json_obj [("kind", VString "agent"); ("name", VString n)]
  | TgtChannel n => json_obj [("kind", VString "channel"); ("name", VString n)]
  end.

Definition delivered_to_value (d : Delivered) : Value :=
  json_obj ([("to", target_to_value (dv_to d)); ("ok", VBool (dv_ok d));
             ("woken", VBool (dv_woken d))]
            ++ skip_none "wake_addr" VString (dv_wake_addr d)).
Definition session_row_to_value (r : SessionRow) : Value :=
  json_obj [("name", VString (sr_name r)); ("pid", v_nat (sr_pid r));
            ("joined", v_strs (sr_joined r))].
Definition member_to_value (m : MemberInfo) : Value :=
  json_obj ([("name", VString (mi_name m))] ++ skip_none "role" VString (mi_role m)).

Section with_wire.
Context `{WL : WireLib}.

Definition v_uuid (u : N) : Value := VString (uuid_to_string u).

Definition inspect_to_value (k : InspectKind) : Value :=
  match k with
  | InspectBroker => json_obj [("op", VString "broker")]
  | InspectIdentities => json_obj [("op", VString "identities")]
  | InspectTasks id full =>
      json_obj ([("op", VString "tasks")] ++ skip_none "id" v_uuid id
                ++ skip_false "full" full)
  | InspectMessages to tail =>
      json_obj ([("op", VString "messages")] ++ skip_none "to" VString to
                ++ skip_none "tail" v_nat tail)
  | InspectWaiters => json_obj [("op", VString "waiters")]
  end.

Definition message_to_value (m : BusMessage) : Value :=
  match m with
  | Hello proto client bind =>
      json_obj ([("op", VString "hello"); ("bus_proto", v_nat proto);
                 ("client", VString client)] ++ skip_none "bind_as" VString bind)
  | Register nm p cwd listen org =>
      json_obj ([("op", VString "register"); ("name", VString nm); ("pid", v_nat p)]
                ++ skip_none "cwd" VString cwd ++ skip_false "listen" listen
                ++ skip_none "origin" (fun o => VString (origin_name o)) org)
  | Send to envelope =>
      json_obj [("op", VString "send"); ("to", target_to_value to); ("envelope", envelope)]
  | Inbox since inc =>
      json_obj ([("op", VString "inbox")] ++ skip_none "since" v_nat since
                ++ skip_none "include_terminal" VBool inc)
  | Await t task =>
      json_obj ([("op", VString "await"); ("timeout_ms", v_nat t)]
                ++ skip_none "task" v_uuid task)
  | Join ch role =>
      json_obj ([("op", VString "join"); ("channel", VString ch)]
                ++ skip_none "role" VString role)
  | Leave ch => json_obj [("op", VString "leave"); ("channel", VString ch)]
  | Sessions => json_obj [("op", VString "sessions")]
  | Whoami => json_obj [("op", VString "whoami")]
  | Inspect k => json_obj [("op", VString "inspect"); ("kind", inspect_to_value k)]
  | SetListen b => json_obj [("op", VString "set_listen"); ("listen", VBool b)]
  | SetWakeAddr w => json_obj [("op", VString "set_wake_addr"); ("wake_addr", v_opt_str w)]
  end.

Definition v_stamped (l : list StampedEnvelope) : Value := VArray (map stamped_to_value l).

Definition reply_to_value (r : BusReply) : Value :=
  match r with
  | HelloOk p => json_obj [("op", VString "hello_ok"); ("bus_proto", v_nat p)]
  | HelloErr k m =>
      json_obj [("op", VString "hello_err"); ("kind", VString (error_kind_name k));
                ("message", VString m)]
  | RegisterOk active drained peers =>
      json_obj [("op", VString "register_ok"); ("active", VString active);
                ("drained", v_stamped drained); ("peers", v_strs peers)]
  | SendOk task delivered =>
      json_obj [("op", VString "send_ok"); ("task_id", v_uuid task);
                ("delivered", VArray (map delivered_to_value delivered))]
  | InboxOk envs next =>
      json_obj [("op", VString "inbox_ok"); ("envelopes", v_stamped envs);
                ("next_offset", v_nat next)]
  | AwaitOk envs mb next =>
      json_obj [("op", VString "await_ok"); ("envelopes", v_stamped envs);
                ("mailbox", mailbox_to_value mb); ("next_offset", v_nat next)]
  | AwaitTimeout => json_obj [("op", VString "await_timeout")]
  | JoinOk ch members drained =>
      json_obj [("op", VString "join_ok"); ("channel", VString ch);
                ("members", VArray (map member_to_value members));
                ("drained", v_stamped drained)]
  | LeaveOk ch => json_obj [("op", VString "leave_ok"); ("channel", VString ch)]
  | SessionsOk rows =>
      json_obj [("op", VString "sessions_ok");
                ("rows", VArray (map session_row_to_value rows))]
  | WhoamiOk active joined =>
      json_obj ([("op", VString "whoami_ok"); ("joined", v_strs joined)]
                ++ skip_none "active" VString active)
  | InspectOk payload => json_obj [("op", VString "inspect_ok"); ("payload", payload)]
  | SetListenOk b => json_obj [("op", VString "set_listen_ok"); ("listen_mode", VBool b)]
  | SetWakeAddrOk w =>
      json_obj [("op", VString "set_wake_addr_ok"); ("wake_addr", v_opt_str w)]
  | ReplyErr k m =>
      json_obj [("op", VString "err"); ("kind", VString (error_kind_name k));
                ("message", VString m)]
  end.

(** ** Deserialization of messages *)
Definition d_str (v : Value) : option string := as_str v.
Definition d_bool (v : Value) : option bool :=
  match v with VBool b => Some b | _ => None end.
Definition d_uint (max : N) (v : Value) : option N :=
  match v with
  | VNumber (PosInt n) => if (n <=? max)%N then Some n else None
  | _ => None
  end.

(** A required field; an optional one (absent or null is [None]); a defaulted
    boolean. *)
Definition req {A} (d : Value -> option A) (m : list (string * Value)) (k : string)
  : option A := obj_get k m ≫= d.
Definition opt {A} (d : Value -> option A) (m : list (string * Value)) (k : string)
  : option (option A) :=
  match obj_get k m with
  | None | Some VNull => Some None
  | Some v => Some <$> d v
  end.
Definition def_false (m : list (string * Value)) (k : string) : option bool :=
  match obj_get k m with None => Some false | Some v => d_bool v end.

(** [deny_unknown_fields]. *)
Definition only (allowed : list string) (m : list (string * Value)) : option unit :=
  if forallb (fun kv => existsb (String.eqb kv.1) allowed) m then Some tt else None.

(** [impl Deserialize for Target]: a [field_identifier] visitor, so unknown
    keys are refused and a channel name must match [CHANNEL_RE]. *)
Definition target_of_value (v : Value) : option Target :=
  m ← as_object v; _ ← only ["kind"; "name"] m;
  kind ← req d_str m "kind"; nm ← req d_str m "name";
  if String.eqb kind "agent" then Some (TgtAgent nm)
  else if String.eqb kind "channel" then
    if channel_re_is_match nm then Some (TgtChannel nm) else None
  else None.

Definition inspect_of_value (v : Value) : option InspectKind :=
  m ← as_object v; op ← req d_str m "op";
  if String.eqb op "broker" then _ ← only ["op"] m; Some InspectBroker
  else if String.eqb op "identities" then _ ← only ["op"] m; Some InspectIdentities
  else if String.eqb op "tasks" then
    _ ← only ["op"; "id"; "full"] m;
    id ← opt uuid_of_value m "id"; full ← def_false m "full";
    Some (InspectTasks id full)
  else if String.eqb op "messages" then
    _ ← only ["op"; "to"; "tail"] m;
    to ← opt d_str m "to"; tl ← opt (d_uint u64_max) m "tail";
    Some (InspectMessages to tl)
  else if String.eqb op "waiters" then _ ← only ["op"] m; Some InspectWaiters
  else None.

Definition message_of_value (v : Value) : option BusMessage :=
  m ← as_object v; op ← req d_str m "op";
  if String.eqb op "hello" then
    _ ← only ["op"; "bus_proto"; "client"; "bind_as"] m;
    proto ← req (d_uint u32_max) m "bus_proto"; client ← req d_str m "client";
    bind ← opt d_str m "bind_as"; Some (Hello proto client bind)
  else if String.eqb op "register" then
    _ ← only ["op"; "name"; "pid"; "cwd"; "listen"; "origin"] m;
    nm ← req d_str m "name"; p ← req (d_uint u32_max) m "pid";
    cwd ← opt d_str m "cwd"; listen ← def_false m "listen";
    org ← opt origin_of_value m "origin"; Some (Register nm p cwd listen org)
  else if String.eqb op "send" then
    _ ← only ["op"; "to"; "envelope"] m;
    to ← req target_of_value m "to"; envelope ← obj_get "envelope" m;
    Some (Send to envelope)
  else if String.eqb op "inbox" then
    _ ← only ["op"; "since"; "include_terminal"] m;
    since ← opt (d_uint u64_max) m "since"; inc ← opt d_bool m "include_terminal";
    Some (Inbox since inc)
  else if String.eqb op "await" then
    _ ← only ["op"; "timeout_ms"; "task"] m;
    t ← req (d_uint u64_max) m "timeout_ms"; task ← opt uuid_of_value m "task";
    Some (Await t task)
  else if String.eqb op "join" then
    _ ← only ["op"; "channel"; "role"] m;
    ch ← req d_str m "channel"; role ← opt d_str m "role"; Some (Join ch role)
  else if String.eqb op "leave" then
    _ ← only ["op"; "channel"] m; ch ← req d_str m "channel"; Some (Leave ch)
  else if String.eqb op "sessions" then _ ← only ["op"] m; Some Sessions
  else if String.eqb op "whoami" then _ ← only ["op"] m; Some Whoami
  else if String.eqb op "inspect" then
    _ ← only ["op"; "kind"] m; k ← req inspect_of_value m "kind"; Some (Inspect k)
  else if String.eqb op "set_listen" then
    _ ← only ["op"; "listen"] m; b ← req d_bool m "listen"; Some (SetListen b)
  else if String.eqb op "set_wake_addr" then
    _ ← only ["op"; "wake_addr"] m; w ← opt d_str m "wake_addr"; Some (SetWakeAddr w)
  else None.

(** Values a Rust [BusMessage] can hold: machine-width integers, 128-bit
    UUIDs, and channel targets that came through [Target]'s own pattern. *)
Definition uuid_ok (o : option N) : bool :=
  match o with Some u => (u <? 2 ^ 128)%N | None => true end.
Definition u64_ok (o : option N) : bool :=
  match o with Some n => (n <=? u64_max)%N | None => true end.
Definition message_ok (m : BusMessage) : bool :=
  match m with
  | Hello proto _ _ => (proto <=? u32_max)%N
  | Register _ p _ _ _ => (p <=? u32_max)%N
  | Send (TgtChannel ch) _ => channel_re_is_match ch
  | Inbox since _ => u64_ok since
  | Await t task => (t <=? u64_max)%N && uuid_ok task
  | Inspect (InspectTasks id _) => uuid_ok id
  | Inspect (InspectMessages _ tail) => u64_ok tail
  | _ => true
  end.
End with_wire.

Section roundtrip.
Context `{WLaws : WireLaws}.

Lemma d_uint_v_nat max n : (n <=? max)%N = true -> d_uint max (v_nat n) = Some n.
Proof. intros H. simpl. by rewrite H. Qed.

Lemma opt_uuid_roundtrip m k u :
  (u <? 2 ^ 128)%N = true -> obj_get k m = Some (v_uuid u) ->
  opt uuid_of_value m k = Some (Some u).
Proof. intros Hu Hg. unfold opt, v_uuid in *. rewrite Hg, uuid_value_roundtrip by lia. done. Qed.
Lemma opt_uint_roundtrip max m k n :
  (n <=? max)%N = true -> obj_get k m = Some (v_nat n) -> opt (d_uint max) m k = Some (Some n).
Proof. intros Hn Hg. unfold opt. rewrite Hg. simpl. by rewrite Hn. Qed.
Lemma req_uint_roundtrip max m k n :
  (n <=? max)%N = true -> obj_get k m = Some (v_nat n) -> req (d_uint max) m k = Some n.
Proof. intros Hn Hg. unfold req. rewrite Hg. simpl. by rewrite Hn. Qed.
Lemma opt_origin_roundtrip m k o :
  obj_get k m = Some (VString (origin_name o)) -> opt origin_of_value m k = Some (Some o).
Proof. intros Hg. unfold opt. rewrite Hg. simpl. by rewrite origin_name_roundtrip. Qed.

Lemma inspect_roundtrip k :
  message_ok (Inspect k) = true -> inspect_of_value (inspect_to_value k) = Some k.
Proof.
  destruct k as [| |id full|to tl|]; simpl; intros Hok; try done.
  - destruct id as [u|], full; simpl in *; try done; unfold inspect_of_value; simpl;
      erewrite opt_uuid_roundtrip; done.
  - destruct to as [t|], tl as [n|]; simpl in *; try done; unfold inspect_of_value; simpl;
      erewrite opt_uint_roundtrip; done.
Qed.

Lemma target_roundtrip t :
  (match t with TgtChannel ch => channel_re_is_match ch | TgtAgent _ => true end) = true ->
  target_of_value (target_to_value t) = Some t.
Proof. destruct t; [done|]. intros H. unfold target_of_value. simpl. by rewrite H. Qed.

Lemma message_roundtrip_aux m :
  message_ok m = true -> message_of_value (message_to_value m) = Some m.
Proof.
  intros Hok. unfold message_of_value.
  destruct m as [proto client bind|nm p cwd listen org|to envelope|since inc|t task|ch role
    |ch| | |k|b|w]; simpl in Hok; try done.
  - destruct bind; simpl; erewrite req_uint_roundtrip; done.
  - destruct cwd, listen, org as [o|]; simpl; (erewrite req_uint_roundtrip; [|done|done]); simpl;
      try (erewrite opt_origin_roundtrip; [|done]); done.
  - simpl. unfold req at 1. simpl. rewrite target_roundtrip by (by destruct to). done.
  - destruct since as [n|], inc; simpl; try (erewrite opt_uint_roundtrip; [|done|done]); done.
  - apply andb_true_iff in Hok as [Ht Hu].
    destruct task as [u|]; simpl; (erewrite req_uint_roundtrip; [|done|done]); simpl;
      try (erewrite opt_uuid_roundtrip; [|done|done]); done.
  - by destruct role.
  - simpl. unfold req at 1. simpl. by rewrite inspect_roundtrip.
  - by destruct w.
Qed.
End roundtrip.

(** The bus wire protocol round-trips: every [BusMessage] a client can
    hold, of all twelve operations and with every optional field present or
    absent, is read back as itself from the JSON it serializes to. *)
Theorem message_roundtrip `{WireLaws} m :
  message_ok m = true -> message_of_value (message_to_value m) = Some m.
Proof. apply message_roundtrip_aux. Qed.

Lemma message_roundtrip_witness :
  message_of_value (message_to_value (Register "alice" 7 None true (Some Local))) =
  Some (Register "alice" 7 None true (Some Local)).
Proof. apply message_roundtrip. reflexivity. Qed.

(** The fields of each operation's frame. *)
Definition message_fields (m : BusMessage) : list string :=
  match m with
  | Hello _ _ _ => ["op"; "bus_proto"; "client"; "bind_as"]
  | Register _ _ _ _ _ => ["op"; "name"; "pid"; "cwd"; "listen"; "origin"]
  | Send _ _ => ["op"; "to"; "envelope"]
  | Inbox _ _ => ["op"; "since"; "include_terminal"]
  | Await _ _ => ["op"; "timeout_ms"; "task"]
  | Join _ _ => ["op"; "channel"; "role"]
  | Leave _ => ["op"; "channel"]
  | Sessions | Whoami => ["op"]
  | Inspect _ => ["op"; "kind"]
  | SetListen _ => ["op"; "listen"]
  | SetWakeAddr _ => ["op"; "wake_addr"]
  end.

Lemma only_Some allowed m u :
  only allowed m = Some u -> forall k v, (k, v) ∈ m -> k ∈ allowed.
Proof.
  unfold only. destruct (forallb _ m) eqn:E; [|done]. intros _ k v Hin.
  rewrite forallb_forall in E. specialize (E (k, v)). rewrite <- list_elem_of_In in E.
  specialize (E Hin). apply existsb_exists in E as (x & Hx & Heq%String.eqb_eq).
  simpl in Heq. subst. by apply list_elem_of_In.
Qed.

Lemma req_uint_bound max m k n : req (d_uint max) m k = Some n -> (n <= max)%N.
Proof.
  unfold req, d_uint. destruct (obj_get k m) as [v|]; simpl; [|done].
  destruct v as [| |[z| |]| | |]; try done. case_match; intros [= <-]. lia.
Qed.

Section bounds.
Context `{WLaws : WireLaws}.

Lemma opt_uint_bound m k o : opt (d_uint u64_max) m k = Some o -> u64_ok o = true.
Proof.
  unfold opt. destruct (obj_get k m) as [v|]; [|by intros [= <-]].
  destruct v as [| |[z| |]| | |]; try done; [by intros [= <-]|]. unfold d_uint. case_match eqn:E; [|done]. by intros [= <-].
Qed.
Lemma opt_uuid_bound m k o : opt uuid_of_value m k = Some o -> uuid_ok o = true.
Proof.
  unfold opt. destruct (obj_get k m) as [v|]; [|by intros [= <-]].
  assert (H : Some <$> uuid_of_value v = Some o -> uuid_ok o = true).
  { destruct (uuid_of_value v) as [u|] eqn:E; [|done]. intros [= <-]. by apply N.ltb_lt, (uuid_value_bound v). }
  destruct v; [by intros [= <-]|exact H..].
Qed.
Lemma inspect_bound v k : inspect_of_value v = Some k -> message_ok (Inspect k) = true.
Proof.
  unfold inspect_of_value. intros (m & _ & (op & _ & Hm)%bind_Some)%bind_Some.
  repeat match type of Hm with (if ?b then _ else _) = _ => destruct b end;
  repeat match goal with H : _ ≫= _ = Some _ |- _ => apply bind_Some in H as (? & ? & ?) end;
  simplify_eq; try done; simpl; eauto using opt_uint_bound, opt_uuid_bound.
Qed.
Lemma target_bound v t : target_of_value v = Some t ->
  match t with TgtChannel ch => channel_re_is_match ch | TgtAgent _ => true end = true.
Proof.
  unfold target_of_value. intros Ht.
  repeat match goal with H : _ ≫= _ = Some _ |- _ => apply bind_Some in H as (? & ? & ?) end.
  by repeat case_match; simplify_eq.
Qed.
End bounds.

(** C33. Decoding is closed and in range: a frame that decodes carries only the
    fields its operation defines, and every integer and identifier of the message is
    in its type's range: the protocol version and the pid in [u32]; the timeout, the
    inbox offset [since] and the inspector's [tail] in [u64]; the task awaited and the
    task inspected in 128 bits; and a channel that is sent to matches
    [^#[a-z0-9][a-z0-9_-]{0,31}$].  These are the messages that, written again, are
    read back as themselves. *)
Theorem message_decode_sound `{WireLaws} fields m :
  message_of_value (VObject fields) = Some m ->
  (forall k v, (k, v) ∈ fields -> k ∈ message_fields m) /\
  match m with
  | Hello proto _ _ => (proto <= u32_max)%N
  | Register _ p _ _ _ => (p <= u32_max)%N
  | Send (TgtChannel ch) _ => channel_re_is_match ch = true
  | Inbox (Some since) _ => (since <= u64_max)%N
  | Await t task => (t <= u64_max)%N /\ (forall u, task = Some u -> (u < 2 ^ 128)%N)
  | Inspect (InspectTasks (Some id) _) => (id < 2 ^ 128)%N
  | Inspect (InspectMessages _ (Some tail)) => (tail <= u64_max)%N
  | _ => True
  end /\
  message_of_value (message_to_value m) = Some m.
Proof.
  intros Hf. assert (Hr : (forall k v, (k, v) ∈ fields -> k ∈ message_fields m) /\ message_ok m = true).
  { revert Hf. unfold message_of_value. simpl. intros (op & Hop & Hm)%bind_Some.
    repeat match type of Hm with (if ?b then _ else _) = _ => destruct b end;
    repeat match goal with H : _ ≫= _ = Some _ |- _ => apply bind_Some in H as (? & ? & ?) end;
      simplify_eq; (split; [by eapply only_Some|]); simpl; rewrite ?andb_true_iff, ?N.leb_le;
      eauto using req_uint_bound, opt_uint_bound, opt_uuid_bound.
    - match goal with H : req target_of_value _ _ = Some ?t |- _ =>
        unfold req in H; apply bind_Some in H as (v & _ & Ht%target_bound); by destruct t end.
    - match goal with H : req inspect_of_value _ _ = Some ?t |- _ =>
        unfold req in H; apply bind_Some in H as (v & _ & Ht%inspect_bound); exact Ht end. }
  destruct Hr as [Hcl Hok]. split_and!; [done| |by apply message_roundtrip_aux].
  destruct m as [| |[]|[]|? [u|]| | | | |[| |[]| ? []|]| |]; simpl in Hok; rewrite ?andb_true_iff, ?N.leb_le, ?N.ltb_lt in Hok; try done.
  - split; [apply Hok|]. intros ? [= <-]. apply Hok.
  - by split; [apply Hok|].
Qed.

Lemma message_decode_sound_witness :
  message_of_value (VObject [("channel", VString "#ops"); ("op", VString "join")])
    = Some (Join "#ops" None) /\
  "channel" ∈ message_fields (Join "#ops" None).
Proof.
  split; [reflexivity|].
  refine (proj1 (message_decode_sound
    [("channel", VString "#ops"); ("op", VString "join")] (Join "#ops" None) eq_refl)
    "channel" (VString "#ops") _).
  left.
Defined.
