(* ===== verification/Codec.v ===== *)
(** * Frame codec

    [crates/famp-bus/src/codec.rs]: a 4-byte big-endian length prefix, a
    payload of 1 byte to 16 MiB. *)

From Stdlib Require Import Strings.Byte.
From stdpp Require Import gmap strings list fin_maps sorting pretty.
From S2P Require Import Prelude Json WireInstance.

Definition MAX_FRAME_BYTES : N := (16 * 1024 * 1024)%N.
Definition LEN_PREFIX_BYTES : nat := 4%nat.

Inductive FrameError :=
| FrameTooLarge (len : N)
| EmptyFrame
| FrameEncode (e : string)
| FrameDecode (e : string).

(** The [thiserror] display strings; [pretty] is the decimal rendering. *)
Definition FrameError_display (e : FrameError) : string :=
  match e with
  | FrameTooLarge n => "frame length " +:+ pretty n +:+ " exceeds maximum 16 MiB"
  | EmptyFrame => "frame length cannot be zero"
  | FrameEncode e => "canonical JSON encode failed: " +:+ e
  | FrameDecode e => "canonical JSON decode (strict-parse) failed: " +:+ e
  end.

(** [u32::to_be_bytes], [u32::from_be_bytes]. *)
Definition byte_of (n : N) : byte := default x00 (Byte.of_N (n mod 256)).
Definition to_be_bytes (n : N) : bytes :=
  [byte_of (n / 16777216); byte_of (n / 65536); byte_of (n / 256); byte_of n].
Definition from_be_bytes (a b c d : byte) : N :=
  (Byte.to_N a * 16777216 + Byte.to_N b * 65536 + Byte.to_N c * 256 + Byte.to_N d)%N.

Section with_wire.
Context `{WL : WireLib}.

(** [encode_frame] of a value whose [Serialize] image is [v]. *)
Definition encode_frame (v : Value) : result bytes FrameError :=
  trying body := canonicalize v catch e => Err (FrameEncode e) in
  if (u32_max <? blen body)%N then Err (FrameTooLarge u32_max)
  else if (MAX_FRAME_BYTES <? blen body)%N then Err (FrameTooLarge (blen body))
  else Ok (to_be_bytes (blen body) ++ body).

(** [try_decode_frame::<T>]; [decode] is [T]'s strict deserializer.  [Ok None]
    asks for more bytes; [Ok (Some (v, n))] consumed [n] of them. *)
Definition try_decode_frame {T} (decode : bytes -> result T string) (buf : bytes)
  : result (option (T * nat)) FrameError :=
  match buf with
  | a :: b :: c :: d :: rest =>
      let len := from_be_bytes a b c d in
      if (len =? 0)%N then Err EmptyFrame
      else if (MAX_FRAME_BYTES <? len)%N then Err (FrameTooLarge len)
      else
        let total := (LEN_PREFIX_BYTES + N.to_nat len)%nat in
        if (length buf <? total)%nat then Ok None
        else
          let payload := take (N.to_nat len) rest in
          trying value := decode payload catch e => Err (FrameDecode e) in
          Ok (Some (value, total))
  | _ => Ok None
  end.

(** ** Theorems *)
Lemma to_N_byte_of n : Byte.to_N (byte_of n) = (n mod 256)%N.
Proof.
  unfold byte_of. destruct (Byte.of_N (n mod 256)) as [b|] eqn:E; simpl.
  - by apply Byte.to_of_N.
  - apply Byte.of_N_None_iff in E. pose proof (N.mod_upper_bound n 256). lia.
Qed.

Lemma be_roundtrip n : (n <= u32_max)%N ->
  from_be_bytes (byte_of (n / 16777216)) (byte_of (n / 65536)) (byte_of (n / 256)) (byte_of n)
  = n.
Proof.
  intros Hn. unfold from_be_bytes. rewrite !to_N_byte_of. unfold u32_max in Hn.
  rewrite (N.mod_small (n / 16777216)) by (apply N.Div0.div_lt_upper_bound; lia).
  change 16777216%N with (256 * 256 * 256)%N. change 65536%N with (256 * 256)%N.
  rewrite <- !N.Div0.div_div.
  pose proof (N.div_mod n 256). pose proof (N.div_mod (n / 256) 256).
  pose proof (N.div_mod (n / 256 / 256) 256). lia.
Qed.

Lemma encode_frame_Ok v f :
  encode_frame v = Ok f ->
  exists body, canonicalize v = Ok body /\ (blen body <= MAX_FRAME_BYTES)%N /\
    f = to_be_bytes (blen body) ++ body.
Proof.
  unfold encode_frame. destruct (canonicalize v) as [body|e]; [|done].
  repeat case_match; intros [= <-]. exists body. split_and!; [done|lia|done].
Qed.

Lemma try_decode_frame_long {T} (decode : bytes -> result T string) body rest :
  (0 < blen body <= MAX_FRAME_BYTES)%N ->
  try_decode_frame decode (to_be_bytes (blen body) ++ body ++ rest) =
  match decode body with
  | Ok v => Ok (Some (v, length (to_be_bytes (blen body) ++ body)))
  | Err e => Err (FrameDecode e)
  end.
Proof.
  intros Hb. unfold try_decode_frame, to_be_bytes. cbn [app].
  rewrite be_roundtrip by (unfold u32_max, MAX_FRAME_BYTES in *; lia).
  rewrite (proj2 (N.eqb_neq _ _)) by lia. rewrite (proj2 (N.ltb_ge _ _)) by lia.
  rewrite (proj2 (Nat.ltb_ge _ _)).
  2:{ cbn [length]. rewrite length_app. unfold LEN_PREFIX_BYTES, blen. lia. }
  unfold blen. rewrite Nat2N.id, take_app_length.
  by destruct (decode body).
Qed.

Lemma try_decode_frame_short {T} (decode : bytes -> result T string) body k :
  (0 < blen body <= MAX_FRAME_BYTES)%N -> (k < 4 + length body)%nat ->
  try_decode_frame decode (take k (to_be_bytes (blen body) ++ body)) = Ok None.
Proof.
  intros Hb Hk. unfold to_be_bytes. cbn [app].
  destruct k as [|[|[|[|k]]]]; cbn [take]; try done. unfold try_decode_frame.
  rewrite be_roundtrip by (unfold u32_max, MAX_FRAME_BYTES in *; lia).
  rewrite (proj2 (N.eqb_neq _ _)) by lia. rewrite (proj2 (N.ltb_ge _ _)) by lia.
  rewrite (proj2 (Nat.ltb_lt _ _)); [done|].
  cbn [length]. rewrite length_take. unfold LEN_PREFIX_BYTES, blen. lia.
Qed.
End with_wire.

(** Framing round trip: whatever bytes follow it on the stream, an encoded
    frame decodes to the value that was encoded and consumes exactly the
    frame; every strict prefix of the frame asks for more bytes instead of
    failing or decoding. *)
Theorem frame_roundtrip `{WireLaws} v f rest :
  json_wf v = true -> encode_frame v = Ok f ->
  try_decode_frame from_slice_strict (f ++ rest) = Ok (Some (v, length f)) /\
  forall k, (k < length f)%nat -> try_decode_frame from_slice_strict (take k f) = Ok None.
Proof.
  intros Hwf (body & Hc & Hlen & ->)%encode_frame_Ok.
  assert (0 < blen body)%N.
  { pose proof (canonicalize_nonempty v body Hc). unfold blen. destruct body; simpl; [done|lia]. }
  split.
  - rewrite <- app_assoc, try_decode_frame_long by done.
    by rewrite (canonicalize_parse_strict v body).
  - intros k Hk. apply try_decode_frame_short; [done|].
    rewrite length_app in Hk. simpl in Hk. lia.
Qed.

Lemma frame_roundtrip_witness :
  exists f, encode_frame (VString "hi") = Ok f /\
    try_decode_frame from_slice_strict (f ++ [x00; x00]) = Ok (Some (VString "hi", length f)).
Proof.
  eexists. split; [vm_compute; reflexivity|].
  apply frame_roundtrip; vm_compute; reflexivity.
Qed.

(** The decoder bounds what it will buffer: a prefix announcing zero bytes
    or more than 16 MiB is rejected from its four bytes alone, and a decoded
    frame never exceeds the 16 MiB limit plus its prefix. *)
Theorem frame_decode_bounded {T} (decode : bytes -> result T string) a b c d rest :
  let len := from_be_bytes a b c d in
  let r := try_decode_frame decode (a :: b :: c :: d :: rest) in
  (len = 0%N -> r = Err EmptyFrame) /\
  ((MAX_FRAME_BYTES < len)%N -> r = Err (FrameTooLarge len)) /\
  (forall v n, r = Ok (Some (v, n)) ->
     n = (4 + N.to_nat len)%nat /\ (n <= 4 + length rest)%nat /\ (len <= MAX_FRAME_BYTES)%N).
Proof.
  cbv zeta. unfold try_decode_frame. set (len := from_be_bytes a b c d). split_and!.
  - intros ->. done.
  - intros Hl. rewrite (proj2 (N.eqb_neq _ _)) by (unfold MAX_FRAME_BYTES in *; lia).
    by rewrite (proj2 (N.ltb_lt _ _)).
  - intros v n. repeat case_match; intros [= <- <-].
    unfold LEN_PREFIX_BYTES in *. simpl in *. lia.
Qed.
