(* ===== verification/DrainWalk.v ===== *)
(** * The drain walk

    [crates/famp-bus/src/broker/drain_walk.rs]: the one loop that decides
    deliver / skip / stop for each drained record and advances a cursor. *)

From Stdlib Require Import Strings.Byte Ascii.
From stdpp Require Import gmap strings list fin_maps sorting.
From S2P Require Import Prelude Json Proto Mailbox Origin WireInstance Envelope.

Inductive DrainCap := CapDelivered (n : nat) | CapScanned (n : nat).

Record DrainPolicy := mkPolicy {
  dp_filter : AwaitFilter;
  dp_skip_self_authored : option string;
  dp_require_local_origin : bool;
  dp_cap : option DrainCap
}.

Record WalkOutcome := mkOutcome {
  wo_delivered : list (Origin * Value);
  wo_next_offset : N;
  wo_fully_drained : bool
}.

(** [from.rsplit('/').next()]: what follows the last slash. *)
Fixpoint has_slash (s : string) : bool :=
  match s with
  | EmptyString => false
  | String c s => Ascii.eqb c "/"%char || has_slash s
  end.
Fixpoint leaf (s : string) : string :=
  match s with
  | EmptyString => EmptyString
  | String c r => if Ascii.eqb c "/"%char || has_slash r then leaf r else s
  end.

Definition is_self_authored (envelope : Value) (identity : option string) : bool :=
  letsome reader := identity orelse false in
  letsome from := get_str envelope "from" orelse false in
  String.eqb (leaf from) reader.

Section with_wire.
Context `{WL : WireLib}.

Definition filter_matches (f : AwaitFilter) (envelope : Value) : bool :=
  match f with
  | FilterAny => true
  | FilterTask task_id =>
      let raw_id :=
        if bool_decide (get_str envelope "class" = Some "request")
        then get_str envelope "id"
        else get envelope "causality" ≫= (fun c => get_str c "ref") in
      match raw_id ≫= uuid_parse_str with
      | Some candidate => (candidate =? task_id)%N
      | None => false
      end
  end.

(** The [for record in scan] loop: [continue] recurses, [break] and the early
    [return] produce the outcome. *)
Fixpoint walk_loop (policy : DrainPolicy) (delivered_cap : option nat)
  (scan : list DrainedRecord) (delivered : list (Origin * Value))
  (next_offset : N) (fully_drained : bool) : WalkOutcome :=
  match scan with
  | [] => mkOutcome delivered next_offset fully_drained
  | record :: scan =>
      match decode_line (rec_bytes record) with
      | Err _ =>
          walk_loop policy delivered_cap scan delivered (rec_end record) fully_drained
      | Ok (origin, value) =>
          if dp_require_local_origin policy && negb (origin_eqb origin Local) then
            walk_loop policy delivered_cap scan delivered (rec_end record) fully_drained
          else if is_self_authored value (dp_skip_self_authored policy) then
            walk_loop policy delivered_cap scan delivered (rec_end record) fully_drained
          else if filter_matches (dp_filter policy) value then
            let delivered := delivered ++ [(origin, value)] in
            if bool_decide (delivered_cap = Some (length delivered)) then
              mkOutcome delivered (rec_end record) false
            else walk_loop policy delivered_cap scan delivered (rec_end record) fully_drained
          else mkOutcome delivered next_offset false
      end
  end.

Definition walk (since : N) (drained : DrainResult) (policy : DrainPolicy) : WalkOutcome :=
  let records := dr_records drained in
  let '(scan, fully_drained) :=
    match dp_cap policy with
    | Some (CapScanned n) => (take n records, (length records <=? n)%nat)
    | _ => (records, true)
    end in
  let delivered_cap :=
    match dp_cap policy with Some (CapDelivered n) => Some n | _ => None end in
  let next_offset := N.min since (dr_next_offset drained) in
  walk_loop policy delivered_cap scan [] next_offset fully_drained.

(** ** What a walk may do with one record *)
Inductive Verdict := Skip | Deliver (d : Origin * Value) | Stop.

(** [Skip] is for records no call of this consumer can ever deliver:
    undecodable, not local under the trust gate, or the reader's own. *)
Definition verdict (policy : DrainPolicy) (r : DrainedRecord) : Verdict :=
  match decode_line (rec_bytes r) with
  | Err _ => Skip
  | Ok (origin, value) =>
      if dp_require_local_origin policy && negb (origin_eqb origin Local) then Skip
      else if is_self_authored value (dp_skip_self_authored policy) then Skip
      else if filter_matches (dp_filter policy) value then Deliver (origin, value)
      else Stop
  end.

Definition delivery (policy : DrainPolicy) (r : DrainedRecord) : option (Origin * Value) :=
  match verdict policy r with Deliver d => Some d | _ => None end.

(** The cursor after consuming [rs] from [o]. *)
Definition end_of (o : N) (rs : list DrainedRecord) : N :=
  match last rs with Some r => rec_end r | None => o end.

Lemma end_of_cons o r rs : end_of o (r :: rs) = end_of (rec_end r) rs.
Proof. unfold end_of. rewrite last_cons. by destruct (last rs). Qed.

Lemma end_of_chain o rs e : chain o rs e -> end_of o rs = e.
Proof.
  revert o. induction rs as [|r rs IH]; intros o; simpl; [done|].
  intros (_ & _ & Hc). rewrite end_of_cons. by apply IH.
Qed.

Lemma walk_loop_cons policy cap r scan del next full :
  walk_loop policy cap (r :: scan) del next full =
  match verdict policy r with
  | Skip => walk_loop policy cap scan del (rec_end r) full
  | Deliver d =>
      if bool_decide (cap = Some (length (del ++ [d])))
      then mkOutcome (del ++ [d]) (rec_end r) false
      else walk_loop policy cap scan (del ++ [d]) (rec_end r) full
  | Stop => mkOutcome del next false
  end.
Proof.
  simpl. unfold verdict. destruct (decode_line (rec_bytes r)) as [[o v]|e]; [|done].
  destruct (_ && _); [done|]. destruct (is_self_authored _ _); [done|].
  by destruct (filter_matches _ _).
Qed.

(** The complete account of a walk: it consumes a prefix [rs1] of the
    scanned records, every one of them delivered or permanently
    undeliverable, and stops only at the end, at a mismatch, or at the
    delivery cap. *)
Definition walk_account (policy : DrainPolicy) (cap : option nat)
  (scan : list DrainedRecord) (del : list (Origin * Value)) (next : N) (full : bool)
  (out : WalkOutcome) : Prop :=
  exists rs1 rs2,
    scan = rs1 ++ rs2 /\
    Forall (fun r => verdict policy r <> Stop) rs1 /\
    wo_delivered out = del ++ omap (delivery policy) rs1 /\
    wo_next_offset out = end_of next rs1 /\
    ((rs2 = [] /\ wo_fully_drained out = full) \/
     (wo_fully_drained out = false /\
      ((exists r rs3, rs2 = r :: rs3 /\ verdict policy r = Stop) \/
       cap = Some (length (wo_delivered out))))).

Lemma walk_loop_account policy cap scan del next full :
  walk_account policy cap scan del next full (walk_loop policy cap scan del next full).
Proof.
  revert del next. induction scan as [|r scan IH]; intros del next.
  { exists [], []. simpl. rewrite app_nil_r. split_and!; auto. }
  rewrite walk_loop_cons. destruct (verdict policy r) as [|d|] eqn:Ev.
  - destruct (IH del (rec_end r)) as (rs1 & rs2 & -> & Hall & Hd & Hn & Hend).
    exists (r :: rs1), rs2. simpl. unfold delivery at 1. rewrite Ev. split_and!; try done.
    + constructor; [by rewrite Ev|done].
    + by rewrite Hn, end_of_cons.
  - case_bool_decide as Hcap.
    + exists [r], scan. simpl. unfold delivery. rewrite Ev.
      split_and!; try done. { constructor; [by rewrite Ev|done]. } eauto.
    + destruct (IH (del ++ [d]) (rec_end r)) as (rs1 & rs2 & -> & Hall & Hd & Hn & Hend).
      exists (r :: rs1), rs2. simpl. unfold delivery at 1. rewrite Ev. split_and!; try done.
      * constructor; [by rewrite Ev|done].
      * rewrite Hd. by rewrite <- app_assoc.
      * by rewrite Hn, end_of_cons.
  - exists [], (r :: scan). simpl. rewrite app_nil_r. split_and!; eauto 10.
Qed.
End with_wire.

(** ** Walks over a mailbox *)
Section walks.
Context `{WL : WireLib}.

Definition with_filter (p : DrainPolicy) (f : AwaitFilter) : DrainPolicy :=
  mkPolicy f (dp_skip_self_authored p) (dp_require_local_origin p) (dp_cap p).
Definition with_cap (p : DrainPolicy) (c : option DrainCap) : DrainPolicy :=
  mkPolicy (dp_filter p) (dp_skip_self_authored p) (dp_require_local_origin p) c.

(** Why a walk left records unconsumed. *)
Definition stopped_at (p : DrainPolicy) (rs1 rs2 : list DrainedRecord)
  (out : WalkOutcome) : Prop :=
  (exists r rs3, rs2 = r :: rs3 /\ verdict p r = Stop) \/
  dp_cap p = Some (CapDelivered (length (wo_delivered out))) \/
  dp_cap p = Some (CapScanned (length rs1)).

(** [rs1] is exactly what the walk consumed. *)
Definition walked (p : DrainPolicy) (since : N) (d : DrainResult)
  (out : WalkOutcome) (rs1 rs2 : list DrainedRecord) : Prop :=
  dr_records d = rs1 ++ rs2 /\
  Forall (fun r => verdict p r <> Stop) rs1 /\
  wo_delivered out = omap (delivery p) rs1 /\
  wo_next_offset out = end_of (N.min since (dr_next_offset d)) rs1 /\
  (wo_fully_drained out = true -> rs2 = []) /\
  (rs2 <> [] -> stopped_at p rs1 rs2 out).

Lemma walk_walked p since d : exists rs1 rs2, walked p since d (walk since d p) rs1 rs2.
Proof.
  unfold walk. destruct (dp_cap p) as [[n|n]|] eqn:Ec.
  - destruct (walk_loop_account p (Some n) (dr_records d) []
      (N.min since (dr_next_offset d)) true)
      as (rs1 & rs2 & Hr & Ha & Hd & Hn & Hend).
    exists rs1, rs2. unfold walked, stopped_at. rewrite Ec. split_and!; try done.
    + intros Hf. destruct Hend as [[-> _]|[Hf' _]]; congruence.
    + intros Hne. destruct Hend as [[-> _]|[_ [?|[= Hc]]]]; [done|by left|].
      right; left. by rewrite Hc at 1.
  - destruct (walk_loop_account p None (take n (dr_records d)) []
      (N.min since (dr_next_offset d)) (length (dr_records d) <=? n)%nat)
      as (rs1 & rs2 & Hr & Ha & Hd & Hn & Hend).
    exists rs1, (rs2 ++ drop n (dr_records d)). unfold walked, stopped_at. rewrite Ec.
    split_and!; try done.
    + by rewrite app_assoc, <- Hr, take_drop.
    + intros Hf. destruct Hend as [[-> Hf']|[Hf' _]]; [|congruence].
      simpl. apply drop_ge. rewrite Hf in Hf'. symmetry in Hf'. by apply Nat.leb_le in Hf'.
    + intros Hne. destruct Hend as [[-> Hf']|[_ [(r & rs3 & -> & Hv)|[=]]]].
      * right; right. rewrite app_nil_r in Hr. rewrite <- Hr, length_take.
        simpl in Hne. assert (n < length (dr_records d))%nat.
        { destruct (decide (n < length (dr_records d))%nat); [done|].
          rewrite drop_ge in Hne by lia. done. }
        do 2 f_equal. lia.
      * left. eexists _, _. split; [|done]. done.
  - destruct (walk_loop_account p None (dr_records d) []
      (N.min since (dr_next_offset d)) true)
      as (rs1 & rs2 & Hr & Ha & Hd & Hn & Hend).
    exists rs1, rs2. unfold walked, stopped_at. split_and!; try done.
    + intros Hf. destruct Hend as [[-> _]|[Hf' _]]; congruence.
    + intros Hne. destruct Hend as [[-> _]|[_ [?|[=]]]]; [done|auto].
Qed.

Lemma verdict_with_cap p c r : verdict (with_cap p c) r = verdict p r.
Proof. done. Qed.
Lemma delivery_with_cap p c (rs : list DrainedRecord) : omap (delivery (with_cap p c)) rs = omap (delivery p) rs.
Proof. done. Qed.

Lemma any_never_stops p r : dp_filter p = FilterAny -> verdict p r <> Stop.
Proof. intros Hf. unfold verdict. rewrite Hf. by repeat case_match. Qed.

(** Consumed records deliver the same under the unfiltered policy. *)
Lemma delivery_any p r :
  verdict p r <> Stop -> delivery (with_filter p FilterAny) r = delivery p r.
Proof.
  unfold delivery, verdict. simpl. repeat case_match; naive_solver.
Qed.
Lemma omap_delivery_any p (rs : list DrainedRecord) :
  Forall (fun r => verdict p r <> Stop) rs ->
  omap (delivery (with_filter p FilterAny)) rs = omap (delivery p) rs.
Proof.
  induction 1 as [|r rs Hr _ IH]; [done|]. csimpl. rewrite delivery_any by done. by rewrite IH.
Qed.

(** An unfiltered, uncapped walk delivers every deliverable record. *)
Lemma walk_any_all p since d :
  dp_filter p = FilterAny -> dp_cap p = None ->
  wo_delivered (walk since d p) = omap (delivery p) (dr_records d) /\
  wo_next_offset (walk since d p) = end_of (N.min since (dr_next_offset d)) (dr_records d).
Proof.
  intros Hf Hc. destruct (walk_walked p since d) as (rs1 & rs2 & Hr & _ & Hd & Hn & _ & Hs).
  destruct rs2 as [|r rs2].
  - rewrite app_nil_r in Hr. by rewrite Hr.
  - destruct Hs as [(r' & rs3 & [= -> ->] & Hv)|[H|H]]; [done|..].
    + by destruct (any_never_stops p r' Hf).
    + congruence.
    + congruence.
Qed.

(** An unfiltered walk over the first [n] records delivers every deliverable
    one of them. *)
Lemma walk_scanned_all p since d n :
  dp_filter p = FilterAny -> dp_cap p = Some (CapScanned n) ->
  wo_delivered (walk since d p) = omap (delivery p) (take n (dr_records d)).
Proof.
  intros Hf Hc. unfold walk. rewrite Hc.
  destruct (walk_loop_account p None (take n (dr_records d)) []
    (N.min since (dr_next_offset d)) (length (dr_records d) <=? n)%nat)
    as (rs1 & rs2 & Hr & _ & Hd & _ & Hend).
  rewrite Hd. simpl. destruct Hend as [[-> _]|[_ [(r & rs3 & -> & Hv)|[=]]]].
  - by rewrite Hr, app_nil_r.
  - by destruct (any_never_stops p r Hf).
Qed.

(** Splitting the records of a mailbox splits its lines. *)
Lemma recs_from_split o lines rs1 rs2 :
  recs_from o lines = rs1 ++ rs2 ->
  exists l1 l2, lines = l1 ++ l2 /\ rs1 = recs_from o l1 /\
    rs2 = recs_from (o + mem_total l1) l2.
Proof.
  revert o rs1. induction lines as [|l ls IH]; intros o rs1; simpl.
  - intros [-> ->]%symmetry%app_eq_nil. exists [], []. done.
  - destruct rs1 as [|r rs1]; simpl.
    + intros <-. exists [], (l :: ls). simpl. by rewrite N.add_0_r.
    + intros [= <- (l1 & l2 & -> & -> & ->)%IH]. exists (l :: l1), l2.
      rewrite mem_total_cons, N.add_assoc. done.
Qed.

Lemma recs_from_app o a b :
  recs_from o (a ++ b) = recs_from o a ++ recs_from (o + mem_total a) b.
Proof.
  revert o. induction a as [|l a IH]; intros o; cbn [recs_from app].
  - by rewrite N.add_0_r.
  - by rewrite IH, mem_total_cons, N.add_assoc.
Qed.

Lemma end_of_recs_from o lines :
  end_of o (recs_from o lines) = (o + mem_total lines)%N.
Proof. apply end_of_chain, chain_recs_from. Qed.

(** A walk from a line boundary ends on a line boundary, having consumed
    the lines in between. *)
Lemma walk_mailbox p pre post :
  exists l1 l2, post = l1 ++ l2 /\
    walked p (mem_total pre) (mem_drain_entries (pre ++ post) (mem_total pre))
      (walk (mem_total pre) (mem_drain_entries (pre ++ post) (mem_total pre)) p)
      (recs_from (mem_total pre) l1) (recs_from (mem_total (pre ++ l1)) l2) /\
    wo_next_offset (walk (mem_total pre) (mem_drain_entries (pre ++ post) (mem_total pre)) p)
      = mem_total (pre ++ l1).
Proof.
  set (d := mem_drain_entries (pre ++ post) (mem_total pre)).
  destruct (walk_walked p (mem_total pre) d) as (rs1 & rs2 & Hw).
  assert (Hd : d = mkDrain (recs_from (mem_total pre) post) (mem_total (pre ++ post)))
    by apply mem_drain_at.
  destruct Hw as (Hr & Hrest). pose proof Hr as Hr'. rewrite Hd in Hr'. simpl in Hr'.
  apply recs_from_split in Hr' as (l1 & l2 & -> & -> & ->).
  exists l1, l2. split; [done|]. rewrite mem_total_app. split; [by split|].
  destruct Hrest as (_ & _ & Hn & _). rewrite Hn, Hd. cbn [dr_next_offset].
  rewrite N.min_l by (rewrite mem_total_app; lia). apply end_of_recs_from.
Qed.




End walks.

(** C5. The cursor invariant of the single drain loop (debug 999.1): whatever
    the policy, a walk consumes a prefix of the drained records in which every
    record was delivered in order or can never be delivered to this consumer,
    moves the cursor to the end of exactly that prefix, and leaves records
    behind only at a filter mismatch or at its cap. *)
Theorem walk_accounts_for_every_record `{WireLib} p since d :
  exists rs1 rs2,
    dr_records d = rs1 ++ rs2 /\
    Forall (fun r => verdict p r <> Stop) rs1 /\
    wo_delivered (walk since d p) = omap (delivery p) rs1 /\
    wo_next_offset (walk since d p) = end_of (N.min since (dr_next_offset d)) rs1 /\
    (wo_fully_drained (walk since d p) = true -> rs2 = []) /\
    (rs2 <> [] -> stopped_at p rs1 rs2 (walk since d p)).
Proof. apply walk_walked. Qed.

(** C7. Filtered awaits lose nothing: on any mailbox, what a task-filtered walk
    delivers, followed by what an unfiltered walk delivers from the cursor it
    left, is exactly what an unfiltered walk would have delivered from the
    start: same envelopes, same order, each once. *)
Theorem filtered_walk_loses_nothing `{WireLib} p pre post :
  let entries := pre ++ post in
  let cursor := mem_total pre in
  let all := with_cap (with_filter p FilterAny) None in
  let out := walk cursor (mem_drain_entries entries cursor) p in
  let next := wo_next_offset out in
  wo_delivered out ++ wo_delivered (walk next (mem_drain_entries entries next) all) =
  wo_delivered (walk cursor (mem_drain_entries entries cursor) all).
Proof.
  cbv zeta. destruct (walk_mailbox p pre post) as (l1 & l2 & -> & Hw & Hn).
  rewrite Hn. destruct Hw as (_ & Hall & Hd & _). rewrite Hd.
  pose proof (fun s d => proj1 (walk_any_all (with_cap (with_filter p FilterAny) None)
    s d eq_refl eq_refl)) as Hany.
  rewrite !Hany.
  rewrite (mem_drain_at pre (l1 ++ l2)).
  rewrite app_assoc, (mem_drain_at (pre ++ l1) l2). cbn [dr_records].
  rewrite !delivery_with_cap.
  rewrite <- (omap_delivery_any p (recs_from (mem_total pre) l1)) by done.
  by rewrite mem_total_app, <- omap_app, <- recs_from_app.
Qed.


