(* ===== verification/Authorship.v ===== *)
(** * Principals and the broker's author check

    How the printed form of a principal ([crates/famp-core/src/identity.rs])
    meets the broker's check of an envelope's author ([is_self_authored] of
    [crates/famp-bus/src/broker/drain_walk.rs]). *)

From Stdlib Require Import Ascii.
From stdpp Require Import base strings list.
From S2P Require Import Prelude Json Proto Mailbox Origin DrainWalk Principal.

Lemma has_slash_contains s : has_slash s = contains "/"%char s.
Proof.
  induction s as [|c s IH]; simpl; [done|]. rewrite IH. unfold contains. simpl.
  by destruct (Ascii.eqb c "/").
Qed.

Lemma leaf_no_slash s : contains "/"%char s = false -> leaf s = s.
Proof.
  destruct s as [|c s]; [done|]. intros H. simpl. rewrite has_slash_contains.
  unfold contains in *. simpl in H. destruct (Ascii.eqb c "/"); simpl in *; [done|]. by rewrite H.
Qed.

Lemma leaf_after_slash a b : contains "/"%char b = false -> leaf (a +:+ String "/" b) = b.
Proof.
  intros Hb. induction a as [|c a IH]; simpl.
  - by apply leaf_no_slash.
  - assert (has_slash (a +:+ String "/" b) = true) as ->.
    { rewrite has_slash_contains, contains_app. unfold contains at 2. simpl. by rewrite orb_true_r. }
    by rewrite orb_true_r.
Qed.

(** The broker's author check is the principal's name: for an envelope whose
    [from] is a valid principal, the identity it may be sent under, and the
    reader it is hidden from on a channel, is exactly the name component,
    whatever the authority. *)
Theorem author_check_is_principal_name e p nm :
  principal_ok p -> get_str e "from" = Some (Principal_display p) ->
  is_self_authored e (Some nm) = String.eqb (pr_name p) nm.
Proof.
  intros [_ Hn] He. unfold is_self_authored. rewrite He. unfold Principal_display.
  change ("agent:" +:+ pr_authority p +:+ "/" +:+ pr_name p) with
    ("agent:" +:+ (pr_authority p +:+ String "/" (pr_name p))).
  assert (("agent:" +:+ (pr_authority p +:+ String "/" (pr_name p)))%string =
          ("agent:" +:+ pr_authority p) +:+ String "/" (pr_name p)) as ->.
  { done. }
  rewrite leaf_after_slash; [done|]. apply valid_name_no; auto.
Qed.

Lemma author_check_is_principal_name_witness :
  is_self_authored (VObject [("from", VString "agent:example.com/alice")]) (Some "alice") = true.
Proof.
  rewrite (author_check_is_principal_name _ (mkPrincipal "example.com" "alice"));
    [reflexivity|split; reflexivity|reflexivity].
Qed.
