(* ===== verification/BrokerState.v ===== *)
(** * Broker state and identity resolution

    [crates/famp-bus/src/broker/state.rs] and
    [crates/famp-bus/src/broker/identity.rs].  Wall-clock times
    ([SystemTime]) and monotonic times ([Instant]) are nanosecond counts; the
    clock readings a call makes are arguments of the operation. *)

From stdpp Require Import gmap strings list fin_maps sorting.
From S2P Require Import Prelude Json Proto Mailbox.

Abbreviation SystemTime := N (only parsing).
Abbreviation Instant := N (only parsing).

Record ClientState := mkClient {
  handshaked : bool;
  name : option string;
  pid : option N;
  joined : gset string;
  connected : bool;
  bind_as : option string;
  cwd : option string;
  listen_mode : bool;
  wake_addr : option string;
  origin : Origin;
  registered_at : SystemTime;
  last_activity : SystemTime;
  await_offsets : gmap MailboxName N;
  inbox_offsets : gmap MailboxName N
}.

Record ParkedAwait := mkParked { pa_filter : AwaitFilter; pa_deadline : Instant }.

Record BrokerState := mkState {
  clients : gmap N ClientState;
  channels : gmap string (gset string);
  pending_awaits : gmap N ParkedAwait;
  channel_roles : gmap (string * string) string;
  started_at : SystemTime
}.

(** [BrokerState::new], with the clock reading it takes. *)
Definition BrokerState_new (now_wall : SystemTime) : BrokerState :=
  mkState ∅ ∅ ∅ ∅ now_wall.

(** ** Field updates *)
Definition set_clients (f : gmap N ClientState -> gmap N ClientState) (s : BrokerState) :=
  mkState (f (clients s)) (channels s) (pending_awaits s) (channel_roles s) (started_at s).
Definition set_channels f (s : BrokerState) :=
  mkState (clients s) (f (channels s)) (pending_awaits s) (channel_roles s) (started_at s).
Definition set_pending f (s : BrokerState) :=
  mkState (clients s) (channels s) (f (pending_awaits s)) (channel_roles s) (started_at s).
Definition set_roles f (s : BrokerState) :=
  mkState (clients s) (channels s) (pending_awaits s) (f (channel_roles s)) (started_at s).

(** [if let Some(state) = clients.get_mut(&id) { f(state) }]. *)
Definition alter_client (id : ClientId) (f : ClientState -> ClientState) (s : BrokerState) :=
  set_clients (alter f id) s.

Definition with_listen_mode (b : bool) (c : ClientState) : ClientState :=
  mkClient (handshaked c) (name c) (pid c) (joined c) (connected c) (bind_as c) (cwd c)
    b (wake_addr c) (origin c) (registered_at c) (last_activity c)
    (await_offsets c) (inbox_offsets c).
Definition with_wake_addr (w : option string) (c : ClientState) : ClientState :=
  mkClient (handshaked c) (name c) (pid c) (joined c) (connected c) (bind_as c) (cwd c)
    (listen_mode c) w (origin c) (registered_at c) (last_activity c)
    (await_offsets c) (inbox_offsets c).
Definition with_last_activity (t : SystemTime) (c : ClientState) : ClientState :=
  mkClient (handshaked c) (name c) (pid c) (joined c) (connected c) (bind_as c) (cwd c)
    (listen_mode c) (wake_addr c) (origin c) (registered_at c) t
    (await_offsets c) (inbox_offsets c).
Definition with_joined f (c : ClientState) : ClientState :=
  mkClient (handshaked c) (name c) (pid c) (f (joined c)) (connected c) (bind_as c) (cwd c)
    (listen_mode c) (wake_addr c) (origin c) (registered_at c) (last_activity c)
    (await_offsets c) (inbox_offsets c).
Definition with_await_offsets f (c : ClientState) : ClientState :=
  mkClient (handshaked c) (name c) (pid c) (joined c) (connected c) (bind_as c) (cwd c)
    (listen_mode c) (wake_addr c) (origin c) (registered_at c) (last_activity c)
    (f (await_offsets c)) (inbox_offsets c).
Definition with_inbox_offsets f (c : ClientState) : ClientState :=
  mkClient (handshaked c) (name c) (pid c) (joined c) (connected c) (bind_as c) (cwd c)
    (listen_mode c) (wake_addr c) (origin c) (registered_at c) (last_activity c)
    (await_offsets c) (f (inbox_offsets c)).

(** ** Identity: [identity.rs] *)
Definition registered_name (s : BrokerState) (client : ClientId) : option string :=
  option_filter connected (clients s !! client) ≫= name.

Definition effective_identity (c : ClientState) : result string BusErrorKind :=
  match name c with
  | Some n => Ok n
  | None => match bind_as c with Some b => Ok b | None => Err NotRegistered end
  end.

(** [connected && name.as_deref() == Some(bound)]. *)
Definition holds_name (bound : string) (c : ClientState) : bool :=
  connected c && bool_decide (name c = Some bound).

Definition proxy_holder_alive (env : BrokerEnv) (s : BrokerState) (bound : string) : bool :=
  iter_any (fun h => holds_name bound h &&
    match pid h with Some p => is_alive env p | None => false end)
    (bt_values (clients s)).

Definition canonical_holder_id (s : BrokerState) (bound : string) : option ClientId :=
  find_map (fun '(id, c) => if holds_name bound c then Some id else None)
    (bt_iter (clients s)).

Definition resolve_op_identity (env : BrokerEnv) (s : BrokerState) (client : ClientId)
  : result string BusErrorKind :=
  letsome state := clients s !! client orelse Err NotRegistered in
  if negb (connected state) then Err NotRegistered else
  trying identity := effective_identity state catch e => Err e in
  if is_some (name state) then Ok identity
  else if proxy_holder_alive env s identity then Ok identity
  else Err NotRegistered.

(** ** The inspector's read-only view *)
Record WaiterStateView := mkWaiterView {
  wv_name : string; wv_mailbox : string; wv_cursor : N; wv_deadline_ms : N }.
Record ClientStateView := mkClientView {
  cv_name : string; cv_pid : option N; cv_bind_as : option string; cv_cwd : option string;
  cv_listen_mode : bool; cv_wake_addr : option string;
  cv_registered_at : SystemTime; cv_last_activity : SystemTime; cv_joined : list string }.
Record BrokerStateView := mkView {
  vw_started_at : SystemTime; vw_clients : list ClientStateView;
  vw_waiters : list WaiterStateView }.

(** [deadline.checked_duration_since(now)] in whole milliseconds, saturating. *)
Definition remaining_ms (deadline now : Instant) : N :=
  if (now <=? deadline)%N then N.min ((deadline - now) / 1000000) u64_max else 0%N.

Definition client_view (c : ClientState) : ClientStateView :=
  mkClientView (default EmptyString (name c)) (pid c) (bind_as c) (cwd c) (listen_mode c)
    (wake_addr c) (registered_at c) (last_activity c) (bs_iter (joined c)).

(** The rows of one parked await: the agent mailbox, then each joined channel. *)
Definition waiter_rows (s : BrokerState) (now : Instant) (client_id : ClientId)
  (parked : ParkedAwait) : list WaiterStateView :=
  letsome client_state := clients s !! client_id orelse [] in
  letsome nm := opt_or_else (name client_state) (bind_as client_state) orelse [] in
  let owner_id :=
    if is_some (name client_state) then client_id
    else default client_id
           (canonical_holder_id s (default EmptyString (bind_as client_state))) in
  let owner_state := clients s !! owner_id in
  let deadline_ms := remaining_ms (pa_deadline parked) now in
  let cursor mb := default 0%N (owner_state ≫= fun o => await_offsets o !! mb) in
  mkWaiterView nm nm (cursor (MbAgent nm)) deadline_ms ::
  match owner_state with
  | None => []
  | Some o =>
      map (fun ch => mkWaiterView nm ch (cursor (MbChannel ch)) deadline_ms)
        (bs_iter (joined o))
  end.

Definition view (s : BrokerState) (now : Instant) : BrokerStateView :=
  mkView (started_at s)
    (map client_view
      (List.filter (fun c => connected c && is_some (name c)) (bt_values (clients s))))
    (concat (map (fun '(id, p) => waiter_rows s now id p) (bt_iter (pending_awaits s)))).

(** ** Inputs and staged effects: [broker/mod.rs] *)
Inductive BrokerInput :=
| Wire (client : ClientId) (msg : BusMessage)
| Disconnect (client : ClientId)
| Tick.

Inductive Out :=
| Reply (client : ClientId) (reply : BusReply)
| AppendMailbox (target : MailboxName) (line : bytes) (org : Origin)
| AdvanceCursor (mailbox : MailboxName) (offset : N)
| ParkAwait (client : ClientId) (filter : AwaitFilter) (deadline : Instant)
| UnparkAwait (client : ClientId)
| ReleaseClient (client : ClientId)
| InspectRequest (client : ClientId) (kind : InspectKind)
| SessionEnded (nm : string) (p : N) (chans : list string).

(** [handle::err]. *)
Definition err (client : ClientId) (kind : BusErrorKind) (message : string) : Out :=
  Reply client (ReplyErr kind message).

(** ** Lemmas *)
Lemma holds_name_true b c : holds_name b c = true <-> connected c = true /\ name c = Some b.
Proof.
  unfold holds_name. rewrite andb_true_iff, bool_decide_eq_true. done.
Qed.

Lemma canonical_holder_Some s b id :
  canonical_holder_id s b = Some id ->
  exists c, clients s !! id = Some c /\ connected c = true /\ name c = Some b.
Proof.
  intros ([i c] & Hin & Hf)%find_map_Some. apply elem_of_bt_iter in Hin.
  destruct (holds_name b c) eqn:E; [|done]. injection Hf as ->.
  apply holds_name_true in E as [? ?]. eauto.
Qed.

Lemma canonical_holder_None s b id c :
  canonical_holder_id s b = None -> clients s !! id = Some c ->
  connected c = true -> name c <> Some b.
Proof.
  intros Hn Hc Hcon Hnm. unfold canonical_holder_id in Hn. rewrite find_map_None in Hn.
  specialize (Hn (id, c)). simpl in Hn.
  rewrite (proj2 (holds_name_true b c)) in Hn by done.
  discriminate Hn. by apply elem_of_bt_iter.
Qed.

Lemma canonical_holder_exists s b id c :
  clients s !! id = Some c -> connected c = true -> name c = Some b ->
  exists id', canonical_holder_id s b = Some id'.
Proof.
  intros Hc Hcon Hnm. destruct (canonical_holder_id s b) as [id'|] eqn:E; [eauto|].
  by destruct (canonical_holder_None s b id c E Hc Hcon).
Qed.

Lemma proxy_holder_alive_true env s b :
  proxy_holder_alive env s b = true <->
  exists id c p, clients s !! id = Some c /\ connected c = true /\ name c = Some b /\
    pid c = Some p /\ is_alive env p = true.
Proof.
  unfold proxy_holder_alive. rewrite iter_any_true. setoid_rewrite elem_of_bt_values.
  setoid_rewrite andb_true_iff. setoid_rewrite holds_name_true. split.
  - intros (c & [id Hid] & [Hc Hn] & Hp). destruct (pid c) as [p|] eqn:Ep; [|done].
    exists id, c, p. done.
  - intros (id & c & p & Hid & Hc & Hn & Hp & Ha). exists c. rewrite Hp. eauto.
Qed.

(** Every successful resolution names a connected holder: the [expect] in
    [inbox] cannot fire. *)
Lemma resolve_op_identity_Ok env s client nm :
  resolve_op_identity env s client = Ok nm ->
  exists c, clients s !! client = Some c /\ connected c = true /\
    (name c = Some nm \/
     name c = None /\ bind_as c = Some nm /\ proxy_holder_alive env s nm = true).
Proof.
  unfold resolve_op_identity. destruct (clients s !! client) as [c|] eqn:Ec; [|done].
  destruct (connected c) eqn:Econ; simpl; [|done]. unfold effective_identity.
  destruct (name c) as [n|] eqn:En; simpl.
  - intros [= ->]. eauto 10.
  - destruct (bind_as c) as [b|] eqn:Eb; [|done]. case_match eqn:Ea; [|done].
    intros [= ->]. eauto 10.
Qed.

Lemma resolve_has_holder env s client nm :
  resolve_op_identity env s client = Ok nm ->
  exists id, canonical_holder_id s nm = Some id.
Proof.
  intros (c & Hc & Hcon & [Hn|(_ & _ & Ha)])%resolve_op_identity_Ok.
  - eapply canonical_holder_exists; eauto.
  - apply proxy_holder_alive_true in Ha as (id & c' & p & ? & ? & ? & _).
    eapply canonical_holder_exists; eauto.
Qed.
