(* ===== verification/Awaiting.v ===== *)
(** * The await subsystem

    [crates/famp-bus/src/broker/awaiting.rs]: parking, draining and waking
    [Await] requests.  Delivery offsets live on the canonical holder. *)

From stdpp Require Import gmap strings list fin_maps sorting.
From S2P Require Import Prelude Json Proto Mailbox Origin DrainWalk BrokerState.

Definition AWAIT_BATCH_CAP : nat := 50%nat.
Definition MAX_AWAIT_MS : N := (23 * 60 * 60 * 1000)%N.

Record AwaitBatch := mkBatch {
  ab_mailbox : MailboxName;
  ab_envelopes : list StampedEnvelope;
  ab_next_offset : N;
  ab_fully_drained : bool
}.

Definition to_stamped (d : Origin * Value) : StampedEnvelope := mkStamped d.1 d.2.

Section awaiting.
Context `{WL : WireLib} (env : BrokerEnv).

Definition resolve_await_owner (s : BrokerState) (client : ClientId)
  : result (string * ClientId) BusErrorKind :=
  trying identity := resolve_op_identity env s client catch e => Err e in
  Ok (identity, default client (canonical_holder_id s identity)).

Definition await_mailboxes (s : BrokerState) (owner : ClientId) (identity : string)
  : list MailboxName :=
  MbAgent identity ::
  match clients s !! owner with
  | Some state => map MbChannel (bs_iter (joined state))
  | None => []
  end.

Definition await_offset (s : BrokerState) (owner : ClientId) (mailbox : MailboxName) : N :=
  default 0%N (clients s !! owner ≫= fun state => await_offsets state !! mailbox).

Definition set_await_offset (s : BrokerState) (owner : ClientId) (mailbox : MailboxName)
  (offset : N) : BrokerState :=
  alter_client owner (with_await_offsets (<[mailbox := offset]>)) s.

(** [trigger] is the envelope a send is about to append, its origin and the
    length of its stamped line. *)
Definition drain_await_batch (s : BrokerState) (owner : ClientId) (mailbox : MailboxName)
  (filter : AwaitFilter) (trigger : option (Origin * Value * N))
  : result AwaitBatch (BusErrorKind * string) :=
  let since := await_offset s owner mailbox in
  trying drained := drain_from env mailbox since
    catch e => Err (Internal, MailboxErr_display e) in
  let awaiter_identity :=
    match mailbox with
    | MbChannel _ =>
        clients s !! owner ≫= fun state =>
          match effective_identity state with Ok i => Some i | Err _ => None end
    | MbAgent _ => None
    end in
  let outcome := walk since drained
    (mkPolicy filter awaiter_identity true (Some (CapDelivered AWAIT_BATCH_CAP))) in
  let next_offset := wo_next_offset outcome in
  let envelopes := map to_stamped (wo_delivered outcome) in
  let fully_drained := wo_fully_drained outcome in
  let '(envelopes, next_offset) :=
    match fully_drained, trigger with
    | true, Some (trigger_origin, trigger_envelope, trigger_line_len) =>
        let trigger_next_offset :=
          u64_add (u64_add next_offset trigger_line_len) JSONL_RECORD_TERMINATOR_LEN in
        let trigger_self_authored := is_self_authored trigger_envelope awaiter_identity in
        if negb (origin_eqb trigger_origin Local) || trigger_self_authored then
          (envelopes, trigger_next_offset)
        else if filter_matches filter trigger_envelope then
          (envelopes ++ [mkStamped trigger_origin trigger_envelope], trigger_next_offset)
        else (envelopes, next_offset)
    | _, _ => (envelopes, next_offset)
    end in
  Ok (mkBatch mailbox envelopes next_offset fully_drained).

Definition await_reply_for_mailbox (s : BrokerState) (client : ClientId)
  (mailbox : MailboxName) (filter : AwaitFilter) (trigger : option (Origin * Value * N))
  : BrokerState * BusReply :=
  letok (_, owner) := resolve_await_owner s client
    orelse (s, ReplyErr NotRegistered "client is not registered") in
  match drain_await_batch s owner mailbox filter trigger with
  | Ok batch =>
      let s' := set_await_offset s owner mailbox (ab_next_offset batch) in
      if negb (bool_decide (length (ab_envelopes batch) = 0%nat)) then
        (s', AwaitOk (ab_envelopes batch) (ab_mailbox batch) (ab_next_offset batch))
      else if negb (ab_fully_drained batch) then (s', AwaitTimeout)
      else (s', ReplyErr Internal "await wake produced no matching envelopes")
  | Err (kind, message) => (s, ReplyErr kind message)
  end.

(** The mailbox loop of [await_envelope]; [Some outs] is its early return. *)
Fixpoint await_scan (s : BrokerState) (client owner : ClientId) (filter : AwaitFilter)
  (mailboxes : list MailboxName) : BrokerState * option (list Out) :=
  match mailboxes with
  | [] => (s, None)
  | mailbox :: rest =>
      let since := await_offset s owner mailbox in
      match drain_await_batch s owner mailbox filter None with
      | Err (kind, message) => (s, Some [err client kind message])
      | Ok batch =>
          let s := if negb (ab_next_offset batch =? since)%N
                   then set_await_offset s owner mailbox (ab_next_offset batch) else s in
          if negb (bool_decide (length (ab_envelopes batch) = 0%nat)) then
            (s, Some [Reply client (AwaitOk (ab_envelopes batch) (ab_mailbox batch)
                                      (ab_next_offset batch))])
          else await_scan s client owner filter rest
      end
  end.

Definition await_envelope (s : BrokerState) (client : ClientId) (timeout_ms : N)
  (task : option N) (now : Instant) : BrokerState * list Out :=
  letok (identity, owner) := resolve_await_owner s client
    orelse (s, [err client NotRegistered "client is not registered"]) in
  let filter := match task with Some t => FilterTask t | None => FilterAny end in
  let '(s, returned) := await_scan s client owner filter (await_mailboxes s owner identity) in
  match returned with
  | Some outs => (s, outs)
  | None =>
      let timeout_ms := N.min timeout_ms MAX_AWAIT_MS in
      let deadline := (now + timeout_ms * 1000000)%N in
      (set_pending (<[client := mkParked filter deadline]>) s,
       [ParkAwait client filter deadline])
  end.

Definition woken_waiter_is_canonical_holder (s : BrokerState) (nm : string)
  (waiters : list ClientId) : bool :=
  iter_any (fun waiting =>
    match resolve_await_owner s waiting with
    | Ok (identity, owner) => String.eqb identity nm && (owner =? waiting)%N
    | Err _ => false
    end) waiters.

Definition waiter_matches (s : BrokerState) (nm : string) (envelope : Value)
  (entry : ClientId * ParkedAwait) : option ClientId :=
  let (client, parked) := entry in
  letsome state := clients s !! client orelse None in
  if negb (connected state) then None else
  let matches_name :=
    match name state, bind_as state with
    | Some n, _ => String.eqb n nm
    | None, Some b => String.eqb b nm && proxy_holder_alive env s nm
    | None, None => false
    end in
  if matches_name && filter_matches (pa_filter parked) envelope then Some client else None.

Definition waiting_clients_for_name (s : BrokerState) (nm : string) (envelope : Value)
  (org : Origin) : list ClientId :=
  if negb (origin_eqb org Local) then []
  else omap (waiter_matches s nm envelope) (bt_iter (pending_awaits s)).
End awaiting.
