(* ===== verification/Handle.v ===== *)
(** * The broker's handlers

    [crates/famp-bus/src/broker/handle.rs]: [Broker::handle] and every
    operation it dispatches to.  A handler maps the broker state to the next
    state and the ordered list of staged effects. *)

From stdpp Require Import gmap strings list fin_maps sorting pretty.
From S2P Require Import Prelude Json Proto Mailbox Origin Serde Codec DrainWalk.
From S2P Require Import BrokerState Awaiting.

(** The [SystemTime::now()] readings of one [handle] call, in order; no
    operation takes more than two. *)
Record WallClock := mkWall { wall_first : SystemTime; wall_second : SystemTime }.

Definition CHANNEL_DRAIN_CAP : nat := 256%nat.
Definition DRAIN_WARN_BYTES : N := (8 * 1024 * 1024)%N.

(** ** Reading helpers *)
Definition drained_span (start_offset : N) (records : list DrainedRecord) : N :=
  match last records with Some r => (rec_end r - start_offset)%N | None => 0%N end.

(** Whether the operator warning is logged; the drain itself is not cut. *)
Definition warn_if_drain_oversized (start_offset : N) (records : list DrainedRecord) : bool :=
  (DRAIN_WARN_BYTES <? drained_span start_offset records)%N.

Definition connected_names (cs : gmap N ClientState) : list string :=
  omap name (List.filter connected (bt_values cs)).

Section handle.
Context `{WL : WireLib} (env : BrokerEnv).

Definition task_id_from (envelope : Value) : N :=
  default uuid_nil (get_str envelope "id" ≫= uuid_parse_str).

Definition decode_lines (start_offset : N) (drained : DrainResult) : list (Origin * Value) :=
  wo_delivered (walk start_offset drained (mkPolicy FilterAny None false None)).

Definition client_origin (s : BrokerState) (client : ClientId) : Origin :=
  letsome state := clients s !! client orelse Unknown in
  if is_some (name state) then origin state else
  letsome bound := bind_as state orelse Unknown in
  match canonical_holder_id s bound ≫= fun holder_id => clients s !! holder_id with
  | Some holder => origin holder
  | None => Unknown
  end.

Definition encode_envelope (envelope : Value) (client : ClientId) : result bytes Out :=
  trying line := canonicalize envelope
    catch e => Err (err client EnvelopeInvalid e) in
  if (MAX_FRAME_BYTES <? blen line)%N
  then Err (err client EnvelopeTooLarge "envelope too large")
  else Ok line.

Definition send_ok (client : ClientId) (task_id : N) (to : Target) (ok woken : bool)
  (wa : option string) : Out :=
  Reply client (SendOk task_id [mkDelivered to ok woken wa]).

(** ** Session operations *)
Definition touch_activity (s : BrokerState) (client : ClientId) (now_wall : SystemTime)
  : BrokerState :=
  let target :=
    clients s !! client ≫= fun state =>
      if negb (connected state) then None
      else if is_some (name state) then Some client
      else bind_as state ≫= canonical_holder_id s in
  match target with
  | Some target => alter_client target (with_last_activity now_wall) s
  | None => s
  end.

Definition set_listen (s : BrokerState) (client : ClientId) (listen : bool)
  (now_wall : SystemTime) : BrokerState * list Out :=
  letsome state := clients s !! client
    orelse (s, [err client NotRegistered "client is not registered"]) in
  if negb (connected state) then
    (s, [err client NotRegistered "client is not registered"])
  else if is_some (bind_as state) && is_none (name state) then
    (s, [err client NotRegistered "proxy (bind_as) connection cannot set_listen"])
  else if is_none (name state) then
    (s, [err client NotRegistered "client is not registered"])
  else
    (alter_client client
       (fun c => with_last_activity now_wall (with_listen_mode listen c)) s,
     [Reply client (SetListenOk listen)]).

Definition set_wake_addr (s : BrokerState) (client : ClientId) (wa : option string)
  (now_wall : SystemTime) : BrokerState * list Out :=
  letsome state := clients s !! client
    orelse (s, [err client NotRegistered "client is not registered"]) in
  if negb (connected state) then
    (s, [err client NotRegistered "client is not registered"])
  else if is_some (bind_as state) && is_none (name state) then
    (s, [err client NotRegistered "proxy (bind_as) connection cannot set_wake_addr"])
  else if is_none (name state) then
    (s, [err client NotRegistered "client is not registered"])
  else
    let stored := option_filter wake_addr_valid wa in
    (alter_client client
       (fun c => with_last_activity now_wall (with_wake_addr stored c)) s,
     [Reply client (SetWakeAddrOk stored)]).

(** The [ClientState] literal of [hello], for either binding. *)
Definition fresh_client (bind : option string) (wall : WallClock) : ClientState :=
  mkClient true None None ∅ true bind None false None Unknown
    (wall_first wall) (wall_second wall) ∅ ∅.

Definition hello (s : BrokerState) (client : ClientId) (bus_proto : N)
  (bind : option string) (wall : WallClock) : BrokerState * list Out :=
  if negb (bus_proto =? BUS_PROTO_VERSION)%N then
    (s, [Reply client (HelloErr BrokerProtoMismatch
      ("client bus_proto=" +:+ pretty bus_proto +:+
       " is not supported by this broker; expected bus_proto=" +:+
       pretty BUS_PROTO_VERSION))])
  else
    match bind with
    | Some nm =>
        if negb (proxy_holder_alive env s nm) then
          (s, [Reply client (HelloErr NotRegistered
            ("bind_as identity '" +:+ nm +:+ "' is not registered"))])
        else
          (set_clients (<[client := fresh_client (Some nm) wall]>) s,
           [Reply client (HelloOk BUS_PROTO_VERSION)])
    | None =>
        (set_clients (<[client := fresh_client None wall]>) s,
         [Reply client (HelloOk BUS_PROTO_VERSION)])
    end.

(** The field assignments [register] commits. *)
Definition bind_client (nm : string) (p : N) (cw : option string) (listen : bool)
  (org : option Origin) (now_wall : SystemTime) (mailbox : MailboxName) (offset : N)
  (c : ClientState) : ClientState :=
  mkClient (handshaked c) (Some nm) (Some p) (joined c) true (bind_as c) cw listen
    (wake_addr c) (default Origin_default org) now_wall now_wall
    (<[mailbox := offset]> (await_offsets c)) (inbox_offsets c).

Definition name_taken (s : BrokerState) (client : ClientId) (nm : string) : bool :=
  iter_any (fun '(id, c) => negb (id =? client)%N && holds_name nm c) (bt_iter (clients s)).

Definition register (s : BrokerState) (client : ClientId) (nm : string) (p : N)
  (cw : option string) (listen : bool) (org : option Origin) (now_wall : SystemTime)
  : BrokerState * list Out :=
  if (p =? 0)%N then
    (s, [err client EnvelopeInvalid "pid 0 is not a valid process identifier"])
  else if match clients s !! client with
          | Some state => is_some (bind_as state) | None => false end then
    (s, [err client NotRegistered "proxy (bind_as) connection cannot register"])
  else if name_taken s client nm then
    (s, [err client NameTaken "name already registered"])
  else
  let mailbox := MbAgent nm in
  let since := 0%N in
  trying drained := drain_from env mailbox since
    catch e => (s, [err client Internal (MailboxErr_display e)]) in
  let decoded := map to_stamped (decode_lines since drained) in
  let peers := connected_names (clients s) in
  let reply := RegisterOk nm decoded peers in
  match encode_frame (reply_to_value reply) with
  | Err e =>
      (s, [err client EnvelopeTooLarge
        ("RegisterOk exceeds 16 MiB reply-frame limit: " +:+ FrameError_display e)])
  | Ok _ =>
      match clients s !! client with
      | None => (s, [err client BrokerProtoMismatch "Hello required as first frame"])
      | Some _ =>
          (alter_client client
             (bind_client nm p cw listen org now_wall mailbox (dr_next_offset drained)) s,
           [Reply client reply; AdvanceCursor mailbox (dr_next_offset drained)])
      end
  end.

(** ** Sending *)
Definition recipient_wake_addr (s : BrokerState) (nm : string) (sender_origin : Origin)
  : option string :=
  if negb (origin_eqb sender_origin Local) then None else
  letsome holder := canonical_holder_id s nm orelse None in
  letsome state := clients s !! holder orelse None in
  if negb (listen_mode state) then None else wake_addr state.

(** The wake loop shared by both targets: unpark each waiter and answer it. *)
Fixpoint wake_all (s : BrokerState) (mailbox : MailboxName)
  (trigger : option (Origin * Value * N)) (waiters : list ClientId)
  : BrokerState * list Out :=
  match waiters with
  | [] => (s, [])
  | waiting :: rest =>
      match pending_awaits s !! waiting with
      | None => wake_all s mailbox trigger rest
      | Some parked =>
          let s := set_pending (delete waiting) s in
          let '(s, reply) :=
            await_reply_for_mailbox env s waiting mailbox (pa_filter parked) trigger in
          let '(s, outs) := wake_all s mailbox trigger rest in
          (s, Reply waiting reply :: UnparkAwait waiting :: outs)
      end
  end.

Definition send_agent (s : BrokerState) (sender : ClientId) (nm : string)
  (envelope : Value) (line : bytes) : BrokerState * list Out :=
  let task_id := task_id_from envelope in
  let org := client_origin s sender in
  let waiters := waiting_clients_for_name env s nm envelope org in
  let woken := negb (bool_decide (length waiters = 0%nat)) in
  let woken_canonical_holder := woken_waiter_is_canonical_holder env s nm waiters in
  let wa := if woken_canonical_holder then None else recipient_wake_addr s nm org in
  letok stamped := stamp_line line org
    orelse (s, [err sender Internal "failed to stamp mailbox record"]) in
  let '(s, outs) :=
    wake_all s (MbAgent nm) (Some (org, envelope, blen stamped)) waiters in
  (s, AppendMailbox (MbAgent nm) line org :: outs ++
      [send_ok sender task_id (TgtAgent nm) true woken wa]).

Fixpoint wake_members (s : BrokerState) (mailbox : MailboxName) (envelope : Value)
  (org : Origin) (line_len : N) (members : list string) : BrokerState * list Out :=
  match members with
  | [] => (s, [])
  | member :: rest =>
      if is_self_authored envelope (Some member)
      then wake_members s mailbox envelope org line_len rest
      else
        let waiters := waiting_clients_for_name env s member envelope org in
        let '(s, outs) := wake_all s mailbox (Some (org, envelope, line_len)) waiters in
        let '(s, outs') := wake_members s mailbox envelope org line_len rest in
        (s, outs ++ outs')
  end.

Definition send_channel (s : BrokerState) (sender : ClientId) (nm : string)
  (envelope : Value) (line : bytes) : BrokerState * list Out :=
  let members := bs_iter (default ∅ (channels s !! nm)) in
  let task_id := task_id_from envelope in
  let org := client_origin s sender in
  letok stamped := stamp_line line org
    orelse (s, [err sender Internal "failed to stamp mailbox record"]) in
  let '(s, outs) :=
    wake_members s (MbChannel nm) envelope org (blen stamped) members in
  (s, AppendMailbox (MbChannel nm) line org :: outs ++
      [Reply sender (SendOk task_id
         (map (fun member => mkDelivered (TgtAgent member) true false None) members))]).

Definition send (s : BrokerState) (client : ClientId) (to : Target) (envelope : Value)
  : BrokerState * list Out :=
  letok effective := resolve_op_identity env s client
    orelse (s, [err client NotRegistered "client is not registered"]) in
  if negb (is_self_authored envelope (Some effective)) then
    (s, [err client EnvelopeInvalid
      "envelope 'from' does not match the authenticated identity"])
  else
  trying line := encode_envelope envelope client catch reply => (s, [reply]) in
  match to with
  | TgtAgent nm => send_agent s client nm envelope line
  | TgtChannel nm => send_channel s client nm envelope line
  end.

(** ** Reading *)

(** The per-channel drain loop of [inbox]: accumulated envelopes and staged
    cursor advances, or the message of the drain error that aborts the poll. *)
Fixpoint inbox_channels (s : BrokerState) (canonical : ClientId) (nm : string)
  (chans : list string) (envelopes : list StampedEnvelope)
  (advances : list (MailboxName * N))
  : result (list StampedEnvelope * list (MailboxName * N)) string :=
  match chans with
  | [] => Ok (envelopes, advances)
  | channel :: rest =>
      let mailbox := MbChannel channel in
      let cursor :=
        default 0%N (clients s !! canonical ≫= fun state => inbox_offsets state !! mailbox) in
      match drain_from env mailbox cursor with
      | Err e => Err (MailboxErr_display e)
      | Ok drained =>
          if bool_decide (length (dr_records drained) = 0%nat) then
            inbox_channels s canonical nm rest envelopes
              (if (dr_next_offset drained <? cursor)%N
               then advances ++ [(mailbox, dr_next_offset drained)] else advances)
          else
            let truncated := (CHANNEL_DRAIN_CAP <? length (dr_records drained))%nat in
            let outcome := walk cursor drained
              (mkPolicy FilterAny (Some nm) false (Some (CapScanned CHANNEL_DRAIN_CAP))) in
            let effective_next_offset :=
              if truncated then wo_next_offset outcome else dr_next_offset drained in
            inbox_channels s canonical nm rest
              (envelopes ++ map to_stamped (wo_delivered outcome))
              (advances ++ [(mailbox, effective_next_offset)])
      end
  end.

Definition commit_advances (s : BrokerState) (canonical : ClientId)
  (advances : list (MailboxName * N)) : BrokerState :=
  foldl (fun s '(mailbox, offset) =>
    alter_client canonical (with_inbox_offsets (<[mailbox := offset]>)) s) s advances.

(** [None] is the panic of the [expect] on the canonical holder. *)
Definition inbox (s : BrokerState) (client : ClientId) (since : option N)
  (include_terminal : option bool) : option (BrokerState * list Out) :=
  letok nm := resolve_op_identity env s client
    orelse Some (s, [err client NotRegistered "client is not registered"]) in
  let agent_mailbox := MbAgent nm in
  let agent_since := default 0%N since in
  trying agent_drained := drain_from env agent_mailbox agent_since
    catch e => Some (s, [err client Internal (MailboxErr_display e)]) in
  let envelopes := map to_stamped (decode_lines agent_since agent_drained) in
  let agent_next_offset := dr_next_offset agent_drained in
  letsome canonical := canonical_holder_id s nm orelse None in
  let joined_channels :=
    match clients s !! canonical with
    | Some state => bs_iter (joined state)
    | None => []
    end in
  trying (envelopes, cursor_advances) :=
      inbox_channels s canonical nm joined_channels envelopes []
    catch message => Some (s, [err client Internal message]) in
  let reply := InboxOk envelopes agent_next_offset in
  match encode_frame (reply_to_value reply) with
  | Err e =>
      Some (s, [err client EnvelopeTooLarge
        ("InboxOk exceeds 16 MiB reply-frame limit: " +:+ FrameError_display e)])
  | Ok _ => Some (commit_advances s canonical cursor_advances, [Reply client reply])
  end.

(** ** Channels *)
Definition join_members (s : BrokerState) (channel nm : string) (role : option string)
  : list MemberInfo :=
  map (fun member_name =>
    mkMemberInfo member_name
      (if String.eqb member_name nm
       then opt_or_else role (channel_roles s !! (channel, member_name))
       else channel_roles s !! (channel, member_name)))
    (bs_iter ({[nm]} ∪ default ∅ (channels s !! channel))).

Definition join (s : BrokerState) (client : ClientId) (channel : string)
  (role : option string) : BrokerState * list Out :=
  letok nm := resolve_op_identity env s client
    orelse (s, [err client NotRegistered "client is not registered"]) in
  let target_client := default client (canonical_holder_id s nm) in
  let mailbox := MbChannel channel in
  let since := 0%N in
  trying drained := drain_from env mailbox since
    catch e => (s, [err client Internal (MailboxErr_display e)]) in
  let decoded := map to_stamped (decode_lines since drained) in
  let members := join_members s channel nm role in
  let reply := JoinOk channel members decoded in
  match encode_frame (reply_to_value reply) with
  | Err e =>
      (s, [err client EnvelopeTooLarge
        ("JoinOk exceeds 16 MiB reply-frame limit: " +:+ FrameError_display e)])
  | Ok _ =>
      let s := set_channels
        (fun chs => <[channel := {[nm]} ∪ default ∅ (chs !! channel)]> chs) s in
      let s := alter_client target_client (fun state =>
        with_inbox_offsets (<[mailbox := dr_next_offset drained]>)
          (with_await_offsets (<[mailbox := dr_next_offset drained]>)
            (with_joined (fun j => {[channel]} ∪ j) state))) s in
      let s := match role with
               | Some r => set_roles (<[(channel, nm) := r]>) s
               | None => s
               end in
      (s, [Reply client reply; AdvanceCursor mailbox (dr_next_offset drained)])
  end.

Definition leave (s : BrokerState) (client : ClientId) (channel : string)
  : BrokerState * list Out :=
  letok nm := resolve_op_identity env s client
    orelse (s, [err client NotRegistered "client is not registered"]) in
  let s := set_channels (alter (fun members => members ∖ {[nm]}) channel) s in
  let target_client := default client (canonical_holder_id s nm) in
  let channel_mailbox := MbChannel channel in
  let s := alter_client target_client (fun state =>
    with_inbox_offsets (delete channel_mailbox)
      (with_await_offsets (delete channel_mailbox)
        (with_joined (fun j => j ∖ {[channel]}) state))) s in
  let s := set_roles (delete (channel, nm)) s in
  (s, [Reply client (LeaveOk channel)]).

(** ** Introspection *)
Definition session_row (state : ClientState) : option SessionRow :=
  nm ← name state; p ← pid state; Some (mkSessionRow nm p (bs_iter (joined state))).

Definition sessions (s : BrokerState) (client : ClientId) : BrokerState * list Out :=
  (s, [Reply client (SessionsOk
         (omap session_row (List.filter connected (bt_values (clients s)))))]).

Definition whoami (s : BrokerState) (client : ClientId) : BrokerState * list Out :=
  let '(active, chans) :=
    match clients s !! client with
    | None => (None, [])
    | Some state =>
        if is_some (name state) then (name state, bs_iter (joined state))
        else match bind_as state with
             | Some bound =>
                 if proxy_holder_alive env s bound then
                   (Some bound,
                    match canonical_holder_id s bound ≫= fun id => clients s !! id with
                    | Some h => bs_iter (joined h)
                    | None => []
                    end)
                 else (None, [])
             | None => (None, [])
             end
    end in
  (s, [Reply client (WhoamiOk active chans)]).

(** ** Departures and time *)
Definition disconnect (s : BrokerState) (client : ClientId) : BrokerState * list Out :=
  let '(canonical_snapshot, is_proxy) :=
    match clients s !! client with
    | None => (None, false)
    | Some state =>
        let is_proxy := is_some (bind_as state) && is_none (name state) in
        (if is_proxy then None
         else nm ← name state; p ← pid state; Some (nm, p, bs_iter (joined state)),
         is_proxy)
    end in
  if is_proxy : bool then
    (set_pending (delete client) (set_clients (delete client) s), [ReleaseClient client])
  else
    let s := match canonical_snapshot with
             | Some (nm, _, _) => set_channels (fmap (fun members => members ∖ {[nm]})) s
             | None => s
             end in
    let s := set_pending (delete client) (set_clients (delete client) s) in
    (s, match canonical_snapshot with
        | Some (nm, p, chans) => [SessionEnded nm p chans]
        | None => []
        end ++ [ReleaseClient client]).

Fixpoint disconnect_all (s : BrokerState) (dead : list ClientId) : BrokerState * list Out :=
  match dead with
  | [] => (s, [])
  | client :: rest =>
      let '(s, outs) := disconnect s client in
      let '(s, outs') := disconnect_all s rest in
      (s, outs ++ outs')
  end.

Definition dead_clients (s : BrokerState) : list ClientId :=
  omap (fun '(client, state) =>
    p ← pid state; if negb (is_alive env p) then Some client else None)
    (bt_iter (clients s)).

Definition expired_awaits (s : BrokerState) (now : Instant) : list ClientId :=
  omap (fun '(client, parked) =>
    if (pa_deadline parked <=? now)%N then Some client else None)
    (bt_iter (pending_awaits s)).

Fixpoint expire_all (s : BrokerState) (expired : list ClientId) : BrokerState * list Out :=
  match expired with
  | [] => (s, [])
  | client :: rest =>
      let '(s, outs) := expire_all (set_pending (delete client) s) rest in
      (s, Reply client AwaitTimeout :: UnparkAwait client :: outs)
  end.

Definition tick (s : BrokerState) (now : Instant) : BrokerState * list Out :=
  let '(s, out) := disconnect_all s (dead_clients s) in
  let '(s, out') := expire_all s (expired_awaits s now) in
  (s, out ++ out').

(** ** Dispatch *)
Definition is_hello (msg : BusMessage) : bool :=
  match msg with Hello _ _ _ => true | _ => false end.
Definition touches (msg : BusMessage) : bool :=
  match msg with
  | Hello _ _ _ | Register _ _ _ _ _ | SetListen _ | SetWakeAddr _ => false
  | _ => true
  end.

Definition dispatch (s : BrokerState) (client : ClientId) (msg : BusMessage)
  (now : Instant) (wall : WallClock) : option (BrokerState * list Out) :=
  match msg with
  | Hello bus_proto _ bind => Some (hello s client bus_proto bind wall)
  | Register nm p cw listen org =>
      Some (register s client nm p cw listen org (wall_first wall))
  | Send to envelope => Some (send s client to envelope)
  | Inbox since inc => inbox s client since inc
  | Await timeout_ms task => Some (await_envelope env s client timeout_ms task now)
  | Join channel role => Some (join s client channel role)
  | Leave channel => Some (leave s client channel)
  | Sessions => Some (sessions s client)
  | Whoami => Some (whoami s client)
  | Inspect kind => Some (s, [InspectRequest client kind])
  | SetListen listen => Some (set_listen s client listen (wall_first wall))
  | SetWakeAddr wa => Some (set_wake_addr s client wa (wall_first wall))
  end.

Definition handle_wire (s : BrokerState) (client : ClientId) (msg : BusMessage)
  (now : Instant) (wall : WallClock) : option (BrokerState * list Out) :=
  let already_handshaked :=
    bool_decide (handshaked <$> clients s !! client = Some true) in
  if negb (is_hello msg) && negb already_handshaked then
    Some (s, [err client BrokerProtoMismatch "Hello required as first frame"])
  else if is_hello msg && already_handshaked then
    Some (s, [err client BrokerProtoMismatch "Hello already received on this connection"])
  else
    let s := if touches msg then touch_activity s client (wall_first wall) else s in
    dispatch s client msg now wall.

(** [Broker::handle]; [None] is a panic. *)
Definition handle (s : BrokerState) (input : BrokerInput) (now : Instant)
  (wall : WallClock) : option (BrokerState * list Out) :=
  match input with
  | Wire client msg => handle_wire s client msg now wall
  | Disconnect client => Some (disconnect s client)
  | Tick => Some (tick s now)
  end.
End handle.
