(* ===== verification/BrokerInv.v ===== *)
(** * The broker's state invariant

    Well-formedness of every connection record, uniqueness of registered
    names, and parked awaits that always belong to an identified connection;
    preserved by every input, in every environment. *)

From stdpp Require Import gmap strings list fin_maps sorting.
From S2P Require Import Prelude Json Proto Mailbox Origin Serde Codec DrainWalk.
From S2P Require Import BrokerState Awaiting Handle.

(** ** Connections *)
Record client_ok (c : ClientState) : Prop := {
  ok_handshaked : handshaked c = true;
  ok_connected : connected c = true;
  ok_pid : is_Some (pid c) <-> is_Some (name c);
  ok_pid_nonzero : pid c <> Some 0%N;
  ok_proxy : is_Some (bind_as c) -> name c = None;
  ok_unnamed : name c = None ->
    origin c = Unknown /\ joined c = ∅ /\ wake_addr c = None /\ listen_mode c = false;
  ok_wake : forall w, wake_addr c = Some w -> wake_addr_valid w = true;
  ok_cursors : forall mb,
    is_Some (inbox_offsets c !! mb) <-> exists ch, mb = MbChannel ch /\ ch ∈ joined c
}.

Definition unique_names (s : BrokerState) : Prop :=
  forall i j ci cj n, clients s !! i = Some ci -> clients s !! j = Some cj ->
    name ci = Some n -> name cj = Some n -> i = j.

Definition identified (c : ClientState) : Prop := is_Some (name c) \/ is_Some (bind_as c).

Record Inv (s : BrokerState) : Prop := {
  inv_clients : forall i c, clients s !! i = Some c -> client_ok c;
  inv_unique : unique_names s;
  inv_pending : forall i p, pending_awaits s !! i = Some p ->
    exists c, clients s !! i = Some c /\ identified c
}.

(** ** Sessions up to activity times and await cursors

    Awaits, wakes and activity stamps change only those two fields, so most of
    the broker cannot tell the states apart. *)
Record same_session (c c' : ClientState) : Prop := {
  ss_handshaked : handshaked c' = handshaked c;
  ss_name : name c' = name c;
  ss_pid : pid c' = pid c;
  ss_joined : joined c' = joined c;
  ss_connected : connected c' = connected c;
  ss_bind_as : bind_as c' = bind_as c;
  ss_listen : listen_mode c' = listen_mode c;
  ss_wake : wake_addr c' = wake_addr c;
  ss_origin : origin c' = origin c;
  ss_inbox : inbox_offsets c' = inbox_offsets c
}.

#[export] Instance same_session_equiv : Equivalence same_session.
Proof.
  split.
  - intros c. by split.
  - intros c c' []. by split.
  - intros a b c [] []. split; congruence.
Qed.

Definition clients_sim (s s' : BrokerState) : Prop :=
  forall i, option_Forall2 same_session (clients s !! i) (clients s' !! i).

#[export] Instance clients_sim_equiv : Equivalence clients_sim.
Proof.
  split.
  - intros s i. reflexivity.
  - intros s s' H i. symmetry. apply H.
  - intros s1 s2 s3 H1 H2 i. etransitivity; [apply H1|apply H2].
Qed.

Lemma clients_sim_l s s' i c :
  clients_sim s s' -> clients s !! i = Some c ->
  exists c', clients s' !! i = Some c' /\ same_session c c'.
Proof. intros H Hc. specialize (H i). rewrite Hc in H. inv H. eauto. Qed.

Lemma clients_sim_r s s' i c' :
  clients_sim s s' -> clients s' !! i = Some c' ->
  exists c, clients s !! i = Some c /\ same_session c c'.
Proof. intros H Hc. specialize (H i). rewrite Hc in H. inv H. eauto. Qed.

Lemma client_ok_same c c' : same_session c c' -> client_ok c -> client_ok c'.
Proof.
  intros [] []. split; rewrite ?ss_handshaked0, ?ss_name0, ?ss_pid0, ?ss_joined0,
    ?ss_connected0, ?ss_bind_as0, ?ss_listen0, ?ss_wake0, ?ss_origin0, ?ss_inbox0; done.
Qed.

Lemma identified_same c c' : same_session c c' -> identified c -> identified c'.
Proof. intros []. unfold identified. by rewrite ss_name0, ss_bind_as0. Qed.

(** A session-preserving change that only unparks, or parks an identified
    connection, keeps the invariant. *)
Lemma Inv_sim s s' :
  Inv s -> clients_sim s s' ->
  (forall i p, pending_awaits s' !! i = Some p ->
     pending_awaits s !! i = Some p \/ exists c, clients s !! i = Some c /\ identified c) ->
  Inv s'.
Proof.
  intros [Hc Hu Hp] Hsim Hpend. split.
  - intros i c' (c & Hi & Hs)%(clients_sim_r s s' i c' Hsim). eauto using client_ok_same.
  - intros i j ci cj n Hi Hj Hni Hnj.
    apply (clients_sim_r s s') in Hi as (c & Hi & []); [|done].
    apply (clients_sim_r s s') in Hj as (c' & Hj & []); [|done].
    eapply (Hu i j c c' n); [done|done|congruence|congruence].
  - intros i p Hip. assert (exists c, clients s !! i = Some c /\ identified c) as (c & Hi & Hid).
    { destruct (Hpend i p Hip) as [H|H]; eauto. }
    destruct (clients_sim_l s s' i c Hsim Hi) as (c' & ? & ?). eauto using identified_same.
Qed.

(** ** The canonical holder is unique *)
Lemma canonical_holder_iff s b id :
  Inv s ->
  canonical_holder_id s b = Some id <-> exists c, clients s !! id = Some c /\ name c = Some b.
Proof.
  intros HI. split.
  - intros (c & ? & _ & ?)%canonical_holder_Some. eauto.
  - intros (c & Hc & Hn).
    destruct (canonical_holder_exists s b id c) as [id' Hid'];
      [done|by apply (inv_clients s HI id)|done|].
    rewrite Hid'. f_equal. apply canonical_holder_Some in Hid' as (c' & Hc' & _ & Hn').
    eapply (inv_unique s HI); eauto.
Qed.

Lemma canonical_holder_sim s s' b :
  Inv s -> Inv s' -> clients_sim s s' -> canonical_holder_id s' b = canonical_holder_id s b.
Proof.
  intros HI HI' Hsim. apply option_eq. intros id.
  rewrite !canonical_holder_iff by done. split.
  - intros (c' & (c & ? & [])%(clients_sim_r s s') & ?); [|done]. exists c. split; congruence.
  - intros (c & (c' & ? & [])%(clients_sim_l s s') & ?); [|done]. exists c'. split; congruence.
Qed.

Lemma proxy_holder_alive_sim env s s' b :
  clients_sim s s' -> proxy_holder_alive env s' b = proxy_holder_alive env s b.
Proof.
  intros Hsim. apply Bool.eq_iff_eq_true. rewrite !proxy_holder_alive_true. split.
  - intros (i & c' & p & (c & ? & [])%(clients_sim_r s s') & ? & ? & ? & ?); [|done].
    exists i, c, p. split_and!; congruence.
  - intros (i & c & p & (c' & ? & [])%(clients_sim_l s s') & ? & ? & ? & ?); [|done].
    exists i, c', p. split_and!; congruence.
Qed.

Lemma resolve_op_identity_sim env s s' client :
  clients_sim s s' -> resolve_op_identity env s' client = resolve_op_identity env s client.
Proof.
  intros Hsim. unfold resolve_op_identity. pose proof (Hsim client) as H.
  destruct (clients s !! client) as [c|], (clients s' !! client) as [c'|]; inv H; [|done].
  match goal with H : same_session _ _ |- _ => destruct H end.
  unfold effective_identity. rewrite ss_connected0, ss_name0, ss_bind_as0.
  destruct (connected c), (name c), (bind_as c); simpl; try done.
  by rewrite (proxy_holder_alive_sim env s s').
Qed.

Lemma resolve_await_owner_sim env s s' client :
  Inv s -> Inv s' -> clients_sim s s' ->
  resolve_await_owner env s' client = resolve_await_owner env s client.
Proof.
  intros HI HI' Hsim. unfold resolve_await_owner.
  rewrite (resolve_op_identity_sim env s s') by done. destruct (resolve_op_identity env s client); [|done].
  by rewrite (canonical_holder_sim s s').
Qed.

Lemma resolved_identified env s client nm :
  resolve_op_identity env s client = Ok nm ->
  exists c, clients s !! client = Some c /\ identified c.
Proof.
  intros (c & Hc & _ & [Hn|(_ & Hb & _)])%resolve_op_identity_Ok;
    exists c; (split; [done|]); [left|right]; eauto.
Qed.

(** A resolved identity belongs to exactly one holder, which is the caller
    unless the caller is a proxy. *)
Lemma resolve_holder env s client nm :
  Inv s -> resolve_op_identity env s client = Ok nm ->
  exists id h, canonical_holder_id s nm = Some id /\ clients s !! id = Some h /\
    name h = Some nm /\ connected h = true.
Proof.
  intros HI (id & Hid)%resolve_has_holder.
  pose proof Hid as (h & Hh & ? & Hn)%canonical_holder_Some. eauto 10.
Qed.

(** ** Session-preserving operations *)
Lemma alter_client_sim id f s :
  (forall c, same_session c (f c)) -> clients_sim s (alter_client id f s).
Proof.
  intros Hf i. unfold alter_client. simpl. rewrite lookup_alter. case_decide; subst.
  - destruct (clients s !! i); simpl; by constructor.
  - reflexivity.
Qed.

Lemma touch_activity_sim s client w : clients_sim s (touch_activity s client w).
Proof.
  unfold touch_activity. case_match; [|reflexivity]. apply alter_client_sim. by intros [].
Qed.

Lemma set_await_offset_sim s owner mb o : clients_sim s (set_await_offset s owner mb o).
Proof. apply alter_client_sim. by intros []. Qed.

Lemma touch_activity_fields s client w :
  channels (touch_activity s client w) = channels s /\
  pending_awaits (touch_activity s client w) = pending_awaits s /\
  channel_roles (touch_activity s client w) = channel_roles s.
Proof. unfold touch_activity. by case_match. Qed.

Lemma Inv_touch s client w : Inv s -> Inv (touch_activity s client w).
Proof.
  intros HI. eapply Inv_sim; [done|apply touch_activity_sim|].
  intros i p. rewrite (proj1 (proj2 (touch_activity_fields s client w))). auto.
Qed.

(** ** Wakes: sessions kept, awaits only removed *)
Record wakes (s s' : BrokerState) : Prop := {
  wk_sim : clients_sim s s';
  wk_channels : channels s' = channels s;
  wk_roles : channel_roles s' = channel_roles s;
  wk_pending : pending_awaits s' ⊆ pending_awaits s
}.

#[export] Instance wakes_preorder : PreOrder wakes.
Proof.
  split.
  - intros s. by split.
  - intros s1 s2 s3 [] []. split; [by etransitivity|congruence|congruence|by etransitivity].
Qed.

Lemma Inv_wakes s s' : Inv s -> wakes s s' -> Inv s'.
Proof.
  intros HI [Hs _ _ Hp]. eapply Inv_sim; [done|done|]. intros i p Hi. left.
  by eapply lookup_weaken.
Qed.

Lemma set_await_offset_wakes s owner mb o : wakes s (set_await_offset s owner mb o).
Proof. split; [apply set_await_offset_sim|done..]. Qed.

Lemma unpark_wakes s client : wakes s (set_pending (delete client) s).
Proof. split; [by intros i|done|done|apply delete_subseteq]. Qed.

Section steps.
Context `{WL : WireLib} (env : BrokerEnv).

Lemma await_reply_wakes s client mb f tr :
  wakes s (await_reply_for_mailbox env s client mb f tr).1.
Proof.
  unfold await_reply_for_mailbox.
  destruct (resolve_await_owner env s client) as [[? owner]|]; [|done].
  destruct (drain_await_batch env s owner mb f tr) as [batch|[k m]]; [|done].
  repeat case_match; simpl; apply set_await_offset_wakes.
Qed.

Lemma wake_all_wakes s mb tr ws : wakes s (wake_all env s mb tr ws).1.
Proof.
  revert s. induction ws as [|w ws IH]; intros s; simpl; [done|].
  destruct (pending_awaits s !! w) as [p|]; [|apply IH].
  pose proof (await_reply_wakes (set_pending (delete w) s) w mb (pa_filter p) tr) as Hr.
  destruct (await_reply_for_mailbox _ _ _ _ _ _) as [s1 r]. specialize (IH s1).
  destruct (wake_all _ s1 _ _ _) as [s2 o]. simpl in *.
  etransitivity; [apply unpark_wakes|]. by etransitivity.
Qed.

Lemma wake_members_wakes s mb e org len ms :
  wakes s (wake_members env s mb e org len ms).1.
Proof.
  revert s. induction ms as [|m ms IH]; intros s; simpl; [done|].
  case_match; [apply IH|].
  pose proof (wake_all_wakes s mb (Some (org, e, len))
    (waiting_clients_for_name env s m e org)) as Hw.
  destruct (wake_all _ _ _ _ _) as [s1 o1]. specialize (IH s1).
  destruct (wake_members _ _ _ _ _ _ _) as [s2 o2]. simpl in *. by etransitivity.
Qed.

Lemma send_wakes s client to e : wakes s (send env s client to e).1.
Proof.
  unfold send, send_agent, send_channel.
  destruct (resolve_op_identity env s client); [|done]. case_match; [done|].
  destruct (encode_envelope e client) as [line|]; [|done]. destruct to as [nm|nm].
  - destruct (stamp_line _ _); [|done].
    match goal with |- context [wake_all ?e ?s ?m ?t ?w] =>
      pose proof (wake_all_wakes s m t w) as Hw; destruct (wake_all e s m t w) end. done.
  - destruct (stamp_line _ _); [|done].
    match goal with |- context [wake_members ?e ?s ?m ?t ?w ?l ?x] =>
      pose proof (wake_members_wakes s m t w l x) as Hw;
      destruct (wake_members e s m t w l x) end. done.
Qed.

Lemma await_scan_wakes s client owner f mbs : wakes s (await_scan env s client owner f mbs).1.
Proof.
  revert s. induction mbs as [|mb mbs IH]; intros s; simpl; [done|].
  destruct (drain_await_batch env s owner mb f None) as [b|[k m]]; [|done].
  set (s1 := if negb (ab_next_offset b =? await_offset s owner mb)%N then _ else s).
  assert (wakes s s1).
  { subst s1. case_match; [apply set_await_offset_wakes|done]. }
  case_match; [done|]. etransitivity; [done|apply IH].
Qed.

Lemma await_scan_pending s client owner f mbs :
  pending_awaits (await_scan env s client owner f mbs).1 = pending_awaits s.
Proof.
  revert s. induction mbs as [|mb mbs IH]; intros s; simpl; [done|].
  destruct (drain_await_batch env s owner mb f None) as [b|[k m]]; [|done].
  repeat case_match; try done; by rewrite IH.
Qed.

(** *** Preservation, operation by operation *)
Lemma Inv_ext s s' :
  clients s' = clients s -> pending_awaits s' = pending_awaits s -> Inv s -> Inv s'.
Proof.
  intros Hc Hp [H1 H2 H3]. split; unfold unique_names in *; by rewrite ?Hc, ?Hp.
Qed.

(** Updating one connection in place, identity unchanged. *)
Lemma Inv_alter id f s :
  Inv s ->
  (forall c, clients s !! id = Some c -> client_ok c ->
     client_ok (f c) /\ name (f c) = name c /\ bind_as (f c) = bind_as c) ->
  Inv (alter_client id f s).
Proof.
  intros [H1 H2 H3] Hf.
  assert (Hback : forall i c', clients (alter_client id f s) !! i = Some c' ->
    exists c, clients s !! i = Some c /\ client_ok c' /\ name c' = name c /\
      bind_as c' = bind_as c).
  { intros i c'. simpl. rewrite lookup_alter. case_decide; subst.
    - intros (c & Hc & ->)%fmap_Some_1. exists c. split; [done|]. apply Hf; eauto.
    - intros Hc. exists c'. split_and!; eauto. }
  split.
  - intros i c' (c & _ & ? & _)%Hback. done.
  - intros i j ci cj n (c & Hi & _ & Hni & _)%Hback (c' & Hj & _ & Hnj & _)%Hback ? ?.
    eapply (H2 i j c c' n); [done|done|congruence|congruence].
  - intros i p (c & Hc & Hid)%H3. simpl. rewrite lookup_alter. case_decide; subst; [|eauto].
    rewrite Hc. simpl. eexists. split; [done|].
    destruct (Hf c Hc (H1 _ _ Hc)) as (_ & Hn & Hb). unfold identified.
    by rewrite Hn, Hb.
Qed.

Lemma fresh_client_ok bind wall : client_ok (fresh_client bind wall).
Proof.
  split; simpl; try done.
  intros mb. rewrite lookup_empty. split; [intros [? [=]]|].
  intros (ch & _ & Hin). by apply not_elem_of_empty in Hin.
Qed.

Lemma Inv_hello s client proto bind wall :
  Inv s -> clients s !! client = None -> Inv (hello env s client proto bind wall).1.
Proof.
  intros HI Hnone.
  assert (Hins : Inv (set_clients (<[client := fresh_client bind wall]>) s)).
  { destruct HI as [H1 H2 H3]. split; simpl.
    - intros i c. rewrite lookup_insert. case_decide; [|apply H1].
      intros [= <-]. apply fresh_client_ok.
    - intros i j ci cj n. simpl. rewrite !lookup_insert.
      repeat case_decide; simplify_eq; try done; intros; simplify_eq; eauto.
    - intros i p Hp. destruct (H3 i p Hp) as (c & Hc & Hid).
      exists c. rewrite lookup_insert_ne by congruence. done. }
  unfold hello. repeat case_match; simplify_eq; done.
Qed.

Lemma name_taken_false s client nm i c :
  name_taken s client nm = false -> clients s !! i = Some c -> connected c = true ->
  name c = Some nm -> i = client.
Proof.
  unfold name_taken. rewrite iter_any_false. intros H Hc Hcon Hn.
  specialize (H (i, c)). rewrite elem_of_bt_iter in H. specialize (H Hc). simpl in H.
  rewrite (proj2 (holds_name_true nm c)) in H by done.
  rewrite andb_true_r in H. apply negb_false_iff, N.eqb_eq in H. done.
Qed.

Lemma Inv_bind s client c0 nm p cw listen org w mb o :
  Inv s -> clients s !! client = Some c0 -> bind_as c0 = None -> p <> 0%N ->
  name_taken s client nm = false ->
  Inv (alter_client client (bind_client nm p cw listen org w mb o) s).
Proof.
  intros [H1 H2 H3] Hc0 Hb Hp Hnt. pose proof (H1 _ _ Hc0) as [].
  assert (Hlk : forall i, clients (alter_client client
      (bind_client nm p cw listen org w mb o) s) !! i =
    if decide (client = i) then Some (bind_client nm p cw listen org w mb o c0)
    else clients s !! i).
  { intros i. simpl. rewrite lookup_alter. case_decide; subst; [by rewrite Hc0|done]. }
  split.
  - intros i c. rewrite Hlk. case_decide; [|apply H1]. intros [= <-].
    split; simpl; try done; eauto.
    + congruence.
    + rewrite Hb. by intros [? [=]].
  - intros i j ci cj n. rewrite !Hlk.
    repeat case_decide; subst; intros; simplify_eq; simpl in *; simplify_eq; try done.
    + symmetry. eapply name_taken_false; eauto. eapply ok_connected, H1; eauto.
    + eapply name_taken_false; eauto. eapply ok_connected, H1; eauto.
    + eauto.
  - intros i pp Hi. rewrite Hlk. case_decide; [|by apply (H3 i pp)].
    eexists. split; [done|]. left. by eexists.
Qed.

Lemma Inv_register s client nm p cw listen org w :
  Inv s -> Inv (register env s client nm p cw listen org w).1.
Proof.
  intros HI. unfold register. destruct (p =? 0)%N eqn:Ep; [done|].
  destruct (clients s !! client) as [c0|] eqn:Ec0.
  - destruct (is_some (bind_as c0)) eqn:Eb; [done|]. apply is_some_false in Eb.
    destruct (name_taken s client nm) eqn:Ent; [done|].
    destruct (drain_from _ _ _); [|done]. destruct (encode_frame _); [|done]. simpl.
    eapply Inv_bind; eauto. lia.
  - by repeat case_match.
Qed.

Lemma Inv_set_listen s client b w : Inv s -> Inv (set_listen s client b w).1.
Proof.
  intros HI. unfold set_listen. destruct (clients s !! client) as [c0|] eqn:E0; [|done].
  repeat case_match; try done. simpl. apply Inv_alter; [done|].
  intros c Hc []. rewrite E0 in Hc. simplify_eq.
  split_and!; [|done..]. split; simpl; try done.
  intros Hn. destruct (ok_unnamed0 Hn) as (? & ? & ? & ?).
  match goal with H : is_none (name c) = false |- _ => rewrite Hn in H; done end.
Qed.

Lemma Inv_set_wake_addr s client wa w : Inv s -> Inv (set_wake_addr s client wa w).1.
Proof.
  intros HI. unfold set_wake_addr. destruct (clients s !! client) as [c0|] eqn:E0; [|done].
  repeat case_match; try done. simpl. apply Inv_alter; [done|].
  intros c Hc []. rewrite E0 in Hc. simplify_eq.
  split_and!; [|done..]. split; simpl; try done.
  - intros Hn. match goal with H : is_none (name c) = false |- _ => rewrite Hn in H; done end.
  - intros x. destruct wa as [y|]; simpl; [|done]. case_match; [|done]. by intros [= <-].
Qed.

(** The staged advances of a poll are for joined channels. *)
Lemma inbox_channels_advances s canonical nm chans es adv es' adv' :
  inbox_channels env s canonical nm chans es adv = Ok (es', adv') ->
  forall mb o, (mb, o) ∈ adv' ->
    (mb, o) ∈ adv \/ exists ch, mb = MbChannel ch /\ ch ∈ chans.
Proof.
  revert es adv. induction chans as [|ch chans IH]; intros es adv; simpl.
  { intros [= <- <-]. auto. }
  destruct (drain_from env (MbChannel ch) _) as [d|]; [|done].
  assert (Hstep : forall es1 o1, inbox_channels env s canonical nm chans es1
      (adv ++ [(MbChannel ch, o1)]) = Ok (es', adv') -> forall mb o, (mb, o) ∈ adv' ->
    (mb, o) ∈ adv \/ exists ch0, mb = MbChannel ch0 /\ ch0 ∈ ch :: chans).
  { intros es1 o1 Heq mb o Hin. destruct (IH _ _ Heq mb o Hin) as [Ha|(x & -> & Hx)].
    - apply elem_of_app in Ha as [Ha|Ha]; [by left|].
      apply list_elem_of_singleton in Ha as [= -> ->]. right. exists ch. split; [done|left].
    - right. exists x. split; [done|by right]. }
  case_match; [|apply Hstep]. case_match; [apply Hstep|].
  intros Heq mb o Hin. destruct (IH _ _ Heq mb o Hin) as [?|(x & -> & Hx)]; [by left|].
  right. exists x. split; [done|by right].
Qed.

Lemma Inv_commit s canonical h adv :
  Inv s -> clients s !! canonical = Some h ->
  (forall mb o, (mb, o) ∈ adv -> exists ch, mb = MbChannel ch /\ ch ∈ joined h) ->
  Inv (commit_advances s canonical adv).
Proof.
  unfold commit_advances. revert s h.
  induction adv as [|[mb o] adv IH]; intros s h HI Hh Hadv; simpl; [done|].
  eapply (IH _ (with_inbox_offsets (<[mb := o]>) h)).
  - apply Inv_alter; [done|]. intros c Hc []. rewrite Hh in Hc. simplify_eq.
    split_and!; [|done..]. split; simpl; try done. intros mb'. rewrite lookup_insert.
    case_decide; subst; [|apply ok_cursors0]. split; [|by eexists]. intros _.
    apply (Hadv mb' o). left.
  - simpl. rewrite lookup_alter, decide_True, Hh by done. done.
  - intros mb' o' Hin. apply (Hadv mb' o'). by right.
Qed.

Lemma Inv_inbox s client since inc s' outs :
  Inv s -> inbox env s client since inc = Some (s', outs) -> Inv s'.
Proof.
  intros HI. unfold inbox. destruct (resolve_op_identity env s client) as [nm|] eqn:Er;
    [|by intros [= <- _]].
  destruct (drain_from env _ _); [|by intros [= <- _]].
  destruct (canonical_holder_id s nm) as [can|] eqn:Ec; [|done].
  pose proof Ec as (h & Hh & _ & _)%canonical_holder_Some. rewrite Hh.
  destruct (inbox_channels env s can nm _ _ _) as [[es adv]|] eqn:Ei; [|by intros [= <- _]].
  destruct (encode_frame _); intros [= <- _]; [|done].
  eapply Inv_commit; [done|done|]. intros mb o Hin.
  destruct (inbox_channels_advances _ _ _ _ _ _ _ _ Ei mb o Hin) as [Hn|(ch & -> & Hch)].
  - by apply elem_of_nil in Hn.
  - exists ch. split; [done|]. by apply elem_of_bs_iter.
Qed.

Lemma Inv_set_channels f s : Inv s -> Inv (set_channels f s).
Proof. by apply Inv_ext. Qed.
Lemma Inv_set_roles f s : Inv s -> Inv (set_roles f s).
Proof. by apply Inv_ext. Qed.

Lemma Inv_join s client ch role : Inv s -> Inv (join env s client ch role).1.
Proof.
  intros HI. unfold join. destruct (resolve_op_identity env s client) as [nm|] eqn:Er; [|done].
  destruct (resolve_holder env s client nm HI Er) as (id & h & Hid & Hh & Hn & _).
  rewrite Hid. simpl. destruct (drain_from env _ _) as [d|]; [|done].
  destruct (encode_frame _); [|done].
  assert (HI' : Inv (alter_client id (fun state =>
    with_inbox_offsets (<[MbChannel ch := dr_next_offset d]>)
      (with_await_offsets (<[MbChannel ch := dr_next_offset d]>)
        (with_joined (fun j => {[ch]} ∪ j) state)))
    (set_channels (fun chs => <[ch := {[nm]} ∪ default ∅ (chs !! ch)]> chs) s))).
  { apply Inv_alter; [by apply Inv_set_channels|]. simpl. intros c Hc [].
    rewrite Hh in Hc. simplify_eq. split_and!; [|done..]. split; simpl; try done.
    - intros Hnone. congruence.
    - intros mb. rewrite lookup_insert. case_decide; subst.
      + split; [|by eexists]. intros _. exists ch. split; [done|set_solver].
      + rewrite ok_cursors0. split; intros (x & -> & Hx); exists x; (split; [done|]).
        * set_solver.
        * apply elem_of_union in Hx as [->%elem_of_singleton|]; done. }
  destruct role; simpl; [by apply Inv_set_roles|done].
Qed.

Lemma Inv_leave s client ch : Inv s -> Inv (leave env s client ch).1.
Proof.
  intros HI. unfold leave. destruct (resolve_op_identity env s client) as [nm|] eqn:Er; [|done].
  destruct (resolve_holder env s client nm HI Er) as (id & h & Hid & Hh & Hn & _).
  assert (Hid' : canonical_holder_id
    (set_channels (alter (fun members => members ∖ {[nm]}) ch) s) nm = Some id) by done.
  rewrite Hid'. simpl. apply Inv_set_roles, Inv_alter; [by apply Inv_set_channels|].
  simpl. intros c Hc []. rewrite Hh in Hc. simplify_eq. split_and!; [|done..].
  split; simpl; try done.
  - intros Hnone. congruence.
  - intros mb. rewrite lookup_delete. case_decide; subst.
    + split; [intros [? [=]]|]. intros (x & [= <-] & Hx). set_solver.
    + rewrite ok_cursors0. split; intros (x & -> & Hx); exists x; (split; [done|]).
      * apply elem_of_difference. split; [done|]. intros ->%elem_of_singleton. done.
      * set_solver.
Qed.

Lemma Inv_drop s client :
  Inv s -> Inv (set_pending (delete client) (set_clients (delete client) s)).
Proof.
  intros [H1 H2 H3]. split; simpl.
  - intros i c [_ Hc]%lookup_delete_Some. eauto.
  - intros i j ci cj n. simpl. intros [_ Hi]%lookup_delete_Some [_ Hj]%lookup_delete_Some. eauto.
  - intros i p [Hne Hp]%lookup_delete_Some. rewrite lookup_delete_ne by done. eauto.
Qed.

Lemma Inv_disconnect s client : Inv s -> Inv (disconnect s client).1.
Proof.
  intros HI. unfold disconnect.
  repeat case_match; simplify_eq; simpl; try by apply Inv_drop.
  by apply (Inv_drop (set_channels _ s)), Inv_set_channels.
Qed.

Lemma Inv_disconnect_all s dead : Inv s -> Inv (disconnect_all s dead).1.
Proof.
  revert s. induction dead as [|c dead IH]; intros s HI; simpl; [done|].
  pose proof (Inv_disconnect s c HI) as H1. destruct (disconnect s c) as [s1 o1].
  specialize (IH s1 H1). by destruct (disconnect_all s1 dead).
Qed.

Lemma expire_all_wakes s l : wakes s (expire_all s l).1.
Proof.
  revert s. induction l as [|c l IH]; intros s; simpl; [done|].
  specialize (IH (set_pending (delete c) s)). destruct (expire_all _ l) as [s1 o]. simpl in *.
  etransitivity; [apply unpark_wakes|done].
Qed.

Lemma Inv_tick s now : Inv s -> Inv (tick env s now).1.
Proof.
  intros HI. unfold tick. pose proof (Inv_disconnect_all s (dead_clients env s) HI) as H1.
  destruct (disconnect_all s _) as [s1 o1]. simpl in H1.
  pose proof (expire_all_wakes s1 (expired_awaits s1 now)) as Hw.
  destruct (expire_all s1 _) as [s2 o2]. simpl in *. eauto using Inv_wakes.
Qed.

Lemma Inv_await s client t task now : Inv s -> Inv (await_envelope env s client t task now).1.
Proof.
  intros HI. unfold await_envelope.
  destruct (resolve_await_owner env s client) as [[nm owner]|] eqn:Er; [|done].
  set (f := match task with Some t => _ | None => _ end).
  pose proof (await_scan_wakes s client owner f (await_mailboxes s owner nm)) as Hw.
  pose proof (await_scan_pending s client owner f (await_mailboxes s owner nm)) as Hp.
  destruct (await_scan _ _ _ _ _ _) as [s1 ret]. simpl in *.
  destruct ret as [outs|]; simpl; [by eapply Inv_wakes|].
  eapply Inv_sim; [done|apply Hw|]. simpl. intros i p. rewrite lookup_insert, Hp.
  case_decide; subst; [|by left]. intros _. right.
  unfold resolve_await_owner in Er. destruct (resolve_op_identity env s i) eqn:E; [|done].
  by eapply resolved_identified.
Qed.

Lemma dispatch_Inv s client msg now wall s' outs :
  Inv s -> (is_hello msg = true -> clients s !! client = None) ->
  dispatch env s client msg now wall = Some (s', outs) -> Inv s'.
Proof.
  intros HI Hh Hd. destruct msg; cbn [dispatch] in Hd;
    try (apply (inj Some) in Hd; apply (f_equal fst) in Hd; cbn [fst] in Hd; subst s').
  - apply Inv_hello; [done|]. by apply Hh.
  - by apply Inv_register.
  - eapply Inv_wakes; [done|apply send_wakes].
  - by eapply Inv_inbox.
  - by apply Inv_await.
  - by apply Inv_join.
  - by apply Inv_leave.
  - done.
  - unfold whoami. repeat case_match; done.
  - done.
  - by apply Inv_set_listen.
  - by apply Inv_set_wake_addr.
Qed.

Lemma handle_Inv s input now wall s' outs :
  Inv s -> handle env s input now wall = Some (s', outs) -> Inv s'.
Proof.
  intros HI. destruct input as [client msg|client|]; simpl.
  - unfold handle_wire. destruct (bool_decide _) eqn:Eh.
    + rewrite andb_false_r. case_match eqn:Em; [by intros [= <- _]|].
      apply dispatch_Inv; [case_match; [by apply Inv_touch|done]|].
      intros Hm. by rewrite Hm in Em.
    + rewrite andb_true_r. case_match eqn:Em; [by intros [= <- _]|].
      rewrite andb_false_r. apply negb_false_iff in Em. destruct msg; try done.
      apply dispatch_Inv; [done|]. intros _. simpl.
      apply bool_decide_eq_false in Eh. destruct (clients s !! client) as [c|] eqn:Ec; [|done].
      exfalso. apply Eh. simpl. f_equal. by eapply ok_handshaked, inv_clients.
  - intros H%(inj Some)%(f_equal fst). cbn [fst] in H. subst s'. by apply Inv_disconnect.
  - intros H%(inj Some)%(f_equal fst). cbn [fst] in H. subst s'. by apply Inv_tick.
Qed.
End steps.

(** The invariant holds of the initial state and, by [handle_Inv], forever. *)
Lemma Inv_new w : Inv (BrokerState_new w).
Proof. split; [|intros i j ci cj n|]; intros *; simpl; by rewrite lookup_empty. Qed.
