(* ===== verification/Scenario.v ===== *)
(** * Concrete broker runs

    A driver that feeds a list of inputs to [handle] over in-memory mailboxes
    that do not change, and the small states the witnesses use. *)

From stdpp Require Import gmap strings list fin_maps sorting.
From S2P Require Import Prelude Json Proto Mailbox Origin WireInstance Serde Codec.
From S2P Require Import DrainWalk BrokerState Awaiting Handle.

Section run.
Context `{WL : WireLib} (env : BrokerEnv) (now : Instant) (wall : WallClock).

Fixpoint run_inputs (s : BrokerState) (inputs : list BrokerInput)
  : option (BrokerState * list Out) :=
  match inputs with
  | [] => Some (s, [])
  | i :: rest =>
      match handle env s i now wall with
      | None => None
      | Some (s1, o1) =>
          match run_inputs s1 rest with
          | None => None
          | Some (s2, o2) => Some (s2, o1 ++ o2)
          end
      end
  end.

Definition state_after (s : BrokerState) (inputs : list BrokerInput) : BrokerState :=
  match run_inputs s inputs with Some (s', _) => s' | None => s end.
End run.

Definition wall0 : WallClock := mkWall 100 101.
Definition quiet_env : BrokerEnv := mkEnv (mem_drain_from ∅) always_alive.

(** alice on connection 1, bob on connection 2, both local. *)
Definition two_agents : list BrokerInput :=
  [Wire 1 (Hello 3 "cli" None); Wire 1 (Register "alice" 10 None true (Some Local));
   Wire 2 (Hello 3 "cli" None); Wire 2 (Register "bob" 11 None true (Some Local))].
Definition s_two : BrokerState := state_after quiet_env 0 wall0 (BrokerState_new 0) two_agents.

(** The same, with alice parked on an unfiltered await, and with a proxy of
    alice on connection 3. *)
Definition s_parked : BrokerState := state_after quiet_env 0 wall0 s_two [Wire 1 (Await 1000 None)].
Definition s_proxy : BrokerState :=
  state_after quiet_env 0 wall0 s_two [Wire 3 (Hello 3 "cli" (Some "alice"))].
