(* ===== verification/Executor.v ===== *)
(** * The broker process

    [crates/famp/src/cli/broker/mod.rs]: the run loop that feeds [Broker::handle]
    and [execute_outs], which carries out the staged effects in order, over the
    disk state of the bus directory ([mailbox_env.rs], [cursor_exec.rs],
    [sessions_log.rs], [famp-inbox/src/append.rs]).

    One [step] is one iteration of the [select!] loop.  What the operating
    system answers during the iteration (read errors, short or failed writes,
    process liveness, full reply queues) is an argument, so every fault the
    code can meet is an instance. *)

From Stdlib Require Import Strings.Byte.
From stdpp Require Import gmap strings list fin_maps sorting pretty.
From S2P Require Import Prelude Json Proto Mailbox Origin Serde Codec DrainWalk.
From S2P Require Import BrokerState Awaiting Handle.

(** ** The operating system's answers *)
Inductive AppendIo :=
| Written                 (* open, both writes and [sync_data] succeeded *)
| OpenFailed              (* [Inbox::open] failed; nothing touched *)
| Torn (n : nat).         (* a write or sync failed after [n] bytes landed *)

Record Io := mkIo {
  io_read_err : string -> option string;   (* [std::fs::read] failing, by file *)
  io_append : string -> AppendIo;          (* by mailbox file *)
  io_cursor_ok : string -> bool;           (* the cursor file's temp+rename *)
  io_sessions_ok : bool;                   (* the write to sessions.jsonl *)
  io_kill0 : N -> bool;                    (* [kill(pid, 0)] succeeds *)
  io_reply_full : ClientId -> bool         (* [try_send] finds the queue full *)
}.

Definition healthy (alive : N -> bool) : Io :=
  mkIo (fun _ => None) (fun _ => Written) (fun _ => true) true alive (fun _ => false).

(** ** Process state: the run loop's locals and the bus directory *)
Record World := mkWorld {
  w_broker : BrokerState;
  w_files : gmap string bytes;           (* mailboxes/<name>.jsonl *)
  w_cursors : gmap string string;        (* mailboxes/.<name>.cursor *)
  w_sessions : bytes;                    (* sessions.jsonl *)
  w_senders : gset N;                    (* keys of [reply_senders] *)
  w_sent : list (ClientId * BusReply);   (* replies handed to the write loops *)
  w_inspecting : list (ClientId * InspectKind * BrokerStateView); (* permit holders *)
  w_client_count : N;
  w_next_id : N;
  w_idle : bool                          (* the idle timer is armed *)
}.

Definition with_broker (b : BrokerState) (w : World) : World :=
  mkWorld b (w_files w) (w_cursors w) (w_sessions w) (w_senders w) (w_sent w)
    (w_inspecting w) (w_client_count w) (w_next_id w) (w_idle w).
Definition with_files (f : gmap string bytes) (w : World) : World :=
  mkWorld (w_broker w) f (w_cursors w) (w_sessions w) (w_senders w) (w_sent w)
    (w_inspecting w) (w_client_count w) (w_next_id w) (w_idle w).
Definition with_cursors (f : gmap string string) (w : World) : World :=
  mkWorld (w_broker w) (w_files w) f (w_sessions w) (w_senders w) (w_sent w)
    (w_inspecting w) (w_client_count w) (w_next_id w) (w_idle w).
Definition with_sessions (b : bytes) (w : World) : World :=
  mkWorld (w_broker w) (w_files w) (w_cursors w) b (w_senders w) (w_sent w)
    (w_inspecting w) (w_client_count w) (w_next_id w) (w_idle w).
Definition with_senders (f : gset N) (w : World) : World :=
  mkWorld (w_broker w) (w_files w) (w_cursors w) (w_sessions w) f (w_sent w)
    (w_inspecting w) (w_client_count w) (w_next_id w) (w_idle w).
Definition with_sent (l : list (ClientId * BusReply)) (w : World) : World :=
  mkWorld (w_broker w) (w_files w) (w_cursors w) (w_sessions w) (w_senders w) l
    (w_inspecting w) (w_client_count w) (w_next_id w) (w_idle w).
Definition with_inspecting (l : list (ClientId * InspectKind * BrokerStateView)) (w : World)
  : World :=
  mkWorld (w_broker w) (w_files w) (w_cursors w) (w_sessions w) (w_senders w) (w_sent w)
    l (w_client_count w) (w_next_id w) (w_idle w).
Definition with_clients_idle (count next : N) (idle : bool) (w : World) : World :=
  mkWorld (w_broker w) (w_files w) (w_cursors w) (w_sessions w) (w_senders w) (w_sent w)
    (w_inspecting w) count next idle.

(** ** The disk environment: [DiskMailboxEnv] *)
Definition file_read (io : Io) (w : World) (path : string) : FileRead :=
  match io_read_err io path with
  | Some msg => FileIoError msg
  | None => match w_files w !! path with Some b => FileBytes b | None => FileMissing end
  end.

Definition disk_env (io : Io) (w : World) : BrokerEnv :=
  mkEnv (fun name since => read_raw_from (file_read io w (mailbox_path name)) since)
    (disk_is_alive (io_kill0 io)).

(** [DiskMailboxEnv::append]: open (creating the file), then [Inbox::append].
    The returned flag is whether the call succeeded. *)
Definition env_append (io : Io) (files : gmap string bytes) (target : MailboxName)
  (line : bytes) : gmap string bytes * bool :=
  let path := mailbox_path target in
  match io_append io path with
  | OpenFailed => (files, false)
  | Written =>
      let file := default [] (files !! path) in
      match inbox_append file line with
      | Ok file' => (<[path := file']> files, true)
      | Err EmbeddedNewline => (<[path := file]> files, false)
      end
  | Torn n =>
      let file := default [] (files !! path) in
      match inbox_append file line with
      | Ok _ => (<[path := file ++ take n (line ++ [NEWLINE])]> files, false)
      | Err EmbeddedNewline => (<[path := file]> files, false)
      end
  end.

(** [execute_advance_cursor]: an atomic replace of the cursor file. *)
Definition execute_advance_cursor (io : Io) (cursors : gmap string string)
  (display_name : string) (offset : N) : gmap string string :=
  let target := "." +:+ display_name +:+ ".cursor" in
  if io_cursor_ok io target
  then <[target := pretty offset +:+ String (Ascii.ascii_of_nat 10) EmptyString]> cursors
  else cursors.

(** [reply_senders.get(&id)] then [tx.send(reply).await]. *)
Definition deliver (client : ClientId) (reply : BusReply) (w : World) : World :=
  if bool_decide (client ∈ w_senders w) then with_sent (w_sent w ++ [(client, reply)]) w else w.

Definition inspect_budget_exceeded_payload (elapsed_ms : N) : Value :=
  VObject [("elapsed_ms", VNumber (PosInt elapsed_ms)); ("kind", VString "budget_exceeded")].

Definition MAX_CONCURRENT_INSPECT_REQUESTS : nat := 1%nat.

Section executor.
Context `{WL : WireLib} (io : Io).

Definition append_session_row (sessions : bytes) (row : SessionRow) : bytes :=
  match canonicalize (session_row_to_value row) with
  | Ok line => if io_sessions_ok io then sessions ++ line ++ [NEWLINE] else sessions
  | Err _ => sessions
  end.

(** One arm of the match in [execute_outs]. *)
Definition execute_out (now : Instant) (w : World) (out : Out) : World :=
  match out with
  | Reply id reply => deliver id reply w
  | AppendMailbox target line org =>
      match stamp_line line org with
      | Ok stamped_line => with_files (env_append io (w_files w) target stamped_line).1 w
      | Err _ => w
      end
  | AdvanceCursor nm offset =>
      let display := match nm with MbAgent n | MbChannel n => n end in
      with_cursors (execute_advance_cursor io (w_cursors w) display offset) w
  | ParkAwait _ _ _ | UnparkAwait _ => w
  | ReleaseClient id => with_senders (w_senders w ∖ {[id]}) w
  | InspectRequest client kind =>
      if negb (bool_decide (client ∈ w_senders w)) then w
      else if (MAX_CONCURRENT_INSPECT_REQUESTS <=? length (w_inspecting w))%nat then
        if io_reply_full io client then with_senders (w_senders w ∖ {[client]}) w
        else deliver client (InspectOk (inspect_budget_exceeded_payload 0)) w
      else with_inspecting (w_inspecting w ++ [(client, kind, view (w_broker w) now)]) w
  | SessionEnded nm p chans =>
      with_sessions (append_session_row (w_sessions w) (mkSessionRow nm p chans)) w
  end.

Definition execute_outs (now : Instant) (outs : list Out) (w : World) : World :=
  foldl (execute_out now) w outs.

(** ** The run loop *)
(** [InspectDone] is the spawned task of a permit holder handing over its
    payload; it never runs for a connection that holds none. *)
Inductive Event :=
| Accept                              (* [listener.accept()] succeeded *)
| AcceptError                         (* it failed: logged *)
| Frame (client : ClientId) (msg : BusMessage)
| ConnClosed (client : ClientId)      (* [BrokerMsg::Disconnect] *)
| TickElapsed
| InspectDone (client : ClientId) (payload : Value)  (* the spawned task replies *)
| IdleElapsed
| ShutdownSignal.

Inductive LoopResult := Running (w : World) | Exited (w : World) | Panicked.

(** [broker.handle(input, Instant::now())] over the current disk. *)
Definition call_broker (w : World) (input : BrokerInput) (now : Instant) (wall : WallClock)
  : option (World * list Out) :=
  match handle (disk_env io w) (w_broker w) input now wall with
  | Some (b, outs) => Some (with_broker b w, outs)
  | None => None
  end.

Definition no_permit_for (client : ClientId) (e : ClientId * InspectKind * BrokerStateView)
  : bool := negb (bool_decide (e.1.1 = client)).

Definition step (no_idle_exit : bool) (w : World) (ev : Event) (now : Instant)
  (wall : WallClock) : LoopResult :=
  match ev with
  | Accept =>
      let id := w_next_id w in
      Running (with_senders ({[id]} ∪ w_senders w)
        (with_clients_idle (w_client_count w + 1) (w_next_id w + 1) false w))
  | AcceptError => Running w
  | Frame client msg =>
      match call_broker w (Wire client msg) now wall with
      | Some (w, outs) => Running (execute_outs now outs w)
      | None => Panicked
      end
  | ConnClosed client =>
      match call_broker w (Disconnect client) now wall with
      | Some (w, outs) =>
          let count := N.pred (w_client_count w) in
          let w := with_senders (w_senders w ∖ {[client]}) w in
          let w := with_clients_idle count (w_next_id w)
            (if (count =? 0)%N && negb no_idle_exit then true else w_idle w) w in
          Running (execute_outs now outs w)
      | None => Panicked
      end
  | TickElapsed =>
      match call_broker w Tick now wall with
      | Some (w, outs) => Running (execute_outs now outs w)
      | None => Panicked
      end
  | InspectDone client payload =>
      (* the task holds its own clone of the sender *)
      if forallb (no_permit_for client) (w_inspecting w) then Running w
      else Running (with_inspecting (List.filter (no_permit_for client) (w_inspecting w))
        (with_sent (w_sent w ++ [(client, InspectOk payload)]) w))
  | IdleElapsed => if w_idle w then Exited w else Running w
  | ShutdownSignal => Exited w
  end.
End executor.

(** The loop over a list of events, each with the system's answers and clock
    readings of its iteration. *)
Record Turn := mkTurn { tn_io : Io; tn_event : Event; tn_now : Instant; tn_wall : WallClock }.

Fixpoint run_loop `{WL : WireLib} (no_idle_exit : bool) (w : World) (turns : list Turn)
  : LoopResult :=
  match turns with
  | [] => Running w
  | t :: rest =>
      match step (tn_io t) no_idle_exit w (tn_event t) (tn_now t) (tn_wall t) with
      | Running w => run_loop no_idle_exit w rest
      | stop => stop
      end
  end.

Definition world_of (r : LoopResult) (default : World) : World :=
  match r with Running w | Exited w => w | Panicked => default end.

(** [run_on_listener_with_opts] before its first iteration; the mailbox files
    are whatever an earlier broker left. *)
Definition boot (no_idle_exit : bool) (files : gmap string bytes) (cursors : gmap string string)
  (sessions : bytes) (now_wall : SystemTime) : World :=
  mkWorld (BrokerState_new now_wall) files cursors sessions ∅ [] [] 0 0 (negb no_idle_exit).
