(* ===== verification/BrokerProps.v ===== *)
(** * What the broker guarantees

    The claims about [Broker::handle]: totality, the handshake gate,
    authenticity of what reaches a mailbox, ordering of effects, trust gating,
    atomicity of failures and the session life cycle. *)

From stdpp Require Import gmap strings list fin_maps sorting.
From S2P Require Import Prelude Json Proto Mailbox Origin WireInstance Serde Codec Envelope.
From S2P Require Import DrainWalk BrokerState Awaiting Handle BrokerInv Scenario.

(** States the broker can be in: each step may see different mailboxes and
    process tables. *)
Inductive reachable `{WireLib} : BrokerState -> Prop :=
| reach_new w : reachable (BrokerState_new w)
| reach_step env s input now wall s' outs :
    reachable s -> handle env s input now wall = Some (s', outs) -> reachable s'.

Lemma reachable_Inv `{WireLib} s : reachable s -> Inv s.
Proof. induction 1; [apply Inv_new|by eapply handle_Inv]. Qed.

Lemma run_reachable `{WireLib} env now wall s inputs s' outs :
  reachable s -> run_inputs env now wall s inputs = Some (s', outs) -> reachable s'.
Proof.
  revert s s' outs. induction inputs as [|i rest IH]; intros s s' outs Hr; simpl.
  { by intros [= <- _]. }
  destruct (handle env s i now wall) as [[s1 o1]|] eqn:E; [|done].
  destruct (run_inputs env now wall s1 rest) as [[s2 o2]|] eqn:E2; [|done].
  intros [= <- _]. eapply IH; [|done]. by eapply reach_step.
Qed.

Lemma state_after_reachable `{WireLib} env now wall s inputs :
  reachable s -> reachable (state_after env now wall s inputs).
Proof.
  intros Hr. unfold state_after.
  destruct (run_inputs env now wall s inputs) as [[s' o]|] eqn:E; [|done].
  by eapply run_reachable.
Qed.

Lemma s_two_reachable : reachable s_two.
Proof. apply state_after_reachable, (reach_new 0). Qed.

Lemma s_parked_reachable : reachable s_parked.
Proof. apply state_after_reachable, s_two_reachable. Qed.

Lemma s_proxy_reachable : reachable s_proxy.
Proof. apply state_after_reachable, s_two_reachable. Qed.

(** C3. The session invariant holds in every reachable state, whatever the
    inputs, mailboxes and process table did: registered names are unique; every
    connection record is well formed (handshaken, pid non-zero and present
    exactly when a name is, proxies never hold a name, unnamed connections carry
    no trust, membership, wake address or listen flag, stored wake addresses
    match the accepted shape, channel inbox cursors exist exactly for joined
    channels); and every parked await belongs to an identified connection. *)
Theorem broker_invariant `{WireLib} s : reachable s -> Inv s.
Proof. apply reachable_Inv. Qed.

Lemma broker_invariant_witness : Inv s_parked /\ pending_awaits s_parked !! 1%N <> None.
Proof.
  split; [apply broker_invariant, s_parked_reachable|]. vm_compute. discriminate.
Defined.

Lemma handle_total `{WireLib} env s input now wall :
  exists s' outs, handle env s input now wall = Some (s', outs).
Proof.
  cut (handle env s input now wall <> None).
  { destruct (handle env s input now wall) as [[s' outs]|]; eauto. done. }
  destruct input as [client msg|client|]; simpl; try done.
  unfold handle_wire. repeat case_match; try done;
    destruct msg; simpl; try done; unfold inbox;
    match goal with |- context [resolve_op_identity ?e ?s ?c] =>
      destruct (resolve_op_identity e s c) as [nm|] eqn:Er end; try done;
    (destruct (drain_from env _ _); [|done]);
    apply resolve_has_holder in Er as [id ->]; repeat case_match; done.
Qed.

(** [Broker::handle] is total: no input panics in any state, so the
    [expect] on the canonical holder in [inbox] can never fire. *)
Theorem handle_never_panics `{WireLib} env s input now wall :
  handle env s input now wall <> None.
Proof.
  destruct (handle_total env s input now wall) as (s' & outs & ->). done.
Qed.

(** The handshake gate: on a connection that has not said Hello every other
    frame is refused with [BrokerProtoMismatch], and on one that has, a second
    Hello is refused the same way; neither changes the state. *)
Theorem handshake_gate `{WireLib} env s client msg now wall :
  bool_decide (handshaked <$> clients s !! client = Some true) = is_hello msg ->
  exists text,
    handle env s (Wire client msg) now wall =
      Some (s, [err client BrokerProtoMismatch text]).
Proof.
  intros Hg. simpl. unfold handle_wire. rewrite Hg.
  destruct (is_hello msg); simpl; eauto.
Qed.

Lemma handshake_gate_witness :
  (exists text, handle quiet_env s_two (Wire 1 (Hello 3 "cli" (Some "bob"))) 0 wall0 =
     Some (s_two, [err 1 BrokerProtoMismatch text])) /\
  (exists text, handle quiet_env s_two (Wire 9 Whoami) 0 wall0 =
     Some (s_two, [err 9 BrokerProtoMismatch text])).
Proof. split; apply handshake_gate; vm_compute; reflexivity. Qed.

(** ** What a send stages *)
Definition target_mailbox (to : Target) : MailboxName :=
  match to with TgtAgent n => MbAgent n | TgtChannel n => MbChannel n end.

(** The answers to woken waiters. *)
Definition wake_effect (o : Out) : Prop :=
  match o with
  | Reply _ (AwaitOk _ _ _) | Reply _ AwaitTimeout | Reply _ (ReplyErr _ _)
  | UnparkAwait _ => True
  | _ => False
  end.
(** Neither a mailbox write nor a send confirmation. *)
Definition not_append (o : Out) : Prop :=
  match o with AppendMailbox _ _ _ | Reply _ (SendOk _ _) => False | _ => True end.

Section send_shape.
Context `{WL : WireLib} (env : BrokerEnv).

Lemma await_reply_effect s w mb f tr :
  wake_effect (Reply w (await_reply_for_mailbox env s w mb f tr).2).
Proof.
  unfold await_reply_for_mailbox.
  destruct (resolve_await_owner env s w) as [[i owner]|]; [|done].
  destruct (drain_await_batch env s owner mb f tr) as [b|[k m]]; [|done].
  case_bool_decide; simpl; [|done]. by destruct (ab_fully_drained b).
Qed.

Lemma wake_all_effects s mb tr ws : Forall wake_effect (wake_all env s mb tr ws).2.
Proof.
  revert s. induction ws as [|w ws IH]; intros s; simpl; [constructor|].
  destruct (pending_awaits s !! w) as [p|]; [|apply IH].
  pose proof (await_reply_effect (set_pending (delete w) s) w mb (pa_filter p) tr) as Hr.
  destruct (await_reply_for_mailbox _ _ _ _ _ _) as [s1 r]. specialize (IH s1).
  destruct (wake_all _ s1 _ _ _) as [s2 o]. by repeat constructor.
Qed.

Lemma wake_members_effects s mb e org len ms :
  Forall wake_effect (wake_members env s mb e org len ms).2.
Proof.
  revert s. induction ms as [|m ms IH]; intros s; simpl; [constructor|].
  case_match; [apply IH|].
  pose proof (wake_all_effects s mb (Some (org, e, len))
    (waiting_clients_for_name env s m e org)) as Hw.
  destruct (wake_all _ _ _ _ _) as [s1 o1]. specialize (IH s1).
  destruct (wake_members _ _ _ _ _ _ _) as [s2 o2]. by apply Forall_app.
Qed.

(** The waiters a send of [e] answers, by target. *)
Definition send_wakeups (s : BrokerState) (to : Target) (e : Value) (org : Origin) (len : N)
  : BrokerState * list Out :=
  match to with
  | TgtAgent nm =>
      wake_all env s (MbAgent nm) (Some (org, e, len)) (waiting_clients_for_name env s nm e org)
  | TgtChannel nm =>
      wake_members env s (MbChannel nm) e org len (bs_iter (default ∅ (channels s !! nm)))
  end.

(** The delivery rows of its confirmation. *)
Definition send_rows (s : BrokerState) (client : ClientId) (to : Target) (e : Value)
  : list Delivered :=
  match to with
  | TgtAgent nm =>
      let org := client_origin s client in
      let waiters := waiting_clients_for_name env s nm e org in
      [mkDelivered (TgtAgent nm) true (negb (bool_decide (length waiters = 0%nat)))
         (if woken_waiter_is_canonical_holder env s nm waiters then None
          else recipient_wake_addr s nm org)]
  | TgtChannel nm =>
      map (fun member => mkDelivered (TgtAgent member) true false None)
        (bs_iter (default ∅ (channels s !! nm)))
  end.

Lemma send_wakeups_effects s to e org len :
  Forall wake_effect (send_wakeups s to e org len).2.
Proof. destruct to; [apply wake_all_effects|apply wake_members_effects]. Qed.

(** Only connections that were parked are answered. *)
Definition answers_parked (s : BrokerState) (o : Out) : Prop :=
  forall i r, o = Reply i r -> is_Some (pending_awaits s !! i).

Lemma answers_parked_mono s s' outs :
  wakes s s' -> Forall (answers_parked s') outs -> Forall (answers_parked s) outs.
Proof.
  intros [_ _ _ Hp] Ho. eapply Forall_impl; [exact Ho|]. intros o H i r Hr.
  destruct (H i r Hr) as [p Hi]. exists p. by eapply lookup_weaken.
Qed.

Lemma wake_all_parked s mb tr ws : Forall (answers_parked s) (wake_all env s mb tr ws).2.
Proof.
  revert s. induction ws as [|w ws IH]; intros s; simpl; [constructor|].
  destruct (pending_awaits s !! w) as [p|] eqn:Hp; [|apply IH].
  pose proof (await_reply_wakes env (set_pending (delete w) s) w mb (pa_filter p) tr) as Hr.
  destruct (await_reply_for_mailbox _ _ _ _ _ _) as [s1 r]. specialize (IH s1).
  destruct (wake_all _ s1 _ _ _) as [s2 o]. simpl in *. constructor; [by intros i r' [= <- _]|].
  constructor; [done|]. eapply answers_parked_mono; [|exact IH].
  etransitivity; [apply (unpark_wakes s w)|exact Hr].
Qed.

Lemma send_wakeups_parked s to e org len :
  Forall (answers_parked s) (send_wakeups s to e org len).2.
Proof.
  destruct to as [nm|nm]; simpl; [apply wake_all_parked|].
  generalize (bs_iter (default ∅ (channels s !! nm))) as ms. intros ms. revert s.
  induction ms as [|m ms IH]; intros s; simpl; [constructor|]. case_match; [apply IH|].
  pose proof (wake_all_parked s (MbChannel nm) (Some (org, e, len))
    (waiting_clients_for_name env s m e org)) as Hp.
  pose proof (wake_all_wakes env s (MbChannel nm) (Some (org, e, len))
    (waiting_clients_for_name env s m e org)) as Hw.
  destruct (wake_all _ _ _ _ _) as [s1 o1]. specialize (IH s1).
  destruct (wake_members _ _ _ _ _ _ _) as [s2 o2]. apply Forall_app. split; [done|].
  by eapply answers_parked_mono.
Qed.

(** What an authenticated send of a fitting envelope stages. *)
Lemma send_accepted s client to e nm line st :
  resolve_op_identity env s client = Ok nm -> is_self_authored e (Some nm) = true ->
  canonicalize e = Ok line -> (blen line <= MAX_FRAME_BYTES)%N ->
  stamp_line line (client_origin s client) = Ok st ->
  let wk := send_wakeups s to e (client_origin s client) (blen st) in
  send env s client to e =
    (wk.1, AppendMailbox (target_mailbox to) line (client_origin s client) ::
           wk.2 ++ [Reply client (SendOk (task_id_from e) (send_rows s client to e))]).
Proof.
  intros Hr Ha Hc Hl Hst. cbv zeta. unfold send, encode_envelope. rewrite Hr, Ha, Hc. simpl.
  rewrite (proj2 (N.ltb_ge _ _) Hl).
  destruct to as [n|n]; simpl; unfold send_agent, send_channel; rewrite Hst;
    [destruct (wake_all _ _ _ _ _)|destruct (wake_members _ _ _ _ _ _ _)]; done.
Qed.

(** A send either answers one error and changes nothing, or appends first,
    then wakes, then confirms. *)
Lemma send_shape s client to e :
  (exists k m, send env s client to e = (s, [err client k m])) \/
  exists nm line st,
    let wk := send_wakeups s to e (client_origin s client) (blen st) in
    resolve_op_identity env s client = Ok nm /\
    is_self_authored e (Some nm) = true /\
    canonicalize e = Ok line /\ (blen line <= MAX_FRAME_BYTES)%N /\
    stamp_line line (client_origin s client) = Ok st /\
    send env s client to e =
      (wk.1, AppendMailbox (target_mailbox to) line (client_origin s client) ::
             wk.2 ++ [Reply client (SendOk (task_id_from e) (send_rows s client to e))]).
Proof.
  destruct (resolve_op_identity env s client) as [nm|] eqn:Er;
    [|left; unfold send; rewrite Er; by eexists _, _].
  destruct (is_self_authored e (Some nm)) eqn:Ea;
    [|left; unfold send; rewrite Er, Ea; by eexists _, _].
  destruct (canonicalize e) as [line|] eqn:Ec;
    [|left; unfold send, encode_envelope; rewrite Er, Ea, Ec; by eexists _, _].
  destruct (MAX_FRAME_BYTES <? blen line)%N eqn:El;
    [left; unfold send, encode_envelope; rewrite Er, Ea, Ec, El; by eexists _, _|].
  destruct (stamp_line line (client_origin s client)) as [st|] eqn:Est.
  - right. apply N.ltb_ge in El.
    exists nm, line, st. split_and!; try done. by apply (send_accepted s client to e nm line st).
  - left. unfold send, encode_envelope. rewrite Er, Ea, Ec. simpl. rewrite El.
    destruct to; simpl; unfold send_agent, send_channel; rewrite Est; by eexists _, _.
Qed.

Lemma client_origin_sim s s' client :
  Inv s -> Inv s' -> clients_sim s s' -> client_origin s' client = client_origin s client.
Proof.
  intros HI HI' Hsim. unfold client_origin. pose proof (Hsim client) as H.
  destruct (clients s !! client) as [c|], (clients s' !! client) as [c'|]; inv H; [|done].
  match goal with H : same_session _ _ |- _ =>
    rewrite (ss_name _ _ H), (ss_bind_as _ _ H), (ss_origin _ _ H) end.
  case_match; [done|].
  destruct (bind_as c) as [b|]; [|done]. rewrite (canonical_holder_sim s s') by done.
  destruct (canonical_holder_id s b) as [id|]; [|done]. simpl.
  pose proof (Hsim id) as Hid.
  destruct (clients s !! id), (clients s' !! id); inv Hid; [|done].
  match goal with H : same_session ?a ?b |- origin ?b = _ => apply (ss_origin _ _ H) end.
Qed.

Lemma disconnect_not_append s client : Forall not_append (disconnect s client).2.
Proof. unfold disconnect. repeat case_match; simplify_eq; simpl; by repeat constructor. Qed.

Lemma disconnect_all_not_append s l : Forall not_append (disconnect_all s l).2.
Proof.
  revert s. induction l as [|c l IH]; intros s; simpl; [constructor|].
  pose proof (disconnect_not_append s c) as H1. destruct (disconnect s c) as [s1 o1].
  specialize (IH s1). destruct (disconnect_all s1 l). by apply Forall_app.
Qed.

Lemma expire_all_not_append s l : Forall not_append (expire_all s l).2.
Proof.
  revert s. induction l as [|c l IH]; intros s; simpl; [constructor|].
  specialize (IH (set_pending (delete c) s)). destruct (expire_all _ l).
  by repeat constructor.
Qed.

Lemma await_not_append s client t task now :
  Forall not_append (await_envelope env s client t task now).2.
Proof.
  unfold await_envelope. destruct (resolve_await_owner env s client) as [[nm owner]|];
    [|by repeat constructor].
  set (f := match task with Some t => _ | None => _ end).
  assert (Hs : forall mbs s0 o,
    (await_scan env s0 client owner f mbs).2 = Some o -> Forall not_append o).
  { induction mbs as [|mb mbs IH]; intros s0 o; simpl; [done|].
    destruct (drain_await_batch _ _ _ _ _ _) as [b|[k m]].
    - case_match; [intros [= <-]; by repeat constructor|apply IH].
    - intros [= <-]. by repeat constructor. }
  specialize (Hs (await_mailboxes s owner nm) s).
  destruct (await_scan _ _ _ _ _ _) as [s1 [o|]]; simpl in *; [by apply Hs|].
  by repeat constructor.
Qed.

(** Only an accepted send stages an append, and then the effects are the
    append, the woken waiters' answers and the sender's confirmation. *)
Lemma handle_append_shape s input now wall s' outs :
  handle env s input now wall = Some (s', outs) ->
  Forall not_append outs \/
  exists client to e nm line st,
    let t := touch_activity s client (wall_first wall) in
    let wk := send_wakeups t to e (client_origin t client) (blen st) in
    input = Wire client (Send to e) /\
    resolve_op_identity env t client = Ok nm /\ is_self_authored e (Some nm) = true /\
    canonicalize e = Ok line /\ (blen line <= MAX_FRAME_BYTES)%N /\
    stamp_line line (client_origin t client) = Ok st /\
    outs = AppendMailbox (target_mailbox to) line (client_origin t client) ::
           wk.2 ++ [Reply client (SendOk (task_id_from e) (send_rows t client to e))] /\
    s' = wk.1.
Proof.
  intros Hh. destruct input as [client msg|client|]; simpl in Hh.
  2:{ apply (inj Some), (f_equal snd) in Hh. cbn [snd] in Hh. subst outs.
      left. apply disconnect_not_append. }
  2:{ apply (inj Some) in Hh. left. unfold tick in Hh.
      pose proof (disconnect_all_not_append s (dead_clients env s)) as H1.
      destruct (disconnect_all s _) as [s1 o1].
      pose proof (expire_all_not_append s1 (expired_awaits s1 now)) as H2.
      destruct (expire_all s1 _) as [s2 o2]. simplify_eq. by apply Forall_app. }
  unfold handle_wire in Hh.
  repeat (case_match; [simplify_eq; left; by repeat constructor|]).
  destruct msg; cbn [dispatch touches] in Hh.
  3: { apply (inj Some) in Hh.
       destruct (send_shape (touch_activity s client (wall_first wall)) client to envelope)
         as [(k & m & Heq)|(nm & l & st & Hsh)].
       - rewrite Heq in Hh. simplify_eq. left. by repeat constructor.
       - destruct Hsh as (? & ? & ? & ? & ? & Heq). rewrite Heq in Hh.
         injection Hh as <- <-.
         right. exists client, to, envelope, nm, l, st. done. }
  3: { left. unfold inbox in Hh. repeat case_match; simplify_eq; by repeat constructor. }
  all: left; apply (inj Some), (f_equal snd) in Hh; cbn [snd] in Hh; subst outs.
  3: apply await_not_append.
  all: unfold hello, register, join, leave, whoami, set_listen, set_wake_addr;
    repeat case_match; by repeat constructor.
Qed.

(** An append among such effects is the first of them. *)
Lemma append_is_head t line org t' line' org' mid c reply :
  Forall wake_effect mid ->
  AppendMailbox t line org ∈ AppendMailbox t' line' org' :: mid ++ [Reply c reply] ->
  t = t' /\ line = line' /\ org = org'.
Proof.
  intros Hmid [[= -> -> ->]|Hin]%elem_of_cons; [done|].
  apply elem_of_app in Hin as [Hin|Hin%list_elem_of_singleton]; [|done].
  rewrite Forall_forall in Hmid. by apply Hmid in Hin.
Qed.

Lemma append_in_not_append t line org outs :
  AppendMailbox t line org ∈ outs -> ~ Forall not_append outs.
Proof. rewrite Forall_forall. intros Hin H. by apply H in Hin. Qed.
End send_shape.

(** C4. Authenticity of mailbox writes (T-11-18): in a reachable state, a record
    is staged for a mailbox only by a Send whose connection resolves to a live
    identity, whose envelope's [from] ends in exactly that identity, whose line
    is the canonical text of that envelope and fits a frame; and the record
    carries the origin the broker itself holds for the sending connection. *)
Theorem appends_are_authentic `{WireLib} env s input now wall s' outs t line org :
  reachable s -> handle env s input now wall = Some (s', outs) ->
  AppendMailbox t line org ∈ outs ->
  exists client to e nm,
    input = Wire client (Send to e) /\ t = target_mailbox to /\
    resolve_op_identity env s client = Ok nm /\ is_self_authored e (Some nm) = true /\
    canonicalize e = Ok line /\ (blen line <= MAX_FRAME_BYTES)%N /\
    org = client_origin s client.
Proof.
  intros HI%reachable_Inv Hh Hin.
  destruct (handle_append_shape env s input now wall s' outs Hh)
    as [Hno|(client & to & e & nm & l & st & -> & Hr & ? & ? & ? & ? & -> & _)].
  { by apply append_in_not_append in Hin. }
  pose proof (touch_activity_sim s client (wall_first wall)) as Hsim.
  pose proof (Inv_touch s client (wall_first wall) HI) as HIt.
  rewrite (resolve_op_identity_sim env s) in Hr by done.
  rewrite (client_origin_sim s) in Hin by done.
  apply append_is_head in Hin as (-> & -> & ->);
    [|apply send_wakeups_effects].
  exists client, to, e, nm. done.
Qed.

Lemma appends_are_authentic_witness :
  exists s' outs line,
    handle quiet_env s_two (Wire 2 (Send (TgtAgent "alice") (msg_from "agent:h/bob"))) 0 wall0
      = Some (s', outs) /\
    AppendMailbox (MbAgent "alice") line Local ∈ outs /\
    (exists client to e nm,
       Wire 2 (Send (TgtAgent "alice") (msg_from "agent:h/bob")) = Wire client (Send to e) /\
       MbAgent "alice" = target_mailbox to /\
       resolve_op_identity quiet_env s_two client = Ok nm /\
       is_self_authored e (Some nm) = true /\
       canonicalize e = Ok line /\ (blen line <= MAX_FRAME_BYTES)%N /\
       Local = client_origin s_two client).
Proof.
  destruct (handle quiet_env s_two (Wire 2 (Send (TgtAgent "alice") (msg_from "agent:h/bob")))
    0 wall0) as [[s' outs]|] eqn:E; [|vm_compute in E; discriminate].
  exists s', outs, (toy_print (msg_from "agent:h/bob")).
  assert (Hin : AppendMailbox (MbAgent "alice") (toy_print (msg_from "agent:h/bob")) Local ∈ outs).
  { vm_compute in E. injection E as _ <-. vm_compute. left. }
  split; [done|]. split; [done|].
  exact (appends_are_authentic _ _ _ _ _ _ _ _ _ _ s_two_reachable E Hin).
Defined.

(** Effects of a send are staged in durable order (D-04): when a call stages
    an append, it is the first effect, it is the only append, everything
    between it and the end only answers or unparks waiters, and the last effect
    is the sender's own SendOk. *)
Theorem append_precedes_replies `{WireLib} env s input now wall s' outs t line org :
  handle env s input now wall = Some (s', outs) -> AppendMailbox t line org ∈ outs ->
  exists client mid task rows,
    outs = AppendMailbox t line org :: mid ++ [Reply client (SendOk task rows)] /\
    Forall wake_effect mid.
Proof.
  intros Hh Hin.
  destruct (handle_append_shape env s input now wall s' outs Hh)
    as [Hno|(client & to & e & nm & l & st & -> & Hr & ? & ? & ? & ? & -> & _)].
  { by apply append_in_not_append in Hin. }
  pose proof (send_wakeups_effects env (touch_activity s client (wall_first wall)) to e
    (client_origin (touch_activity s client (wall_first wall)) client) (blen st)) as Hmid.
  apply append_is_head in Hin as (-> & -> & ->); [|done].
  by eexists client, _, _, _.
Qed.

Lemma append_precedes_replies_witness :
  exists s' outs client mid task rows,
    handle quiet_env s_parked (Wire 2 (Send (TgtAgent "alice") (msg_from "agent:h/bob"))) 0 wall0
      = Some (s', outs) /\
    outs = AppendMailbox (MbAgent "alice") (toy_print (msg_from "agent:h/bob")) Local ::
             mid ++ [Reply client (SendOk task rows)] /\
    Forall wake_effect mid.
Proof.
  destruct (handle quiet_env s_parked (Wire 2 (Send (TgtAgent "alice") (msg_from "agent:h/bob")))
    0 wall0) as [[s' outs]|] eqn:E; [|vm_compute in E; discriminate].
  assert (Hin : AppendMailbox (MbAgent "alice") (toy_print (msg_from "agent:h/bob")) Local ∈ outs).
  { vm_compute in E. injection E as _ <-. vm_compute. left. }
  destruct (append_precedes_replies _ _ _ _ _ _ _ _ _ _ E Hin) as (c & mid & t & r & ? & ?).
  exists s', outs, c, mid, t, r. split; [reflexivity|]. split; assumption.
Qed.
