(* ===== verification/SessionProps.v ===== *)
(** * Sessions: registration, failure atomicity, proxies, channels, departures *)

From stdpp Require Import gmap strings list fin_maps sorting.
From S2P Require Import Prelude Json Proto Mailbox Origin WireInstance Serde Codec Envelope.
From S2P Require Import DrainWalk BrokerState Awaiting Handle BrokerInv Scenario.
From S2P Require Import BrokerProps.

(** ** Failed requests *)

(** States that differ at most in activity times and await cursors. *)
Record unchanged (s s' : BrokerState) : Prop := {
  un_sim : clients_sim s s';
  un_channels : channels s' = channels s;
  un_pending : pending_awaits s' = pending_awaits s;
  un_roles : channel_roles s' = channel_roles s
}.

#[export] Instance unchanged_equiv : Equivalence unchanged.
Proof.
  split.
  - intros s. by split.
  - intros s s' []. by split.
  - intros a b c [] []. split; [by etransitivity|congruence..].
Qed.

Lemma touch_unchanged s client w : unchanged s (touch_activity s client w).
Proof.
  destruct (touch_activity_fields s client w) as (? & ? & ?).
  split; [apply touch_activity_sim|done..].
Qed.

(** A request of an identified connection reaches its handler in a state that
    differs only in the activity stamp. *)
Lemma resolved_dispatch `{WireLib} env s client nm msg now wall :
  Inv s -> resolve_op_identity env s client = Ok nm -> touches msg = true ->
  exists t,
    handle env s (Wire client msg) now wall = dispatch env t client msg now wall /\
    Inv t /\ unchanged s t /\ resolve_op_identity env t client = Ok nm /\
    (forall b, canonical_holder_id t b = canonical_holder_id s b) /\
    client_origin t client = client_origin s client.
Proof.
  intros HI Hr Ht. exists (touch_activity s client (wall_first wall)).
  pose proof (touch_activity_sim s client (wall_first wall)) as Hsim.
  pose proof (Inv_touch s client (wall_first wall) HI) as HIt. split_and!.
  - simpl. unfold handle_wire. destruct (resolve_op_identity_Ok _ _ _ _ Hr) as (c & Hc & _).
    rewrite Hc. simpl. rewrite (ok_handshaked c) by (by eapply (inv_clients s HI)).
    rewrite Ht. destruct msg; done.
  - done.
  - apply touch_unchanged.
  - by rewrite (resolve_op_identity_sim env s).
  - intros b. by apply canonical_holder_sim.
  - by apply client_origin_sim.
Qed.

Definition is_error (r : BusReply) : bool :=
  match r with ReplyErr _ _ | HelloErr _ _ => true | _ => false end.

Section atomicity.
Context `{WL : WireLib} (env : BrokerEnv).

Lemma await_scan_unchanged s client owner f mbs :
  unchanged s (await_scan env s client owner f mbs).1.
Proof.
  destruct (await_scan_wakes env s client owner f mbs) as [? ? ? _].
  split; [done..| |done]. apply await_scan_pending.
Qed.

Lemma await_error s client t task now s' r :
  await_envelope env s client t task now = (s', [Reply client r]) -> unchanged s s'.
Proof.
  unfold await_envelope. destruct (resolve_await_owner env s client) as [[nm owner]|];
    [|by intros [= <- _]].
  match goal with |- context [await_scan env ?s ?c ?o ?f ?m] =>
    pose proof (await_scan_unchanged s c o f m) as Hs;
    destruct (await_scan env s c o f m) as [s1 [outs|]] end; simpl in *; by intros [= <- _].
Qed.

(** A handler other than [Await] that answers only an error returned before its
    first write. *)
Lemma dispatch_error s client msg now wall s' r :
  dispatch env s client msg now wall = Some (s', [Reply client r]) ->
  is_error r = true ->
  match msg with Await _ _ => unchanged s s' | _ => s' = s end.
Proof.
  intros Hd He. destruct msg; cbn [dispatch] in Hd.
  4: { unfold inbox in Hd. repeat case_match; simplify_eq; done. }
  all: apply (inj Some) in Hd.
  3: { destruct (send_shape env s client to envelope)
         as [(k & m & Heq)|(nm & l & st & _ & _ & _ & _ & _ & Heq)];
       rewrite Heq in Hd; [by simplify_eq|discriminate Hd]. }
  3: { by eapply await_error. }
  all: unfold hello, register, join, leave, sessions, whoami, set_listen, set_wake_addr in Hd;
    repeat case_match; simplify_eq; done.
Qed.
End atomicity.

(** C8. Failures are atomic: a request other than an Await that is answered with
    an error, and nothing else, leaves the whole broker state as it was, every
    session with its inbox and await cursors, the channel rosters, the roles
    and the parked awaits, but for the requester's activity time; so a Register,
    Join or Inbox whose reply would not fit a frame commits no cursor and no
    membership (#14). A failed Await may have consumed await positions, and
    changes nothing else. *)
Theorem errors_change_nothing `{WireLib} env s client msg now wall s' r :
  handle env s (Wire client msg) now wall = Some (s', [Reply client r]) ->
  is_error r = true ->
  match msg with
  | Await _ _ => unchanged s s'
  | _ => s' = s \/ s' = touch_activity s client (wall_first wall)
  end.
Proof.
  simpl. unfold handle_wire. intros Hh He.
  case_match; [simplify_eq; destruct msg; auto; done|].
  case_match; [simplify_eq; destruct msg; auto; done|].
  apply dispatch_error in Hh; [|done].
  destruct msg; simpl in Hh; auto. etransitivity; [apply touch_unchanged|exact Hh].
Qed.

(** A second session may not take alice's name. *)
Lemma errors_change_nothing_witness :
  exists s' r,
    handle quiet_env s_two (Wire 2 (Register "alice" 11 None false None)) 0 wall0 =
      Some (s', [Reply 2 r]) /\ is_error r = true /\
    (s' = s_two \/ s' = touch_activity s_two 2 (wall_first wall0)).
Proof.
  destruct (handle quiet_env s_two (Wire 2 (Register "alice" 11 None false None)) 0 wall0)
    as [[s' outs]|] eqn:E; [|vm_compute in E; discriminate].
  assert (exists r, outs = [Reply 2 r] /\ is_error r = true) as (r & -> & He).
  { vm_compute in E. injection E as _ <-. eexists. split; reflexivity. }
  exists s', r. split; [reflexivity|]. split; [exact He|].
  exact (errors_change_nothing _ _ _ _ _ _ _ _ E He).
Defined.

(** ** Registration *)
Definition name_held (s : BrokerState) (client : ClientId) (nm : string) : Prop :=
  exists j cj, j <> client /\ clients s !! j = Some cj /\ name cj = Some nm.

Lemma name_taken_held s client nm :
  Inv s -> name_taken s client nm = true <-> name_held s client nm.
Proof.
  intros HI. unfold name_taken, name_held. rewrite iter_any_true. split.
  - intros ([j cj] & Hin%elem_of_bt_iter & [Hne [_ Hn]%holds_name_true]%andb_true_iff).
    exists j, cj. apply negb_true_iff, N.eqb_neq in Hne. done.
  - intros (j & cj & Hne & Hj & Hn). exists (j, cj). split; [by apply elem_of_bt_iter|].
    apply andb_true_iff. split; [by apply negb_true_iff, N.eqb_neq|].
    apply holds_name_true. split; [|done]. by apply ok_connected, (inv_clients s HI j).
Qed.

Section registration.
Context `{WL : WireLib} (env : BrokerEnv).

Lemma handle_register s client c nm p cw listen org now wall :
  Inv s -> clients s !! client = Some c ->
  handle env s (Wire client (Register nm p cw listen org)) now wall =
  Some (register env s client nm p cw listen org (wall_first wall)).
Proof.
  intros HI Hc. simpl. unfold handle_wire. rewrite Hc. simpl.
  rewrite (ok_handshaked c) by (by eapply (inv_clients s HI)). done.
Qed.

Lemma register_ok s client c nm p cw listen org w d :
  let reply := RegisterOk nm (map to_stamped (decode_lines 0 d)) (connected_names (clients s)) in
  clients s !! client = Some c -> bind_as c = None -> p <> 0%N ->
  name_taken s client nm = false -> drain_from env (MbAgent nm) 0 = Ok d ->
  is_ok (encode_frame (reply_to_value reply)) = true ->
  register env s client nm p cw listen org w =
    (alter_client client (bind_client nm p cw listen org w (MbAgent nm) (dr_next_offset d)) s,
     [Reply client reply; AdvanceCursor (MbAgent nm) (dr_next_offset d)]).
Proof.
  cbv zeta. intros Hc Hb Hp Ht Hd He. unfold register.
  rewrite (proj2 (N.eqb_neq p 0) Hp), Hc, Hb. simpl. rewrite Ht, Hd.
  destruct (encode_frame _); done.
Qed.
End registration.

(** Registration is exclusive and fail-closed: on a connection that may
    register, with a readable mailbox and a reply that fits, the answer is
    NameTaken, with nothing changed, exactly when another connection holds the
    name; otherwise the connection becomes the name's one canonical holder, its
    trust is the origin it declared or Unknown if it declared none, it is told
    its whole mailbox and its await cursor starts at the mailbox end, and no
    other session is touched. *)
Theorem register_is_exclusive `{WireLib} env s client c nm p cw listen org now wall d :
  let reply := RegisterOk nm (map to_stamped (decode_lines 0 d)) (connected_names (clients s)) in
  let run := handle env s (Wire client (Register nm p cw listen org)) now wall in
  reachable s -> clients s !! client = Some c -> bind_as c = None -> p <> 0%N ->
  drain_from env (MbAgent nm) 0 = Ok d ->
  is_ok (encode_frame (reply_to_value reply)) = true ->
  (name_held s client nm /\ run = Some (s, [err client NameTaken "name already registered"])) \/
  (~ name_held s client nm /\
   exists s' c',
     run = Some (s', [Reply client reply; AdvanceCursor (MbAgent nm) (dr_next_offset d)]) /\
     clients s' !! client = Some c' /\ canonical_holder_id s' nm = Some client /\
     pid c' = Some p /\ listen_mode c' = listen /\ origin c' = default Unknown org /\
     await_offsets c' !! MbAgent nm = Some (dr_next_offset d) /\
     forall j, j <> client -> clients s' !! j = clients s !! j).
Proof.
  cbv zeta. intros HI%reachable_Inv Hc Hb Hp Hd He.
  rewrite (handle_register env s client c nm p cw listen org now wall HI Hc).
  destruct (name_taken s client nm) eqn:Et.
  - left. split; [by apply name_taken_held|]. unfold register.
    rewrite (proj2 (N.eqb_neq p 0) Hp), Hc, Hb. simpl. by rewrite Et.
  - right. split; [intros Hh; apply name_taken_held in Hh; congruence|].
    pose proof (register_ok env s client c nm p cw listen org (wall_first wall) d
      Hc Hb Hp Et Hd He) as Hreg.
    assert (HI' : Inv (register env s client nm p cw listen org (wall_first wall)).1).
    { by apply Inv_register. }
    rewrite Hreg in HI' |- *. eexists _, _. split; [done|].
    assert (Hc' : clients (alter_client client (bind_client nm p cw listen org (wall_first wall)
      (MbAgent nm) (dr_next_offset d)) s) !! client =
      Some (bind_client nm p cw listen org (wall_first wall) (MbAgent nm) (dr_next_offset d) c)).
    { simpl. by rewrite lookup_alter_eq, Hc. }
    split; [exact Hc'|]. split_and!; try done.
    + apply canonical_holder_iff; [done|]. eauto.
    + simpl. by rewrite lookup_insert_eq.
    + intros j Hj. simpl. by rewrite lookup_alter_ne.
Qed.

Definition s_newcomer : BrokerState :=
  state_after quiet_env 0 wall0 s_two [Wire 3 (Hello 3 "cli" None)].

Lemma register_is_exclusive_witness :
  exists s' c',
    handle quiet_env s_newcomer (Wire 3 (Register "carol" 12 None false None)) 0 wall0 =
      Some (s', [Reply 3 (RegisterOk "carol" [] ["alice"; "bob"]);
                 AdvanceCursor (MbAgent "carol") 0]) /\
    clients s' !! 3%N = Some c' /\ canonical_holder_id s' "carol" = Some 3%N /\
    origin c' = Unknown.
Proof.
  destruct (clients s_newcomer !! 3%N) as [c|] eqn:Hc; [|vm_compute in Hc; discriminate].
  assert (Hb : bind_as c = None) by (vm_compute in Hc; injection Hc as <-; reflexivity).
  destruct (register_is_exclusive quiet_env s_newcomer 3 c "carol" 12 None false None 0 wall0
    (mkDrain [] 0) (state_after_reachable _ _ _ _ _ s_two_reachable) Hc Hb)
    as [[(j & cj & Hne & Hj & Hn) _]|[_ (s' & c' & Hrun & Hc' & Hh & _ & _ & Ho & _)]].
  - discriminate.
  - reflexivity.
  - vm_compute. reflexivity.
  - exfalso. assert (Hf : canonical_holder_id s_newcomer "carol" = None)
      by (vm_compute; reflexivity).
    eapply canonical_holder_None; [exact Hf|exact Hj| |exact Hn].
    eapply ok_connected, inv_clients; [|exact Hj].
    apply reachable_Inv, state_after_reachable, s_two_reachable.
  - exists s', c'. split; [|split; [exact Hc'|split; [exact Hh|exact Ho]]].
    etransitivity; [exact Hrun|]. vm_compute. reflexivity.
Qed.

(** ** Proxies *)
Definition proxied (msg : BusMessage) : bool :=
  match msg with Send _ _ | Inbox _ _ | Join _ _ | Leave _ => true | _ => false end.

(** Two runs that answer different connections and agree otherwise. *)
Definition same_but_for (a b : ClientId) (x y : option (BrokerState * list Out)) : Prop :=
  exists s pre r post,
    x = Some (s, pre ++ Reply a r :: post) /\ y = Some (s, pre ++ Reply b r :: post).

Section proxies.
Context `{WL : WireLib} (env : BrokerEnv) (s : BrokerState).
Context (px h : ClientId) (nm : string).
Hypothesis HI : Inv s.
Hypothesis Hpx : resolve_op_identity env s px = Ok nm.
Hypothesis Hh : resolve_op_identity env s h = Ok nm.
Hypothesis Hhold : canonical_holder_id s nm = Some h.
Hypothesis Horg : client_origin s px = client_origin s h.

Ltac same_with pre post := eexists _, pre, _, post; split; reflexivity.

Lemma proxy_join ch role :
  same_but_for px h (Some (join env s px ch role)) (Some (join env s h ch role)).
Proof.
  unfold join. rewrite Hpx, Hh, Hhold. simpl.
  destruct (drain_from env _ _); [|same_with (@nil Out) (@nil Out)].
  destruct (encode_frame _); [|same_with (@nil Out) (@nil Out)].
  eexists _, [], _, [_]. split; reflexivity.
Qed.

Lemma proxy_leave ch :
  same_but_for px h (Some (leave env s px ch)) (Some (leave env s h ch)).
Proof.
  unfold leave. rewrite Hpx, Hh. simpl.
  change (canonical_holder_id (set_channels _ s) nm) with (canonical_holder_id s nm).
  rewrite Hhold. same_with (@nil Out) (@nil Out).
Qed.

Lemma proxy_inbox since inc :
  same_but_for px h (inbox env s px since inc) (inbox env s h since inc).
Proof.
  unfold inbox. rewrite Hpx, Hh, Hhold. simpl.
  destruct (drain_from env _ _); [|same_with (@nil Out) (@nil Out)].
  destruct (inbox_channels _ _ _ _ _ _) as [[es advs]|]; [|same_with (@nil Out) (@nil Out)].
  destruct (encode_frame _); same_with (@nil Out) (@nil Out).
Qed.

Lemma proxy_send to e :
  same_but_for px h (Some (send env s px to e)) (Some (send env s h to e)).
Proof.
  unfold send, encode_envelope. rewrite Hpx, Hh.
  destruct (negb _); [same_with (@nil Out) (@nil Out)|].
  destruct (canonicalize e) as [line|]; [|same_with (@nil Out) (@nil Out)].
  destruct (_ <? _)%N; [same_with (@nil Out) (@nil Out)|].
  destruct to; unfold send_agent, send_channel; rewrite Horg;
    (destruct (stamp_line _ _); [|same_with (@nil Out) (@nil Out)]).
  - destruct (wake_all _ _ _ _ _) as [s' o]. eexists _, (_ :: o), _, []. split; reflexivity.
  - destruct (wake_members _ _ _ _ _ _ _) as [s' o]. eexists _, (_ :: o), _, [].
    split; reflexivity.
Qed.
End proxies.

(** A proxy is its canonical holder (D-10): while the holder's process is
    alive, a Send, Inbox, Join or Leave on a connection bound to a name has
    exactly the effect the same request has on the holder's own connection
    (same state, same staged effects in the same order, same reply), only the
    reply goes to the proxy. *)
Theorem proxy_acts_as_holder `{WireLib} env s px c nm h ch msg now wall :
  reachable s ->
  clients s !! px = Some c -> bind_as c = Some nm -> proxy_holder_alive env s nm = true ->
  clients s !! h = Some ch -> name ch = Some nm -> proxied msg = true ->
  same_but_for px h (handle env s (Wire px msg) now wall) (handle env s (Wire h msg) now wall).
Proof.
  intros HI%reachable_Inv Hc Hb Halive Hch Hn Hm.
  pose proof (inv_clients s HI px c Hc) as Hok. pose proof (inv_clients s HI h ch Hch) as Hokh.
  assert (Hcn : name c = None) by (apply (ok_proxy c Hok); eauto).
  assert (Hhold : canonical_holder_id s nm = Some h) by (apply canonical_holder_iff; eauto).
  assert (Hpx : resolve_op_identity env s px = Ok nm).
  { unfold resolve_op_identity, effective_identity.
    rewrite Hc, (ok_connected c Hok), Hcn, Hb. simpl. by rewrite Halive. }
  assert (Hh : resolve_op_identity env s h = Ok nm).
  { unfold resolve_op_identity, effective_identity.
    by rewrite Hch, (ok_connected ch Hokh), Hn. }
  assert (Horg : client_origin s px = client_origin s h).
  { unfold client_origin. rewrite Hc, Hch, Hcn, Hb, Hn. simpl. rewrite Hhold. simpl.
    by rewrite Hch. }
  assert (Htouch : touch_activity s px (wall_first wall) = touch_activity s h (wall_first wall)).
  { unfold touch_activity. rewrite Hc, Hch. simpl.
    rewrite (ok_connected c Hok), (ok_connected ch Hokh), Hcn, Hb, Hn. simpl. by rewrite Hhold. }
  simpl. unfold handle_wire. rewrite Hc, Hch. simpl.
  rewrite (ok_handshaked c Hok), (ok_handshaked ch Hokh), Htouch.
  set (t := touch_activity s h (wall_first wall)).
  pose proof (touch_activity_sim s h (wall_first wall)) as Hsim. fold t in Hsim.
  assert (HIt : Inv t) by (by apply Inv_touch).
  rewrite <- (resolve_op_identity_sim env s t px Hsim) in Hpx.
  rewrite <- (resolve_op_identity_sim env s t h Hsim) in Hh.
  rewrite <- (canonical_holder_sim s t nm HI HIt Hsim) in Hhold.
  rewrite <- (client_origin_sim s t px HI HIt Hsim), <- (client_origin_sim s t h HI HIt Hsim)
    in Horg.
  destruct msg; try discriminate Hm; simpl.
  - by apply (proxy_send env t px h nm).
  - by apply (proxy_inbox env t px h nm).
  - by apply (proxy_join env t px h nm).
  - by apply (proxy_leave env t px h nm).
Qed.

Lemma proxy_acts_as_holder_witness :
  same_but_for 3 1 (handle quiet_env s_proxy (Wire 3 (Join "#dev" (Some "lead"))) 0 wall0)
    (handle quiet_env s_proxy (Wire 1 (Join "#dev" (Some "lead"))) 0 wall0).
Proof.
  destruct (clients s_proxy !! 3%N) as [c|] eqn:Hc; [|vm_compute in Hc; discriminate].
  destruct (clients s_proxy !! 1%N) as [h|] eqn:Hh; [|vm_compute in Hh; discriminate].
  apply (proxy_acts_as_holder quiet_env s_proxy 3 c "alice" 1 h _ 0 wall0 s_proxy_reachable Hc);
    [| |exact Hh| |].
  - vm_compute in Hc. injection Hc as <-. reflexivity.
  - vm_compute. reflexivity.
  - vm_compute in Hh. injection Hh as <-. reflexivity.
  - reflexivity.
Qed.

(** ** Awaiting and reading are independent *)
Section independence.
Context `{WL : WireLib} (env : BrokerEnv).

Lemma inbox_channels_sim s s' canonical nm chans envs advs :
  clients_sim s s' ->
  inbox_channels env s' canonical nm chans envs advs =
  inbox_channels env s canonical nm chans envs advs.
Proof.
  intros Hsim. revert envs advs. induction chans as [|ch chans IH]; intros envs advs; [done|].
  cbn [inbox_channels].
  assert ((clients s' !! canonical ≫= fun c => inbox_offsets c !! MbChannel ch) =
          (clients s !! canonical ≫= fun c => inbox_offsets c !! MbChannel ch)) as ->.
  { specialize (Hsim canonical). destruct (clients s !! canonical), (clients s' !! canonical);
      inv Hsim; [|done]. simpl.
    match goal with H : same_session _ _ |- _ => by rewrite (ss_inbox _ _ H) end. }
  destruct (drain_from env _ _); [|done]. case_match; apply IH.
Qed.

Lemma inbox_sim s s' client since inc :
  Inv s -> Inv s' -> clients_sim s s' ->
  snd <$> inbox env s' client since inc = snd <$> inbox env s client since inc.
Proof.
  intros HI HI' Hsim. unfold inbox. rewrite (resolve_op_identity_sim env s s') by done.
  destruct (resolve_op_identity env s client) as [nm|]; [|done].
  destruct (drain_from env _ _); [|done].
  rewrite (canonical_holder_sim s s') by done. destruct (canonical_holder_id s nm) as [id|]; [|done].
  assert (match clients s' !! id with Some c => bs_iter (joined c) | None => [] end =
          match clients s !! id with Some c => bs_iter (joined c) | None => [] end) as ->.
  { specialize (Hsim id). destruct (clients s !! id), (clients s' !! id); inv Hsim; [|done].
    match goal with H : same_session _ _ |- _ => by rewrite (ss_joined _ _ H) end. }
  rewrite (inbox_channels_sim s s') by done.
  destruct (inbox_channels _ _ _ _ _ _) as [[es advs]|]; [|done]. by destruct (encode_frame _).
Qed.

Lemma await_sim s client t task now :
  clients_sim s (await_envelope env s client t task now).1.
Proof.
  unfold await_envelope. destruct (resolve_await_owner env s client) as [[nm owner]|]; [|done].
  match goal with |- context [await_scan env ?s ?c ?o ?f ?m] =>
    pose proof (wk_sim _ _ (await_scan_wakes env s c o f m)) as Hs;
    destruct (await_scan env s c o f m) as [s1 [outs|]] end; done.
Qed.
End independence.

Lemma handle_wire_sim `{WireLib} env s client msg now wall s' outs :
  handle env s (Wire client msg) now wall = Some (s', outs) ->
  match msg with Await _ _ | Send _ _ => true | _ => false end = true ->
  clients_sim s s'.
Proof.
  simpl. unfold handle_wire. intros Hh Hm.
  destruct msg; try discriminate Hm; simpl in Hh; (case_match; [by simplify_eq|]);
    (etransitivity; [apply (touch_activity_sim s client (wall_first wall))|]);
    apply (inj Some), (f_equal fst) in Hh; simpl in Hh; subst s'.
  - apply (wk_sim _ _ (send_wakes env _ client to envelope)).
  - apply await_sim.
Qed.

(** Waiting never eats mail: whatever an Await consumed, whoever a Send woke,
    and whatever filter they used, the answer to the next Inbox poll of any
    connection on the same mailboxes is the one it would have got before
    (Scope B: the two cursors are independent). *)
Theorem await_does_not_eat_inbox `{WireLib} env s c1 msg now wall s1 outs client since inc now' wall' :
  reachable s -> handle env s (Wire c1 msg) now wall = Some (s1, outs) ->
  match msg with Await _ _ | Send _ _ => true | _ => false end = true ->
  snd <$> handle env s1 (Wire client (Inbox since inc)) now' wall' =
  snd <$> handle env s (Wire client (Inbox since inc)) now' wall'.
Proof.
  intros HI%reachable_Inv Hh Hm. assert (HI1 : Inv s1) by (by eapply handle_Inv).
  apply handle_wire_sim in Hh; [|done]. simpl. unfold handle_wire.
  assert (handshaked <$> clients s1 !! client = handshaked <$> clients s !! client) as ->.
  { specialize (Hh client). destruct (clients s !! client), (clients s1 !! client);
      inv Hh; [|done]. simpl. f_equal.
    match goal with H : same_session ?a ?b |- _ => apply (ss_handshaked _ _ H) end. }
  simpl. destruct (negb _); [done|]. apply inbox_sim; [by apply Inv_touch..|].
  etransitivity; [symmetry; apply touch_activity_sim|]. etransitivity; [exact Hh|].
  apply touch_activity_sim.
Qed.

(** Alice awaits, then polls, over a mailbox that already holds one message. *)
Definition mail_env : BrokerEnv :=
  mkEnv (mem_drain_from {[MbAgent "alice" := [match stamp_line (toy_print (msg_from "agent:h/bob"))
    Local with Ok b => b | Err _ => [] end]]}) always_alive.

Lemma await_does_not_eat_inbox_witness :
  exists s1 outs,
    handle mail_env s_two (Wire 1 (Await 1000 None)) 0 wall0 = Some (s1, outs) /\
    outs <> [] /\
    snd <$> handle mail_env s1 (Wire 1 (Inbox None None)) 0 wall0 =
    snd <$> handle mail_env s_two (Wire 1 (Inbox None None)) 0 wall0.
Proof.
  destruct (handle mail_env s_two (Wire 1 (Await 1000 None)) 0 wall0) as [[s1 outs]|] eqn:E;
    [|vm_compute in E; discriminate].
  exists s1, outs. split; [reflexivity|]. split.
  - vm_compute in E. injection E as _ <-. discriminate.
  - exact (await_does_not_eat_inbox _ _ _ _ _ _ _ _ _ _ _ _ _ s_two_reachable E eq_refl).
Qed.
