(* ===== verification/Lifecycle.v ===== *)
(** * Departures, expiry, channels and wake addresses *)

From stdpp Require Import gmap strings list fin_maps sorting.
From S2P Require Import Prelude Json Proto Mailbox Origin WireInstance Serde Codec Envelope.
From S2P Require Import DrainWalk BrokerState Awaiting Handle BrokerInv Scenario.
From S2P Require Import BrokerProps SessionProps.

(** ** Departures *)
Lemma disconnect_clients s c : clients (disconnect s c).1 = delete c (clients s).
Proof. unfold disconnect. repeat case_match; simplify_eq; done. Qed.

Lemma disconnect_pending s c : pending_awaits (disconnect s c).1 = delete c (pending_awaits s).
Proof. unfold disconnect. repeat case_match; simplify_eq; done. Qed.

Lemma disconnect_no_reply s c i r : Reply i r ∉ (disconnect s c).2.
Proof.
  unfold disconnect. repeat case_match; simplify_eq; simpl; rewrite ?elem_of_cons, elem_of_nil;
    intuition discriminate.
Qed.

Lemma disconnect_all_lookup s l i :
  clients (disconnect_all s l).1 !! i = (if decide (i ∈ l) then None else clients s !! i) /\
  pending_awaits (disconnect_all s l).1 !! i =
    (if decide (i ∈ l) then None else pending_awaits s !! i).
Proof.
  revert s. induction l as [|c l IH]; intros s; simpl; [done|].
  pose proof (disconnect_clients s c) as Hc. pose proof (disconnect_pending s c) as Hp.
  destruct (disconnect s c) as [s1 o1]. specialize (IH s1).
  destruct (disconnect_all s1 l) as [s2 o2]. simpl in *. destruct IH as [-> ->].
  rewrite Hc, Hp. destruct (decide (i = c)) as [->|Hne].
  - rewrite !lookup_delete_eq. rewrite !(decide_True (P := c ∈ c :: l)) by left.
    split; by case_decide.
  - rewrite !lookup_delete_ne by done. split; repeat case_decide; try done; set_solver.
Qed.

Lemma disconnect_all_no_reply s l i r : Reply i r ∉ (disconnect_all s l).2.
Proof.
  revert s. induction l as [|c l IH]; intros s; simpl; [apply not_elem_of_nil|].
  pose proof (disconnect_no_reply s c i r) as H. destruct (disconnect s c) as [s1 o1].
  specialize (IH s1). destruct (disconnect_all s1 l). simpl. by intros [?|?]%elem_of_app.
Qed.

(** ** Expiry *)
Lemma expire_all_fields s l :
  clients (expire_all s l).1 = clients s /\
  forall i, pending_awaits (expire_all s l).1 !! i =
    if decide (i ∈ l) then None else pending_awaits s !! i.
Proof.
  revert s. induction l as [|c l IH]; intros s; simpl; [done|].
  specialize (IH (set_pending (delete c) s)). destruct (expire_all _ l) as [s1 o1]. simpl in *.
  destruct IH as [-> IH]. split; [done|]. intros i. rewrite IH.
  destruct (decide (i = c)) as [->|Hne].
  - rewrite lookup_delete_eq. rewrite (decide_True (P := c ∈ c :: l)) by left. by case_decide.
  - rewrite lookup_delete_ne by done. repeat case_decide; try done; set_solver.
Qed.

Lemma expire_all_replies s l i r :
  Reply i r ∈ (expire_all s l).2 <-> r = AwaitTimeout /\ i ∈ l.
Proof.
  revert s. induction l as [|c l IH]; intros s; simpl.
  { rewrite elem_of_nil. split; [done|]. intros [_ H]. by apply not_elem_of_nil in H. }
  specialize (IH (set_pending (delete c) s)). destruct (expire_all _ l) as [s1 o1]. simpl in *.
  rewrite !elem_of_cons, IH. split.
  - intros [[= -> ->]|[[=]|[-> ?]]]; auto.
  - intros [-> [->|?]]; auto.
Qed.

Section tick.
Context (env : BrokerEnv).

Lemma elem_of_dead s i :
  i ∈ dead_clients env s <->
  exists c p, clients s !! i = Some c /\ pid c = Some p /\ is_alive env p = false.
Proof.
  unfold dead_clients. rewrite list_elem_of_omap. split.
  - intros ([j c] & Hin%elem_of_bt_iter & Hf). destruct (pid c) as [p|] eqn:Ep; [|done].
    simpl in Hf. destruct (is_alive env p) eqn:Ea; simplify_eq/=. eauto.
  - intros (c & p & Hc & Hp & Ha). exists (i, c). split; [by apply elem_of_bt_iter|].
    rewrite Hp. simpl. by rewrite Ha.
Qed.

Lemma elem_of_expired s now i :
  i ∈ expired_awaits s now <->
  exists p, pending_awaits s !! i = Some p /\ (pa_deadline p <= now)%N.
Proof.
  unfold expired_awaits. rewrite list_elem_of_omap. split.
  - intros ([j p] & Hin%elem_of_bt_iter & Hf). destruct (_ <=? _)%N eqn:E; [|done].
    injection Hf as ->. apply N.leb_le in E. eauto.
  - intros (p & Hp & Hle). exists (i, p). split; [by apply elem_of_bt_iter|].
    by rewrite (proj2 (N.leb_le _ _)).
Qed.

(** The state and replies of a tick, connection by connection. *)
Lemma tick_lookup s now :
  let '(s', outs) := tick env s now in
  (forall i, clients s' !! i = if decide (i ∈ dead_clients env s) then None else clients s !! i) /\
  (forall i p, pending_awaits s' !! i = Some p <->
     i ∉ dead_clients env s /\ pending_awaits s !! i = Some p /\ (now < pa_deadline p)%N) /\
  (forall i r, Reply i r ∈ outs <->
     r = AwaitTimeout /\ i ∉ dead_clients env s /\
     exists p, pending_awaits s !! i = Some p /\ (pa_deadline p <= now)%N).
Proof.
  unfold tick. pose proof (disconnect_all_lookup s (dead_clients env s)) as Hd.
  pose proof (disconnect_all_no_reply s (dead_clients env s)) as Hn.
  destruct (disconnect_all s _) as [s1 o1]. simpl in *.
  pose proof (expire_all_fields s1 (expired_awaits s1 now)) as [Hec Hep].
  pose proof (expire_all_replies s1 (expired_awaits s1 now)) as Her.
  destruct (expire_all s1 _) as [s2 o2]. simpl in *.
  assert (Hexp : forall i, i ∈ expired_awaits s1 now <-> i ∉ dead_clients env s /\
    exists p, pending_awaits s !! i = Some p /\ (pa_deadline p <= now)%N).
  { intros i. rewrite elem_of_expired, (proj2 (Hd i)). case_decide; naive_solver. }
  split_and!.
  - intros i. rewrite Hec. apply Hd.
  - intros i p. rewrite Hep. case_decide as Hx; rewrite Hexp in Hx.
    + split; [done|]. intros (_ & Hp & Hlt). destruct Hx as (_ & p' & Hp' & Hle).
      simplify_eq. lia.
    + rewrite (proj2 (Hd i)). case_decide as Hdead; [naive_solver|]. split.
      * intros Hp. split_and!; [done|done|]. destruct (decide (now < pa_deadline p)%N); [done|].
        exfalso. apply Hx. split; [done|]. exists p. split; [done|lia].
      * naive_solver.
  - intros i r. rewrite elem_of_app, Her, Hexp. specialize (Hn i r). naive_solver.
Qed.
End tick.

(** A tick reaps exactly the dead and expires exactly the overdue: afterwards
    a session survives, untouched, if and only if its process answers the
    liveness probe (or it never registered one); an await stays parked if and
    only if its connection survives and its deadline is still ahead; and the
    replies sent are AwaitTimeout to precisely the surviving connections whose
    deadline has passed. *)
Theorem tick_reaps_and_expires `{WireLib} env s now wall s' outs :
  handle env s Tick now wall = Some (s', outs) ->
  let dead i := exists c p, clients s !! i = Some c /\ pid c = Some p /\ is_alive env p = false in
  (forall i, dead i -> clients s' !! i = None) /\
  (forall i, ~ dead i -> clients s' !! i = clients s !! i) /\
  (forall i p, pending_awaits s' !! i = Some p <->
     ~ dead i /\ pending_awaits s !! i = Some p /\ (now < pa_deadline p)%N) /\
  (forall i r, Reply i r ∈ outs <->
     r = AwaitTimeout /\ ~ dead i /\
     exists p, pending_awaits s !! i = Some p /\ (pa_deadline p <= now)%N).
Proof.
  intros [= Ht]. pose proof (tick_lookup env s now) as Hl. rewrite Ht in Hl.
  destruct Hl as (Hc & Hp & Hr). cbv zeta. split_and!.
  - intros i Hd%elem_of_dead. rewrite Hc. by rewrite decide_True.
  - intros i Hd. rewrite <- elem_of_dead in Hd. rewrite Hc. by rewrite decide_False.
  - intros i p. rewrite <- elem_of_dead. apply Hp.
  - intros i r. rewrite <- elem_of_dead. apply Hr.
Qed.

(** Alice's await (deadline 1 s) is overdue two seconds later. *)
Lemma tick_reaps_and_expires_witness :
  exists s' outs,
    handle quiet_env s_parked Tick 2000000000 wall0 = Some (s', outs) /\
    Reply 1 AwaitTimeout ∈ outs /\ pending_awaits s' !! 1%N = None.
Proof.
  destruct (handle quiet_env s_parked Tick 2000000000 wall0) as [[s' outs]|] eqn:E;
    [|vm_compute in E; discriminate].
  exists s', outs. destruct (tick_reaps_and_expires _ _ _ _ _ _ E) as (_ & _ & Hp & Hr).
  assert (Halive : forall i, ~ exists c p, clients s_parked !! i = Some c /\ pid c = Some p /\
    is_alive quiet_env p = false) by (intros i (c & p & _ & _ & [=])).
  destruct (pending_awaits s_parked !! 1%N) as [p|] eqn:Ep; [|vm_compute in Ep; discriminate].
  assert (Hle : (pa_deadline p <= 2000000000)%N)
    by (vm_compute in Ep; injection Ep as <-; vm_compute; discriminate).
  split; [reflexivity|]. split.
  - apply Hr. split; [reflexivity|]. split; [apply Halive|]. exists p. split; [exact Ep|exact Hle].
  - destruct (pending_awaits s' !! 1%N) as [p'|] eqn:Ep'; [|reflexivity].
    apply Hp in Ep' as (_ & Hp' & Hlt). rewrite Ep in Hp'. injection Hp' as <-. lia.
Qed.

(** A departing holder leaves nothing behind: when a registered connection
    closes, its record, its parked await, its hold on the name and its seat in
    every channel are gone, the session log gets its name, pid and channels, and
    no other connection's record changes.  A closing proxy takes only its own
    record and await with it: the holder keeps the name, the channels keep
    their rosters and no session end is reported. *)
Theorem disconnect_is_clean `{WireLib} env s client c now wall s' outs :
  reachable s -> clients s !! client = Some c ->
  handle env s (Disconnect client) now wall = Some (s', outs) ->
  clients s' = delete client (clients s) /\
  pending_awaits s' = delete client (pending_awaits s) /\
  match name c with
  | Some nm =>
      canonical_holder_id s' nm = None /\
      (forall ch members, channels s' !! ch = Some members -> nm ∉ members) /\
      (forall ch nm', nm' <> nm ->
         nm' ∈ default ∅ (channels s' !! ch) <-> nm' ∈ default ∅ (channels s !! ch)) /\
      exists p, pid c = Some p /\
        outs = [SessionEnded nm p (bs_iter (joined c)); ReleaseClient client]
  | None => channels s' = channels s /\ outs = [ReleaseClient client]
  end.
Proof.
  intros HI%reachable_Inv Hc [= Hd].
  pose proof (disconnect_clients s client) as Hcl. pose proof (disconnect_pending s client) as Hp.
  rewrite Hd in Hcl, Hp. simpl in Hcl, Hp. split; [done|]. split; [done|].
  pose proof (inv_clients s HI client c Hc) as Hok.
  unfold disconnect in Hd. rewrite Hc in Hd. destruct (name c) as [nm|] eqn:En.
  - destruct (bind_as c) as [b|] eqn:Eb.
    { exfalso. assert (name c = None) by (apply (ok_proxy c Hok); eauto). congruence. }
    destruct (proj2 (ok_pid c Hok)) as [p Ep]; [eauto|]. rewrite Ep in Hd. simpl in Hd.
    injection Hd as <- <-. split_and!.
    + destruct (canonical_holder_id _ nm) as [j|] eqn:Ej; [|done]. exfalso.
      apply canonical_holder_Some in Ej as (cj & Hj & _ & Hn). simpl in Hj.
      apply lookup_delete_Some in Hj as [Hne Hj].
      apply Hne. by eapply (inv_unique s HI client j c cj nm).
    + intros ch members. simpl. rewrite lookup_fmap.
      intros (m & _ & ->)%fmap_Some_1. set_solver.
    + intros ch nm' Hne. simpl. rewrite lookup_fmap.
      destruct (channels s !! ch); simpl; set_solver.
    + by exists p.
  - simpl in Hd. destruct (bind_as c); simpl in Hd; by injection Hd as <- <-.
Qed.

Definition s_joined : BrokerState :=
  state_after quiet_env 0 wall0 s_two [Wire 1 (Join "#dev" None); Wire 2 (Join "#dev" None)].

Lemma disconnect_is_clean_witness :
  exists s' outs,
    handle quiet_env s_joined (Disconnect 1) 0 wall0 = Some (s', outs) /\
    canonical_holder_id s' "alice" = None /\
    ("bob" ∈ default ∅ (channels s' !! "#dev")).
Proof.
  destruct (handle quiet_env s_joined (Disconnect 1) 0 wall0) as [[s' outs]|] eqn:E;
    [|vm_compute in E; discriminate].
  destruct (clients s_joined !! 1%N) as [c|] eqn:Hc; [|vm_compute in Hc; discriminate].
  assert (Hn : name c = Some "alice") by (vm_compute in Hc; injection Hc as <-; reflexivity).
  pose proof (disconnect_is_clean _ _ _ _ _ _ _ _
    (state_after_reachable _ _ _ _ _ s_two_reachable) Hc E) as (_ & _ & H).
  rewrite Hn in H. destruct H as (Hh & _ & Hother & _).
  exists s', outs. split; [reflexivity|]. split; [exact Hh|].
  apply Hother; [discriminate|]. apply (bool_decide_unpack _). vm_compute. exact I.
Qed.

(** ** Channels *)
Section channels.
Context `{WL : WireLib} (env : BrokerEnv).

(** Connection [c]'s record after leaving [ch]. *)
Definition left_channel (ch : string) (c : ClientState) : ClientState :=
  with_inbox_offsets (delete (MbChannel ch))
    (with_await_offsets (delete (MbChannel ch)) (with_joined (fun j => j ∖ {[ch]}) c)).

Lemma leave_eq s client ch nm id :
  resolve_op_identity env s client = Ok nm -> canonical_holder_id s nm = Some id ->
  leave env s client ch =
    (set_roles (delete (ch, nm))
      (alter_client id (left_channel ch)
        (set_channels (alter (fun members => members ∖ {[nm]}) ch) s)),
     [Reply client (LeaveOk ch)]).
Proof.
  intros Hr Hh. unfold leave. rewrite Hr.
  change (canonical_holder_id (set_channels _ s) nm) with (canonical_holder_id s nm).
  by rewrite Hh.
Qed.

Lemma join_eq s client ch role nm id d :
  let reply := JoinOk ch (join_members s ch nm role) (map to_stamped (decode_lines 0 d)) in
  resolve_op_identity env s client = Ok nm -> canonical_holder_id s nm = Some id ->
  drain_from env (MbChannel ch) 0 = Ok d -> is_ok (encode_frame (reply_to_value reply)) = true ->
  exists s', join env s client ch role =
    (s', [Reply client reply; AdvanceCursor (MbChannel ch) (dr_next_offset d)]) /\
    channels s' = <[ch := {[nm]} ∪ default ∅ (channels s !! ch)]> (channels s) /\
    clients s' = alter (fun c => with_inbox_offsets (<[MbChannel ch := dr_next_offset d]>)
      (with_await_offsets (<[MbChannel ch := dr_next_offset d]>)
        (with_joined (fun j => {[ch]} ∪ j) c))) id (clients s) /\
    channel_roles s' = match role with
                       | Some r => <[(ch, nm) := r]> (channel_roles s)
                       | None => channel_roles s
                       end.
Proof.
  cbv zeta. intros Hr Hh Hd He. unfold join. rewrite Hr, Hd, Hh.
  destruct (encode_frame _); [|done]. eexists. split; [done|].
  destruct role; done.
Qed.
End channels.

(** Joining: an identified connection whose JoinOk fits a frame is answered
    with the roster (itself included) and the whole channel log; its identity is
    enrolled in the roster and in its holder's joined set, both channel cursors
    start at the end of that log, and no other roster entry and no other session
    changes. *)
Theorem join_enrols `{WireLib} env s client ch role nm h d now wall :
  let reply := JoinOk ch (join_members s ch nm role) (map to_stamped (decode_lines 0 d)) in
  reachable s -> resolve_op_identity env s client = Ok nm ->
  canonical_holder_id s nm = Some h -> drain_from env (MbChannel ch) 0 = Ok d ->
  is_ok (encode_frame (reply_to_value reply)) = true ->
  exists s' c',
    handle env s (Wire client (Join ch role)) now wall =
      Some (s', [Reply client reply; AdvanceCursor (MbChannel ch) (dr_next_offset d)]) /\
    clients s' !! h = Some c' /\ ch ∈ joined c' /\ nm ∈ default ∅ (channels s' !! ch) /\
    await_offsets c' !! MbChannel ch = Some (dr_next_offset d) /\
    inbox_offsets c' !! MbChannel ch = Some (dr_next_offset d) /\
    (forall ch' nm', (ch', nm') <> (ch, nm) ->
       (nm' ∈ default ∅ (channels s' !! ch') <-> nm' ∈ default ∅ (channels s !! ch'))) /\
    (forall j, j <> h -> option_Forall2 same_session (clients s !! j) (clients s' !! j)).
Proof.
  cbv zeta. intros HI%reachable_Inv Hr Hh Hd He.
  destruct (resolved_dispatch env s client nm (Join ch role) now wall HI Hr eq_refl)
    as (t & -> & HIt & [Hsim Hch _ Hro] & Hrt & Hcan & _).
  assert (Hm : join_members t ch nm role = join_members s ch nm role).
  { unfold join_members. by rewrite Hch, Hro. }
  rewrite <- Hcan in Hh. rewrite <- Hm in He |- *.
  destruct (join_eq env t client ch role nm h d Hrt Hh Hd He) as (s' & Hj & Hch' & Hcl & _).
  destruct (canonical_holder_Some t nm h Hh) as (c & Hc & _ & _).
  eexists s', _. simpl. rewrite Hj. split; [done|]. rewrite Hcl, lookup_alter_eq, Hc.
  split; [done|]. simpl. rewrite Hch', !lookup_insert_eq. simpl.
  split_and!; [set_solver|set_solver|done|done|..].
  - intros ch' nm' Hne. rewrite <- Hch. destruct (decide (ch' = ch)) as [->|Hc'].
    + rewrite lookup_insert_eq. simpl. assert (nm' <> nm) by congruence. set_solver.
    + by rewrite lookup_insert_ne.
  - intros j Hj'. rewrite lookup_alter_ne by done. apply Hsim.
Qed.

Lemma join_enrols_witness :
  exists s', (exists reply,
    handle quiet_env s_two (Wire 1 (Join "#dev" None)) 0 wall0 =
      Some (s', [Reply 1 reply; AdvanceCursor (MbChannel "#dev") 0])) /\
    "alice" ∈ default ∅ (channels s' !! "#dev").
Proof.
  destruct (join_enrols quiet_env s_two 1 "#dev" None "alice" 1 (mkDrain [] 0) 0 wall0
    s_two_reachable) as (s' & c' & Hrun & _ & _ & Hin & _).
  - vm_compute. reflexivity.
  - vm_compute. reflexivity.
  - reflexivity.
  - vm_compute. reflexivity.
  - exists s'. split; [eexists; exact Hrun|exact Hin].
Qed.

(** Leaving: a Leave of an identified connection is always accepted and
    removes the identity from that roster and the channel, both of its cursors
    and the identity's role from the records; every other roster entry, role and
    session is as it was. *)
Theorem leave_withdraws `{WireLib} env s client ch nm h now wall :
  reachable s -> resolve_op_identity env s client = Ok nm ->
  canonical_holder_id s nm = Some h ->
  exists s' c',
    handle env s (Wire client (Leave ch)) now wall = Some (s', [Reply client (LeaveOk ch)]) /\
    clients s' !! h = Some c' /\ ch ∉ joined c' /\ nm ∉ default ∅ (channels s' !! ch) /\
    await_offsets c' !! MbChannel ch = None /\ inbox_offsets c' !! MbChannel ch = None /\
    channel_roles s' = delete (ch, nm) (channel_roles s) /\
    (forall ch' nm', (ch', nm') <> (ch, nm) ->
       (nm' ∈ default ∅ (channels s' !! ch') <-> nm' ∈ default ∅ (channels s !! ch'))) /\
    (forall j, j <> h -> option_Forall2 same_session (clients s !! j) (clients s' !! j)).
Proof.
  intros HI%reachable_Inv Hr Hh.
  destruct (resolved_dispatch env s client nm (Leave ch) now wall HI Hr eq_refl)
    as (t & -> & HIt & [Hsim Hch _ Hro] & Hrt & Hcan & _).
  rewrite <- Hcan in Hh.
  destruct (canonical_holder_Some t nm h Hh) as (c & Hc & _ & _).
  eexists _, (left_channel ch c). simpl. rewrite (leave_eq env t client ch nm h Hrt Hh).
  split; [done|]. simpl. rewrite lookup_alter_eq, Hc. split; [done|].
  rewrite !lookup_delete_eq, lookup_alter_eq, Hro.
  split_and!; [set_solver| |done|done|done|..].
  - destruct (channels t !! ch); simpl; set_solver.
  - intros ch' nm' Hne. rewrite <- Hch. destruct (decide (ch' = ch)) as [->|Hc'].
    + rewrite lookup_alter_eq. assert (nm' <> nm) by congruence.
      destruct (channels t !! ch); simpl; set_solver.
    + by rewrite lookup_alter_ne.
  - intros j Hj. rewrite lookup_alter_ne by done. apply Hsim.
Qed.

Lemma leave_withdraws_witness :
  exists s', handle quiet_env s_joined (Wire 1 (Leave "#dev")) 0 wall0 =
      Some (s', [Reply 1 (LeaveOk "#dev")]) /\
    "alice" ∉ default ∅ (channels s' !! "#dev") /\ "bob" ∈ default ∅ (channels s' !! "#dev").
Proof.
  destruct (leave_withdraws quiet_env s_joined 1 "#dev" "alice" 1 0 wall0
    (state_after_reachable _ _ _ _ _ s_two_reachable))
    as (s' & c' & Hrun & _ & _ & Hout & _ & _ & _ & Hother & _).
  - vm_compute. reflexivity.
  - vm_compute. reflexivity.
  - exists s'. split; [exact Hrun|]. split; [exact Hout|].
    apply Hother; [discriminate|]. apply (bool_decide_unpack _). vm_compute. exact I.
Qed.

(** ** Wake addresses *)
Lemma recipient_wake_addr_Some s nm org w :
  recipient_wake_addr s nm org = Some w ->
  org = Local /\ exists h c, canonical_holder_id s nm = Some h /\ clients s !! h = Some c /\
    listen_mode c = true /\ wake_addr c = Some w.
Proof.
  unfold recipient_wake_addr. destruct (origin_eqb org Local) eqn:Eo; simpl; [|done].
  apply bool_decide_eq_true in Eo. destruct (canonical_holder_id s nm) as [h|]; [|done].
  destruct (clients s !! h) as [c|] eqn:Ec; [|done].
  destruct (listen_mode c) eqn:El; simpl; [|done]. eauto 10.
Qed.

Section rows.
Context `{WL : WireLib} (env : BrokerEnv).

(** Send confirmations come from accepted sends only. *)
Lemma send_ok_source s input now wall s' outs c task rows :
  handle env s input now wall = Some (s', outs) -> Reply c (SendOk task rows) ∈ outs ->
  exists to e, input = Wire c (Send to e) /\
    rows = send_rows env (touch_activity s c (wall_first wall)) c to e.
Proof.
  intros Hh Hin. apply handle_append_shape in Hh
    as [Hno|(c' & to & e & nm & l & st & -> & _ & _ & _ & _ & _ & -> & _)].
  { rewrite Forall_forall in Hno. by apply Hno in Hin. }
  apply elem_of_cons in Hin as [[=]|[Hin|Hin]%elem_of_app].
  - pose proof (send_wakeups_effects env (touch_activity s c' (wall_first wall)) to e
      (client_origin (touch_activity s c' (wall_first wall)) c') (blen st)) as Hw.
    rewrite Forall_forall in Hw. by apply Hw in Hin.
  - apply list_elem_of_singleton in Hin as [= -> -> ->]. eauto.
Qed.
End rows.

(** Wake addresses stay local: a delivery row discloses a
    recipient's wake address only to a sender the broker itself holds to be
    local, only in answer to a direct send, only for a holder that is listening,
    and the address is one whose shape was validated when it was stored; channel
    sends never disclose one. *)
Theorem wake_addr_disclosure `{WireLib} env s input now wall s' outs c task rows row w :
  reachable s -> handle env s input now wall = Some (s', outs) ->
  Reply c (SendOk task rows) ∈ outs -> row ∈ rows -> dv_wake_addr row = Some w ->
  exists nm e h hc,
    input = Wire c (Send (TgtAgent nm) e) /\ dv_to row = TgtAgent nm /\
    client_origin s c = Local /\ clients s !! h = Some hc /\ name hc = Some nm /\
    listen_mode hc = true /\ wake_addr hc = Some w /\ wake_addr_valid w = true.
Proof.
  intros HI%reachable_Inv Hh Hin Hrow Hw.
  destruct (send_ok_source env s input now wall s' outs c task rows Hh Hin) as (to & e & -> & ->).
  pose proof (touch_activity_sim s c (wall_first wall)) as Hsim.
  pose proof (Inv_touch s c (wall_first wall) HI) as HIt.
  destruct to as [nm|nm]; simpl in Hrow.
  2:{ apply list_elem_of_fmap in Hrow as (m & -> & _). done. }
  apply list_elem_of_singleton in Hrow as ->. simpl in Hw.
  destruct (woken_waiter_is_canonical_holder _ _ _ _); [done|].
  apply recipient_wake_addr_Some in Hw as (Hloc & h & ct & Hhold & Hct & Hl & Hwa).
  rewrite (client_origin_sim s) in Hloc by done.
  destruct (clients_sim_r s _ h ct Hsim Hct) as (hc & Hhc & Hss).
  apply canonical_holder_Some in Hhold as (c0 & Hc0 & _ & Hn0).
  assert (c0 = ct) as -> by congruence. destruct Hss.
  exists nm, e, h, hc. split_and!; try done; try congruence.
  apply (ok_wake hc); [by eapply (inv_clients s HI)|]. congruence.
Qed.

Definition s_listening : BrokerState :=
  state_after quiet_env 0 wall0 s_two
    [Wire 1 (SetWakeAddr (Some "uds:/tmp/cc-socks/4242.sock"))].

Lemma wake_addr_disclosure_witness :
  exists s' outs task row,
    handle quiet_env s_listening (Wire 2 (Send (TgtAgent "alice") (msg_from "agent:h/bob"))) 0 wall0
      = Some (s', outs) /\
    Reply 2 (SendOk task [row]) ∈ outs /\
    dv_wake_addr row = Some "uds:/tmp/cc-socks/4242.sock" /\
    client_origin s_listening 2 = Local.
Proof.
  destruct (handle quiet_env s_listening
    (Wire 2 (Send (TgtAgent "alice") (msg_from "agent:h/bob"))) 0 wall0) as [[s' outs]|] eqn:E;
    [|vm_compute in E; discriminate].
  assert (exists task row, Reply 2 (SendOk task [row]) ∈ outs /\
    dv_wake_addr row = Some "uds:/tmp/cc-socks/4242.sock") as (task & row & Hin & Hw).
  { vm_compute in E. injection E as _ <-. eexists _, _. split; [right; left|reflexivity]. }
  exists s', outs, task, row. split; [reflexivity|]. split; [exact Hin|]. split; [exact Hw|].
  destruct (wake_addr_disclosure _ _ _ _ _ _ _ _ _ _ _ _
    (state_after_reachable _ _ _ _ _ s_two_reachable) E Hin
    (proj2 (list_elem_of_singleton _ _) eq_refl) Hw) as (nm & e & h & hc & _ & _ & Hl & _).
  exact Hl.
Qed.
