(* ===== verification/AwaitProps.v ===== *)
(** * What [Await] guarantees

    Batches are bounded, trusted and matching; a wake always answers with
    mail or a retry; a request parks only when nothing is deliverable. *)

From stdpp Require Import gmap strings list fin_maps sorting.
From S2P Require Import Prelude Json Proto Mailbox Origin WireInstance Serde Codec Envelope.
From S2P Require Import DrainWalk BrokerState Awaiting Handle BrokerInv Scenario.
From S2P Require Import BrokerProps.

Section await.
Context `{WL : WireLib} (env : BrokerEnv).

(** A batch fit to be answered: trusted, matching, and within the cap. *)
Definition batch_ok (f : AwaitFilter) (envs : list StampedEnvelope) : Prop :=
  (length envs <= AWAIT_BATCH_CAP)%nat /\
  Forall (fun e => st_origin e = Local /\ filter_matches f (st_envelope e) = true) envs.

Lemma await_delivery p r o v :
  dp_require_local_origin p = true -> delivery p r = Some (o, v) ->
  o = Local /\ filter_matches (dp_filter p) v = true.
Proof.
  intros Hp. unfold delivery, verdict. rewrite Hp.
  destruct (decode_line (rec_bytes r)) as [[o' v']|]; [|done]. simpl.
  destruct (origin_eqb o' Local) eqn:Eo; simpl; [|done]. apply bool_decide_eq_true in Eo.
  destruct (is_self_authored _ _); [done|].
  destruct (filter_matches (dp_filter p) v') eqn:Ef; [|done]. by intros [= <- <-].
Qed.

(** A capped walk delivers at most its cap, and reports the mailbox fully
    drained only below it. *)
Lemma walk_loop_cap p n scan del next full :
  (length del < n)%nat ->
  let out := walk_loop p (Some n) scan del next full in
  (length (wo_delivered out) <= n)%nat /\
  (wo_fully_drained out = true -> (length (wo_delivered out) < n)%nat).
Proof.
  cbv zeta. revert del next. induction scan as [|r scan IH]; intros del next Hlt.
  { simpl. lia. }
  rewrite walk_loop_cons. destruct (verdict p r) as [|d|]; [by apply IH| |simpl; split; [lia|done]].
  case_bool_decide as Hc; simpl.
  - simplify_eq. split; [lia|done].
  - apply IH. rewrite length_app in *. simpl in *.
    destruct (decide (n = length del + 1)%nat) as [->|]; [done|lia].
Qed.

Lemma await_walk_ok since d f idt :
  let out := walk since d (mkPolicy f idt true (Some (CapDelivered AWAIT_BATCH_CAP))) in
  batch_ok f (map to_stamped (wo_delivered out)) /\
  (wo_fully_drained out = true -> (length (wo_delivered out) < AWAIT_BATCH_CAP)%nat).
Proof.
  cbv zeta. set (p := mkPolicy _ _ _ _).
  assert (Hcap := walk_loop_cap p AWAIT_BATCH_CAP (dr_records d) []
    (N.min since (dr_next_offset d)) true). simpl in Hcap.
  change (walk_loop p _ _ _ _ _) with (walk since d p) in Hcap.
  destruct Hcap as [Hle Hfull]; [unfold AWAIT_BATCH_CAP; lia|].
  split; [|done]. split; [by rewrite length_map|].
  destruct (walk_walked p since d) as (rs1 & rs2 & _ & _ & -> & _).
  apply Forall_fmap, Forall_forall. intros [o v] (r & _ & Hr)%list_elem_of_omap.
  by apply (await_delivery p r o v eq_refl) in Hr.
Qed.

Lemma drain_await_batch_ok s owner mb f trig b :
  drain_await_batch env s owner mb f trig = Ok b -> batch_ok f (ab_envelopes b).
Proof.
  unfold drain_await_batch. destruct (drain_from env mb _) as [d|]; [|done].
  match goal with |- context [walk ?a ?b (mkPolicy ?c ?i _ _)] =>
    destruct (await_walk_ok a b c i) as [[Hlen Hall] Hfull];
    set (out := walk a b (mkPolicy c i _ _)) in * end.
  destruct (wo_fully_drained out) eqn:Ef; [|intros [= <-]; by split].
  destruct trig as [[[o v] len]|]; [|intros [= <-]; by split].
  destruct (negb (origin_eqb o Local) || _) eqn:Eo; [intros [= <-]; by split|].
  apply orb_false_iff in Eo as [Eo _]. apply negb_false_iff, bool_decide_eq_true in Eo.
  destruct (filter_matches f v) eqn:Efm; intros [= <-]; [|by split].
  split; simpl.
  - rewrite length_app, length_map. simpl. specialize (Hfull eq_refl). lia.
  - apply Forall_app. split; [done|]. by repeat constructor.
Qed.

(** ** Every AwaitOk the broker stages *)

(** [wants c f]: connection [c] asked for mail under filter [f]. *)
Definition await_ok_out (wants : ClientId -> AwaitFilter -> Prop) (o : Out) : Prop :=
  match o with
  | Reply c (AwaitOk envs _ _) => envs <> [] /\ exists f, wants c f /\ batch_ok f envs
  | _ => True
  end.

(** What a parked connection asked for. *)
Definition parked_for (s : BrokerState) (c : ClientId) (f : AwaitFilter) : Prop :=
  pa_filter <$> pending_awaits s !! c = Some f.

Lemma await_reply_ok (wants : ClientId -> AwaitFilter -> Prop) s client mb f trig :
  wants client f ->
  await_ok_out wants (Reply client (await_reply_for_mailbox env s client mb f trig).2).
Proof.
  intros Hf. unfold await_reply_for_mailbox.
  destruct (resolve_await_owner env s client) as [[i owner]|]; [|done].
  destruct (drain_await_batch env s owner mb f trig) as [b|[k m]] eqn:Eb; [|done].
  apply drain_await_batch_ok in Eb. case_bool_decide as Hl; simpl.
  - destruct (ab_fully_drained b); done.
  - split; [|by exists f]. by destruct (ab_envelopes b).
Qed.

(** Awaits only leave the table while [s0]'s waiters are woken. *)
Lemma wake_all_ok s0 s mb trig ws :
  pending_awaits s ⊆ pending_awaits s0 ->
  Forall (await_ok_out (parked_for s0)) (wake_all env s mb trig ws).2.
Proof.
  revert s. induction ws as [|w ws IH]; intros s Hs; simpl; [constructor|].
  destruct (pending_awaits s !! w) as [p|] eqn:Ep; [|by apply IH].
  assert (Hp : parked_for s0 w (pa_filter p)).
  { unfold parked_for. by rewrite (lookup_weaken _ _ _ _ Ep Hs). }
  pose proof (await_reply_ok _ (set_pending (delete w) s) w mb (pa_filter p) trig Hp) as Hr.
  pose proof (await_reply_wakes env (set_pending (delete w) s) w mb (pa_filter p) trig) as Hw.
  destruct (await_reply_for_mailbox _ _ _ _ _ _) as [s1 r].
  assert (Hs1 : pending_awaits s1 ⊆ pending_awaits s0).
  { etransitivity; [apply (wk_pending _ _ Hw)|]. etransitivity; [apply delete_subseteq|done]. }
  specialize (IH s1 Hs1). destruct (wake_all _ s1 _ _ _) as [s2 o]. by repeat constructor.
Qed.

Lemma wake_members_ok s0 s mb e org len ms :
  pending_awaits s ⊆ pending_awaits s0 ->
  Forall (await_ok_out (parked_for s0)) (wake_members env s mb e org len ms).2.
Proof.
  revert s. induction ms as [|m ms IH]; intros s Hs; simpl; [constructor|].
  case_match; [by apply IH|].
  pose proof (wake_all_ok s0 s mb (Some (org, e, len))
    (waiting_clients_for_name env s m e org) Hs) as Hw.
  pose proof (wake_all_wakes env s mb (Some (org, e, len))
    (waiting_clients_for_name env s m e org)) as Hk.
  destruct (wake_all _ _ _ _ _) as [s1 o1].
  specialize (IH s1 (transitivity (wk_pending _ _ Hk) Hs)).
  destruct (wake_members _ _ _ _ _ _ _) as [s2 o2]. by apply Forall_app.
Qed.

Lemma send_await_ok s client to e : Forall (await_ok_out (parked_for s)) (send env s client to e).2.
Proof.
  unfold send. destruct (resolve_op_identity env s client); [|by repeat constructor].
  destruct (negb _); [by repeat constructor|].
  unfold encode_envelope. destruct (canonicalize e) as [line|]; [|by repeat constructor].
  destruct (MAX_FRAME_BYTES <? blen line)%N; [by repeat constructor|].
  destruct to; unfold send_agent, send_channel;
    (destruct (stamp_line _ _); [|by repeat constructor]).
  - match goal with |- context [wake_all ?en ?s ?m ?t ?w] =>
      pose proof (wake_all_ok s s m t w (reflexivity _)) as Hw; destruct (wake_all en s m t w) end.
    constructor; [done|]. apply Forall_app. split; [done|by repeat constructor].
  - match goal with |- context [wake_members ?en ?s ?m ?t ?w ?l ?x] =>
      pose proof (wake_members_ok s s m t w l x (reflexivity _)) as Hw;
      destruct (wake_members en s m t w l x) end.
    constructor; [done|]. apply Forall_app. split; [done|by repeat constructor].
Qed.

Lemma await_scan_ok (wants : ClientId -> AwaitFilter -> Prop) s client owner f mbs o :
  wants client f ->
  (await_scan env s client owner f mbs).2 = Some o -> Forall (await_ok_out wants) o.
Proof.
  intros Hf. revert s. induction mbs as [|mb mbs IH]; intros s; simpl; [done|].
  destruct (drain_await_batch env s owner mb f None) as [b|[k m]] eqn:Eb.
  - apply drain_await_batch_ok in Eb. case_bool_decide as Hl; simpl; [apply IH|].
    intros [= <-]. repeat constructor; [|by exists f]. by destruct (ab_envelopes b).
  - intros [= <-]. by repeat constructor.
Qed.

(** The filter an [Await] request names. *)
Definition requested (task : option N) : AwaitFilter :=
  match task with Some t => FilterTask t | None => FilterAny end.

Lemma await_envelope_ok s client t task now :
  Forall (await_ok_out (fun c f => c = client /\ f = requested task))
    (await_envelope env s client t task now).2.
Proof.
  unfold await_envelope. destruct (resolve_await_owner env s client) as [[i owner]|];
    [|by repeat constructor]. fold (requested task).
  match goal with |- context [await_scan env ?s ?c ?o ?f ?m] =>
    pose proof (await_scan_ok (fun i g => i = client /\ g = requested task) s c o f m) as Hs;
    destruct (await_scan env s c o f m) as [s1 [outs|]] end; simpl in *;
    [by apply Hs|by repeat constructor].
Qed.

Lemma disconnect_all_ok P s l : Forall (await_ok_out P) (disconnect_all s l).2.
Proof.
  revert s. induction l as [|c l IH]; intros s; simpl; [constructor|].
  destruct (disconnect s c) as [s1 o1] eqn:E. specialize (IH s1).
  destruct (disconnect_all s1 l). apply Forall_app. split; [|done].
  apply (f_equal snd) in E. simpl in E. subst o1. unfold disconnect.
  repeat case_match; simplify_eq; simpl; by repeat constructor.
Qed.

Lemma expire_all_ok P s l : Forall (await_ok_out P) (expire_all s l).2.
Proof.
  revert s. induction l as [|c l IH]; intros s; simpl; [constructor|].
  specialize (IH (set_pending (delete c) s)). destruct (expire_all _ l). by repeat constructor.
Qed.

(** Who asked for what when the broker handles [input]: the connection whose
    Await this is, or the connections already parked. *)
Definition asked (s : BrokerState) (input : BrokerInput) (c : ClientId) (f : AwaitFilter) : Prop :=
  match input with
  | Wire client (Await _ task) => c = client /\ f = requested task
  | _ => parked_for s c f
  end.

Lemma handle_await_ok s input now wall s' outs :
  handle env s input now wall = Some (s', outs) -> Forall (await_ok_out (asked s input)) outs.
Proof.
  destruct input as [client msg|client|]; simpl; intros Hh.
  2:{ apply (inj Some), (f_equal snd) in Hh. simpl in Hh. subst outs. unfold disconnect.
      repeat case_match; simplify_eq; simpl; by repeat constructor. }
  2:{ apply (inj Some) in Hh. unfold tick in Hh.
      pose proof (disconnect_all_ok (parked_for s) s (dead_clients env s)) as H1.
      destruct (disconnect_all s _) as [s1 o1].
      pose proof (expire_all_ok (parked_for s) s1 (expired_awaits s1 now)) as H2.
      destruct (expire_all s1 _) as [s2 o2]. simplify_eq. by apply Forall_app. }
  unfold handle_wire in Hh. repeat (case_match; [simplify_eq; by repeat constructor|]).
  destruct msg; cbn [dispatch touches] in Hh.
  4: { unfold inbox in Hh. repeat case_match; simplify_eq; by repeat constructor. }
  all: apply (inj Some), (f_equal snd) in Hh; cbn [snd] in Hh; subst outs.
  3: { eapply Forall_impl; [apply send_await_ok|]. intros o. unfold await_ok_out, asked, parked_for.
       by rewrite (proj1 (proj2 (touch_activity_fields _ _ _))). }
  3: apply await_envelope_ok.
  all: unfold hello, register, join, leave, whoami, set_listen, set_wake_addr;
    repeat case_match; by repeat constructor.
Qed.
End await.

(** C9. The trust gate of push delivery (D-05/D-06): whatever is in the mailboxes
    and whatever is sent, every AwaitOk the broker stages carries at least one
    and at most fifty envelopes, all of them stamped with a local origin and all
    matching the filter its receiver asked for: the task of the Await being
    handled, or of the request the woken connection had parked. Mail that
    arrived through the gateway, or that carries no stamp, is never pushed into
    a waiting agent, and nobody is answered who was not waiting. *)
Theorem await_pushes_only_local `{WireLib} env s input now wall s' outs c envs mb off :
  handle env s input now wall = Some (s', outs) ->
  Reply c (AwaitOk envs mb off) ∈ outs ->
  envs <> [] /\ (length envs <= AWAIT_BATCH_CAP)%nat /\
  Forall (fun e => st_origin e = Local) envs /\
  exists f, asked s input c f /\ Forall (fun e => filter_matches f (st_envelope e) = true) envs.
Proof.
  intros Hh Hin. apply handle_await_ok in Hh. rewrite Forall_forall in Hh.
  destruct (Hh _ Hin) as (Hne & f & Hask & Hlen & Hall). split_and!; [done|done|..].
  - eapply Forall_impl; [done|]. by intros e [? _].
  - exists f. split; [done|]. eapply Forall_impl; [done|]. by intros e [_ ?].
Qed.

Lemma await_pushes_only_local_witness :
  exists s' outs envs off,
    handle quiet_env s_parked (Wire 2 (Send (TgtAgent "alice") (msg_from "agent:h/bob"))) 0 wall0
      = Some (s', outs) /\
    Reply 1 (AwaitOk envs (MbAgent "alice") off) ∈ outs /\
    (envs <> [] /\ (length envs <= AWAIT_BATCH_CAP)%nat /\
     Forall (fun e => st_origin e = Local) envs /\
     exists f, asked s_parked (Wire 2 (Send (TgtAgent "alice") (msg_from "agent:h/bob"))) 1 f /\
       Forall (fun e => filter_matches f (st_envelope e) = true) envs).
Proof.
  destruct (handle quiet_env s_parked (Wire 2 (Send (TgtAgent "alice") (msg_from "agent:h/bob")))
    0 wall0) as [[s' outs]|] eqn:E; [|vm_compute in E; discriminate].
  assert (exists envs off, Reply 1 (AwaitOk envs (MbAgent "alice") off) ∈ outs)
    as (envs & off & Hin).
  { vm_compute in E. injection E as _ <-. eexists _, _. right. left. }
  exists s', outs, envs, off. split; [reflexivity|]. split; [exact Hin|].
  exact (await_pushes_only_local _ _ _ _ _ _ _ _ _ _ _ E Hin).
Defined.

(** ** A wake answers with mail or a retry *)
Section wakeups.
Context `{WL : WireLib} (env : BrokerEnv).
Hypothesis drains_ok : forall mb since, exists d, drain_from env mb since = Ok d.

Definition good_answer (r : BusReply) : Prop :=
  match r with AwaitOk _ _ _ | AwaitTimeout => True | _ => False end.
Definition good_wake (o : Out) : Prop :=
  match o with Reply _ r => good_answer r | UnparkAwait _ => True | _ => False end.

(** Whether the trigger of a wake on [mb] is for a reader named [nm]. *)
Definition not_own_post (mb : MailboxName) (e : Value) (nm : string) : Prop :=
  match mb with MbAgent _ => True | MbChannel _ => is_self_authored e (Some nm) = false end.

Lemma drain_await_batch_wakes s owner h mb f e len nm :
  clients s !! owner = Some h -> name h = Some nm -> filter_matches f e = true ->
  not_own_post mb e nm ->
  exists b, drain_await_batch env s owner mb f (Some (Local, e, len)) = Ok b /\
    (ab_envelopes b <> [] \/ ab_fully_drained b = false).
Proof.
  intros Hh Hn Hf Hown. unfold drain_await_batch.
  destruct (drains_ok mb (await_offset s owner mb)) as [d ->].
  rewrite Hh. cbn [mbind option_bind]. unfold effective_identity. rewrite Hn.
  destruct (wo_fully_drained _); [|eexists; split; [done|by right]].
  assert (is_self_authored e
    (match mb with MbAgent _ => None | MbChannel _ => Some nm end) = false) as ->.
  { destruct mb; [|done]. unfold is_self_authored. by destruct (get_str e "from"). }
  change (origin_eqb Local Local) with true. simpl. rewrite Hf.
  eexists. split; [done|]. left. simpl. by destruct (map to_stamped _).
Qed.

Lemma await_reply_good s w mb f e len nm :
  Inv s -> resolve_op_identity env s w = Ok nm -> filter_matches f e = true ->
  not_own_post mb e nm ->
  good_answer (await_reply_for_mailbox env s w mb f (Some (Local, e, len))).2.
Proof.
  intros HI Hr Hf Hown. unfold await_reply_for_mailbox, resolve_await_owner. rewrite Hr.
  destruct (resolve_holder env s w nm HI Hr) as (id & h & -> & Hh & Hn & _). simpl.
  destruct (drain_await_batch_wakes s id h mb f e len nm Hh Hn Hf Hown) as (b & -> & Hb).
  case_bool_decide as Hl; simpl; [|done]. destruct (ab_fully_drained b); simpl; [|done].
  destruct Hb as [Hb|]; [|done]. by destruct (ab_envelopes b).
Qed.

(** Each parked await of [ws] is for reader [nm] and wants [e]. *)
Definition all_want (s : BrokerState) (nm : string) (e : Value) (ws : list ClientId) : Prop :=
  Forall (fun w => forall p, pending_awaits s !! w = Some p ->
    filter_matches (pa_filter p) e = true /\ resolve_op_identity env s w = Ok nm) ws.

Lemma all_want_wakes s s' nm e ws : wakes s s' -> all_want s nm e ws -> all_want s' nm e ws.
Proof.
  intros Hw H. eapply Forall_impl; [exact H|]. intros w Hp p Hl.
  rewrite (resolve_op_identity_sim env s s') by apply (wk_sim _ _ Hw).
  apply Hp. eapply lookup_weaken; [done|]. apply (wk_pending _ _ Hw).
Qed.

Lemma waiting_want s nm e org : all_want s nm e (waiting_clients_for_name env s nm e org).
Proof.
  unfold waiting_clients_for_name, all_want. destruct (negb _); [constructor|].
  apply Forall_forall. intros w ([i p'] & Hin & Hm)%list_elem_of_omap p Hp.
  apply elem_of_bt_iter in Hin. unfold waiter_matches in Hm.
  destruct (clients s !! i) as [c|] eqn:Ec; [|done].
  destruct (connected c) eqn:Econ; simpl in Hm; [|done].
  destruct (_ && filter_matches _ _) eqn:Em; [|done]. injection Hm as ->.
  apply andb_true_iff in Em as [En Ef]. rewrite Hp in Hin. injection Hin as <-.
  split; [done|]. unfold resolve_op_identity, effective_identity. rewrite Ec, Econ. simpl.
  destruct (name c) as [n|]; simpl.
  - by apply String.eqb_eq in En as ->.
  - destruct (bind_as c) as [b|]; [|done]. apply andb_true_iff in En as [<-%String.eqb_eq ->].
    done.
Qed.

Lemma wake_all_good s mb e len nm ws :
  Inv s -> not_own_post mb e nm -> all_want s nm e ws ->
  Forall good_wake (wake_all env s mb (Some (Local, e, len)) ws).2.
Proof.
  revert s. induction ws as [|w ws IH]; intros s HI Hown Hall; simpl; [constructor|].
  apply Forall_cons in Hall as [Hw Hall].
  destruct (pending_awaits s !! w) as [p|] eqn:Ep; [|by apply IH].
  destruct (Hw p eq_refl) as [Hf Hr].
  pose proof (unpark_wakes s w) as Hu. pose proof (Inv_wakes _ _ HI Hu) as HI1.
  rewrite <- (resolve_op_identity_sim env s _ w (wk_sim _ _ Hu)) in Hr.
  pose proof (await_reply_good _ w mb (pa_filter p) e len nm HI1 Hr Hf Hown) as Hg.
  pose proof (await_reply_wakes env (set_pending (delete w) s) w mb (pa_filter p)
    (Some (Local, e, len))) as Hwk.
  destruct (await_reply_for_mailbox _ _ _ _ _ _) as [s1 r]. simpl in Hg, Hwk.
  specialize (IH s1). destruct (wake_all _ s1 _ _ _) as [s2 o].
  repeat constructor; [done|]. apply IH; [by eapply Inv_wakes|done|].
  eapply all_want_wakes; [|done]. by etransitivity.
Qed.

Lemma waiters_local s nm e org :
  org <> Local -> waiting_clients_for_name env s nm e org = [].
Proof.
  intros H. unfold waiting_clients_for_name, origin_eqb. by rewrite bool_decide_false.
Qed.

Lemma wake_members_good s nm e org len ms :
  Inv s -> Forall good_wake (wake_members env s (MbChannel nm) e org len ms).2.
Proof.
  revert s. induction ms as [|m ms IH]; intros s HI; cbn [wake_members]; [constructor|].
  destruct (is_self_authored e (Some m)) eqn:Es; [by apply IH|].
  set (ws := waiting_clients_for_name env s m e org).
  assert (Hw : Forall good_wake (wake_all env s (MbChannel nm) (Some (org, e, len)) ws).2).
  { destruct (decide (org = Local)) as [->|Hne].
    - apply (wake_all_good s _ e len m); [done|done|]. apply waiting_want.
    - subst ws. rewrite waiters_local by done. constructor. }
  pose proof (wake_all_wakes env s (MbChannel nm) (Some (org, e, len)) ws) as Hwk.
  destruct (wake_all _ _ _ _ _) as [s1 o1]. simpl in *.
  specialize (IH s1 (Inv_wakes _ _ HI Hwk)).
  destruct (wake_members _ _ _ _ _ _ _) as [s2 o2]. by apply Forall_app.
Qed.

Lemma send_wakeups_good s to e org len :
  Inv s -> Forall good_wake (send_wakeups env s to e org len).2.
Proof.
  intros HI. destruct to as [nm|nm]; simpl; [|by apply wake_members_good].
  destruct (decide (org = Local)) as [->|Hne].
  - apply (wake_all_good s _ e len nm); [done|done|]. apply waiting_want.
  - rewrite waiters_local by done. constructor.
Qed.
End wakeups.

(** ** Who is woken *)
Section woken.
Context `{WL : WireLib} (env : BrokerEnv).

(** Every await that left the table between two states is answered in [outs]. *)
Definition all_answered (s s' : BrokerState) (outs : list Out) : Prop :=
  forall c p, pending_awaits s !! c = Some p -> pending_awaits s' !! c = None ->
    exists r, Reply c r ∈ outs.

Lemma all_answered_app s s1 s2 o1 o2 :
  all_answered s s1 o1 -> all_answered s1 s2 o2 -> all_answered s s2 (o1 ++ o2).
Proof.
  intros H1 H2 c p Hp Hn. destruct (pending_awaits s1 !! c) as [p'|] eqn:E.
  - destruct (H2 c p' E Hn) as [r Hr]. exists r. set_solver.
  - destruct (H1 c p Hp E) as [r Hr]. exists r. set_solver.
Qed.

Lemma await_reply_pending s client mb f trig :
  pending_awaits (await_reply_for_mailbox env s client mb f trig).1 = pending_awaits s.
Proof. unfold await_reply_for_mailbox. by repeat case_match. Qed.

Lemma wake_all_answered s mb trig ws :
  let '(s', outs) := wake_all env s mb trig ws in
  all_answered s s' outs /\ Forall (fun c => pending_awaits s' !! c = None) ws.
Proof.
  revert s. induction ws as [|w ws IH]; intros s; simpl.
  { split; [|constructor]. intros c p. congruence. }
  destruct (pending_awaits s !! w) as [p|] eqn:Ep.
  - pose proof (await_reply_pending (set_pending (delete w) s) w mb (pa_filter p) trig) as Hr.
    destruct (await_reply_for_mailbox _ _ _ _ _ _) as [s1 r].
    pose proof (wake_all_wakes env s1 mb trig ws) as Hk. specialize (IH s1).
    destruct (wake_all _ s1 _ _ _) as [s2 o]. destruct IH as [Ha Hn]. simpl in Hr, Hk. split.
    + intros c q Hq Hc. destruct (decide (c = w)) as [->|Hne]; [exists r; left|].
      destruct (Ha c q) as [r' Hr']; [by rewrite Hr, lookup_delete_ne|done|]. exists r'. by do 2 right.
    + constructor; [|done]. eapply lookup_weaken_None; [|apply (wk_pending _ _ Hk)].
      by rewrite Hr, lookup_delete_eq.
  - pose proof (wake_all_wakes env s mb trig ws) as Hk. specialize (IH s).
    destruct (wake_all _ s _ _ _) as [s2 o]. destruct IH as [Ha Hn]. split; [done|].
    constructor; [|done]. by eapply lookup_weaken_None; [|apply (wk_pending _ _ Hk)].
Qed.

(** [c], whose session holds [nm], is parked for an envelope like [e]. *)
Definition parked_wanting (s : BrokerState) (nm : string) (e : Value) (c : ClientId) : Prop :=
  exists st p, clients s !! c = Some st /\ name st = Some nm /\
    pending_awaits s !! c = Some p /\ filter_matches (pa_filter p) e = true.

Lemma parked_wanting_waits s nm e c :
  Inv s -> parked_wanting s nm e c -> c ∈ waiting_clients_for_name env s nm e Local.
Proof.
  intros HI (st & p & Hc & Hn & Hp & Hf). unfold waiting_clients_for_name.
  change (origin_eqb Local Local) with true. simpl. apply list_elem_of_omap.
  exists (c, p). split; [by apply elem_of_bt_iter|]. unfold waiter_matches.
  by rewrite Hc, Hn, (ok_connected st (inv_clients s HI c st Hc)), String.eqb_refl, Hf.
Qed.

Lemma parked_wanting_wakes s s' nm e c :
  wakes s s' -> parked_wanting s nm e c ->
  parked_wanting s' nm e c \/ pending_awaits s' !! c = None.
Proof.
  intros Hk (st & p & Hc & Hn & Hp & Hf).
  destruct (pending_awaits s' !! c) as [p'|] eqn:E; [left|by right].
  pose proof (lookup_weaken _ _ _ _ E (wk_pending _ _ Hk)) as Hp'. rewrite Hp in Hp'.
  injection Hp' as <-. destruct (clients_sim_l _ _ _ _ (wk_sim _ _ Hk) Hc) as (st' & Hc' & Hss).
  exists st', p. by rewrite (ss_name _ _ Hss).
Qed.

Lemma wake_members_answered s mb e org len ms :
  Inv s ->
  let '(s', outs) := wake_members env s mb e org len ms in
  all_answered s s' outs /\
  (org = Local -> forall m c, m ∈ ms -> is_self_authored e (Some m) = false ->
     parked_wanting s m e c -> pending_awaits s' !! c = None).
Proof.
  revert s. induction ms as [|m ms IH]; intros s HI; cbn [wake_members].
  { split; [intros c p; congruence|]. intros _ m c []%not_elem_of_nil. }
  destruct (is_self_authored e (Some m)) eqn:Es.
  { specialize (IH s HI). destruct (wake_members _ _ _ _ _ _ _). destruct IH as [Ha Hw].
    split; [done|]. intros Ho m' c [->|Hin]%elem_of_cons Hs; [congruence|by apply Hw]. }
  pose proof (wake_all_answered s mb (Some (org, e, len)) (waiting_clients_for_name env s m e org)) as H1.
  pose proof (wake_all_wakes env s mb (Some (org, e, len)) (waiting_clients_for_name env s m e org)) as Hk.
  destruct (wake_all _ _ _ _ _) as [s1 o1]. simpl in Hk. destruct H1 as [Ha1 Hn1].
  specialize (IH s1 (Inv_wakes _ _ HI Hk)).
  pose proof (wake_members_wakes env s1 mb e org len ms) as Hk2.
  destruct (wake_members _ _ _ _ _ _ _) as [s2 o2]. destruct IH as [Ha2 Hw2]. simpl in Hk2.
  split; [by eapply all_answered_app|].
  intros -> m' c [->|Hin]%elem_of_cons Hs Hpw.
  - eapply lookup_weaken_None; [|apply (wk_pending _ _ Hk2)].
    rewrite Forall_forall in Hn1. apply Hn1. by apply parked_wanting_waits.
  - destruct (parked_wanting_wakes _ _ _ _ _ Hk Hpw) as [Hpw'|Hn]; [by apply (Hw2 eq_refl m')|].
    eapply lookup_weaken_None; [exact Hn|apply (wk_pending _ _ Hk2)].
Qed.

(** Whom mail to [t] is for: the named agent, or a channel's members other
    than the author. *)
Definition reaches (s : BrokerState) (to : Target) (e : Value) (nm : string) : Prop :=
  match to with
  | TgtAgent n => n = nm
  | TgtChannel ch => nm ∈ default ∅ (channels s !! ch) /\ is_self_authored e (Some nm) = false
  end.

Lemma send_wakeups_answered s to e org len :
  Inv s ->
  let '(s', outs) := send_wakeups env s to e org len in
  all_answered s s' outs /\
  (org = Local -> forall nm c, reaches s to e nm -> parked_wanting s nm e c ->
     pending_awaits s' !! c = None).
Proof.
  intros HI. destruct to as [n|ch]; cbn [send_wakeups].
  - pose proof (wake_all_answered s (MbAgent n) (Some (org, e, len))
      (waiting_clients_for_name env s n e org)) as H.
    destruct (wake_all _ _ _ _ _). destruct H as [Ha Hn]. split; [done|].
    intros -> nm c <- Hw. rewrite Forall_forall in Hn. apply Hn. by apply parked_wanting_waits.
  - pose proof (wake_members_answered s (MbChannel ch) e org len
      (bs_iter (default ∅ (channels s !! ch))) HI) as H.
    destruct (wake_members _ _ _ _ _ _ _). destruct H as [Ha Hn]. split; [done|].
    intros -> nm c [Hin Hs]. apply (Hn eq_refl nm c); [|done]. by apply elem_of_bs_iter.
Qed.
End woken.

(** C10. A wake never fails (issue #15): when the mailboxes can be read, an
    accepted send answers every connection whose await leaves the table, and
    answers it with mail or, when a backlog has to be worked off first, with the
    retryable AwaitTimeout (the internal error for a wake without a matching
    envelope, and a refusal of the waiter itself, are unreachable). When the
    sender's origin is local no await is overlooked: every session the mail is
    for (the named agent, or a channel's members but the author) that is parked
    under a filter the envelope matches is unparked. *)
Theorem wakes_are_answered `{WireLib} env s client to e now wall s' t line org mid last_out :
  (forall mb since, exists d, drain_from env mb since = Ok d) ->
  reachable s ->
  handle env s (Wire client (Send to e)) now wall =
    Some (s', AppendMailbox t line org :: mid ++ [last_out]) ->
  (forall c p, pending_awaits s !! c = Some p -> pending_awaits s' !! c = None ->
     exists r, Reply c r ∈ mid) /\
  Forall good_wake mid /\
  (org = Local -> forall nm c, reaches s to e nm -> parked_wanting s nm e c ->
     pending_awaits s' !! c = None).
Proof.
  intros Hd HI%reachable_Inv Hh.
  apply handle_append_shape in Hh
    as [Hno|(c & to' & e' & nm & l & st & Hin & _ & _ & _ & _ & _ & Ho & ->)].
  { by apply Forall_cons in Hno as [? _]. }
  injection Hin as <- <- <-. injection Ho as _ _ -> [-> _]%app_inj_tail.
  destruct (touch_activity_fields s client (wall_first wall)) as (Hch & Hpe & _).
  pose proof (Inv_touch s client (wall_first wall) HI) as HIt.
  pose proof (touch_activity_sim s client (wall_first wall)) as Hsim.
  set (tt := touch_activity s client (wall_first wall)) in *.
  pose proof (send_wakeups_answered env tt to e (client_origin tt client) (blen st) HIt) as Ha.
  pose proof (send_wakeups_good env Hd tt to e (client_origin tt client) (blen st) HIt) as Hg.
  destruct (send_wakeups _ _ _ _ _ _) as [s1 o1]. destruct Ha as [Ha Hw].
  unfold all_answered in Ha. rewrite Hpe in Ha. split; [done|]. split; [done|].
  intros Ho nm' c Hr (c1 & p & Hc & Hn & Hp & Hf). apply (Hw Ho nm').
  - unfold reaches in *. by rewrite Hch.
  - destruct (clients_sim_l _ _ _ _ Hsim Hc) as (c2 & Hc2 & Hss). exists c2, p.
    by rewrite Hpe, (ss_name _ _ Hss).
Qed.

Lemma wakes_are_answered_witness :
  exists s' t line org mid last_out,
    handle quiet_env s_parked (Wire 2 (Send (TgtAgent "alice") (msg_from "agent:h/bob"))) 0 wall0
      = Some (s', AppendMailbox t line org :: mid ++ [last_out]) /\
    mid <> [] /\ Forall good_wake mid /\
    pending_awaits s_parked !! 1%N <> None /\ pending_awaits s' !! 1%N = None /\
    exists r, Reply 1 r ∈ mid.
Proof.
  destruct (handle quiet_env s_parked (Wire 2 (Send (TgtAgent "alice") (msg_from "agent:h/bob")))
    0 wall0) as [[s' outs]|] eqn:E; [|vm_compute in E; discriminate].
  assert (exists t line org r u last_out,
    outs = AppendMailbox t line org :: [Reply 1 r; u] ++ [last_out] /\
    pending_awaits s' !! 1%N = None)
    as (t & line & org & r & u & last_out & -> & Hn).
  { vm_compute in E. injection E as <- <-. eexists _, _, _, _, _, _. split; reflexivity. }
  exists s', t, line, org, [Reply 1 r; u], last_out. split; [reflexivity|]. split; [done|].
  destruct (wakes_are_answered quiet_env s_parked 2 (TgtAgent "alice") (msg_from "agent:h/bob")
    0 wall0 s' t line org [Reply 1 r; u] last_out) as (Ha & Hg & _).
  - intros mb since. eexists. vm_compute. reflexivity.
  - exact s_parked_reachable.
  - exact E.
  - split; [exact Hg|]. destruct (pending_awaits s_parked !! 1%N) as [p|] eqn:Ep.
    + split; [discriminate|]. split; [exact Hn|]. exact (Ha 1%N p Ep Hn).
    + exfalso. vm_compute in Ep. discriminate Ep.
Defined.

(** ** Parking *)
Section parking.
Context `{WL : WireLib} (env : BrokerEnv).

(** Nothing on [mb] from the await cursor can be delivered under [f] before
    something the filter keeps back. *)
Definition nothing_due (s : BrokerState) (owner : ClientId) (f : AwaitFilter)
  (mb : MailboxName) : Prop :=
  exists b, drain_await_batch env s owner mb f None = Ok b /\ ab_envelopes b = [].

(** A batch depends on its own cursor and the owner's identity only. *)
Lemma drain_await_batch_ext s s' owner mb f trig :
  await_offset s' owner mb = await_offset s owner mb ->
  (clients s' !! owner ≫= fun c => Some (effective_identity c)) =
  (clients s !! owner ≫= fun c => Some (effective_identity c)) ->
  drain_await_batch env s' owner mb f trig = drain_await_batch env s owner mb f trig.
Proof.
  intros Ho Hi. unfold drain_await_batch. rewrite Ho.
  assert (forall k : result string BusErrorKind -> option string,
    (clients s' !! owner ≫= fun c => k (effective_identity c)) =
    (clients s !! owner ≫= fun c => k (effective_identity c))) as Hk.
  { intros k. destruct (clients s' !! owner), (clients s !! owner); simpl in *; congruence. }
  by rewrite (Hk (fun r => match r with Ok i => Some i | Err _ => None end)).
Qed.

Lemma drain_await_batch_other s owner mb mb' o f trig :
  mb' <> mb ->
  drain_await_batch env (set_await_offset s owner mb' o) owner mb f trig =
  drain_await_batch env s owner mb f trig.
Proof.
  intros Hne. apply drain_await_batch_ext; unfold await_offset; simpl;
    rewrite lookup_alter_eq; destruct (clients s !! owner); simpl; try done.
  by rewrite lookup_insert_ne.
Qed.

Lemma touch_await_offset s client w owner mb :
  await_offset (touch_activity s client w) owner mb = await_offset s owner mb.
Proof.
  unfold touch_activity, await_offset. case_match; [|done]. simpl.
  rewrite lookup_alter. case_decide; subst; [|done]. by destruct (clients s !! owner).
Qed.

Lemma drain_await_batch_touch s client w owner mb f trig :
  drain_await_batch env (touch_activity s client w) owner mb f trig =
  drain_await_batch env s owner mb f trig.
Proof.
  apply drain_await_batch_ext; [apply touch_await_offset|].
  pose proof (touch_activity_sim s client w owner) as H.
  destruct (clients s !! owner), (clients (touch_activity s client w) !! owner); inv H; [|done].
  match goal with H : same_session _ _ |- _ => destruct H end.
  simpl. unfold effective_identity. by rewrite ss_name, ss_bind_as.
Qed.

Lemma await_scan_parks s client owner f mbs s' :
  NoDup mbs -> await_scan env s client owner f mbs = (s', None) ->
  Forall (nothing_due s owner f) mbs.
Proof.
  intros Hnd. revert s. induction Hnd as [|mb mbs Hmb Hnd IH]; intros s; simpl; [constructor|].
  destruct (drain_await_batch env s owner mb f None) as [b|[k m]] eqn:Eb; [|done].
  case_bool_decide as Hl; simpl; [|done]. intros Hs. constructor.
  - exists b. split; [done|]. by destruct (ab_envelopes b).
  - apply IH in Hs. rewrite Forall_forall in Hs. apply Forall_forall. intros mb' Hin.
    destruct (Hs mb' Hin) as (b' & Hb' & He). exists b'. split; [|done].
    rewrite <- Hb'. case_match; [|done]. symmetry. apply drain_await_batch_other.
    by intros ->.
Qed.

Lemma await_mailboxes_NoDup s owner nm : NoDup (await_mailboxes s owner nm).
Proof.
  unfold await_mailboxes. destruct (clients s !! owner) as [c|].
  - constructor.
    + intros (? & ? & _)%list_elem_of_fmap. done.
    + apply NoDup_fmap_2_strong; [by intros x y _ _ [=]|apply bs_iter_NoDup].
  - apply NoDup_singleton.
Qed.

Lemma await_mailboxes_sim s s' owner nm :
  clients_sim s s' -> await_mailboxes s' owner nm = await_mailboxes s owner nm.
Proof.
  intros Hsim. unfold await_mailboxes. specialize (Hsim owner).
  destruct (clients s !! owner), (clients s' !! owner); inv Hsim; [|done].
  match goal with H : same_session _ _ |- _ => by rewrite (ss_joined _ _ H) end.
Qed.

Lemma await_scan_no_park s client owner f mbs o c f' dl :
  (await_scan env s client owner f mbs).2 = Some o -> ParkAwait c f' dl ∉ o.
Proof.
  revert s. induction mbs as [|mb mbs IH]; intros s; simpl; [done|].
  destruct (drain_await_batch env s owner mb f None) as [b|[k m]].
  - case_match; [|apply IH]. intros [= <-] ?%list_elem_of_singleton. done.
  - intros [= <-] ?%list_elem_of_singleton. done.
Qed.

Lemma await_parks s client t task now s' outs c f dl :
  await_envelope env s client t task now = (s', outs) -> ParkAwait c f dl ∈ outs ->
  exists nm owner,
    resolve_await_owner env s client = Ok (nm, owner) /\
    c = client /\ outs = [ParkAwait client f dl] /\
    dl = (now + N.min t MAX_AWAIT_MS * 1000000)%N /\
    f = match task with Some t => FilterTask t | None => FilterAny end /\
    pending_awaits s' = <[client := mkParked f dl]> (pending_awaits s) /\
    Forall (nothing_due s owner f) (await_mailboxes s owner nm).
Proof.
  unfold await_envelope. destruct (resolve_await_owner env s client) as [[nm owner]|];
    [|intros [= <- <-] ?%list_elem_of_singleton; done].
  set (f0 := match task with Some t => _ | None => _ end).
  destruct (await_scan env s client owner f0 (await_mailboxes s owner nm)) as [s1 [o|]] eqn:Es.
  - intros [= <- <-] Hin. exfalso.
    eapply (await_scan_no_park s client owner f0); [by rewrite Es|done].
  - intros [= <- <-] [= -> -> ->]%list_elem_of_singleton. exists nm, owner.
    split_and!; try done.
    + simpl. by rewrite <- (await_scan_pending env s client owner f0
        (await_mailboxes s owner nm)), Es.
    + eapply await_scan_parks; [apply await_mailboxes_NoDup|done].
Qed.
End parking.

(** An Await parks only when there is nothing to deliver: the request is
    recorded with its own filter and a deadline of its timeout, never more than
    23 hours away, and at that moment no mailbox of the identity (its own and
    its joined channels) held a deliverable envelope from the await cursor on. *)
Theorem await_parks_only_when_idle `{WireLib} env s client t task now wall s' outs c f dl :
  reachable s ->
  handle env s (Wire client (Await t task)) now wall = Some (s', outs) ->
  ParkAwait c f dl ∈ outs ->
  c = client /\ (dl <= now + MAX_AWAIT_MS * 1000000)%N /\
  pending_awaits s' !! client = Some (mkParked f dl) /\
  exists nm owner, resolve_await_owner env s client = Ok (nm, owner) /\
    Forall (nothing_due env s owner f) (await_mailboxes s owner nm).
Proof.
  intros HI%reachable_Inv Hh Hin. simpl in Hh. unfold handle_wire in Hh.
  repeat (case_match; [simplify_eq; by apply list_elem_of_singleton in Hin|]).
  cbn [dispatch touches] in Hh. apply (inj Some) in Hh.
  pose proof (touch_activity_sim s client (wall_first wall)) as Hsim.
  pose proof (Inv_touch s client (wall_first wall) HI) as HIt.
  destruct (await_parks _ _ _ _ _ _ _ _ _ _ _ Hh Hin)
    as (nm & owner & Hr & -> & _ & -> & -> & Hp & Hall).
  split_and!; [done|lia|by rewrite Hp, lookup_insert_eq|].
  exists nm, owner. rewrite <- (resolve_await_owner_sim env s _ client HI HIt Hsim).
  split; [done|]. rewrite (await_mailboxes_sim s) in Hall by done.
  eapply Forall_impl; [done|]. intros mb (b & Hb & He). exists b. split; [|done].
  by rewrite <- Hb, drain_await_batch_touch.
Qed.

Lemma await_parks_only_when_idle_witness :
  exists s' outs c f dl,
    handle quiet_env s_two (Wire 1 (Await 1000 None)) 0 wall0 = Some (s', outs) /\
    ParkAwait c f dl ∈ outs /\
    (c = 1%N /\ (dl <= 0 + MAX_AWAIT_MS * 1000000)%N /\
     pending_awaits s' !! 1%N = Some (mkParked f dl) /\
     exists nm owner, resolve_await_owner quiet_env s_two 1 = Ok (nm, owner) /\
       Forall (nothing_due quiet_env s_two owner f) (await_mailboxes s_two owner nm)).
Proof.
  destruct (handle quiet_env s_two (Wire 1 (Await 1000 None)) 0 wall0) as [[s' outs]|] eqn:E;
    [|vm_compute in E; discriminate].
  assert (exists c f dl, ParkAwait c f dl ∈ outs) as (c & f & dl & Hin).
  { vm_compute in E. injection E as _ <-. eexists _, _, _. left. }
  exists s', outs, c, f, dl. split; [reflexivity|]. split; [exact Hin|].
  exact (await_parks_only_when_idle _ _ _ _ _ _ _ _ _ _ _ _ s_two_reachable E Hin).
Qed.
