(* ===== verification/Delivery.v ===== *)
(** * End-to-end delivery through the broker process

    The mailbox files as append-only logs of stamped envelopes: what an
    accepted send adds, what every other event leaves alone, and what a reader
    gets back; under arbitrary operating-system faults for the safety claims
    and under a healthy disk for the delivery claims. *)

From Stdlib Require Import Strings.Byte.
From stdpp Require Import gmap strings list fin_maps sorting.
From S2P Require Import Prelude Json Proto Mailbox Origin WireInstance Serde Codec Envelope.
From S2P Require Import DrainWalk BrokerState Awaiting Handle BrokerInv Scenario.
From S2P Require Import Executor BrokerProps SessionProps.

(** ** Files as logs *)

(** A file made of newline-terminated records. *)
Definition whole (file : bytes) : Prop :=
  exists lines, file = jsonl lines /\ Forall (fun l => NEWLINE ∉ l) lines.

Definition disk_whole (w : World) : Prop := map_Forall (fun _ => whole) (w_files w).

(** The current content of a mailbox file; absent reads as empty. *)
Definition file_of (w : World) (mb : MailboxName) : bytes :=
  default [] (w_files w !! mailbox_path mb).

Section logs.
Context `{WL : WireLib}.

(** Everything the file holds, as a reader from offset 0 sees it. *)
Definition file_log (file : bytes) : list (Origin * Value) :=
  decode_lines 0 (read_raw_bytes file 0).

Definition mailbox_log (w : World) (mb : MailboxName) : list (Origin * Value) :=
  file_log (file_of w mb).

Lemma whole_nil : whole [].
Proof. by exists []. Qed.

Lemma whole_file_of w mb : disk_whole w -> whole (file_of w mb).
Proof.
  intros Hw. unfold file_of. destruct (w_files w !! mailbox_path mb) as [f|] eqn:E; simpl.
  - by eapply Hw.
  - apply whole_nil.
Qed.

Lemma read_raw_whole lines :
  Forall (fun l => NEWLINE ∉ l) lines ->
  read_raw_bytes (jsonl lines) 0 = mkDrain (recs_from 0 lines) (mem_total lines).
Proof. intros H. apply (read_raw_at [] lines H). Qed.

Lemma decode_lines_all since d :
  decode_lines since d = omap (delivery (mkPolicy FilterAny None false None)) (dr_records d).
Proof. apply walk_any_all; done. Qed.

(** With nothing filtered, a record is delivered exactly when it decodes. *)
Lemma delivery_plain r :
  delivery (mkPolicy FilterAny None false None) r =
  match decode_line (rec_bytes r) with Ok d => Some d | Err _ => None end.
Proof.
  unfold delivery, verdict. destruct (decode_line (rec_bytes r)) as [[o v]|]; [|done].
  simpl. done.
Qed.

Lemma file_log_jsonl lines :
  Forall (fun l => NEWLINE ∉ l) lines ->
  file_log (jsonl lines) =
  omap (fun l => match decode_line l with Ok d => Some d | Err _ => None end) lines.
Proof.
  intros H. unfold file_log. rewrite decode_lines_all, read_raw_whole by done. simpl.
  clear H. generalize 0%N. induction lines as [|l ls IH]; intros o; [done|].
  cbn [recs_from]. csimpl. rewrite delivery_plain. simpl. by rewrite IH.
Qed.

(** Appending a line to a whole file appends what it decodes to. *)
Lemma file_log_append file line :
  whole file -> NEWLINE ∉ line ->
  whole (file ++ line ++ [NEWLINE]) /\
  file_log (file ++ line ++ [NEWLINE]) =
    file_log file ++ match decode_line line with Ok d => [d] | Err _ => [] end.
Proof.
  intros (lines & -> & Hl) Hn.
  assert (jsonl lines ++ line ++ [NEWLINE] = jsonl (lines ++ [line])) as ->.
  { by rewrite jsonl_app, (jsonl_cons line []). }
  assert (Forall (fun l => NEWLINE ∉ l) (lines ++ [line])) by (apply Forall_app; auto).
  split; [by eexists|]. rewrite !file_log_jsonl, omap_app by done. f_equal. csimpl.
  by destruct (decode_line line).
Qed.

(** ** What an effect does to the disk *)
Definition no_write (o : Out) : Prop :=
  match o with AppendMailbox _ _ _ => False | _ => True end.
Lemma not_append_no_write outs : Forall not_append outs -> Forall no_write outs.
Proof. intros H. eapply Forall_impl; [exact H|]. by intros []. Qed.
Lemma wake_no_write outs : Forall wake_effect outs -> Forall no_write outs.
Proof. intros H. eapply Forall_impl; [exact H|]. by intros []. Qed.

Lemma execute_out_files io now w o :
  no_write o -> w_files (execute_out io now w o) = w_files w.
Proof.
  destruct o; simpl; try done; unfold deliver; repeat case_match; done.
Qed.

Lemma execute_outs_files io now outs w :
  Forall no_write outs -> w_files (execute_outs io now outs w) = w_files w.
Proof.
  unfold execute_outs. revert w. induction outs as [|o outs IH]; intros w; [done|].
  intros [Ho Hos]%Forall_cons. simpl. rewrite IH by done. by apply execute_out_files.
Qed.

Lemma execute_out_broker io now w o : w_broker (execute_out io now w o) = w_broker w.
Proof. destruct o; simpl; try done; unfold deliver; repeat case_match; done. Qed.

Lemma execute_outs_broker io now outs w : w_broker (execute_outs io now outs w) = w_broker w.
Proof.
  unfold execute_outs. revert w. induction outs as [|o outs IH]; intros w; [done|].
  simpl. by rewrite IH, execute_out_broker.
Qed.
End logs.

(** ** One iteration of the run loop and the disk *)
Section step_disk.
Context `{WL : WireLib} (io : Io).

(** The stamped append of an accepted send, on the files. *)
Definition append_stamped (files : gmap string bytes) (to : Target) (line : bytes)
  (org : Origin) : gmap string bytes :=
  match stamp_line line org with
  | Ok stamped => (env_append io files (target_mailbox to) stamped).1
  | Err _ => files
  end.

Lemma execute_send_files now to line org mid c reply w :
  Forall wake_effect mid ->
  w_files (execute_outs io now
    (AppendMailbox (target_mailbox to) line org :: mid ++ [Reply c reply]) w) =
  append_stamped (w_files w) to line org.
Proof.
  intros Hmid. unfold append_stamped.
  change (execute_outs io now (?o :: ?l) w) with
    (execute_outs io now l (execute_out io now w o)).
  rewrite execute_outs_files.
  - simpl. by destruct (stamp_line line org).
  - apply Forall_app. split; [by apply wake_no_write|by repeat constructor].
Qed.

(** Every iteration leaves the mailbox files alone, or is an accepted send
    that appends one stamped line. *)
Lemma step_files nie w ev now wall w' :
  step io nie w ev now wall = Running w' ->
  w_files w' = w_files w \/
  exists client to e nm line,
    let t := touch_activity (w_broker w) client (wall_first wall) in
    ev = Frame client (Send to e) /\
    resolve_op_identity (disk_env io w) t client = Ok nm /\
    is_self_authored e (Some nm) = true /\ canonicalize e = Ok line /\
    w_files w' = append_stamped (w_files w) to line (client_origin t client).
Proof.
  destruct ev as [| |client msg|client| |client payload| |]; simpl.
  - intros [= <-]. by left.
  - intros [= <-]. by left.
  - unfold call_broker. destruct (handle _ _ _ _ _) as [[b outs]|] eqn:Eh; [|done].
    intros [= <-]. apply handle_append_shape in Eh
      as [Hno|(c & to & e & nm & l & st & [= -> ->] & ? & ? & ? & ? & ? & -> & _)].
    { left. by rewrite execute_outs_files by (by apply not_append_no_write). }
    right. exists c, to, e, nm, l. split_and!; try done.
    rewrite execute_send_files; [done|apply send_wakeups_effects].
  - unfold call_broker. destruct (handle _ _ _ _ _) as [[b outs]|] eqn:Eh; [|done].
    intros [= <-]. left. simpl in Eh. apply (inj Some), (f_equal snd) in Eh. cbn [snd] in Eh.
    subst outs. by rewrite execute_outs_files by apply not_append_no_write, disconnect_not_append.
  - unfold call_broker. destruct (handle _ _ _ _ _) as [[b outs]|] eqn:Eh; [|done].
    intros [= <-]. left. apply handle_append_shape in Eh
      as [Hno|(c & to & e & nm & l & st & ? & _)]; [|done].
    by rewrite execute_outs_files by (by apply not_append_no_write).
  - case_match; intros [= <-]; by left.
  - case_match; [done|]. intros [= <-]. by left.
  - done.
Qed.

Lemma env_append_grows files mb line path :
  exists suffix,
    default [] ((env_append io files mb line).1 !! path) = default [] (files !! path) ++ suffix.
Proof.
  assert (Hid : exists suffix,
    default [] (files !! path) = default [] (files !! path) ++ suffix).
  { exists []. by rewrite app_nil_r. }
  unfold env_append, inbox_append. repeat case_match; simplify_eq; simpl; try done;
    (destruct (decide (path = mailbox_path mb)) as [->|Hne];
     [rewrite lookup_insert_eq; simpl|by rewrite lookup_insert_ne by done]);
    eauto; exists []; by rewrite app_nil_r.
Qed.
End step_disk.

(** Mailboxes are append-only and only a send writes them: whatever faults
    the operating system injects, one iteration of the run loop changes the
    mailbox files only when it handles a Send whose envelope the connection was
    entitled to author, and then every file keeps its old content as a prefix. *)
Theorem mailboxes_append_only `{WireLib} io nie w ev now wall w' :
  step io nie w ev now wall = Running w' ->
  (forall path, exists suffix,
     default [] (w_files w' !! path) = default [] (w_files w !! path) ++ suffix) /\
  (w_files w' <> w_files w -> exists client to e, ev = Frame client (Send to e)).
Proof.
  intros Hs. apply step_files in Hs as [->|(c & to & e & nm & l & -> & _ & _ & _ & ->)].
  - split; [|done]. intros path. exists []. by rewrite app_nil_r.
  - split; [|eauto]. intros path. unfold append_stamped.
    destruct (stamp_line l _); [apply env_append_grows|]. exists []. by rewrite app_nil_r.
Qed.

Section delivered.
Context `{WL : WireLib} {WLaws : WireLaws}.

Lemma healthy_append files mb line alive :
  NEWLINE ∉ line ->
  (env_append (healthy alive) files mb line).1 =
  <[mailbox_path mb := default [] (files !! mailbox_path mb) ++ line ++ [NEWLINE]]> files.
Proof.
  intros Hn. unfold env_append, inbox_append. simpl. by rewrite bool_decide_false.
Qed.

(** The last reply executed reaches its connection when wakes precede it. *)
Lemma wakes_keep_senders io now mid w :
  Forall wake_effect mid -> w_senders (execute_outs io now mid w) = w_senders w.
Proof.
  unfold execute_outs. revert w. induction mid as [|o mid IH]; intros w; [done|].
  intros [Ho Hos]%Forall_cons. simpl. rewrite IH by done.
  destruct o; simpl in *; try done. unfold deliver. by destruct (bool_decide _).
Qed.

Lemma send_confirmed io now to line org mid client reply w :
  Forall wake_effect mid -> client ∈ w_senders w ->
  last (w_sent (execute_outs io now
    (AppendMailbox (target_mailbox to) line org :: mid ++ [Reply client reply]) w)) =
  Some (client, reply).
Proof.
  intros Hmid Hin.
  change (execute_outs io now (?o :: ?l) w) with
    (execute_outs io now l (execute_out io now w o)).
  unfold execute_outs. rewrite foldl_app. cbn [foldl].
  change (foldl (execute_out io now) ?w0 mid) with (execute_outs io now mid w0).
  unfold execute_out at 1, deliver. rewrite bool_decide_true.
  - simpl. by rewrite last_snoc.
  - rewrite wakes_keep_senders by done. simpl. by destruct (stamp_line line org).
Qed.

(** What a stamped line of a valid envelope adds to a whole file. *)
Lemma append_stamped_log alive files to e line org :
  map_Forall (fun _ => whole) files -> value_wf e = true -> canonicalize e = Ok line ->
  is_ok (AnyBusEnvelope_decode line) = true ->
  let path := mailbox_path (target_mailbox to) in
  let files' := append_stamped (healthy alive) files to line org in
  map_Forall (fun _ => whole) files' /\
  file_log (default [] (files' !! path)) = file_log (default [] (files !! path)) ++ [(org, e)] /\
  forall p, p <> path -> files' !! p = files !! p.
Proof.
  intros Hw Hwf Hc Hdec. cbv zeta. unfold append_stamped.
  destruct (stamp_line_ok e line org Hwf Hc) as (b & Hst & _). rewrite Hst.
  pose proof (stamped_no_newline e line org b Hwf Hc Hst) as Hn.
  rewrite healthy_append by done. set (path := mailbox_path (target_mailbox to)).
  assert (Hp : whole (default [] (files !! path))).
  { destruct (files !! path) eqn:E; simpl; [by eapply Hw|apply whole_nil]. }
  destruct (file_log_append _ b Hp Hn) as [Hwhole Hlog]. split_and!.
  - by apply map_Forall_insert_2.
  - rewrite lookup_insert_eq. simpl. rewrite Hlog. f_equal.
    rewrite (decode_stamped e line org b Hwf Hc Hst). by destruct (AnyBusEnvelope_decode line).
  - intros p Hne. by rewrite lookup_insert_ne.
Qed.

Lemma wire_send_step io nie w client to e now wall nm line :
  Inv (w_broker w) -> value_wf e = true ->
  resolve_op_identity (disk_env io w) (w_broker w) client = Ok nm ->
  is_self_authored e (Some nm) = true -> canonicalize e = Ok line ->
  (blen line <= MAX_FRAME_BYTES)%N ->
  exists b mid rows,
    Forall wake_effect mid /\ Forall (answers_parked (w_broker w)) mid /\
    clients_sim (w_broker w) b /\
    step io nie w (Frame client (Send to e)) now wall =
      Running (execute_outs io now
        (AppendMailbox (target_mailbox to) line (client_origin (w_broker w) client) ::
           mid ++ [Reply client (SendOk (task_id_from e) rows)]) (with_broker b w)).
Proof.
  intros HI Hwf Hr Ha Hc Hl. simpl. unfold call_broker.
  destruct (resolved_dispatch (disk_env io w) (w_broker w) client nm (Send to e) now wall HI Hr)
    as (t & -> & _ & Hun & Hrt & _ & Horg); [done|]. rewrite <- Horg. simpl.
  destruct (stamp_line_ok e line (client_origin t client) Hwf Hc) as (st & Hst & _).
  pose proof (wk_sim _ _ (send_wakes (disk_env io w) t client to e)) as Hsim.
  rewrite (send_accepted (disk_env io w) t client to e nm line st) in Hsim |- * by done.
  eexists _, _, _. split_and!; [apply send_wakeups_effects| | |done].
  - eapply Forall_impl; [apply send_wakeups_parked|]. unfold answers_parked.
    by rewrite (un_pending _ _ Hun).
  - etransitivity; [apply (un_sim _ _ Hun)|exact Hsim].
Qed.
End delivered.

(** C1. A send is delivered end to end: on a healthy disk, when a connection that
    resolves to an identity sends an envelope it authored, that fits a frame
    and that the bus envelope decoder accepts, the run loop answers SendOk last,
    the target's log (what a reader from offset 0 decodes out of the file)
    gains exactly that envelope with the sender's broker-held origin, every
    other mailbox file is untouched, and every file stays newline-framed. *)
Theorem send_is_delivered `{WireLaws} alive nie w client to e now wall nm line :
  Inv (w_broker w) -> disk_whole w -> client ∈ w_senders w ->
  resolve_op_identity (disk_env (healthy alive) w) (w_broker w) client = Ok nm ->
  is_self_authored e (Some nm) = true -> value_wf e = true ->
  canonicalize e = Ok line -> (blen line <= MAX_FRAME_BYTES)%N ->
  is_ok (AnyBusEnvelope_decode line) = true ->
  exists w' rows,
    step (healthy alive) nie w (Frame client (Send to e)) now wall = Running w' /\
    last (w_sent w') = Some (client, SendOk (task_id_from e) rows) /\
    mailbox_log w' (target_mailbox to) =
      mailbox_log w (target_mailbox to) ++ [(client_origin (w_broker w) client, e)] /\
    (forall p, p <> mailbox_path (target_mailbox to) -> w_files w' !! p = w_files w !! p) /\
    disk_whole w'.
Proof.
  intros HI Hd Hin Hr Ha Hwf Hc Hl Hdec.
  destruct (wire_send_step (healthy alive) nie w client to e now wall nm line)
    as (b & mid & rows & Hmid & _ & _ & Hstep); [done..|].
  eexists _, rows. split; [exact Hstep|]. split; [by apply send_confirmed|].
  unfold mailbox_log, file_of, disk_whole.
  rewrite execute_send_files by done.
  destruct (append_stamped_log alive (w_files w) to e line
    (client_origin (w_broker w) client) Hd Hwf Hc Hdec) as (Hw' & Hlog & Hother).
  split_and!; [exact Hlog|exact Hother|exact Hw'].
Qed.

(** ** Reading back *)
Section reading.
Context `{WL : WireLib}.

(** What a channel's file holds for a reader from a cursor on: of its first 256
    records there, those that decode and that the reader did not write. *)
Definition channel_posts (nm : string) (file : bytes) (cursor : N) : list (Origin * Value) :=
  filter (fun d => is_self_authored d.2 (Some nm) = false)
    (omap (fun r => match decode_line (rec_bytes r) with Ok d => Some d | Err _ => None end)
       (take CHANNEL_DRAIN_CAP (dr_records (read_raw_bytes file cursor)))).

(** The new posts of every channel a session joined, from its cursors on. *)
Definition channel_news (w : World) (nm : string) (session : ClientState) : list (Origin * Value) :=
  flat_map (fun ch => channel_posts nm (file_of w (MbChannel ch))
                        (default 0%N (inbox_offsets session !! MbChannel ch)))
    (bs_iter (joined session)).

Lemma channel_news_same w w' nm c c' :
  w_files w' = w_files w -> same_session c c' -> channel_news w' nm c' = channel_news w nm c.
Proof. intros Hf [_ _ _ Hj _ _ _ _ _ Hi]. unfold channel_news, file_of. by rewrite Hf, Hj, Hi. Qed.

(** The capped channel walk delivers the news of its file. *)
Lemma channel_walk nm file cursor d :
  dr_records d = dr_records (read_raw_bytes file cursor) ->
  wo_delivered (walk cursor d
    (mkPolicy FilterAny (Some nm) false (Some (CapScanned CHANNEL_DRAIN_CAP)))) =
  channel_posts nm file cursor.
Proof.
  intros Hd. rewrite (walk_scanned_all _ _ _ CHANNEL_DRAIN_CAP), Hd by done. unfold channel_posts.
  induction (take _ _) as [|r rs IH]; [done|]. csimpl. rewrite IH. unfold delivery, verdict.
  destruct (decode_line (rec_bytes r)) as [[o v]|]; [|done]. cbn -[is_self_authored].
  destruct (is_self_authored v (Some nm)) eqn:E.
  - case_decide as H; [|done]. change (is_self_authored v (Some nm) = false) in H. congruence.
  - case_decide as H; [done|]. by destruct H.
Qed.

Lemma healthy_channel alive w ch cursor :
  exists d, drain_from (disk_env (healthy alive) w) (MbChannel ch) cursor = Ok d /\
    dr_records d = dr_records (read_raw_bytes (file_of w (MbChannel ch)) cursor).
Proof.
  simpl. unfold file_read, file_of. simpl. case_match; simpl; eauto. eexists. split; [done|].
  unfold read_raw_bytes. rewrite (proj2 (N.leb_le _ _)); [done|apply N.le_0_l].
Qed.

(** Channel posts follow the agent's own mail: the news of each channel. *)
Lemma inbox_channels_ok alive w s canonical nm session chans envs advs :
  clients s !! canonical = Some session ->
  exists advs',
    inbox_channels (disk_env (healthy alive) w) s canonical nm chans envs advs =
    Ok (envs ++ map to_stamped (flat_map (fun ch => channel_posts nm (file_of w (MbChannel ch))
          (default 0%N (inbox_offsets session !! MbChannel ch))) chans), advs').
Proof.
  intros Hc. revert envs advs. induction chans as [|ch chans IH]; intros envs advs.
  { exists advs. simpl. by rewrite app_nil_r. }
  cbn [inbox_channels flat_map]. rewrite Hc. cbn [mbind option_bind]. cbv zeta.
  set (cur := default 0%N _).
  destruct (healthy_channel alive w ch cur) as (d & -> & Hd).
  rewrite map_app, <- (channel_walk nm _ cur d Hd). case_bool_decide as Hz.
  - apply nil_length_inv in Hz.
    destruct (IH envs (if (dr_next_offset d <? cur)%N
      then advs ++ [(MbChannel ch, dr_next_offset d)] else advs)) as (advs' & ->).
    exists advs'. rewrite (walk_scanned_all _ _ _ CHANNEL_DRAIN_CAP), Hz by done. by rewrite take_nil.
  - match goal with |- context [inbox_channels _ _ _ _ _ ?e ?a] =>
      destruct (IH e a) as (advs' & ->) end.
    exists advs'. by rewrite app_assoc.
Qed.

Lemma healthy_drain alive w mb since :
  exists d, drain_from (disk_env (healthy alive) w) mb since = Ok d.
Proof. simpl. unfold file_read. simpl. case_match; simpl; eauto. Qed.

(** Draining a whole mailbox from a record boundary. *)
Lemma healthy_drain_at alive w mb pre post :
  file_of w mb = jsonl (pre ++ post) -> Forall (fun l => NEWLINE ∉ l) (pre ++ post) ->
  drain_from (disk_env (healthy alive) w) mb (mem_total pre) =
  Ok (mkDrain (recs_from (mem_total pre) post) (mem_total (pre ++ post))).
Proof.
  intros Hf Hn. simpl. unfold file_read, file_of in *. simpl.
  destruct (w_files w !! mailbox_path mb) as [f|]; simpl in *.
  - subst f. rewrite read_raw_at; [done|]. by apply Forall_app in Hn as [_ ?].
  - assert (pre ++ post = []) as [-> ->]%app_eq_nil; [|done].
    destruct (pre ++ post) as [|l ls]; [done|]. rewrite jsonl_cons in Hf.
    by destruct l.
Qed.

Lemma decode_lines_recs since o lines nx :
  Forall (fun l => NEWLINE ∉ l) lines ->
  decode_lines since (mkDrain (recs_from o lines) nx) = file_log (jsonl lines).
Proof.
  intros Hn. rewrite decode_lines_all, file_log_jsonl by done. cbn [dr_records].
  clear Hn. revert o. induction lines as [|l ls IH]; intros o; [done|].
  cbn [recs_from]. csimpl. rewrite delivery_plain. simpl. by rewrite IH.
Qed.

(** Whether a reply can be framed: its canonical text is at most 16 MiB. *)
Definition fits_frame (r : BusReply) : bool :=
  match canonicalize (reply_to_value r) with
  | Ok text => (blen text <=? MAX_FRAME_BYTES)%N
  | Err _ => false
  end.

Lemma encode_fits r : is_ok (encode_frame (reply_to_value r)) = fits_frame r.
Proof.
  unfold encode_frame, fits_frame. destruct (canonicalize _) as [t|]; [|done].
  destruct (u32_max <? blen t)%N eqn:E1; destruct (MAX_FRAME_BYTES <? blen t)%N eqn:E2; simpl;
    symmetry; rewrite ?N.leb_le, ?N.leb_gt; unfold u32_max, MAX_FRAME_BYTES in *; lia.
Qed.

(** The reply of an [Inbox] poll over a healthy disk. *)
Lemma inbox_reply alive w b client nm pre post since inc id session :
  default 0%N since = mem_total pre -> resolve_op_identity (disk_env (healthy alive) w) b client = Ok nm ->
  canonical_holder_id b nm = Some id -> clients b !! id = Some session ->
  file_of w (MbAgent nm) = jsonl (pre ++ post) ->
  Forall (fun l => NEWLINE ∉ l) (pre ++ post) ->
  let full := InboxOk (map to_stamped (file_log (jsonl post) ++ channel_news w nm session))
                (mem_total (pre ++ post)) in
  exists b' reply,
    inbox (disk_env (healthy alive) w) b client since inc = Some (b', [Reply client reply]) /\
    if fits_frame full then reply = full
    else b' = b /\ exists msg, reply = ReplyErr EnvelopeTooLarge msg.
Proof.
  intros Hs Hr Hh Hid Hf Hn. cbv zeta. unfold inbox. rewrite Hr, Hs. cbv zeta.
  rewrite (healthy_drain_at alive w (MbAgent nm) pre post) by done. cbv beta iota.
  rewrite Hh, Hid. cbv beta iota.
  match goal with |- context [inbox_channels _ ?s ?c ?n ?chs ?es ?ad] =>
    destruct (inbox_channels_ok alive w s c n session chs es ad Hid) as (advs & ->) end.
  rewrite decode_lines_recs by (by apply Forall_app in Hn as [_ ?]). cbn [dr_next_offset].
  unfold channel_news. rewrite map_app, <- encode_fits.
  destruct (encode_frame _); simpl; eauto 10.
Qed.

(** A whole [Inbox] turn of the process. *)
Lemma inbox_step alive nie w client nm pre post since inc now wall :
  Inv (w_broker w) -> client ∈ w_senders w ->
  resolve_op_identity (disk_env (healthy alive) w) (w_broker w) client = Ok nm ->
  file_of w (MbAgent nm) = jsonl (pre ++ post) ->
  Forall (fun l => NEWLINE ∉ l) (pre ++ post) -> default 0%N since = blen (jsonl pre) ->
  exists w' reply id session,
    clients (w_broker w) !! id = Some session /\ name session = Some nm /\
    step (healthy alive) nie w (Frame client (Inbox since inc)) now wall = Running w' /\
    w_sent w' = w_sent w ++ [(client, reply)] /\ w_files w' = w_files w /\
    let full := InboxOk (map to_stamped (file_log (jsonl post) ++ channel_news w nm session))
                  (blen (file_of w (MbAgent nm))) in
    if fits_frame full then reply = full
    else clients_sim (w_broker w) (w_broker w') /\
      exists msg, reply = ReplyErr EnvelopeTooLarge msg.
Proof.
  intros HI Hin Hr Hf Hn Hs. rewrite Hf. rewrite blen_jsonl in Hs |- *. simpl. unfold call_broker.
  destruct (resolved_dispatch (disk_env (healthy alive) w) (w_broker w) client nm
    (Inbox since inc) now wall HI Hr) as (t & -> & HIt & Hun & Hrt & Hcan & _); [done|].
  destruct (resolve_has_holder _ _ _ _ Hr) as [id Hid].
  pose proof (proj1 (canonical_holder_iff _ _ _ HI) Hid) as (c & Hc & Hnm).
  destruct (clients_sim_l _ _ _ _ (un_sim _ _ Hun) Hc) as (c' & Hc' & Hss).
  rewrite <- Hcan in Hid.
  destruct (inbox_reply alive w t client nm pre post since inc id c' Hs Hrt Hid Hc' Hf Hn)
    as (b' & reply & Heq & Hreply).
  rewrite (channel_news_same w w nm c c' eq_refl Hss) in Hreply.
  simpl. rewrite Heq. eexists _, reply, id, c. split; [done|]. split; [done|].
  split; [done|]. unfold execute_outs. simpl. unfold deliver. simpl.
  rewrite bool_decide_true by done. simpl. split; [done|]. split; [done|].
  destruct (fits_frame _); [done|]. destruct Hreply as [-> Hmsg]. split; [apply (un_sim _ _ Hun)|done].
Qed.
End reading.

(** C2. Reading returns the log: on a healthy disk, an Inbox poll from any record
    boundary of the reader's own mailbox is answered with exactly the envelopes
    logged from there on, in order, each with its stamped origin, followed by
    exactly the new posts of the channels the reader's session joined (for each
    channel in order: what decodes among the first 256 records from the
    session's cursor on, less the reader's own posts), and with the end of file
    as the next cursor. The poll is refused as too large, leaving the sessions
    as they were, exactly when this whole reply does not fit a 16 MiB frame. *)
Theorem inbox_reads_the_log `{WireLib} alive nie w client nm pre post inc now wall :
  Inv (w_broker w) -> client ∈ w_senders w ->
  resolve_op_identity (disk_env (healthy alive) w) (w_broker w) client = Ok nm ->
  file_of w (MbAgent nm) = jsonl (pre ++ post) ->
  Forall (fun l => NEWLINE ∉ l) (pre ++ post) ->
  exists w' reply id session,
    clients (w_broker w) !! id = Some session /\ name session = Some nm /\
    step (healthy alive) nie w (Frame client (Inbox (Some (blen (jsonl pre))) inc)) now wall
      = Running w' /\
    w_sent w' = w_sent w ++ [(client, reply)] /\ w_files w' = w_files w /\
    let full := InboxOk (map to_stamped (file_log (jsonl post) ++ channel_news w nm session))
                  (blen (file_of w (MbAgent nm))) in
    if fits_frame full then reply = full
    else clients_sim (w_broker w) (w_broker w') /\
      exists msg, reply = ReplyErr EnvelopeTooLarge msg.
Proof. intros. by apply (inbox_step alive nie w client nm pre post). Qed.

(** ** A small live process: alice on connection 0, bob on connection 1 *)
Definition turn (ev : Event) : Turn := mkTurn (healthy (fun _ => true)) ev 0 wall0.
Definition boot_turns : list Turn :=
  map turn [Accept; Frame 0 (Hello 3 "cli" None); Frame 0 (Register "alice" 10 None true (Some Local));
            Accept; Frame 1 (Hello 3 "cli" None); Frame 1 (Register "bob" 11 None true (Some Local))].
Definition w_boot : World := boot false ∅ ∅ [] 0.
Definition w_two : World := world_of (run_loop false w_boot boot_turns) w_boot.

Section process_inv.
Context `{WL : WireLib}.

Lemma step_Inv io nie w ev now wall w' :
  Inv (w_broker w) -> step io nie w ev now wall = Running w' -> Inv (w_broker w').
Proof.
  intros HI. destruct ev; simpl; unfold call_broker.
  1-2: by intros [= <-].
  1-3: (destruct (handle _ _ _ _ _) as [[b outs]|] eqn:E; [|done]); intros [= <-];
    rewrite execute_outs_broker; by eapply handle_Inv.
  - case_match; by intros [= <-].
  - case_match; by intros [= <-].
  - done.
Qed.

Lemma run_loop_Inv nie w turns w' :
  Inv (w_broker w) -> run_loop nie w turns = Running w' -> Inv (w_broker w').
Proof.
  revert w. induction turns as [|t turns IH]; intros w HI; simpl; [by intros [= <-]|].
  destruct (step _ _ _ _ _ _) as [w1|?|] eqn:E; [|done|done]. intros Hr.
  eapply IH; [|done]. by eapply step_Inv.
Qed.
End process_inv.

Lemma w_two_Inv : Inv (w_broker w_two).
Proof.
  destruct (run_loop false w_boot boot_turns) as [w|w|] eqn:E.
  - unfold w_two. rewrite E. exact (run_loop_Inv false w_boot boot_turns w (Inv_new 0) E).
  - exfalso. vm_compute in E. discriminate.
  - exfalso. vm_compute in E. discriminate.
Qed.

Lemma send_is_delivered_witness :
  exists w' rows,
    step (healthy (fun _ => true)) false w_two
      (Frame 1 (Send (TgtAgent "alice") (msg_from "agent:h/bob"))) 0 wall0 = Running w' /\
    last (w_sent w') = Some (1%N, SendOk (task_id_from (msg_from "agent:h/bob")) rows) /\
    mailbox_log w' (MbAgent "alice") =
      mailbox_log w_two (MbAgent "alice") ++ [(client_origin (w_broker w_two) 1, msg_from "agent:h/bob")] /\
    (forall p, p <> mailbox_path (MbAgent "alice") -> w_files w' !! p = w_files w_two !! p) /\
    disk_whole w'.
Proof.
  apply (send_is_delivered _ _ w_two 1 (TgtAgent "alice") (msg_from "agent:h/bob") 0 wall0 "bob"
    (toy_print (msg_from "agent:h/bob"))).
  - apply w_two_Inv.
  - intros p f Hf. assert (Hw : w_files w_two = ∅) by (vm_compute; reflexivity).
    rewrite Hw in Hf. by rewrite lookup_empty in Hf.
  - apply (bool_decide_unpack _). vm_compute. exact I.
  - vm_compute. reflexivity.
  - vm_compute. reflexivity.
  - vm_compute. reflexivity.
  - vm_compute. reflexivity.
  - intros E. vm_compute in E. discriminate E.
  - vm_compute. reflexivity.
Defined.

(** A send over a torn write: the file still only grows. *)
Lemma mailboxes_append_only_witness :
  let io := mkIo (fun _ => None) (fun _ => Torn 3) (fun _ => true) true (fun _ => true)
              (fun _ => false) in
  let ev := Frame 1 (Send (TgtAgent "alice") (msg_from "agent:h/bob")) in
  exists w', step io false w_two ev 0 wall0 = Running w' /\
    w_files w' <> w_files w_two /\
    ((forall path, exists suffix,
       default [] (w_files w' !! path) = default [] (w_files w_two !! path) ++ suffix) /\
     (w_files w' <> w_files w_two -> exists client to e, ev = Frame client (Send to e))).
Proof.
  intros io ev. destruct (step io false w_two ev 0 wall0) as [w'|w'|] eqn:E.
  - exists w'. split; [reflexivity|]. split.
    + vm_compute in E. injection E as <-. vm_compute. discriminate.
    + exact (mailboxes_append_only io false w_two ev 0 wall0 w' E).
  - exfalso. vm_compute in E. discriminate E.
  - exfalso. vm_compute in E. discriminate E.
Qed.

(** Bob's message is what alice's poll returns. *)
Definition w_sent_one : World :=
  world_of (run_loop false w_two
    [turn (Frame 1 (Send (TgtAgent "alice") (msg_from "agent:h/bob")))]) w_two.
Definition bob_line : bytes :=
  match stamp_line (toy_print (msg_from "agent:h/bob")) Local with Ok b => b | Err _ => [] end.

Lemma w_sent_one_Inv : Inv (w_broker w_sent_one).
Proof.
  unfold w_sent_one. destruct (run_loop false w_two _) as [w|w|] eqn:E.
  - exact (run_loop_Inv false w_two _ w w_two_Inv E).
  - exfalso. vm_compute in E. discriminate.
  - exfalso. vm_compute in E. discriminate.
Qed.

(** The two meet in a channel, where bob posts as well. *)
Definition w_channel : World :=
  world_of (run_loop false w_two
    (map turn [Frame 0 (Join "#dev" None); Frame 1 (Join "#dev" None);
               Frame 1 (Send (TgtChannel "#dev") (msg_from "agent:h/bob"));
               Frame 1 (Send (TgtAgent "alice") (msg_from "agent:h/bob"))])) w_two.

Lemma w_channel_Inv : Inv (w_broker w_channel).
Proof.
  unfold w_channel. destruct (run_loop false w_two _) as [w|w|] eqn:E.
  - exact (run_loop_Inv false w_two _ w w_two_Inv E).
  - exfalso. vm_compute in E. discriminate.
  - exfalso. vm_compute in E. discriminate.
Qed.

Lemma inbox_reads_the_log_witness :
  file_log (jsonl [bob_line]) = [(Local, msg_from "agent:h/bob")] /\
  fmap (channel_news w_channel "alice") (clients (w_broker w_channel) !! 0%N) =
    Some [(Local, msg_from "agent:h/bob")] /\
  exists w' reply id session,
    clients (w_broker w_channel) !! id = Some session /\ name session = Some "alice" /\
    step (healthy (fun _ => true)) false w_channel (Frame 0 (Inbox (Some 0%N) None)) 0 wall0
      = Running w' /\
    w_sent w' = w_sent w_channel ++ [(0%N, reply)] /\ w_files w' = w_files w_channel /\
    let full := InboxOk (map to_stamped (file_log (jsonl [bob_line]) ++ channel_news w_channel "alice" session))
                  (blen (file_of w_channel (MbAgent "alice"))) in
    if fits_frame full then reply = full
    else clients_sim (w_broker w_channel) (w_broker w') /\
      exists msg, reply = ReplyErr EnvelopeTooLarge msg.
Proof.
  split; [vm_compute; reflexivity|]. split; [vm_compute; reflexivity|].
  apply (inbox_reads_the_log (fun _ => true) false w_channel 0 "alice" [] [bob_line] None 0 wall0).
  - apply w_channel_Inv.
  - apply (bool_decide_unpack _). vm_compute. exact I.
  - vm_compute. reflexivity.
  - vm_compute. reflexivity.
  - apply Forall_singleton. apply (bool_decide_unpack _). vm_compute. exact I.
Defined.
