(* ===== verification/Process.v ===== *)
(** * The run loop as a process

    No event makes the broker process panic, connection ids are never reused,
    and the idle timer never ends a process that still has connections. *)

From stdpp Require Import gmap strings list fin_maps sorting.
From S2P Require Import Prelude Json Proto Mailbox Origin WireInstance Serde Codec.
From S2P Require Import DrainWalk BrokerState Awaiting Handle BrokerInv Scenario.
From S2P Require Import Executor BrokerProps SessionProps Lifecycle Delivery.

Section locals.
Context `{WL : WireLib}.

(** Effects never touch the loop's own counters. *)
Lemma execute_outs_locals io now outs w :
  let w' := execute_outs io now outs w in
  w_client_count w' = w_client_count w /\ w_next_id w' = w_next_id w /\ w_idle w' = w_idle w /\
  w_senders w' ⊆ w_senders w.
Proof.
  cbv zeta. unfold execute_outs. revert w. induction outs as [|o outs IH]; intros w; [done|].
  simpl. destruct (IH (execute_out io now w o)) as (-> & -> & -> & Hs).
  assert (w_client_count (execute_out io now w o) = w_client_count w /\
    w_next_id (execute_out io now w o) = w_next_id w /\
    w_idle (execute_out io now w o) = w_idle w /\
    w_senders (execute_out io now w o) ⊆ w_senders w) as (-> & -> & -> & Ho).
  { destruct o; simpl; try done; unfold deliver; repeat case_match; simpl;
      split_and!; set_solver. }
  split_and!; [done..|]. by etransitivity.
Qed.

Lemma alter_adds (id i : N) f (m : gmap N ClientState) :
  is_Some (alter f id m !! i) -> is_Some (m !! i).
Proof. rewrite lookup_alter. case_decide; [|done]. subst. by rewrite fmap_is_Some. Qed.

Lemma sim_adds s s' i :
  clients_sim s s' -> is_Some (clients s' !! i) -> is_Some (clients s !! i).
Proof. intros Hs [c Hc]. destruct (clients_sim_r s s' i c Hs Hc) as (c0 & ? & _). eauto. Qed.

Lemma commit_adds s canonical l i :
  is_Some (clients (commit_advances s canonical l) !! i) -> is_Some (clients s !! i).
Proof.
  unfold commit_advances. revert s. induction l as [|[mb o] l IH]; intros s; simpl; [done|].
  intros Hi%IH. by apply alter_adds in Hi.
Qed.

(** A request adds at most its own connection's record. *)
Lemma dispatch_adds env s client msg now wall s' outs i :
  dispatch env s client msg now wall = Some (s', outs) -> i <> client ->
  is_Some (clients s' !! i) -> is_Some (clients s !! i).
Proof.
  intros Hd Hne Hi. destruct msg; cbn [dispatch] in Hd.
  4: { unfold inbox in Hd. repeat case_match; simplify_eq;
       first [done|by apply commit_adds in Hi]. }
  all: apply (inj Some), (f_equal fst) in Hd; cbn [fst] in Hd; subst s'.
  3: { eapply sim_adds; [|exact Hi]. apply (wk_sim _ _ (send_wakes env s client to envelope)). }
  3: { eapply sim_adds; [|exact Hi]. apply await_sim. }
  all: unfold hello, register, join, leave, sessions, whoami, set_listen, set_wake_addr in Hi;
    repeat case_match; simpl in Hi; try done;
    try (by rewrite lookup_insert_ne in Hi);
    by apply alter_adds in Hi.
Qed.

Lemma handle_adds env s input now wall s' outs i :
  handle env s input now wall = Some (s', outs) -> is_Some (clients s' !! i) ->
  is_Some (clients s !! i) \/ exists msg, input = Wire i msg.
Proof.
  intros Hh Hi. destruct input as [client msg|client|].
  - destruct (decide (i = client)) as [->|Hne]; [by right; exists msg|]. left.
    simpl in Hh. unfold handle_wire in Hh.
    destruct (negb (is_hello msg) && _); [by simplify_eq|].
    destruct (is_hello msg && _); [by simplify_eq|].
    apply dispatch_adds with (i := i) in Hh; [|done..].
    destruct (touches msg); [|done]. eapply sim_adds; [|exact Hh]. apply touch_activity_sim.
  - simpl in Hh. apply (inj Some), (f_equal fst) in Hh. simpl in Hh. subst s'.
    rewrite disconnect_clients in Hi. destruct Hi as [c Hc].
    apply lookup_delete_Some in Hc as [_ Hc]. eauto.
  - simpl in Hh. apply (inj Some) in Hh. pose proof (tick_lookup env s now) as Ht.
    rewrite Hh in Ht. destruct Ht as [Ht _]. rewrite Ht in Hi.
    case_decide; [by destruct Hi|]. by left.
Qed.
End locals.

(** ** Well-formed histories: frames and closes come from accepted connections *)
Definition event_ok (accepted : N) (ev : Event) : bool :=
  match ev with
  | Frame c _ | ConnClosed c | InspectDone c _ => (c <? accepted)%N
  | _ => true
  end.
Definition bump (ev : Event) (n : N) : N := match ev with Accept => (n + 1)%N | _ => n end.
Fixpoint turns_ok (accepted : N) (turns : list Turn) : bool :=
  match turns with
  | [] => true
  | t :: rest => event_ok accepted (tn_event t) && turns_ok (bump (tn_event t) accepted) rest
  end.

Definition accepts (turns : list Turn) : N :=
  foldr (fun t n => bump (tn_event t) n) 0%N turns.
Definition closes (turns : list Turn) : N :=
  foldr (fun t n => match tn_event t with ConnClosed _ => (n + 1)%N | _ => n end) 0%N turns.

Section process.
Context `{WL : WireLib}.

Lemma step_total io nie w ev now wall : step io nie w ev now wall <> Panicked.
Proof.
  destruct ev; simpl; unfold call_broker; try done;
    try (match goal with |- context [handle ?e ?s ?i ?n ?w] =>
      destruct (handle_total e s i n w) as (? & ? & ->) end; done);
    by case_match.
Qed.

(** Every id the process knows was handed out before the next one. *)
Definition ids_below (w : World) : Prop :=
  (forall i, is_Some (clients (w_broker w) !! i) -> (i < w_next_id w)%N) /\
  (forall i, i ∈ w_senders w -> (i < w_next_id w)%N).

Lemma call_broker_ids io w input now wall w' outs :
  ids_below w -> (forall i msg, input = Wire i msg -> (i < w_next_id w)%N) ->
  call_broker io w input now wall = Some (w', outs) ->
  ids_below w' /\ w_next_id w' = w_next_id w /\ w_idle w' = w_idle w /\
  w_client_count w' = w_client_count w.
Proof.
  unfold call_broker. intros [Hc Hs] Hin.
  destruct (handle _ _ _ _ _) as [[b o]|] eqn:Eh; [|done]. intros [= <- <-].
  split; [|done]. split; [|done]. intros i Hi. simpl in *.
  destruct (handle_adds _ _ _ _ _ _ _ _ Eh Hi) as [?|[msg ->]]; [by apply Hc|].
  by eapply Hin.
Qed.

Lemma execute_outs_ids io now outs w : ids_below w -> ids_below (execute_outs io now outs w).
Proof.
  intros [Hc Hs]. destruct (execute_outs_locals io now outs w) as (_ & Hn & _ & Hsub).
  split; intros i Hi; rewrite Hn; [|by apply Hs, Hsub].
  rewrite execute_outs_broker in Hi. by apply Hc.
Qed.
End process.

Section loop.
Context `{WL : WireLib} (nie : bool).

(** The loop's bookkeeping: the timer runs only with nobody connected, and
    the count never falls below the connections still open. *)
Record books (w : World) (acc cls : N) : Prop := {
  bk_ids : ids_below w;
  bk_next : w_next_id w = acc;
  bk_idle : w_idle w = true -> w_client_count w = 0%N /\ nie = false;
  bk_count : (acc <= w_client_count w + cls)%N
}.

(** A broker call and its effects leave the books alone. *)
Lemma books_call io w w1 outs input now wall acc cls :
  books w acc cls -> (forall i msg, input = Wire i msg -> (i < w_next_id w)%N) ->
  call_broker io w input now wall = Some (w1, outs) ->
  books (execute_outs io now outs w1) acc cls.
Proof.
  intros [Hids Hn Hi Hcnt] Hin Hc.
  destruct (call_broker_ids io w input now wall w1 outs Hids Hin Hc) as (Hids1 & Hn1 & Hi1 & Hc1).
  destruct (execute_outs_locals io now outs w1) as (Hc2 & Hn2 & Hi2 & _).
  split; [by apply execute_outs_ids|congruence|..]; rewrite ?Hc2, ?Hi2, ?Hi1, ?Hc1; done.
Qed.

Lemma books_closed io w w1 outs c now wall acc cls :
  books w acc cls -> call_broker io w (Disconnect c) now wall = Some (w1, outs) ->
  let count := N.pred (w_client_count w1) in
  let w2 := with_senders (w_senders w1 ∖ {[c]}) w1 in
  books (execute_outs io now outs (with_clients_idle count (w_next_id w2)
    (if (count =? 0)%N && negb nie then true else w_idle w2) w2)) acc (cls + 1).
Proof.
  intros [Hids Hn Hi Hcnt] Hc. cbv zeta.
  destruct (call_broker_ids io w (Disconnect c) now wall w1 outs Hids) as (Hids1 & Hn1 & Hi1 & Hc1);
    [done..|].
  match goal with |- books (execute_outs _ _ _ ?w3) _ _ =>
    destruct (execute_outs_locals io now outs w3) as (Hc3 & Hn3 & Hi3 & _) end.
  split.
  - apply execute_outs_ids. destruct Hids1 as [H1 H2]. split; simpl; [done|].
    intros i Hin. apply H2. set_solver.
  - rewrite Hn3. simpl. congruence.
  - rewrite Hi3, Hc3. simpl. destruct (_ && _) eqn:E.
    + apply andb_true_iff in E as [E1%N.eqb_eq E2%negb_true_iff]. done.
    + rewrite Hi1. intros Hidle. destruct (Hi Hidle) as [H0 ->]. rewrite Hc1, H0. done.
  - rewrite Hc3. simpl. rewrite Hc1. lia.
Qed.

Definition closed (ev : Event) (n : N) : N := match ev with ConnClosed _ => (n + 1)%N | _ => n end.

Lemma books_step io w ev now wall w' acc cls :
  books w acc cls -> event_ok acc ev = true -> step io nie w ev now wall = Running w' ->
  books w' (bump ev acc) (closed ev cls).
Proof.
  intros Hb Hok Hs. pose proof Hb as [Hids Hn Hi Hcnt].
  destruct ev as [| |c msg|c| |c payload| |]; simpl in Hs, Hok |- *.
  - injection Hs as <-. destruct Hids as [H1 H2]. split; simpl; [|lia|done|lia].
    split; simpl; [intros i Hx; apply H1 in Hx; lia|].
    intros i [->%elem_of_singleton|Hx%H2]%elem_of_union; lia.
  - by injection Hs as <-.
  - destruct (call_broker io w (Wire c msg) now wall) as [[w1 outs]|] eqn:Ec; [|done].
    injection Hs as <-. eapply books_call; [done| |done].
    intros i msg' [= <- _]. rewrite Hn. by apply N.ltb_lt.
  - destruct (call_broker io w (Disconnect c) now wall) as [[w1 outs]|] eqn:Ec; [|done].
    injection Hs as <-. by apply (books_closed io w w1 outs c now wall).
  - destruct (call_broker io w Tick now wall) as [[w1 outs]|] eqn:Ec; [|done].
    injection Hs as <-. by apply (books_call io w w1 outs Tick now wall).
  - destruct (forallb _ _); injection Hs as <-; [done|]. by split.
  - destruct (w_idle w); [done|]. by injection Hs as <-.
  - done.
Qed.

Lemma books_run turns w w' acc cls :
  books w acc cls -> turns_ok acc turns = true -> run_loop nie w turns = Running w' ->
  books w' (acc + accepts turns) (cls + closes turns).
Proof.
  revert w acc cls. induction turns as [|t turns IH]; intros w acc cls Hb; simpl.
  { intros _ [= <-]. by rewrite !N.add_0_r. }
  intros [Hok Hrest]%andb_true_iff.
  destruct (step (tn_io t) nie w (tn_event t) (tn_now t) (tn_wall t)) as [w1|w1|] eqn:Es;
    [|done|done].
  intros Hr. pose proof (books_step _ _ _ _ _ _ _ _ Hb Hok Es) as Hb1.
  specialize (IH _ _ _ Hb1 Hrest Hr).
  destruct (tn_event t); simpl in IH |- *; try done.
  - by replace (acc + (accepts turns + 1))%N with (acc + 1 + accepts turns)%N by lia.
  - by replace (cls + (closes turns + 1))%N with (cls + 1 + closes turns)%N by lia.
Qed.

Lemma books_boot files cursors sessions w0 : books (boot nie files cursors sessions w0) 0 0.
Proof.
  split; simpl; [|done|by destruct nie|lia].
  split; intros i; simpl; [rewrite lookup_empty; by intros []|set_solver].
Qed.
End loop.

(** The broker process never panics: no sequence of connections, frames,
    closes, ticks and inspector completions, over any disk contents and with any
    system faults, ends in a panic. *)
Theorem process_never_panics `{WireLib} nie w turns : run_loop nie w turns <> Panicked.
Proof.
  revert w. induction turns as [|t turns IH]; intros w; simpl; [done|].
  pose proof (step_total (tn_io t) nie w (tn_event t) (tn_now t) (tn_wall t)).
  by destruct (step _ _ _ _ _ _).
Qed.

(** Connection ids are fresh: in any history in which frames come from
    accepted connections, the id the next accepted connection will get belongs
    to no session, no parked await and no reply channel, so a new connection
    can inherit nothing from an old one. *)
Theorem connection_ids_are_fresh `{WireLib} nie files cursors sessions w0 turns w :
  turns_ok 0 turns = true ->
  run_loop nie (boot nie files cursors sessions w0) turns = Running w ->
  w_next_id w = accepts turns /\
  clients (w_broker w) !! w_next_id w = None /\
  pending_awaits (w_broker w) !! w_next_id w = None /\ w_next_id w ∉ w_senders w.
Proof.
  intros Hok Hr.
  destruct (books_run nie turns _ w 0 0 (books_boot nie files cursors sessions w0) Hok Hr)
    as [[Hc Hs] Hn _ _].
  pose proof (run_loop_Inv nie (boot nie files cursors sessions w0) turns w (Inv_new w0) Hr)
    as HI.
  assert (Hnone : clients (w_broker w) !! w_next_id w = None).
  { apply eq_None_not_Some. intros Hx%Hc. lia. }
  split_and!; [done|done|..].
  - apply eq_None_not_Some. intros [p Hp].
    destruct (inv_pending _ HI _ _ Hp) as (c & Hcl & _). congruence.
  - intros Hx%Hs. lia.
Qed.

Lemma connection_ids_are_fresh_witness :
  w_next_id w_two = 2%N /\ clients (w_broker w_two) !! 2%N = None.
Proof.
  destruct (run_loop false w_boot boot_turns) as [w|w|] eqn:E;
    [|exfalso; vm_compute in E; discriminate|exfalso; vm_compute in E; discriminate].
  assert (Hw : w_two = w) by (unfold w_two; rewrite E; reflexivity). rewrite Hw.
  destruct (connection_ids_are_fresh false ∅ ∅ [] 0 boot_turns w eq_refl E) as (Hn & Hc & _).
  rewrite Hn in Hc. split; [exact Hn|exact Hc].
Qed.

(** The idle exit is safe: the process leaves through the idle timer only
    when idle exit is enabled and at least as many connections have closed as
    were accepted; with a connection open it keeps running. *)
Theorem idle_exit_is_safe `{WireLib} nie files cursors sessions w0 turns w io now wall w' :
  turns_ok 0 turns = true ->
  run_loop nie (boot nie files cursors sessions w0) turns = Running w ->
  step io nie w IdleElapsed now wall = Exited w' ->
  nie = false /\ (accepts turns <= closes turns)%N.
Proof.
  intros Hok Hr Hs.
  destruct (books_run nie turns _ w 0 0 (books_boot nie files cursors sessions w0) Hok Hr)
    as [_ _ Hi Hc].
  simpl in Hs. destruct (w_idle w) eqn:Ei; [|done]. destruct (Hi eq_refl) as [H0 ->].
  split; [done|]. lia.
Qed.

Lemma idle_exit_is_safe_witness :
  step (healthy (fun _ => true)) false w_boot IdleElapsed 0 wall0 = Exited w_boot /\
  (accepts [] <= closes [])%N.
Proof.
  split; [reflexivity|].
  apply (idle_exit_is_safe false ∅ ∅ [] 0 [] w_boot (healthy (fun _ => true)) 0 wall0 w_boot);
    reflexivity.
Qed.
