(* ===== verification/Findings.v ===== *)
(** * Runs in which the code does not do what it says

    Concrete executions of the modelled process, evaluated. *)

From Stdlib Require Import Strings.Byte.
From stdpp Require Import gmap strings list fin_maps sorting.
From S2P Require Import Prelude Json Proto Mailbox Origin WireInstance Serde Codec Envelope.
From S2P Require Import DrainWalk BrokerState Awaiting Handle BrokerInv Scenario.
From S2P Require Import Executor BrokerProps Delivery.

Definition run_from (w : World) (evs : list Event) : World :=
  world_of (run_loop false w (map turn evs)) w.

(** Two messages of equal size to alice, with a proxy of alice and alice
    herself both parked before her mailbox file exists. *)
Definition first_msg : Value := note_from "agent:h/bob" "one".
Definition second_msg : Value := note_from "agent:h/bob" "two".

Definition two_waiters : list Event :=
  [Accept; Frame 2 (Hello 3 "cli" (Some "alice"));
   Frame 0 (Await 1000 None); Frame 2 (Await 1000 None);
   Frame 1 (Send (TgtAgent "alice") first_msg); Frame 1 (Send (TgtAgent "alice") second_msg);
   Frame 0 (Await 1000 None)].

Definition mentions (e : Value) (r : BusReply) : bool :=
  match r with
  | AwaitOk envs _ _ => existsb (fun s => bool_decide (st_envelope s = e)) envs
  | _ => false
  end.

(** Finding: both waiters of one identity are answered with the first message and each
    wake moves the shared await cursor by its length, because an absent mailbox
    echoes the cursor back.  The second message lands below that cursor: it is
    acknowledged and logged, but alice's next await skips it and parks. *)
Theorem sibling_waiters_skip_a_message :
  let w := run_from w_two two_waiters in
  (Local, second_msg) ∈ mailbox_log w (MbAgent "alice") /\
  existsb (fun '(_, r) => mentions second_msg r) (w_sent w) = false /\
  pending_awaits (w_broker w) !! 0%N <> None.
Proof.
  cbv zeta. split_and!.
  - apply (bool_decide_unpack _). vm_compute. exact I.
  - vm_compute. reflexivity.
  - vm_compute. discriminate.
Qed.

Definition torn_write : Io :=
  mkIo (fun _ => None) (fun _ => Torn 3) (fun _ => true) true (fun _ => true) (fun _ => false).
Definition torn_then_send : list Turn :=
  [mkTurn torn_write (Frame 1 (Send (TgtAgent "alice") first_msg)) 0 wall0;
   turn (Frame 1 (Send (TgtAgent "alice") second_msg))].

(** Finding: an append that fails part-way leaves a torn tail; the next append
    is glued to it, so the record that follows is undecodable although its sender
    was answered SendOk and its own append succeeded. *)
Theorem torn_tail_swallows_the_next_append :
  let w := world_of (run_loop false w_two torn_then_send) w_two in
  (exists rows, last (w_sent w) = Some (1%N, SendOk (task_id_from second_msg) rows)) /\
  mailbox_log w (MbAgent "alice") = [].
Proof. split; [eexists|]; vm_compute; reflexivity. Qed.

(** A registered client that registers again under another name stays listed,
    under its old name, in every channel it had joined. *)
Definition renamed : BrokerState :=
  state_after quiet_env 0 wall0 s_two
    [Wire 1 (Join "#dev" None); Wire 1 (Register "carol" 10 None true (Some Local));
     Disconnect 1].

Theorem rename_leaves_a_ghost_member :
  clients renamed !! 1%N = None /\ channels renamed !! "#dev" = Some {["alice"]}.
Proof. split; vm_compute; reflexivity. Qed.

(** A role survives the session that set it, so the next holder of the name
    inherits it on joining without one. *)
Definition stale_role : BrokerState :=
  state_after quiet_env 0 wall0 s_two [Wire 1 (Join "#dev" (Some "lead")); Disconnect 1].

Theorem disconnect_keeps_channel_roles :
  clients stale_role !! 1%N = None /\ channels stale_role !! "#dev" = Some ∅ /\
  channel_roles stale_role !! ("#dev", "alice") = Some "lead".
Proof. split_and!; vm_compute; reflexivity. Qed.

(** [Join] takes any string: a channel named like an agent shares its file. *)
Theorem channel_may_alias_an_agent_mailbox :
  mailbox_path (MbChannel "alice") = mailbox_path (MbAgent "alice") /\
  exists s' reply off,
    handle quiet_env s_two (Wire 2 (Join "alice" None)) 0 wall0 =
      Some (s', [Reply 2 reply; AdvanceCursor (MbChannel "alice") off]).
Proof.
  split; [reflexivity|].
  destruct (handle quiet_env s_two (Wire 2 (Join "alice" None)) 0 wall0) as [[s o]|] eqn:E;
    vm_compute in E; [|discriminate E].
  injection E as <- <-. eexists _, _, _. reflexivity.
Qed.
