(* ===== verification/InboxReader.v ===== *)
(** * The operator-side readers of mailbox files

    [crates/famp-inbox/src/read.rs] ([read_all], [read_from]) and
    [crates/famp-inbox/src/cursor.rs] ([InboxCursor]), with the theorem that
    they see the same records as the broker's own reader. *)

From Stdlib Require Import Strings.Byte Ascii.
From stdpp Require Import gmap strings list fin_maps sorting pretty.
From S2P Require Import Prelude Json Proto Mailbox WireInstance Origin Executor.

Inductive InboxReadError :=
| ReadIo (msg : string)
| CorruptLine (line_no : nat) (source : string)
| CursorParse.

(** [bytes.split(|&b| b == b'\n')]: never empty. *)
Fixpoint split_newline (b : bytes) : list bytes :=
  match b with
  | [] => [[]]
  | x :: b =>
      if decide (x = NEWLINE) then [] :: split_newline b
      else match split_newline b with
           | l :: ls => (x :: l) :: ls
           | [] => [[x]]
           end
  end.

Definition ends_with_newline (b : bytes) : bool := bool_decide (last b = Some NEWLINE).

Section readers.
Context `{WL : WireLib}.

(** The loop of [read_all] from line number [line_no]. *)
Fixpoint read_all_loop (file_ends_with_newline : bool) (line_no : nat) (chunks : list bytes)
  (out : list Value) : result (list Value) InboxReadError :=
  match chunks with
  | [] => Ok out
  | [chunk] =>
      if file_ends_with_newline then Ok out
      else if bool_decide (chunk = []) then Ok out
      else match from_slice chunk with Ok value => Ok (out ++ [value]) | Err _ => Ok out end
  | chunk :: rest =>
      match from_slice chunk with
      | Ok value => read_all_loop file_ends_with_newline (S line_no) rest (out ++ [value])
      | Err source => Err (CorruptLine line_no source)
      end
  end.

Definition read_all (file : FileRead) : result (list Value) InboxReadError :=
  match file with
  | FileMissing => Err (ReadIo "not found")
  | FileIoError msg => Err (ReadIo msg)
  | FileBytes bs =>
      if bool_decide (bs = []) then Ok []
      else read_all_loop (ends_with_newline bs) 1 (split_newline bs) []
  end.

(** The loop of [read_from]; the last chunk is always dropped. *)
Fixpoint read_from_loop (line_no : nat) (running : N) (chunks : list bytes)
  (out : list (Value * N)) : result (list (Value * N)) InboxReadError :=
  match chunks with
  | [] | [_] => Ok out
  | chunk :: rest =>
      match from_slice chunk with
      | Ok value =>
          let running := (running + (blen chunk + 1))%N in
          read_from_loop (S line_no) running rest (out ++ [(value, running)])
      | Err source => Err (CorruptLine line_no source)
      end
  end.

Definition read_from (file : FileRead) (start_offset : N)
  : result (list (Value * N)) InboxReadError :=
  match file with
  | FileMissing => Ok []
  | FileIoError msg => Err (ReadIo msg)
  | FileBytes bs =>
      if (blen bs <=? start_offset)%N then Ok []
      else
        let start := N.to_nat start_offset in
        let snapped :=
          if (start =? 0)%nat || bool_decide (bs !! (start - 1)%nat = Some NEWLINE)
          then Some start
          else match position_newline (drop start bs) with
               | Some off => Some (start + off + 1)%nat
               | None => None
               end in
        match snapped with
        | None => Ok []
        | Some snapped =>
            if (length bs <=? snapped)%nat then Ok []
            else read_from_loop 1 (N.of_nat snapped) (split_newline (drop snapped bs)) []
        end
  end.
End readers.

(** ** Cursor files *)

(** [str::parse::<u64>] on the digits after an optional plus sign. *)
Fixpoint parse_digits (acc : N) (s : string) : option N :=
  match s with
  | EmptyString => Some acc
  | String c s =>
      if is_digit c then
        let acc := (acc * 10 + (N_of_ascii c - 48))%N in
        if (acc <=? u64_max)%N then parse_digits acc s else None
      else None
  end.
Definition parse_u64 (s : string) : option N :=
  let digits := match s with String "+"%char r => r | _ => s end in
  match digits with EmptyString => None | _ => parse_digits 0 digits end.


(** [trim_end_matches('\n')]. *)
Fixpoint trim_end_lf (s : string) : string :=
  match s with
  | EmptyString => EmptyString
  | String c r =>
      match trim_end_lf r with
      | EmptyString => if Ascii.eqb c LF then EmptyString else String c EmptyString
      | r' => String c r'
      end
  end.

(** [InboxCursor::read] on the file's text, [None] when it does not exist. *)
Definition cursor_read (text : option string) : result N InboxReadError :=
  match text with
  | None => Ok 0%N
  | Some t => match parse_u64 (trim_end_lf t) with Some n => Ok n | None => Err CursorParse end
  end.

(** [InboxCursor::advance]: the text written. *)
Definition cursor_advance (offset : N) : string := pretty offset +:+ String LF EmptyString.

(** ** Splitting and the broker's loop *)

(** The newline-terminated lines of [b]; the unterminated rest is dropped. *)
Definition complete_lines (b : bytes) : list bytes := removelast (split_newline b).

Lemma split_newline_cons b : exists l ls, split_newline b = l :: ls.
Proof.
  destruct b as [|x b]; simpl; [eauto|]. case_decide; [eauto|].
  destruct (split_newline b); eauto.
Qed.

Lemma split_newline_None b : position_newline b = None -> split_newline b = [b].
Proof.
  induction b as [|x b IH]; cbn [position_newline split_newline]; [done|]. case_decide; [done|].
  destruct (position_newline b); [done|]. intros _. by rewrite IH.
Qed.

Lemma split_newline_Some b n :
  position_newline b = Some n ->
  split_newline b = take n b :: split_newline (drop (S n) b).
Proof.
  revert n. induction b as [|x b IH]; intros n; cbn [position_newline split_newline]; [done|].
  case_decide as Hx; [by intros [= <-]|].
  destruct (position_newline b) as [m|]; simpl; [|done]. intros [= <-].
  rewrite (IH m) by done. done.
Qed.

Lemma complete_lines_step b n :
  position_newline b = Some n ->
  complete_lines b = take n b :: complete_lines (drop (S n) b).
Proof.
  intros H. unfold complete_lines. rewrite (split_newline_Some b n H). simpl.
  destruct (split_newline_cons (drop (S n) b)) as (l & ls & ->). done.
Qed.

Lemma complete_lines_None b : position_newline b = None -> complete_lines b = [].
Proof. intros H. unfold complete_lines. by rewrite split_newline_None. Qed.

Lemma raw_loop_split fuel bs cursor running acc :
  (length bs - cursor <= fuel)%nat ->
  raw_loop fuel bs cursor running acc =
  (acc ++ recs_from running (complete_lines (drop cursor bs)),
   (running + mem_total (complete_lines (drop cursor bs)))%N).
Proof.
  revert cursor running acc. induction fuel as [|fuel IH]; intros cursor running acc Hf; simpl.
  { rewrite drop_ge by lia. simpl. by rewrite app_nil_r, N.add_0_r. }
  destruct (cursor <? length bs)%nat eqn:Ec.
  2:{ apply Nat.ltb_ge in Ec. rewrite drop_ge by done. simpl. by rewrite app_nil_r, N.add_0_r. }
  destruct (position_newline (drop cursor bs)) as [n|] eqn:Ep.
  - apply Nat.ltb_lt in Ec. pose proof (position_newline_lt _ _ Ep) as Hn.
    rewrite length_drop in Hn. rewrite IH by lia.
    rewrite (complete_lines_step _ _ Ep), drop_drop, <- app_assoc.
    replace (cursor + S n)%nat with (cursor + n + 1)%nat by lia. simpl.
    assert (line_size (take n (drop cursor bs)) =
      (N.of_nat n + JSONL_RECORD_TERMINATOR_LEN)%N) as ->.
    { unfold line_size, blen. rewrite length_take, length_drop. f_equal. lia. }
    f_equal. lia.
  - rewrite complete_lines_None by done. simpl. by rewrite app_nil_r, N.add_0_r.
Qed.

Section agreement.
Context `{WL : WireLib}.

(** A reader's entry for a record: its parsed text and its end offset. *)
Definition entry_of (r : DrainedRecord) (e : Value * N) : Prop :=
  from_slice (rec_bytes r) = Ok e.1 /\ rec_end r = e.2.

(** What reading [rs] means: every record parsed, or the first that does not,
    numbered from [k]. *)
Definition reads (k : nat) (rs : list DrainedRecord)
  (res : result (list (Value * N)) InboxReadError) : Prop :=
  match res with
  | Ok out => Forall2 entry_of rs out
  | Err e => exists n r src, rs !! n = Some r /\ from_slice (rec_bytes r) = Err src /\
      e = CorruptLine (k + n) src /\
      Forall (fun r => is_ok (from_slice (rec_bytes r)) = true) (take n rs)
  end.

Lemma read_from_loop_step k running c c' chunks out :
  read_from_loop k running (c :: c' :: chunks) out =
  match from_slice c with
  | Ok value => read_from_loop (S k) (running + line_size c) (c' :: chunks)
                  (out ++ [(value, running + line_size c)%N])
  | Err source => Err (CorruptLine k source)
  end.
Proof. done. Qed.

Lemma read_from_loop_acc k running chunks out :
  read_from_loop k running chunks out =
  match read_from_loop k running chunks [] with Ok new => Ok (out ++ new) | Err e => Err e end.
Proof.
  revert k running out. induction chunks as [|c chunks IH]; intros k running out.
  { simpl. by rewrite app_nil_r. }
  destruct chunks as [|c' chunks]; [simpl; by rewrite app_nil_r|].
  rewrite !read_from_loop_step. destruct (from_slice c) as [v|]; [|done].
  rewrite IH. rewrite (IH _ _ ([] ++ [_])). destruct (read_from_loop _ _ (c' :: chunks) []); [|done].
  by rewrite <- app_assoc.
Qed.

Lemma read_from_loop_reads k running chunks :
  reads k (recs_from running (removelast chunks)) (read_from_loop k running chunks []).
Proof.
  revert k running. induction chunks as [|c chunks IH]; intros k running; [constructor|].
  destruct chunks as [|c' chunks]; [constructor|].
  change (removelast (c :: c' :: chunks)) with (c :: removelast (c' :: chunks)).
  cbn [recs_from]. rewrite read_from_loop_step. destruct (from_slice c) as [v|src] eqn:Ec.
  - specialize (IH (S k) (running + line_size c)%N).
    rewrite read_from_loop_acc.
    destruct (read_from_loop (S k) _ (c' :: chunks) []) as [new|e]; simpl in *.
    + by constructor.
    + destruct IH as (n & r & src & Hr & Hp & -> & Hall). exists (S n), r, src.
      split_and!; [done|done|f_equal; lia|]. simpl. constructor; [simpl; by rewrite Ec|done].
  - exists 0%nat, (mkRecord c running (running + line_size c)), src.
    split_and!; [done|done|f_equal; lia|constructor].
Qed.

Lemma read_from_reads bs since :
  reads 1 (dr_records (read_raw_bytes bs since)) (read_from (FileBytes bs) since).
Proof.
  unfold read_raw_bytes, read_from. destruct (blen bs <=? since)%N; [constructor|].
  cbv zeta. match goal with |- context [match ?x with Some _ => _ | None => mkDrain _ _ end] =>
    destruct x as [n|] end; [|constructor].
  destruct (length bs <=? n)%nat; [constructor|].
  rewrite raw_loop_split by lia. simpl. apply read_from_loop_reads.
Qed.
End agreement.

(** The two readers of a mailbox agree: for any file contents (torn tails
    included) and any cursor, [famp inbox]/[famp await]'s [read_from] returns,
    for exactly the records the broker drains from that cursor and in the same
    order, each record's JSON and its end offset; and when it refuses a file, the
    line it blames is the first drained record that is not JSON. *)
Theorem inbox_reader_agrees_with_broker `{WireLib} bs since :
  let records := dr_records (read_raw_bytes bs since) in
  match read_from (FileBytes bs) since with
  | Ok out => Forall2 (fun r e => from_slice (rec_bytes r) = Ok e.1 /\ rec_end r = e.2) records out
  | Err e => exists n r src, records !! n = Some r /\ from_slice (rec_bytes r) = Err src /\
      e = CorruptLine (1 + n) src /\
      Forall (fun r => is_ok (from_slice (rec_bytes r)) = true) (take n records)
  end.
Proof. exact (read_from_reads bs since). Qed.

(** ** Cursor round trip *)
Definition digit_check (n : N) : bool :=
  is_digit (pretty_N_char n) && (N_of_ascii (pretty_N_char n) - 48 =? n)%N.

Lemma pretty_char_digit n :
  (n < 10)%N -> is_digit (pretty_N_char n) = true /\ (N_of_ascii (pretty_N_char n) - 48 = n)%N.
Proof.
  intros H. assert (Hall : forallb digit_check (map N.of_nat (seq 0 10)) = true) by reflexivity.
  rewrite forallb_forall in Hall. assert (Hin : In n (map N.of_nat (seq 0 10))).
  { apply in_map_iff. exists (N.to_nat n). rewrite in_seq. split; lia. }
  apply Hall, andb_true_iff in Hin as [? ?%N.eqb_eq]. done.
Qed.

Lemma parse_pretty_go x s :
  (x <= u64_max)%N -> parse_digits 0 (pretty_N_go x s) = parse_digits x s.
Proof.
  revert s. induction (N.lt_wf_0 x) as [x _ IH]; intros s Hx.
  destruct (decide (x = 0)%N) as [->|Hne]; [done|].
  assert (Hd : (x / 10 < x)%N) by (apply N.div_lt; lia).
  pose proof (N.div_mod x 10) as Hdm. pose proof (N.mod_lt x 10) as Hml.
  rewrite pretty_N_go_step by lia. rewrite IH by lia. cbn [parse_digits].
  destruct (pretty_char_digit (x mod 10)) as [-> ->]; [lia|].
  replace (x / 10 * 10 + x mod 10)%N with x by lia.
  by rewrite (proj2 (N.leb_le _ _)).
Qed.

(** What [pretty] prints is a nonempty run of digits. *)
Lemma pretty_go_digits x s :
  string_forall is_digit s = true -> string_forall is_digit (pretty_N_go x s) = true.
Proof.
  revert s. induction (N.lt_wf_0 x) as [x _ IH]; intros s Hs.
  destruct (decide (x = 0)%N) as [->|Hne]; [done|].
  rewrite pretty_N_go_step by lia. apply IH; [apply N.div_lt; lia|]. simpl.
  destruct (pretty_char_digit (x mod 10)) as [-> _]; [apply N.mod_lt; lia|done].
Qed.

Lemma pretty_go_nonempty x s : (0 < x)%N \/ s <> EmptyString -> pretty_N_go x s <> EmptyString.
Proof.
  revert s. induction (N.lt_wf_0 x) as [x _ IH]; intros s Hs.
  destruct (decide (x = 0)%N) as [->|Hne]; [simpl; intuition lia|].
  rewrite pretty_N_go_step by lia. apply IH; [apply N.div_lt; lia|by right].
Qed.

Lemma trim_digits_lf s :
  string_forall is_digit s = true -> trim_end_lf (s +:+ String LF EmptyString) = s.
Proof.
  induction s as [|c s IH]; [done|]. cbn [string_forall]. intros [Hc Hs]%andb_true_iff.
  change (String c s +:+ ?t) with (String c (s +:+ t)). cbn [trim_end_lf]. rewrite IH by done.
  destruct s; [|done]. destruct (Ascii.eqb_spec c LF) as [->|]; [discriminate Hc|done].
Qed.

Lemma parse_pretty x : (x <= u64_max)%N -> parse_u64 (pretty x) = Some x.
Proof.
  intros Hx. unfold pretty, pretty_N. case_decide as H0; [by subst|].
  pose proof (pretty_go_digits x EmptyString eq_refl) as Hd.
  pose proof (pretty_go_nonempty x EmptyString ltac:(lia)) as Hne.
  pose proof (parse_pretty_go x EmptyString Hx) as Hp. unfold parse_u64.
  destruct (pretty_N_go x EmptyString) as [|c s]; [done|]. simpl in Hd.
  apply andb_true_iff in Hd as [Hc _].
  assert (match String c s with String "+"%char r => r | _ => String c s end = String c s) as ->.
  { destruct c as [[] [] [] [] [] [] [] []]; try done; discriminate Hc. }
  exact Hp.
Qed.

(** Cursor files round-trip: any 64-bit offset the broker writes with its
    atomic replace (or [InboxCursor::advance] writes) is read back unchanged by
    [InboxCursor::read], and an absent cursor file reads as offset zero. *)
Theorem cursor_roundtrip io cursors name offset :
  (offset <= u64_max)%N ->
  let path := "." +:+ name +:+ ".cursor" in
  cursor_read (Some (cursor_advance offset)) = Ok offset /\
  cursor_read None = Ok 0%N /\
  (io_cursor_ok io path = true ->
   cursor_read (execute_advance_cursor io cursors name offset !! path) = Ok offset) /\
  (io_cursor_ok io path = false -> execute_advance_cursor io cursors name offset = cursors).
Proof.
  intros Hx. cbv zeta.
  assert (H : cursor_read (Some (cursor_advance offset)) = Ok offset).
  { unfold cursor_read, cursor_advance.
    assert (string_forall is_digit (pretty offset) = true).
    { unfold pretty, pretty_N. case_decide; [done|]. by apply pretty_go_digits. }
    rewrite trim_digits_lf by done. by rewrite parse_pretty. }
  split_and!; [done|done|..]; unfold execute_advance_cursor; intros ->; [|done].
  by rewrite lookup_insert_eq.
Qed.

Lemma cursor_roundtrip_witness :
  cursor_read (execute_advance_cursor (healthy (fun _ => true)) ∅ "alice" 4096 !! ".alice.cursor")
    = Ok 4096%N.
Proof.
  apply (cursor_roundtrip (healthy (fun _ => true)) ∅ "alice" 4096); [|reflexivity].
  vm_compute. discriminate.
Qed.

(** ** Where the readers' documentation is wrong *)

(** The module contract says an unterminated final line is silently skipped;
    [read_all] returns it when it happens to be complete JSON. *)
Theorem read_all_returns_a_partial_tail :
  let tail := toy_print (VString "x") in
  ends_with_newline tail = false /\ read_all (FileBytes tail) = Ok [VString "x"].
Proof. split; vm_compute; reflexivity. Qed.

(** [CorruptLine] promises the 1-indexed line of the file; [read_from] counts
    from the cursor: here the broken line is the file's second. *)
Theorem read_from_misnumbers_lines :
  let good := toy_print (VString "x") ++ [NEWLINE] in
  exists src,
    read_from (FileBytes (good ++ [x61; NEWLINE])) (blen good) = Err (CorruptLine 1 src) /\
    read_all (FileBytes (good ++ [x61; NEWLINE])) = Err (CorruptLine 2 src).
Proof. eexists. split; vm_compute; reflexivity. Qed.
