(* ===== verification/Clock.v ===== *)
(** * Clocks, freshness windows and rate windows

    The pieces of the [time] crate that [crates/famp-relay] and
    [crates/famp-gateway] compute with, and the counting argument behind a
    fixed-window rate limiter, stated once for both of them.

    An [OffsetDateTime] is a count of nanoseconds since the Unix epoch; a
    difference of two is a signed nanosecond count.  Parsing of RFC 3339 text is
    third-party code and stays a parameter ([TimeLib]). *)

From Stdlib Require Import Ascii.
From stdpp Require Import gmap strings list fin_maps.
From S2P Require Import Prelude Json Proto.
Local Open Scope Z_scope.

Abbreviation OffsetDateTime := Z (only parsing).
Definition NANOS : Z := 1000000000.
Definition seconds (n : Z) : Z := n * NANOS.
#[global] Arguments seconds : simpl never.

(** [Duration::whole_seconds]: truncates towards zero. *)
Definition whole_seconds (d : Z) : Z := Z.quot d NANOS.
(** [OffsetDateTime::replace_nanosecond(0)], which cannot fail for 0. *)
Definition replace_nanosecond_0 (t : OffsetDateTime) : OffsetDateTime := t / NANOS * NANOS.

(** [OffsetDateTime::parse(_, &Rfc3339)]. *)
Class TimeLib := { rfc3339_parse : string -> option OffsetDateTime }.

(** The calendar of the [time] crate: the fields of an instant in UTC. *)
Record Civil := mkCivil {
  cv_year : N; cv_month : N; cv_day : N; cv_hour : N; cv_minute : N; cv_second : N }.

(** The text says a whole second, as [format_ts] and [now_canonical_utc] do. *)
Definition whole_second (t : OffsetDateTime) : Prop := t mod NANOS = 0.

(** ** [whole_seconds] against a bound *)
Lemma whole_seconds_le d n : 0 <= n -> whole_seconds d <= n <-> d < seconds (n + 1).
Proof. unfold whole_seconds, seconds, NANOS. intros Hn. Z.to_euclidean_division_equations. lia. Qed.

Lemma whole_seconds_ge d n : 0 < n -> n <= whole_seconds d <-> seconds n <= d.
Proof. unfold whole_seconds, seconds, NANOS. intros Hn. Z.to_euclidean_division_equations. lia. Qed.

Lemma whole_seconds_abs_le d n :
  0 <= n -> Z.abs (whole_seconds d) <= n <-> - seconds (n + 1) < d < seconds (n + 1).
Proof. unfold whole_seconds, seconds, NANOS. intros Hn. Z.to_euclidean_division_equations. lia. Qed.

Lemma replace_nanosecond_0_bounds t :
  replace_nanosecond_0 t <= t < replace_nanosecond_0 t + NANOS.
Proof. unfold replace_nanosecond_0, NANOS. Z.to_euclidean_division_equations. lia. Qed.

Lemma whole_second_floor t : whole_second (replace_nanosecond_0 t).
Proof. unfold whole_second, replace_nanosecond_0. by rewrite Z.mod_mul. Qed.

(** Whole seconds apart by less than one more second are apart by at most
    that many. *)
Lemma whole_second_gap a b n :
  whole_second a -> whole_second b -> a - b < seconds (n + 1) -> a - b <= seconds n.
Proof.
  unfold whole_second, seconds, NANOS. intros Ha Hb.
  Z.to_euclidean_division_equations. lia.
Qed.

(** ** Counting readings in a window *)
Definition in_window (a b : Z) (t : Z) : bool := (a <? t) && (t <=? b).
Definition count_in (a b : Z) (ts : list Z) : Z :=
  Z.of_nat (length (List.filter (in_window a b) ts)).

Lemma count_in_nil a b : count_in a b [] = 0.
Proof. done. Qed.
Lemma count_in_cons a b t ts :
  count_in a b (t :: ts) = (if in_window a b t then 1 else 0) + count_in a b ts.
Proof. unfold count_in. simpl. destruct (in_window a b t); simpl; lia. Qed.
Lemma count_in_app a b l l' : count_in a b (l ++ l') = count_in a b l + count_in a b l'.
Proof. induction l as [|x l IH]; [done|]. simpl. rewrite !count_in_cons, IH. lia. Qed.
Lemma count_in_nonneg a b ts : 0 <= count_in a b ts.
Proof. unfold count_in. lia. Qed.
Lemma count_in_zero a b ts : Forall (fun t => t <= a \/ b < t) ts -> count_in a b ts = 0.
Proof.
  induction 1 as [|t ts Ht _ IH]; [done|]. rewrite count_in_cons, IH.
  unfold in_window. destruct (a <? t) eqn:?, (t <=? b) eqn:?; simpl; lia.
Qed.
Lemma count_in_mono a b a' b' ts :
  a' <= a -> b <= b' -> count_in a b ts <= count_in a' b' ts.
Proof.
  intros Ha Hb. induction ts as [|t ts IH]; [done|]. rewrite !count_in_cons.
  unfold in_window.
  destruct (a <? t) eqn:?, (t <=? b) eqn:?, (a' <? t) eqn:?, (t <=? b') eqn:?; simpl; lia.
Qed.
Lemma count_in_cut a b c ts :
  Forall (fun t => t <= c) ts -> count_in a b ts <= count_in a c ts.
Proof.
  induction 1 as [|t ts Ht _ IH]; [done|]. rewrite !count_in_cons.
  unfold in_window. destruct (a <? t) eqn:?, (t <=? b) eqn:?, (t <=? c) eqn:?; simpl; lia.
Qed.

(** ** The fixed window

    A limiter keeps, per key, the start [w] of the current window and the
    number [k] of requests admitted in it; a window is replaced once it is
    [win] old.  [window_inv] relates the pair to the readings [ts] of all the
    admitted requests. *)
Section fixed_window.
Context (cap win : Z) (Hcap : 0 < cap) (Hwin : 0 < win).

Record window_inv (bucket : option (Z * Z)) (clock : Z) (ts : list Z) : Prop := {
  wi_past : Forall (fun t => t <= clock) ts;
  wi_fresh : bucket = None -> ts = [];
  wi_now w k : bucket = Some (w, k) -> w <= clock /\ 0 <= k <= cap;
  wi_current w k a : bucket = Some (w, k) -> w <= a -> count_in a clock ts <= k;
  wi_suffix w k a : bucket = Some (w, k) -> a <= w ->
    (count_in a clock ts - k) * win <= cap * (w - a + win);
  wi_window a b : a <= b -> count_in a b ts * win <= cap * (b - a + 2 * win)
}.

Lemma window_inv_init clock : window_inv None clock [].
Proof.
  split; try done. intros a b Hab. rewrite count_in_nil. nia.
Qed.

Lemma window_inv_clock bucket clock clock' ts :
  clock <= clock' -> window_inv bucket clock ts -> window_inv bucket clock' ts.
Proof.
  intros Hle [Hp Hf Hn Hc Hs Hw].
  assert (Hcut : forall a, count_in a clock' ts <= count_in a clock ts).
  { intros a. by apply count_in_cut. }
  split; try done.
  - eapply Forall_impl; [exact Hp|]. simpl. lia.
  - intros w k E. specialize (Hn w k E). lia.
  - intros w k a E Ha. specialize (Hcut a). specialize (Hc w k a E Ha). lia.
  - intros w k a E Ha. specialize (Hcut a). specialize (Hs w k a E Ha). nia.
Qed.

(** A new window: the first request of a key, or one at least [win] after the
    start of the current window. *)
Lemma window_inv_reset bucket clock ts :
  (forall w k, bucket = Some (w, k) -> win <= clock - w) ->
  window_inv bucket clock ts -> window_inv (Some (clock, 1)) clock (clock :: ts).
Proof.
  intros Hold [Hp Hf Hn Hc Hs Hw].
  assert (Hsuf : forall a, a <= clock -> (count_in a clock (clock :: ts) - 1) * win <= cap * (clock - a + win)).
  { intros a Ha. rewrite count_in_cons.
    destruct bucket as [[w k]|]; [|rewrite (Hf eq_refl), count_in_nil; case_match; nia].
    specialize (Hold w k eq_refl). destruct (Hn w k eq_refl) as [? ?].
    destruct (decide (a <= w)) as [Haw|Haw].
    - specialize (Hs w k a eq_refl Haw). case_match; nia.
    - specialize (Hc w k a eq_refl ltac:(lia)).
      pose proof (count_in_nonneg a clock ts). case_match; nia. }
  assert (Hcur : forall a, clock <= a -> count_in a clock (clock :: ts) <= 1).
  { intros a Ha. rewrite count_in_cons, (count_in_zero a clock ts).
    - case_match; lia.
    - eapply Forall_impl; [exact Hp|]. simpl. lia. }
  split; try done.
  - by constructor; [lia|].
  - intros w k [= <- <-]. lia.
  - intros w k a [= <- <-] Ha. by apply Hcur.
  - intros w k a [= <- <-] Ha. by apply Hsuf.
  - intros a b Hab. rewrite count_in_cons. destruct (in_window a b clock) eqn:E.
    + unfold in_window in E. specialize (Hsuf a ltac:(lia)). rewrite count_in_cons in Hsuf.
      replace (in_window a clock clock) with true in Hsuf by (unfold in_window; lia).
      pose proof (count_in_cut a b clock ts Hp). nia.
    + specialize (Hw a b Hab). lia.
Qed.

(** One more request in the current window. *)
Lemma window_inv_admit w k clock ts :
  clock - w < win -> k < cap ->
  window_inv (Some (w, k)) clock ts -> window_inv (Some (w, k + 1)) clock (clock :: ts).
Proof.
  intros Hw' Hk [Hp Hf Hn Hc Hs Hw]. destruct (Hn w k eq_refl) as [Hwc Hk0].
  assert (Hcur : forall a, w <= a -> count_in a clock (clock :: ts) <= k + 1).
  { intros a Ha. rewrite count_in_cons. specialize (Hc w k a eq_refl Ha). case_match; lia. }
  assert (Hsuf : forall a, a <= w -> (count_in a clock (clock :: ts) - (k + 1)) * win <= cap * (w - a + win)).
  { intros a Ha. rewrite count_in_cons. specialize (Hs w k a eq_refl Ha). case_match; nia. }
  split; try done.
  - by constructor; [lia|].
  - intros w' k' [= <- <-]. lia.
  - intros w' k' a [= <- <-] Ha. by apply Hcur.
  - intros w' k' a [= <- <-] Ha. by apply Hsuf.
  - intros a b Hab. rewrite count_in_cons. destruct (in_window a b clock) eqn:E.
    + unfold in_window in E. pose proof (count_in_cut a b clock ts Hp) as Hcut.
      destruct (decide (a <= w)) as [Haw|Haw].
      * specialize (Hsuf a Haw). rewrite count_in_cons in Hsuf.
        replace (in_window a clock clock) with true in Hsuf by (unfold in_window; lia). nia.
      * specialize (Hcur a ltac:(lia)). rewrite count_in_cons in Hcur.
        replace (in_window a clock clock) with true in Hcur by (unfold in_window; lia).
        pose proof (count_in_nonneg a b ts). nia.
    + specialize (Hw a b Hab). lia.
Qed.
End fixed_window.

(** ** A concrete clock text

    It only shows that the interface is inhabited. *)

(** A clock text in the shape of [format_ts]: seconds, then an optional
    fraction in nanoseconds. *)
Fixpoint read_digits (acc : Z) (s : string) : Z * string :=
  match s with
  | String c s' =>
      if is_digit c then read_digits (acc * 10 + Z.of_N (N_of_ascii c) - 48) s' else (acc, s)
  | EmptyString => (acc, s)
  end.
#[export] Instance toy_time : TimeLib := {|
  rfc3339_parse s :=
    let (secs, rest) := read_digits 0 s in
    match rest with
    | EmptyString => None
    | String c rest =>
        Some (seconds secs + (if Ascii.eqb c "." then (read_digits 0 rest).1 else 0))
    end
|}.
