(* ===== verification/NonceTable.v ===== *)
(** * Tables of recently seen nonces

    Both the relay's fetch authorization and the gateway's ingress guard keep,
    per key, a bounded [HashMap<String, OffsetDateTime>] of nonces: expired
    entries are dropped first, a present nonce is a replay, and at capacity the
    oldest entry makes room.  This file holds what the two share: the choice of
    the victim and the counting lemmas. *)

From stdpp Require Import gmap strings list fin_maps.
From S2P Require Import Prelude Clock.
Local Open Scope Z_scope.

Abbreviation NonceTable := (gmap string OffsetDateTime).

(** ** The oldest entry

    Earlier instant first, ties broken by the smaller nonce. *)
Definition older (x y : string * OffsetDateTime) : bool :=
  (x.2 <? y.2) || (x.2 =? y.2) && String.ltb x.1 y.1.

(** [fold(None, ...)] over the entries. *)
Definition oldest (l : list (string * OffsetDateTime)) : option (string * OffsetDateTime) :=
  foldl (fun acc x =>
    match acc with
    | None => Some x
    | Some b => if older x b then Some x else Some b
    end) None l.

Lemma string_ltb_lt s t : String.ltb s t = true <-> s <> t /\ String.le s t.
Proof.
  unfold String.le, String.leb, String.ltb. split.
  - destruct (String.compare s t) eqn:E; try done. intros _. split; [|done].
    intros ->. pose proof (String.compare_antisym t t) as H. by rewrite E in H.
  - intros [Hne Hle]. destruct (String.compare s t) eqn:E; try done.
    by apply String.compare_eq_iff in E.
Qed.

Definition not_younger (x y : string * OffsetDateTime) : Prop :=
  x = y \/ older x y = true.

Lemma older_spec x y :
  older x y = true <-> x.2 < y.2 \/ (x.2 = y.2 /\ x.1 <> y.1 /\ String.le x.1 y.1).
Proof.
  unfold older. rewrite orb_true_iff, andb_true_iff, string_ltb_lt, Z.ltb_lt, Z.eqb_eq. done.
Qed.

Lemma not_younger_spec x y :
  not_younger x y <-> x.2 < y.2 \/ (x.2 = y.2 /\ String.le x.1 y.1).
Proof.
  unfold not_younger. rewrite older_spec. destruct x as [k v], y as [k' v']; simpl. split.
  - intros [[= -> ->]|[?|(?&?&?)]]; [right|tauto..]. by split.
  - intros [?|[-> ?]]; [tauto|]. destruct (decide (k = k')) as [->|]; tauto.
Qed.

#[export] Instance not_younger_trans : Transitive not_younger.
Proof.
  intros x y z. rewrite !not_younger_spec. intros [?|[? ?]] [?|[? ?]]; [left; lia..|].
  right. split; [lia|]. by etrans.
Qed.
Lemma not_younger_total x y : not_younger x y \/ not_younger y x.
Proof.
  rewrite !not_younger_spec.
  destruct (Z.lt_trichotomy x.2 y.2) as [?|[?|?]], (total String.le x.1 y.1); auto.
Qed.
Lemma not_younger_antisym x y : not_younger x y -> not_younger y x -> x = y.
Proof.
  rewrite !not_younger_spec. destruct x, y; simpl. intros [?|[? ?]] [?|[? ?]]; try lia.
  f_equal; [|lia]. by apply (anti_symm String.le).
Qed.

Lemma oldest_app_spec l acc :
  exists r, foldl (fun acc x => match acc with
                                | None => Some x
                                | Some b => if older x b then Some x else Some b
                                end) (Some acc) l = Some r /\
    r ∈ acc :: l /\ Forall (not_younger r) (acc :: l).
Proof.
  revert acc. induction l as [|x l IH]; intros acc; simpl.
  - exists acc. split_and!; [done|left|]. constructor; [by left|done].
  - assert (Hpick : exists b, (if older x acc then Some x else Some acc) = Some b /\
        (b = x \/ b = acc) /\ not_younger b x /\ not_younger b acc).
    { destruct (older x acc) eqn:E.
      - exists x. split_and!; [done|by left|by left|by right].
      - exists acc. split_and!; [done|by right| |by left].
        destruct (not_younger_total acc x) as [?|[->|?]]; [done|by left|congruence]. }
    destruct Hpick as (b & -> & Hb & Hbx & Hba).
    destruct (IH b) as (r & -> & Hin & Hall). exists r. split; [done|].
    apply Forall_cons in Hall as [Hrb Hall]. split.
    + apply elem_of_cons in Hin as [->|Hin]; [|by do 2 right].
      destruct Hb as [->| ->]; [by right; left|by left].
    + constructor; [by etrans|]. constructor; [by etrans|done].
Qed.

Lemma oldest_spec l r : oldest l = Some r -> r ∈ l /\ Forall (not_younger r) l.
Proof.
  destruct l as [|x l]; [done|]. unfold oldest. simpl.
  destruct (oldest_app_spec l x) as (r' & -> & ? & ?). intros [= <-]. done.
Qed.

Lemma oldest_nonempty l : l <> [] -> is_Some (oldest l).
Proof.
  destruct l as [|x l]; [done|]. intros _. unfold oldest. simpl.
  destruct (oldest_app_spec l x) as (r & -> & _). eauto.
Qed.

Lemma oldest_minimal l k v k' v' :
  oldest l = Some (k, v) -> (k', v') ∈ l -> v <= v'.
Proof.
  intros H Hin. apply oldest_spec in H as [_ H]. rewrite Forall_forall in H.
  specialize (H _ Hin). apply not_younger_spec in H. simpl in H. lia.
Qed.

(** The victim does not depend on the iteration order of the hash map. *)
Lemma oldest_order_independent l l' : l ≡ₚ l' -> oldest l = oldest l'.
Proof.
  intros Hp. destruct (decide (l = [])) as [->|Hne].
  { apply Permutation_nil_l in Hp as ->. done. }
  assert (l' <> []) as Hne'. { intros ->. by apply Permutation_nil_r in Hp. }
  destruct (oldest_nonempty l Hne) as [r Hr], (oldest_nonempty l' Hne') as [r' Hr'].
  rewrite Hr, Hr'. f_equal.
  apply oldest_spec in Hr as [Hin Hall], Hr' as [Hin' Hall'].
  rewrite Forall_forall in Hall, Hall'.
  apply not_younger_antisym; [apply Hall|apply Hall']; by rewrite Hp || rewrite <- Hp.
Qed.

(** ** Counting entries by recording time *)
Definition table_count (a b : Z) (m : NonceTable) : Z := count_in a b (map_to_list m).*2.

Lemma count_in_perm a b l l' : l ≡ₚ l' -> count_in a b l = count_in a b l'.
Proof. induction 1; rewrite ?count_in_cons; lia. Qed.

Lemma table_count_empty a b : table_count a b ∅ = 0.
Proof. unfold table_count. by rewrite map_to_list_empty. Qed.

Lemma table_count_insert a b m k v :
  m !! k = None ->
  table_count a b (<[k:=v]> m) = (if in_window a b v then 1 else 0) + table_count a b m.
Proof.
  intros H. unfold table_count.
  rewrite (count_in_perm _ _ _ ((k, v) :: map_to_list m).*2); [by rewrite fmap_cons, count_in_cons|].
  by rewrite map_to_list_insert.
Qed.

Lemma table_count_delete a b m k : table_count a b (delete k m) <= table_count a b m.
Proof.
  destruct (m !! k) as [v|] eqn:E; [|by rewrite delete_id].
  rewrite <- (insert_delete_id m k v E) at 2. rewrite table_count_insert by apply lookup_delete_eq.
  case_match; lia.
Qed.

Lemma table_count_filter a b (P : string * Z -> Prop) `{!forall x, Decision (P x)} m :
  table_count a b (filter P m) <= table_count a b m.
Proof.
  induction m as [|k v m Hk IH] using map_ind; [by rewrite map_filter_empty|].
  destruct (decide (P (k, v))) as [Hp|Hp].
  - rewrite map_filter_insert_True by done. rewrite !table_count_insert; [lia|done|].
    apply map_lookup_filter_None. by left.
  - rewrite map_filter_insert_False, delete_id by done.
    rewrite table_count_insert by done. case_match; lia.
Qed.

Lemma table_size_count a b m :
  map_Forall (fun _ v => a < v <= b) m -> Z.of_nat (size m) = table_count a b m.
Proof.
  induction m as [|k v m Hk IH] using map_ind; intros Hall.
  - by rewrite map_size_empty, table_count_empty.
  - apply map_Forall_insert in Hall as [Hv Hall]; [|done].
    rewrite map_size_insert_None, table_count_insert by done.
    replace (in_window a b v) with true by (unfold in_window; lia).
    rewrite <- IH by done. lia.
Qed.

(** ** Making room *)
Definition evict (m : NonceTable) : NonceTable :=
  match oldest (map_to_list m) with Some (k, _) => delete k m | None => m end.

Lemma evict_lookup m k v :
  m !! k = Some v -> (exists k' v', m !! k' = Some v' /\ v' < v) -> evict m !! k = Some v.
Proof.
  intros Hk (k' & v' & Hk' & Hlt). unfold evict.
  destruct (oldest (map_to_list m)) as [[e t]|] eqn:E; [|done].
  pose proof (oldest_minimal _ _ _ k' v' E ltac:(by apply elem_of_map_to_list)).
  apply oldest_spec in E as [Ein _]. apply elem_of_map_to_list in Ein.
  rewrite lookup_delete_ne; [done|]. intros ->. rewrite Hk in Ein. injection Ein as ->. lia.
Qed.

Lemma evict_subseteq m : evict m ⊆ m.
Proof. unfold evict. repeat case_match; [apply delete_subseteq|done]. Qed.

Lemma evict_size m : m <> ∅ -> S (size (evict m)) = size m.
Proof.
  intros Hne. unfold evict. destruct (oldest_nonempty (map_to_list m)) as [[k v] E].
  { by rewrite map_to_list_empty_iff. }
  rewrite E. apply oldest_spec in E as [E _]. apply elem_of_map_to_list in E.
  rewrite map_size_delete_Some by eauto.
  assert (size m <> 0)%nat by (by apply map_size_ne_0_lookup_2 || (rewrite map_size_non_empty_iff; done)).
  lia.
Qed.
