(* ===== verification/Relay.v ===== *)
(** * The store-and-forward relay

    [crates/famp-relay/src/{queue,fetch_auth,http}.rs] and the sweep loop of
    [main.rs]: bounded per-domain queues of opaque bytes, signed fetch
    authorizations with bounded freshness and replay state, and the two HTTP
    handlers.

    A handler holds each mutex only for one statement, so requests interleave
    between those statements: [relay_step] is one such critical section, a
    request in flight is a [Flight], and [fetch_handler] is the same handler run
    without interruption. *)

From Stdlib Require Import Strings.Byte Ascii.
From stdpp Require Import gmap strings list pretty.
From S2P Require Import Prelude Json Proto WireInstance Principal Clock NonceTable Crypto.
Local Open Scope Z_scope.

(** ** The queue: [queue.rs] *)
Definition RELAY_QUEUE_MAX_PER_DOMAIN : nat := 1024%nat.
Definition RELAY_ENTRY_TTL_SECS : Z := 900.
Definition RELAY_FETCH_MAX_BATCH : nat := 64%nat.

Record QueuedEnvelope := mkQueued {
  qe_recipient : string; qe_bytes : bytes; qe_queued_at : OffsetDateTime }.
Inductive EnqueueOutcome := Queued | QueuedAfterDroppingOldest.

Abbreviation RelayQueues := (gmap string (list QueuedEnvelope)).

Definition queue_of (q : RelayQueues) (domain : string) : list QueuedEnvelope :=
  default [] (q !! domain).

Definition enqueue (q : RelayQueues) (domain recipient : string) (body : bytes)
    (now : OffsetDateTime) : RelayQueues * EnqueueOutcome :=
  let queue := queue_of q domain in
  let '(queue, outcome) :=
    if (RELAY_QUEUE_MAX_PER_DOMAIN <=? length queue)%nat
    then (tail queue, QueuedAfterDroppingOldest) else (queue, Queued) in
  (<[domain := queue ++ [mkQueued recipient body now]]> q, outcome).

Definition unexpired (now : OffsetDateTime) (e : QueuedEnvelope) : bool :=
  whole_seconds (now - qe_queued_at e) <=? RELAY_ENTRY_TTL_SECS.
Definition retain_unexpired (queue : list QueuedEnvelope) (now : OffsetDateTime) :
    list QueuedEnvelope := List.filter (unexpired now) queue.

Definition drain (q : RelayQueues) (domain : string) (now : OffsetDateTime) (max : nat) :
    RelayQueues * list QueuedEnvelope :=
  letsome queue := q !! domain orelse (q, []) in
  let queue := retain_unexpired queue now in
  let n := Nat.min max (length queue) in
  (<[domain := drop n queue]> q, take n queue).

Definition queue_sweep (q : RelayQueues) (now : OffsetDateTime) : RelayQueues :=
  filter (fun kv => kv.2 <> []) ((fun queue => retain_unexpired queue now) <$> q).

Definition depth (q : RelayQueues) (domain : string) : nat := length (queue_of q domain).

(** ** Fetch authorization: [fetch_auth.rs] *)
Definition FETCH_AUTH_TYP : string := "famp-relay-fetch-v1".
Definition RELAY_AUTH_AUD_HEADER : string := "x-famp-relay-aud".
Definition RELAY_AUTH_TS_HEADER : string := "x-famp-relay-ts".
Definition RELAY_AUTH_NONCE_HEADER : string := "x-famp-relay-nonce".
Definition RELAY_AUTH_SIG_HEADER : string := "x-famp-relay-sig".
Definition RELAY_AUTH_HEADER_MAX_BYTES : nat := 512%nat.
Definition FETCH_FRESHNESS_WINDOW_SECS : Z := 300.
Definition FETCH_NONCE_TTL_SECS : Z := 600.
Definition FETCH_NONCE_MAX_PER_DOMAIN : nat := 4096%nat.
Definition FETCH_RATE_MAX_PER_WINDOW : Z := 120.
Definition FETCH_RATE_WINDOW_SECS : Z := 60.
#[global] Arguments RELAY_QUEUE_MAX_PER_DOMAIN : simpl never.
#[global] Arguments RELAY_FETCH_MAX_BATCH : simpl never.
#[global] Arguments RELAY_AUTH_HEADER_MAX_BYTES : simpl never.
#[global] Arguments FETCH_NONCE_MAX_PER_DOMAIN : simpl never.

Definition fetch_bounds_ok (freshness_secs nonce_ttl_secs max_nonces rate_max rate_window_secs : Z) :
    bool :=
  if (freshness_secs <? 0) || (nonce_ttl_secs <? 0) || (rate_window_secs <=? 0) then false
  else (2 * freshness_secs <=? nonce_ttl_secs) &&
       (Z.quot (nonce_ttl_secs * rate_max) rate_window_secs <=? max_nonces).

Record FetchAuthRequest := mkRequest {
  rq_typ : string; rq_aud : string; rq_domain : string; rq_nonce : string; rq_ts : string }.
Record SignedFetchAuth := mkSignedFetch {
  sf_aud : string; sf_ts : string; sf_nonce : string; sf_signature_b64url : string }.
Record PresentedFetchAuth := mkPresented {
  pf_aud : string; pf_ts : string; pf_nonce : string; pf_signature_b64url : string }.

Inductive FetchAuthReject :=
| MissingHeader (header : string)
| HeaderTooLong (header : string)
| AudienceMismatch (expected presented : string)
| MalformedTimestamp
| StaleFetch
| MalformedSignature
| BadSignature (domain : string)
| ReplayedNonce
| RateLimited.

#[export] Instance presented_eq_dec : EqDecision PresentedFetchAuth.
Proof. solve_decision. Defined.

(** The derived [Serialize]. *)
Definition request_to_value (r : FetchAuthRequest) : Value :=
  json_obj [("typ", VString (rq_typ r)); ("aud", VString (rq_aud r));
            ("domain", VString (rq_domain r)); ("nonce", VString (rq_nonce r));
            ("ts", VString (rq_ts r))].

Definition header_pairs (s : SignedFetchAuth) : list (string * string) :=
  [(RELAY_AUTH_AUD_HEADER, sf_aud s); (RELAY_AUTH_TS_HEADER, sf_ts s);
   (RELAY_AUTH_NONCE_HEADER, sf_nonce s); (RELAY_AUTH_SIG_HEADER, sf_signature_b64url s)].

(** [url::Url], as far as [normalize_audience] reads it: [port] is [None] for
    the scheme's default port. *)
Record Url := mkUrl { url_scheme : string; url_host_str : option string; url_port : option N }.

Definition ascii_lowercase (c : ascii) : ascii :=
  if is_upper c then ascii_of_N (N_of_ascii c + 32) else c.
Fixpoint to_ascii_lowercase (s : string) : string :=
  match s with
  | EmptyString => EmptyString
  | String c s => String (ascii_lowercase c) (to_ascii_lowercase s)
  end.

Definition normalize_audience (u : Url) : string :=
  let host := to_ascii_lowercase (unwrap_or (url_host_str u) EmptyString) in
  match url_port u with
  | Some port => (url_scheme u ++ "://" ++ host ++ ":" ++ pretty port)%string
  | None => (url_scheme u ++ "://" ++ host)%string
  end.

(** [{:0w}]. *)
Fixpoint zeros (n : nat) : string :=
  match n with O => EmptyString | S n => String "0"%char (zeros n) end.
Definition pad (w : nat) (n : N) : string :=
  let s := pretty n in (zeros (w - String.length s) ++ s)%string.

Definition format_ts (c : Civil) : string :=
  (pad 4 (cv_year c) ++ "-" ++ pad 2 (cv_month c) ++ "-" ++ pad 2 (cv_day c) ++ "T" ++
   pad 2 (cv_hour c) ++ ":" ++ pad 2 (cv_minute c) ++ ":" ++ pad 2 (cv_second c) ++ "Z")%string.

Record FetchAuthState := mkAuth {
  nonces : gmap string NonceTable;
  buckets : gmap string (OffsetDateTime * Z) }.
Definition FetchAuthState_new : FetchAuthState := mkAuth ∅ ∅.

Definition nonce_live (now : OffsetDateTime) (kv : string * OffsetDateTime) : Prop :=
  whole_seconds (now - kv.2) <= FETCH_NONCE_TTL_SECS.
#[export] Instance nonce_live_dec now kv : Decision (nonce_live now kv).
Proof. unfold nonce_live. apply _. Defined.

Definition nonces_of (st : FetchAuthState) (domain : string) : NonceTable :=
  default ∅ (nonces st !! domain).

Definition record_nonce (st : FetchAuthState) (domain nonce : string) (now : OffsetDateTime) :
    FetchAuthState * result unit FetchAuthReject :=
  let put entries := mkAuth (<[domain := entries]> (nonces st)) (buckets st) in
  let entries := filter (nonce_live now) (nonces_of st domain) in
  if is_some (entries !! nonce) then (put entries, Err ReplayedNonce)
  else
    let entries :=
      if (FETCH_NONCE_MAX_PER_DOMAIN <=? size entries)%nat then evict entries else entries in
    (put (<[nonce := now]> entries), Ok tt).

Definition auth_admit (st : FetchAuthState) (domain : string) (now : OffsetDateTime) :
    FetchAuthState * result unit FetchAuthReject :=
  let put bucket := mkAuth (nonces st) (<[domain := bucket]> (buckets st)) in
  let bucket := default (now, 0) (buckets st !! domain) in
  let bucket :=
    if FETCH_RATE_WINDOW_SECS <=? whole_seconds (now - bucket.1) then (now, 0) else bucket in
  if FETCH_RATE_MAX_PER_WINDOW <=? bucket.2 then (put bucket, Err RateLimited)
  else (put (bucket.1, bucket.2 + 1), Ok tt).

Definition auth_sweep (st : FetchAuthState) (now : OffsetDateTime) : FetchAuthState :=
  mkAuth (filter (fun kv => kv.2 <> ∅)
            ((fun entries : NonceTable => filter (nonce_live now) entries) <$> nonces st))
         (buckets st).

Definition nonce_len_for (st : FetchAuthState) (domain : string) : nat :=
  size (nonces_of st domain).

(** ** Requests and responses: [http.rs] *)
Inductive RelayResponse :=
| RStatus (code : N)
| RReject (code : N) (slug : string)
| REnvelopes (envelopes : list (string * string)).

(** A request's headers: the first value of a name that is present and valid
    header text ([HeaderMap::get] and [HeaderValue::to_str]). *)
Abbreviation Headers := (string -> option string) (only parsing).

Definition extract_domain (principal : string) : option string :=
  rest ← strip_prefix "agent:" principal;
  '(domain, _) ← split_at_char "/"%char rest;
  if String.eqb domain EmptyString then None else Some domain.

Definition extract_header (headers : Headers) (name : string) : result string FetchAuthReject :=
  letsome v := headers name orelse Err (MissingHeader name) in Ok v.

Definition reject_status (r : FetchAuthReject) : N * string :=
  match r with
  | MissingHeader _ => (400%N, "missing_fetch_auth")
  | HeaderTooLong _ => (400%N, "fetch_header_too_long")
  | AudienceMismatch _ _ => (400%N, "fetch_audience_mismatch")
  | MalformedTimestamp => (400%N, "fetch_malformed_timestamp")
  | StaleFetch => (401%N, "stale_fetch")
  | MalformedSignature => (400%N, "fetch_malformed_signature")
  | BadSignature _ => (403%N, "fetch_bad_signature")
  | ReplayedNonce => (403%N, "replayed_fetch")
  | RateLimited => (429%N, "fetch_rate_limited")
  end.
Definition fetch_reject_response (r : FetchAuthReject) : RelayResponse :=
  let '(code, slug) := reject_status r in RReject code slug.

(** The immutable part of [RelayState]. *)
Record RelayConfig := mkConfig {
  domains : gmap string (list TrustedVerifyingKey);
  audience : string }.

(** One request between its critical sections. *)
Record Flight := mkFlight {
  fl_domain : string; fl_auth : PresentedFetchAuth; fl_now : OffsetDateTime;
  fl_recorded : bool }.

Record Relay := mkRelay {
  queues : RelayQueues; auth : FetchAuthState; flights : gmap N Flight }.
Definition relay_new : Relay := mkRelay ∅ FetchAuthState_new ∅.

Section relay.
Context `{CL : CryptoLib} `{WL : WireLib} `{TL : TimeLib}.

(** [uuid::Uuid::now_v7] and the clock's calendar fields are inputs. *)
Definition sign_fetch_auth (sk : FampSigningKey) (aud domain nonce : string) (civil : Civil) :
    result SignedFetchAuth FetchAuthReject :=
  let ts := format_ts civil in
  let request := mkRequest FETCH_AUTH_TYP aud domain nonce ts in
  trying signature := sign_value sk (request_to_value request) catch e => Err MalformedSignature in
  Ok (mkSignedFetch aud ts nonce (sig_to_b64url signature)).

Definition header_too_long (presented : PresentedFetchAuth) : option string :=
  find_map (fun '(header, value) =>
      if (RELAY_AUTH_HEADER_MAX_BYTES <? String.length value)%nat then Some header else None)
    [(RELAY_AUTH_AUD_HEADER, pf_aud presented); (RELAY_AUTH_TS_HEADER, pf_ts presented);
     (RELAY_AUTH_NONCE_HEADER, pf_nonce presented);
     (RELAY_AUTH_SIG_HEADER, pf_signature_b64url presented)].

Definition presented_request (presented : PresentedFetchAuth) (domain : string) :
    FetchAuthRequest :=
  mkRequest FETCH_AUTH_TYP (pf_aud presented) domain (pf_nonce presented) (pf_ts presented).

Definition verify_fetch_auth (presented : PresentedFetchAuth) (domain expected_aud : string)
    (keys : list TrustedVerifyingKey) (now : OffsetDateTime) : result unit FetchAuthReject :=
  match header_too_long presented with Some header => Err (HeaderTooLong header) | None =>
  if negb (String.eqb (pf_aud presented) expected_aud)
  then Err (AudienceMismatch expected_aud (pf_aud presented)) else
  letsome ts_instant := rfc3339_parse (pf_ts presented) orelse Err MalformedTimestamp in
  let now_secs := replace_nanosecond_0 now in
  let diff_secs := Z.abs (whole_seconds (now_secs - ts_instant)) in
  if FETCH_FRESHNESS_WINDOW_SECS <? diff_secs then Err StaleFetch else
  trying signature := sig_from_b64url (pf_signature_b64url presented)
    catch e => Err MalformedSignature in
  let request := presented_request presented domain in
  if iter_any (fun key => is_ok (verify_value key (request_to_value request) signature)) keys
  then Ok tt else Err (BadSignature domain)
  end.

(** The four headers, in the order the handler asks for them. *)
Definition extract_presented (headers : Headers) : result PresentedFetchAuth FetchAuthReject :=
  trying aud := extract_header headers RELAY_AUTH_AUD_HEADER catch e => Err e in
  trying ts := extract_header headers RELAY_AUTH_TS_HEADER catch e => Err e in
  trying nonce := extract_header headers RELAY_AUTH_NONCE_HEADER catch e => Err e in
  trying sig := extract_header headers RELAY_AUTH_SIG_HEADER catch e => Err e in
  Ok (mkPresented aud ts nonce sig).

Definition envelope_json (e : QueuedEnvelope) : string * string :=
  (qe_recipient e, b64url_encode (qe_bytes e)).

(** [ingest_fetch], uninterrupted. *)
Definition ingest_fetch (cfg : RelayConfig) (q : RelayQueues) (st : FetchAuthState)
    (domain : string) (keys : list TrustedVerifyingKey) (headers : Headers)
    (now : OffsetDateTime) : RelayQueues * FetchAuthState * result RelayResponse FetchAuthReject :=
  trying presented := extract_presented headers catch e => (q, st, Err e) in
  let '(st, admitted) := auth_admit st domain now in
  trying _ := admitted catch e => (q, st, Err e) in
  trying _ := verify_fetch_auth presented domain (audience cfg) keys now
    catch e => (q, st, Err e) in
  let '(st, recorded) := record_nonce st domain (pf_nonce presented) now in
  trying _ := recorded catch e => (q, st, Err e) in
  let '(q, drained) := drain q domain now RELAY_FETCH_MAX_BATCH in
  (q, st, Ok (REnvelopes (map envelope_json drained))).

Definition fetch_handler (cfg : RelayConfig) (q : RelayQueues) (st : FetchAuthState)
    (domain : string) (headers : Headers) (now : OffsetDateTime) :
    RelayQueues * FetchAuthState * RelayResponse :=
  letsome keys := domains cfg !! domain orelse (q, st, RReject 404 "unknown_domain") in
  let '(q, st, r) := ingest_fetch cfg q st domain keys headers now in
  match r with
  | Ok response => (q, st, response)
  | Err reject => (q, st, fetch_reject_response reject)
  end.

Definition enqueue_handler (cfg : RelayConfig) (q : RelayQueues) (principal : string)
    (body : bytes) (now : OffsetDateTime) : RelayQueues * RelayResponse :=
  letsome domain := extract_domain principal orelse (q, RStatus 400) in
  if is_none (domains cfg !! domain) then (q, RStatus 404)
  else ((enqueue q domain principal body now).1, RStatus 202).

(** ** Critical sections *)
Inductive RelayStep :=
| StEnqueue (principal : string) (body : bytes) (now : OffsetDateTime)
| StAdmit (id : N) (domain : string) (headers : Headers) (now : OffsetDateTime)
| StRecord (id : N)
| StDrain (id : N)
| StSweepQueues (now : OffsetDateTime)
| StSweepAuth (now : OffsetDateTime).

(** A fetch up to its first lock release, and the verification after it, which
    reads no shared state. [id] names the task that runs the request. *)
Definition begin_fetch (cfg : RelayConfig) (s : Relay) (id : N) (domain : string)
    (headers : Headers) (now : OffsetDateTime) : Relay * option RelayResponse :=
  letsome keys := domains cfg !! domain orelse (s, Some (RReject 404 "unknown_domain")) in
  trying presented := extract_presented headers
    catch e => (s, Some (fetch_reject_response e)) in
  let '(st, admitted) := auth_admit (auth s) domain now in
  let s := mkRelay (queues s) st (flights s) in
  trying _ := admitted catch e => (s, Some (fetch_reject_response e)) in
  trying _ := verify_fetch_auth presented domain (audience cfg) keys now
    catch e => (s, Some (fetch_reject_response e)) in
  (mkRelay (queues s) (auth s) (<[id := mkFlight domain presented now false]> (flights s)), None).

Definition relay_step (cfg : RelayConfig) (s : Relay) (l : RelayStep) :
    Relay * option RelayResponse :=
  match l with
  | StEnqueue principal body now =>
      let '(q, r) := enqueue_handler cfg (queues s) principal body now in
      (mkRelay q (auth s) (flights s), Some r)
  | StAdmit id domain headers now =>
      if is_some (flights s !! id) then (s, None) else begin_fetch cfg s id domain headers now
  | StRecord id =>
      match flights s !! id with
      | Some (mkFlight domain presented now false) =>
          let '(st, recorded) := record_nonce (auth s) domain (pf_nonce presented) now in
          match recorded with
          | Ok _ => (mkRelay (queues s) st (<[id := mkFlight domain presented now true]> (flights s)), None)
          | Err e => (mkRelay (queues s) st (delete id (flights s)), Some (fetch_reject_response e))
          end
      | _ => (s, None)
      end
  | StDrain id =>
      match flights s !! id with
      | Some (mkFlight domain presented now true) =>
          let '(q, drained) := drain (queues s) domain now RELAY_FETCH_MAX_BATCH in
          (mkRelay q (auth s) (delete id (flights s)),
           Some (REnvelopes (map envelope_json drained)))
      | _ => (s, None)
      end
  | StSweepQueues now => (mkRelay (queue_sweep (queues s) now) (auth s) (flights s), None)
  | StSweepAuth now => (mkRelay (queues s) (auth_sweep (auth s) now) (flights s), None)
  end.
End relay.
