(* ===== verification/RelayProps.v ===== *)
(** * What the relay guarantees

    Queues: bytes leave verbatim, in order and at most once.  Fetches: a queue
    is drained only under an authorization that verified for exactly that queue
    at this relay, each authorization works once, whatever the interleaving of
    concurrent requests, and verification work is rate-limited.  The end of the file
    has the relay's arguments and start ([main.rs]). *)

From Stdlib Require Import Strings.Byte Ascii.
From stdpp Require Import gmap strings list pretty.
From S2P Require Import Prelude Json Proto WireInstance Principal Clock NonceTable Crypto Relay.
Local Open Scope Z_scope.

(** ** Histories

    What a run did: the admissions per domain and the granted authorizations,
    newest first, and the latest clock readings used for admission and for
    expiring nonces. *)
Record Grant := mkGrant { gr_domain : string; gr_auth : PresentedFetchAuth; gr_now : OffsetDateTime }.
Record Trace := mkTrace {
  tr_admits : list (string * OffsetDateTime);
  tr_grants : list Grant;
  tr_admit_clock : OffsetDateTime;
  tr_purge_clock : OffsetDateTime }.
Definition trace_new (t0 : OffsetDateTime) : Trace := mkTrace [] [] t0 t0.

Section relay.
Context `{CL : CryptoLib} `{WL : WireLib} `{TL : TimeLib} (cfg : RelayConfig).

Definition admits_of (s : Relay) (l : RelayStep) : list (string * OffsetDateTime) :=
  match l with
  | StAdmit id domain headers now =>
      if is_none (flights s !! id) && is_some (domains cfg !! domain) &&
         is_ok (extract_presented headers) && is_ok (auth_admit (auth s) domain now).2
      then [(domain, now)] else []
  | _ => []
  end.
Definition grants_of (s : Relay) (l : RelayStep) : list Grant :=
  match l with
  | StRecord id =>
      match flights s !! id with
      | Some (mkFlight domain presented now false) =>
          if is_ok (record_nonce (auth s) domain (pf_nonce presented) now).2
          then [mkGrant domain presented now] else []
      | _ => []
      end
  | _ => []
  end.
Definition admit_reading (l : RelayStep) : option OffsetDateTime :=
  match l with StAdmit _ _ _ now => Some now | _ => None end.
Definition purge_reading (s : Relay) (l : RelayStep) : option OffsetDateTime :=
  match l with
  | StRecord id => fl_now <$> flights s !! id
  | StSweepAuth now => Some now
  | _ => None
  end.
Definition observe (s : Relay) (l : RelayStep) (tr : Trace) : Trace :=
  mkTrace (admits_of s l ++ tr_admits tr) (grants_of s l ++ tr_grants tr)
    (default (tr_admit_clock tr) (admit_reading l))
    (default (tr_purge_clock tr) (purge_reading s l)).

(** Clock readings reach the limiter, and the nonce table, in order. *)
Definition in_order (s : Relay) (l : RelayStep) (tr : Trace) : Prop :=
  (forall t, admit_reading l = Some t -> tr_admit_clock tr <= t) /\
  (forall t, purge_reading s l = Some t -> tr_purge_clock tr <= t).

Inductive relay_run : Relay -> Trace -> Prop :=
| run_new t0 : relay_run relay_new (trace_new t0)
| run_step s tr l :
    relay_run s tr -> in_order s l tr ->
    relay_run (relay_step cfg s l).1 (observe s l tr).

(** ** One operation at a time *)
Lemma nonces_of_put st d e d' :
  nonces_of (mkAuth (<[d := e]> (nonces st)) (buckets st)) d' =
  if decide (d = d') then e else nonces_of st d'.
Proof.
  unfold nonces_of. simpl. case_decide as E; [subst; by rewrite lookup_insert_eq|].
  by rewrite lookup_insert_ne.
Qed.

Definition live_nonces (st : FetchAuthState) (d : string) (now : OffsetDateTime) : NonceTable :=
  filter (nonce_live now) (nonces_of st d).

Lemma live_nonces_lookup st d now n r :
  live_nonces st d now !! n = Some r <->
  nonces_of st d !! n = Some r /\ now - r < seconds 601.
Proof.
  unfold live_nonces. rewrite map_lookup_filter_Some. unfold nonce_live. simpl.
  by rewrite whole_seconds_le.
Qed.

Lemma record_nonce_cases st d n now :
  (is_Some (live_nonces st d now !! n) /\
   record_nonce st d n now =
     (mkAuth (<[d := live_nonces st d now]> (nonces st)) (buckets st), Err ReplayedNonce)) \/
  (live_nonces st d now !! n = None /\ exists room,
     (room = live_nonces st d now \/
      room = evict (live_nonces st d now) /\
      (FETCH_NONCE_MAX_PER_DOMAIN <= size (live_nonces st d now))%nat) /\
   record_nonce st d n now =
     (mkAuth (<[d := <[n := now]> room]> (nonces st)) (buckets st), Ok tt)).
Proof.
  unfold record_nonce. fold (live_nonces st d now).
  destruct (live_nonces st d now !! n) as [r|] eqn:E; cbn [is_some].
  - left. split; [eauto|done].
  - right. split; [done|]. destruct (FETCH_NONCE_MAX_PER_DOMAIN <=? size (live_nonces st d now))%nat eqn:El.
    + exists (evict (live_nonces st d now)). split; [right|done]. split; [done|by apply Nat.leb_le].
    + exists (live_nonces st d now). split; [by left|done].
Qed.

Lemma admit_cases st d now :
  exists b r, auth_admit st d now = (mkAuth (nonces st) (<[d := b]> (buckets st)), r) /\
  match buckets st !! d with
  | None => b = (now, 1) /\ r = Ok tt
  | Some (w, k) =>
      if decide (seconds FETCH_RATE_WINDOW_SECS <= now - w) then b = (now, 1) /\ r = Ok tt
      else if decide (k < FETCH_RATE_MAX_PER_WINDOW) then b = (w, k + 1) /\ r = Ok tt
      else b = (w, k) /\ r = Err RateLimited
  end.
Proof.
  unfold auth_admit. destruct (buckets st !! d) as [[w k]|] eqn:E; simpl.
  - pose proof (whole_seconds_ge (now - w) FETCH_RATE_WINDOW_SECS ltac:(done)) as Hge.
    destruct (decide (seconds FETCH_RATE_WINDOW_SECS <= now - w)) as [H|H].
    + apply Hge, Z.leb_le in H. rewrite H. by eexists _, _.
    + rewrite <- Hge in H. apply Z.leb_nle in H. rewrite H. simpl.
      destruct (decide (k < FETCH_RATE_MAX_PER_WINDOW)) as [Hk|Hk].
      * apply Z.leb_gt in Hk. rewrite Hk. by eexists _, _.
      * apply Z.nlt_ge, Z.leb_le in Hk. rewrite Hk. by eexists _, _.
  - rewrite Z.sub_diag. by eexists _, _.
Qed.

(** ** Requests in flight *)
Definition pending (d : string) (m : gmap N Flight) : list OffsetDateTime :=
  omap (fun kf : N * Flight =>
    if decide (fl_domain kf.2 = d /\ fl_recorded kf.2 = false) then Some (fl_now kf.2) else None)
    (map_to_list m).

Lemma pending_perm d m id f :
  m !! id = None ->
  pending d (<[id := f]> m) ≡ₚ
  (if decide (fl_domain f = d /\ fl_recorded f = false) then [fl_now f] else []) ++ pending d m.
Proof.
  intros H. unfold pending. rewrite map_to_list_insert by done. simpl. by case_decide.
Qed.

Lemma pending_none d m id f f' :
  m !! id = Some f -> pending d (<[id := f']> m) ≡ₚ
  (if decide (fl_domain f' = d /\ fl_recorded f' = false) then [fl_now f'] else []) ++
  pending d (delete id m).
Proof.
  intros H. rewrite <- insert_delete_eq. apply pending_perm. apply lookup_delete_eq.
Qed.

Lemma pending_split d m id f :
  m !! id = Some f ->
  pending d m ≡ₚ
  (if decide (fl_domain f = d /\ fl_recorded f = false) then [fl_now f] else []) ++
  pending d (delete id m).
Proof. intros H. rewrite <- (insert_id m id f H) at 1. by apply pending_none with f. Qed.

Lemma pending_delete_le a b d m id :
  count_in a b (pending d (delete id m)) <= count_in a b (pending d m).
Proof.
  destruct (m !! id) as [f|] eqn:E; [|by rewrite delete_id].
  rewrite (count_in_perm a b _ _ (pending_split d m id f E)), count_in_app.
  match goal with |- _ <= count_in a b ?l + _ => pose proof (count_in_nonneg a b l) end. lia.
Qed.

(** ** What an authorization says *)

(** A key configured for the domain signed a fetch of that domain's queue at
    this relay, with this nonce and time, and the time is fresh. *)
Definition authorized (domain : string) (p : PresentedFetchAuth) (now : OffsetDateTime) : Prop :=
  exists keys key sig ts,
    domains cfg !! domain = Some keys /\ key ∈ keys /\
    sig_from_b64url (pf_signature_b64url p) = Ok sig /\
    vouches key (request_to_value
      (mkRequest FETCH_AUTH_TYP (audience cfg) domain (pf_nonce p) (pf_ts p))) sig /\
    rfc3339_parse (pf_ts p) = Some ts /\
    - seconds 301 < replace_nanosecond_0 now - ts < seconds 301.

Lemma verify_fetch_auth_authorized p domain keys now :
  domains cfg !! domain = Some keys ->
  verify_fetch_auth p domain (audience cfg) keys now = Ok tt -> authorized domain p now.
Proof.
  intros Hk. unfold verify_fetch_auth.
  destruct (header_too_long p); [done|].
  destruct (String.eqb (pf_aud p) (audience cfg)) eqn:Ea; simpl; [|done].
  destruct (rfc3339_parse (pf_ts p)) as [ts|] eqn:Et; [|done].
  destruct (_ <? _) eqn:Ef; [done|].
  destruct (sig_from_b64url _) as [sig|] eqn:Es; [|done].
  destruct (iter_any _ keys) eqn:Ev; [|done]. intros _.
  apply iter_any_true in Ev as (key & Hin & Hv). apply verify_value_vouches in Hv.
  apply String.eqb_eq in Ea. unfold presented_request in Hv. rewrite Ea in Hv.
  apply Z.ltb_ge, whole_seconds_abs_le in Ef; [|done].
  by exists keys, key, sig, ts.
Qed.

(** The text names a whole second. *)
Definition whole_ts (p : PresentedFetchAuth) : bool :=
  match rfc3339_parse (pf_ts p) with Some ts => ts mod NANOS =? 0 | None => false end.

(** Two fresh uses of one whole-second timestamp are less than 601 s apart. *)
Lemma uses_are_close d1 d2 p1 p2 now1 now2 :
  pf_ts p1 = pf_ts p2 -> whole_ts p1 = true ->
  authorized d1 p1 now1 -> authorized d2 p2 now2 -> now2 - now1 < seconds 601.
Proof.
  intros Hts Hw (k1 & y1 & s1 & t1 & _ & _ & _ & _ & Ht1 & H1)
    (k2 & y2 & s2 & t2 & _ & _ & _ & _ & Ht2 & H2).
  unfold whole_ts in Hw. rewrite Ht1 in Hw. apply Z.eqb_eq in Hw. rewrite Hts, Ht2 in Ht1. injection Ht1 as <-.
  pose proof (whole_second_floor now1) as F1. pose proof (whole_second_floor now2) as F2.
  pose proof (whole_second_gap _ _ 300 F2 Hw (proj2 H2)).
  pose proof (whole_second_gap _ _ 300 Hw F1 ltac:(change (300 + 1) with 301; lia)).
  pose proof (replace_nanosecond_0_bounds now1). pose proof (replace_nanosecond_0_bounds now2).
  unfold seconds, NANOS in *. lia.
Qed.

(** ** The invariant *)
Definition admits_for (d : string) (tr : Trace) : list OffsetDateTime :=
  omap (fun a : string * OffsetDateTime => if decide (a.1 = d) then Some a.2 else None)
    (tr_admits tr).

Definition same_use (g : Grant) : string * string * string :=
  (gr_domain g, pf_nonce (gr_auth g), pf_ts (gr_auth g)).

Record relay_inv (s : Relay) (tr : Trace) : Prop := {
  (** the limiter, per domain *)
  ri_rate d : window_inv FETCH_RATE_MAX_PER_WINDOW (seconds FETCH_RATE_WINDOW_SECS)
    (buckets (auth s) !! d) (tr_admit_clock tr) (admits_for d tr);
  (** remembered nonces and unrecorded flights stem from distinct admissions *)
  ri_count d a b :
    table_count a b (nonces_of (auth s) d) + count_in a b (pending d (flights s)) <=
    count_in a b (admits_for d tr);
  ri_past d : map_Forall (fun _ r => r <= tr_purge_clock tr) (nonces_of (auth s) d);
  ri_flights id f : flights s !! id = Some f ->
    authorized (fl_domain f) (fl_auth f) (fl_now f) /\
    (fl_recorded f = true -> mkGrant (fl_domain f) (fl_auth f) (fl_now f) ∈ tr_grants tr);
  ri_grants g : g ∈ tr_grants tr ->
    authorized (gr_domain g) (gr_auth g) (gr_now g) /\ gr_now g <= tr_purge_clock tr /\
    (tr_purge_clock tr - gr_now g < seconds 601 ->
     nonces_of (auth s) (gr_domain g) !! pf_nonce (gr_auth g) = Some (gr_now g));
  ri_once : NoDup (map same_use (List.filter (fun g => whole_ts (gr_auth g)) (tr_grants tr)))
}.

Lemma relay_inv_new t0 : relay_inv relay_new (trace_new t0).
Proof.
  split; simpl.
  - intros d. rewrite lookup_empty. by apply window_inv_init.
  - intros d a b. done.
  - intros d. apply map_Forall_empty.
  - intros id f. by rewrite lookup_empty.
  - intros g Hg. by apply elem_of_nil in Hg.
  - constructor.
Qed.

(** Queues do not matter, and flights may end. *)
Lemma relay_inv_flights q q' st fl fl' tr :
  fl' ⊆ fl -> (forall d a b, count_in a b (pending d fl') <= count_in a b (pending d fl)) ->
  relay_inv (mkRelay q st fl) tr -> relay_inv (mkRelay q' st fl') tr.
Proof.
  intros Hsub Hp [Hr Hc Hpast Hf Hg Ho]. split; try done; simpl in *.
  - intros d a b. specialize (Hp d a b). specialize (Hc d a b). lia.
  - intros id f Hid. apply (Hf id). by eapply lookup_weaken.
Qed.

Lemma relay_inv_queues q q' st fl tr :
  relay_inv (mkRelay q st fl) tr -> relay_inv (mkRelay q' st fl) tr.
Proof. by apply relay_inv_flights. Qed.

Lemma relay_inv_admit_clock s tr now :
  tr_admit_clock tr <= now -> relay_inv s tr ->
  relay_inv s (mkTrace (tr_admits tr) (tr_grants tr) now (tr_purge_clock tr)).
Proof.
  intros Hle [Hr Hc Hpast Hf Hg Ho]. split; try done.
  intros d. by apply window_inv_clock with (tr_admit_clock tr), Hr.
Qed.

Definition admitted (d : string) (now : OffsetDateTime) (r : result unit FetchAuthReject) :
    list (string * OffsetDateTime) := if is_ok r then [(d, now)] else [].

Lemma admits_for_app d l tr tr' :
  tr_admits tr' = l ++ tr_admits tr ->
  admits_for d tr' = omap (fun a : string * OffsetDateTime =>
    if decide (a.1 = d) then Some a.2 else None) l ++ admits_for d tr.
Proof. unfold admits_for. intros ->. by rewrite omap_app. Qed.

Lemma relay_inv_admit s tr d now st' r :
  tr_admit_clock tr <= now -> auth_admit (auth s) d now = (st', r) -> relay_inv s tr ->
  relay_inv (mkRelay (queues s) st' (flights s))
    (mkTrace (admitted d now r ++ tr_admits tr) (tr_grants tr) now (tr_purge_clock tr)).
Proof.
  intros Hle Ha Hinv. apply (relay_inv_admit_clock _ _ now Hle) in Hinv.
  destruct (admit_cases (auth s) d now) as (b & r' & Ha' & Hb). rewrite Ha in Ha'.
  injection Ha' as -> ->. destruct Hinv as [Hr Hc Hpast Hf Hg Ho].
  assert (Hadm : forall d', admits_for d' (mkTrace (admitted d now r' ++ tr_admits tr)
      (tr_grants tr) now (tr_purge_clock tr)) =
      (if decide (d = d') then if is_ok r' then [now] else [] else []) ++ admits_for d' tr).
  { intros d'. rewrite (admits_for_app d' (admitted d now r') tr) by done. unfold admitted.
    destruct (is_ok r'); simpl; repeat case_decide; done. }
  split; try done.
  - intros d'. simpl. rewrite Hadm. specialize (Hr d'). simpl in Hr.
    case_decide as E; [subst d'|by rewrite lookup_insert_ne].
    rewrite lookup_insert_eq.
    destruct (buckets (auth s) !! d) as [[w k]|] eqn:Eb.
    + case_decide as Hw; [|case_decide as Hk]; destruct Hb as [-> ->]; simpl.
      * apply window_inv_reset with (Some (w, k)); try done. intros ?? [= <- <-]. done.
      * apply window_inv_admit; try done. lia.
      * done.
    + destruct Hb as [-> ->]. simpl. by apply window_inv_reset with None.
  - intros d' a b'. rewrite Hadm, count_in_app. simpl. specialize (Hc d' a b').
    match goal with |- _ <= count_in a b' ?l + _ => pose proof (count_in_nonneg a b' l) end.
    simpl in Hc. change (nonces_of _ d') with (nonces_of (auth s) d') at 1.
    change (admits_for d' _) with (admits_for d' tr) in Hc. lia.
Qed.

(** A verified request joins the flights; its admission is not yet spoken for. *)
Lemma relay_inv_begin q st fl id f tr tr' :
  fl !! id = None -> fl_recorded f = false ->
  authorized (fl_domain f) (fl_auth f) (fl_now f) ->
  tr' = mkTrace ((fl_domain f, fl_now f) :: tr_admits tr) (tr_grants tr)
    (tr_admit_clock tr) (tr_purge_clock tr) ->
  (forall d a b, table_count a b (nonces_of st d) + count_in a b (pending d fl) <=
    count_in a b (admits_for d tr)) ->
  relay_inv (mkRelay q st fl) tr' -> relay_inv (mkRelay q st (<[id := f]> fl)) tr'.
Proof.
  intros Hid Hrec Hauth -> Hslack [Hr Hc Hpast Hf Hg Ho]. split; try done.
  - intros d a b. simpl. rewrite (count_in_perm a b _ _ (pending_perm d fl id f Hid)), count_in_app.
    rewrite (admits_for_app d [(fl_domain f, fl_now f)] tr) by done. rewrite count_in_app. simpl.
    specialize (Hslack d a b). unfold admits_for in *. repeat case_decide; naive_solver lia.
  - intros id' f'. simpl. destruct (decide (id = id')) as [<-|Hne].
    + rewrite lookup_insert_eq. intros [= <-]. split; [done|]. congruence.
    + rewrite lookup_insert_ne by done. apply Hf.
Qed.

(** Expiry: what it drops is too old to be presented again. *)
Lemma relay_inv_purge q st st' fl tr now :
  tr_purge_clock tr <= now -> buckets st' = buckets st ->
  (forall d, nonces_of st' d = nonces_of st d \/ nonces_of st' d = live_nonces st d now) ->
  relay_inv (mkRelay q st fl) tr ->
  relay_inv (mkRelay q st' fl) (mkTrace (tr_admits tr) (tr_grants tr) (tr_admit_clock tr) now).
Proof.
  intros Hle Hb Hn [Hr Hc Hpast Hf Hg Ho]. split; try done; simpl in *.
  - intros d. rewrite Hb. apply Hr.
  - intros d a b. specialize (Hc d a b). change (admits_for d _) with (admits_for d tr).
    assert (table_count a b (nonces_of st' d) <= table_count a b (nonces_of st d)); [|lia].
    destruct (Hn d) as [-> | ->]; [done|]. unfold live_nonces. apply table_count_filter.
  - intros d n r Hl. destruct (Hn d) as [E|E]; rewrite E in Hl.
    + specialize (Hpast d n r Hl). simpl in Hpast. lia.
    + apply live_nonces_lookup in Hl as [Hl _]. specialize (Hpast d n r Hl). simpl in Hpast. lia.
  - intros g Hin. destruct (Hg g Hin) as (Ha & Hpc & Hl). split_and!; [done|lia|].
    intros Hy. specialize (Hl ltac:(lia)). destruct (Hn (gr_domain g)) as [-> | ->]; [done|].
    by apply live_nonces_lookup.
Qed.

(** The rate limiter keeps the table below its cap, so nothing that could
    still be replayed is ever evicted. *)
Lemma live_nonces_below_cap q st fl tr d now :
  tr_purge_clock tr <= now -> relay_inv (mkRelay q st fl) tr ->
  (size (live_nonces st d now) < FETCH_NONCE_MAX_PER_DOMAIN)%nat.
Proof.
  intros Hle [Hr Hc Hpast Hf Hg Ho]. simpl in *.
  assert (Hall : map_Forall (fun _ r => now - seconds 601 < r <= now) (live_nonces st d now)).
  { intros n r Hl. apply live_nonces_lookup in Hl as [Hl Hy].
    specialize (Hpast d n r Hl). simpl in Hpast. lia. }
  apply table_size_count in Hall.
  assert (table_count (now - seconds 601) now (live_nonces st d now) <=
          table_count (now - seconds 601) now (nonces_of st d)) as Hf'.
  { unfold live_nonces. apply table_count_filter. }
  specialize (Hc d (now - seconds 601) now).
  pose proof (count_in_nonneg (now - seconds 601) now (pending d fl)).
  pose proof (wi_window _ _ _ _ _ (Hr d) (now - seconds 601) now) as Hw.
  unfold seconds, FETCH_RATE_MAX_PER_WINDOW, FETCH_RATE_WINDOW_SECS, NANOS in *.
  assert (Z.of_nat FETCH_NONCE_MAX_PER_DOMAIN = 4096) by done. lia.
Qed.

(** A grant: the flight's nonce enters the table. *)
Lemma relay_inv_grant q st fl id d p tr :
  fl !! id = Some (mkFlight d p (tr_purge_clock tr) false) ->
  nonces_of st d !! pf_nonce p = None ->
  relay_inv (mkRelay q st fl) tr ->
  relay_inv (mkRelay q
      (mkAuth (<[d := <[pf_nonce p := tr_purge_clock tr]> (nonces_of st d)]> (nonces st)) (buckets st))
      (<[id := mkFlight d p (tr_purge_clock tr) true]> fl))
    (mkTrace (tr_admits tr) (mkGrant d p (tr_purge_clock tr) :: tr_grants tr)
      (tr_admit_clock tr) (tr_purge_clock tr)).
Proof.
  set (now := tr_purge_clock tr). intros Hid Hn [Hr Hc Hpast Hf Hg Ho]. simpl in *.
  destruct (Hf id _ Hid) as [Hauth _]. simpl in Hauth.
  split; try done; simpl.
  - intros d' a b. rewrite nonces_of_put.
    rewrite (count_in_perm a b _ _ (pending_none d' fl id _ (mkFlight d p now true) Hid)). simpl.
    specialize (Hc d' a b).
    rewrite (count_in_perm a b _ _ (pending_split d' fl id _ Hid)), count_in_app in Hc. simpl in Hc.
    change (admits_for d' _) with (admits_for d' tr).
    rewrite (decide_False (P := d = d' /\ true = false)) by naive_solver. simpl.
    destruct (decide (d = d')) as [<-|Hne].
    + rewrite decide_True in Hc by done. rewrite count_in_cons, count_in_nil in Hc.
      rewrite table_count_insert by done. lia.
    + rewrite decide_False in Hc by naive_solver. done.
  - intros d'. rewrite nonces_of_put. case_decide as E; [|apply Hpast]. subst d'.
    apply map_Forall_insert_2; [by unfold now|apply Hpast].
  - intros id' f'. destruct (decide (id = id')) as [<-|Hne].
    + rewrite lookup_insert_eq. intros [= <-]. split; [done|]. intros _. left.
    + rewrite lookup_insert_ne by done. intros Hl. destruct (Hf id' f' Hl) as [? Hrec].
      split; [done|]. intros Htrue. right. by apply Hrec.
  - intros g [->|Hin]%elem_of_cons; simpl.
    + split_and!; [done|done|]. intros _. rewrite nonces_of_put, decide_True by done.
      apply lookup_insert_eq.
    + destruct (Hg g Hin) as (Ha & Hpc & Hl). split_and!; [done|done|]. intros Hy.
      rewrite nonces_of_put. specialize (Hl Hy). case_decide as E; [|done]. subst d.
      rewrite lookup_insert_ne; [done|]. intros E. rewrite E in Hn. congruence.
  - destruct (whole_ts p) eqn:Ew; [|done]. simpl. constructor; [|done].
    intros Hin. apply list_elem_of_In, in_map_iff in Hin as (g & Hs & Hin).
    apply filter_In in Hin as [Hin Hgw]. apply list_elem_of_In in Hin.
    unfold same_use in Hs. simpl in Hs. injection Hs as Hd Hnn Hts.
    destruct (Hg g Hin) as (Ha & Hpc & Hl).
    pose proof (uses_are_close _ _ _ _ _ _ Hts Hgw Ha Hauth) as Hy.
    specialize (Hl Hy). rewrite Hd, Hnn in Hl. congruence.
Qed.

Lemma relay_inv_record q st fl id d p now tr :
  fl !! id = Some (mkFlight d p now false) -> tr_purge_clock tr <= now ->
  relay_inv (mkRelay q st fl) tr ->
  relay_inv (relay_step cfg (mkRelay q st fl) (StRecord id)).1
    (observe (mkRelay q st fl) (StRecord id) tr).
Proof.
  intros Hid Hle Hinv. pose proof (live_nonces_below_cap q st fl tr d now Hle Hinv) as Hcap.
  set (st1 := mkAuth (<[d := live_nonces st d now]> (nonces st)) (buckets st)).
  assert (H1 : relay_inv (mkRelay q st1 fl)
    (mkTrace (tr_admits tr) (tr_grants tr) (tr_admit_clock tr) now)).
  { apply (relay_inv_purge q st); try done. intros d'. unfold st1. rewrite nonces_of_put.
    case_decide; [subst; by right|by left]. }
  unfold observe. simpl. rewrite Hid. simpl.
  destruct (record_nonce_cases st d (pf_nonce p) now) as [[_ ->]|(Hn & room & Hroom & ->)]; simpl.
  - eapply (relay_inv_flights q); [| |exact H1]; [apply delete_subseteq|].
    intros. apply pending_delete_le.
  - destruct Hroom as [-> |[_ Hfull]]; [|lia].
    assert (Hst1 : nonces_of st1 d = live_nonces st d now).
    { unfold st1. rewrite nonces_of_put, decide_True by done. done. }
    pose proof (relay_inv_grant q st1 fl id d p
      (mkTrace (tr_admits tr) (tr_grants tr) (tr_admit_clock tr) now)) as HG.
    rewrite Hst1 in HG. unfold st1 in HG at 2 3. simpl in HG. rewrite insert_insert_eq in HG.
    apply HG; done.
Qed.

Lemma relay_inv_fetch s tr id d headers now :
  flights s !! id = None -> tr_admit_clock tr <= now -> relay_inv s tr ->
  relay_inv (begin_fetch cfg s id d headers now).1
    (mkTrace (admits_of s (StAdmit id d headers now) ++ tr_admits tr) (tr_grants tr) now
      (tr_purge_clock tr)).
Proof.
  intros Hid Hle Hinv. unfold begin_fetch, admits_of. rewrite Hid. simpl.
  destruct (domains cfg !! d) as [keys|] eqn:Ek; [|by apply relay_inv_admit_clock].
  destruct (extract_presented headers) as [p|e]; [|by apply relay_inv_admit_clock].
  simpl. destruct (auth_admit (auth s) d now) as [st' r] eqn:Ea. simpl.
  pose proof (relay_inv_admit s tr d now st' r Hle Ea Hinv) as Hinv'.
  destruct r as [[]|e]; [|exact Hinv'].
  destruct (verify_fetch_auth p d (audience cfg) keys now) as [[]|e] eqn:Ev; [|exact Hinv'].
  destruct (admit_cases (auth s) d now) as (b & r' & Ha & _). rewrite Ea in Ha.
  injection Ha as -> _.
  eapply (relay_inv_begin _ _ _ _ _ (mkTrace (tr_admits tr) (tr_grants tr) now (tr_purge_clock tr)));
    [done|done| |done| |exact Hinv'].
  - by apply (verify_fetch_auth_authorized p d keys now).
  - intros d' a b'. apply (ri_count s tr Hinv).
Qed.

Lemma relay_inv_step s tr l :
  in_order s l tr -> relay_inv s tr -> relay_inv (relay_step cfg s l).1 (observe s l tr).
Proof.
  intros [Ha Hp] Hinv. destruct s as [q st fl]. destruct l as [pr body now|id d hs now|id|id|now|now].
  - simpl. destruct (enqueue_handler cfg q pr body now). destruct tr.
    by apply (relay_inv_queues q).
  - specialize (Ha now eq_refl). destruct (fl !! id) as [f|] eqn:Hid.
    + unfold observe. simpl. rewrite Hid. by apply relay_inv_admit_clock.
    + pose proof (relay_inv_fetch (mkRelay q st fl) tr id d hs now Hid Ha Hinv) as H.
      unfold observe. simpl in *. rewrite Hid in *. exact H.
  - destruct (fl !! id) as [[d p now []]|] eqn:Hid.
    + unfold observe. simpl. rewrite Hid. simpl. specialize (Hp now). simpl in Hp. rewrite Hid in Hp.
      apply (relay_inv_purge q st); [by apply Hp|done|by left|by destruct tr].
    + apply relay_inv_record with d p now; [done| |done]. apply Hp. simpl. by rewrite Hid.
    + unfold observe. simpl. rewrite Hid. simpl. by destruct tr.
  - unfold observe. simpl. destruct tr as [A G ac pc]. simpl.
    destruct (fl !! id) as [[d p now []]|]; [|done..].
    destruct (drain q d now RELAY_FETCH_MAX_BATCH) as [q' dr]. simpl.
    apply (relay_inv_flights q q' st fl); [apply delete_subseteq| |done].
    intros. apply pending_delete_le.
  - destruct tr. by apply (relay_inv_queues q).
  - apply (relay_inv_purge q st); [by apply Hp|done| |done].
    intros d. unfold nonces_of, live_nonces at 1. simpl. right.
    destruct (filter _ _ !! d) as [m|] eqn:E; simpl.
    + apply map_lookup_filter_Some in E as [E _]. rewrite lookup_fmap in E.
      unfold live_nonces, nonces_of. destruct (nonces st !! d) as [m'|]; simpl in *; [|done].
      by injection E as <-.
    + apply map_lookup_filter_None in E as [E|E].
      * rewrite lookup_fmap in E. unfold live_nonces, nonces_of.
        destruct (nonces st !! d); simpl in *; [done|]. by rewrite map_filter_empty.
      * destruct (((fun entries : NonceTable => filter (nonce_live now) entries) <$> nonces st) !! d)
          as [m|] eqn:El.
        { specialize (E m eq_refl). simpl in E. apply dec_stable in E. rewrite lookup_fmap in El.
          unfold live_nonces, nonces_of. destruct (nonces st !! d); simpl in *; [|done]. congruence. }
        rewrite lookup_fmap in El. unfold live_nonces, nonces_of.
        destruct (nonces st !! d); simpl in *; [done|]. by rewrite map_filter_empty.
Qed.

Lemma relay_run_inv s tr : relay_run s tr -> relay_inv s tr.
Proof. induction 1; [apply relay_inv_new|by apply relay_inv_step]. Qed.

(** ** Queues *)
Lemma filter_sublist {A} (f : A -> bool) (l : list A) : List.filter f l `sublist_of` l.
Proof.
  induction l as [|x l IH]; simpl; [constructor|].
  destruct (f x); [by constructor|by apply sublist_cons].
Qed.
Lemma filter_all {A} (f : A -> bool) (l : list A) :
  (forall x, x ∈ l -> f x = true) -> List.filter f l = l.
Proof.
  induction l as [|x l IH]; simpl; [done|]. intros H.
  rewrite (H x) by left. f_equal. apply IH. intros y Hy. apply H. by right.
Qed.

Lemma queue_of_insert q d l d' :
  queue_of (<[d := l]> q) d' = if decide (d = d') then l else queue_of q d'.
Proof.
  unfold queue_of. case_decide as E; [subst; by rewrite lookup_insert_eq|by rewrite lookup_insert_ne].
Qed.
Lemma queue_of_drain q d now max d' :
  queue_of (drain q d now max).1 d' =
    (if decide (d = d') then drop max (retain_unexpired (queue_of q d) now) else queue_of q d') /\
  (drain q d now max).2 = take max (retain_unexpired (queue_of q d) now).
Proof.
  unfold drain. destruct (q !! d) as [l|] eqn:E; simpl.
  - rewrite queue_of_insert. unfold queue_of. rewrite E. simpl.
    set (r := retain_unexpired l now).
    destruct (decide (max <= length r)%nat).
    + by rewrite Nat.min_l.
    + rewrite Nat.min_r by lia. by rewrite !take_ge, !drop_ge by lia.
  - unfold queue_of at 2 4. rewrite E. simpl. rewrite drop_nil, take_nil.
    case_decide; [subst; by unfold queue_of; rewrite E|done].
Qed.
Lemma queue_of_sweep q now d :
  queue_of (queue_sweep q now) d = retain_unexpired (queue_of q d) now.
Proof.
  unfold queue_sweep, queue_of.
  destruct (filter _ _ !! d) as [m|] eqn:E; simpl.
  - apply map_lookup_filter_Some in E as [E _]. rewrite lookup_fmap in E.
    destruct (q !! d); simpl in *; [|done]. by injection E as <-.
  - apply map_lookup_filter_None in E as [E|E].
    + rewrite lookup_fmap in E. by destruct (q !! d).
    + destruct (((fun queue => retain_unexpired queue now) <$> q) !! d) as [m|] eqn:El;
        rewrite lookup_fmap in El; destruct (q !! d) as [l|]; simpl in *; try done.
      injection El as <-. specialize (E _ eq_refl). simpl in E. by apply dec_stable in E.
Qed.

(** What a step put into, and handed out of, the queue of [d]; the reading it
    expired entries at. *)
Definition enqueued_by (d : string) (l : RelayStep) : list QueuedEnvelope :=
  match l with
  | StEnqueue principal body now =>
      if decide (extract_domain principal = Some d /\ is_some (domains cfg !! d) = true)
      then [mkQueued principal body now] else []
  | _ => []
  end.
Definition delivered_by (s : Relay) (d : string) (l : RelayStep) : list (string * string) :=
  match l with
  | StDrain id =>
      match (relay_step cfg s l).2 with
      | Some (REnvelopes es) =>
          if decide (fl_domain <$> flights s !! id = Some d) then es else []
      | _ => []
      end
  | _ => []
  end.
Definition expiry_reading (s : Relay) (l : RelayStep) : list OffsetDateTime :=
  match l with
  | StDrain id => option_list (fl_now <$> flights s !! id)
  | StSweepQueues now => [now]
  | _ => []
  end.

(** The run of the relay, seen from the queue of [d]: what was accepted for it,
    what was handed out of it, and the readings entries were expired at. *)
Inductive queue_run (d : string) :
    Relay -> list QueuedEnvelope -> list (string * string) -> list OffsetDateTime -> Prop :=
| queue_new : queue_run d relay_new [] [] []
| queue_step s E D R l :
    queue_run d s E D R ->
    queue_run d (relay_step cfg s l).1 (E ++ enqueued_by d l) (D ++ delivered_by s d l)
      (R ++ expiry_reading s l).

(** [new] is [old] without a front batch [taken] and with [put] behind, except
    for entries [old] lost to expiry or overflow. *)
Definition queue_moves (old new put taken : list QueuedEnvelope) (readings : list OffsetDateTime) :
    Prop :=
  (length old <= RELAY_QUEUE_MAX_PER_DOMAIN -> length new <= RELAY_QUEUE_MAX_PER_DOMAIN)%nat /\
  exists kept, taken ++ new = kept ++ put /\ kept `sublist_of` old /\
    ((length old + length put <= RELAY_QUEUE_MAX_PER_DOMAIN)%nat ->
     (forall e t, e ∈ old -> t ∈ readings -> unexpired t e = true) -> kept = old).

Lemma queue_moves_not l R : queue_moves l l [] [] R.
Proof. split; [done|]. exists l. by rewrite app_nil_r. Qed.

Lemma queue_moves_drain l now max :
  queue_moves l (drop max (retain_unexpired l now)) [] (take max (retain_unexpired l now)) [now].
Proof.
  pose proof (filter_sublist (unexpired now) l) as Hs. split.
  - intros Hl. rewrite length_drop. apply sublist_length in Hs. unfold retain_unexpired. lia.
  - exists (retain_unexpired l now). rewrite take_drop, app_nil_r. split_and!; [done|done|].
    intros _ Hall. apply filter_all. intros e He. apply Hall; [done|left].
Qed.

Lemma queue_moves_enqueue l e :
  queue_moves l ((if (RELAY_QUEUE_MAX_PER_DOMAIN <=? length l)%nat then tail l else l) ++ [e])
    [e] [] [].
Proof.
  destruct (RELAY_QUEUE_MAX_PER_DOMAIN <=? length l)%nat eqn:E;
    [apply Nat.leb_le in E|apply Nat.leb_gt in E]; split.
  - intros Hl. rewrite length_app. destruct l; simpl in *; [|lia].
    unfold RELAY_QUEUE_MAX_PER_DOMAIN. lia.
  - exists (tail l). split_and!; [done| |simpl; lia]. destruct l; [done|by apply sublist_cons].
  - intros Hl. rewrite length_app. simpl. lia.
  - by exists l.
Qed.

Lemma relay_step_moves d s l :
  exists taken, delivered_by s d l = map envelope_json taken /\
    queue_moves (queue_of (queues s) d) (queue_of (queues (relay_step cfg s l).1) d)
      (enqueued_by d l) taken (expiry_reading s l).
Proof.
  destruct s as [q st fl]. destruct l as [pr body now|id dm hs now|id|id|now|now]; simpl.
  - exists []. split; [done|]. unfold enqueue_handler.
    destruct (extract_domain pr) as [dm|] eqn:Ed; simpl; [|apply queue_moves_not].
    destruct (domains cfg !! dm) as [keys|] eqn:Ek; simpl.
    + unfold enqueue. pose proof (queue_moves_enqueue (queue_of q dm) (mkQueued pr body now)) as Hm.
      destruct (RELAY_QUEUE_MAX_PER_DOMAIN <=? length (queue_of q dm))%nat; cbn [fst queues];
        rewrite queue_of_insert; destruct (decide (dm = d)) as [->|Hne];
        try (rewrite decide_True by (by rewrite Ek); exact Hm);
        rewrite decide_False by naive_solver; apply queue_moves_not.
    + rewrite decide_False; [apply queue_moves_not|]. intros [[= ->] Hd]. by rewrite Ek in Hd.
  - exists []. split; [done|].
    assert (queues (if is_some (fl !! id) then (mkRelay q st fl, None)
      else begin_fetch cfg (mkRelay q st fl) id dm hs now).1 = q) as ->; [|apply queue_moves_not].
    unfold begin_fetch. repeat case_match; simpl; done.
  - exists []. split; [done|]. simpl.
    destruct (fl !! id) as [[dm p now []]|]; [apply queue_moves_not| |apply queue_moves_not].
    destruct (record_nonce st dm (pf_nonce p) now) as [st' [|]]; apply queue_moves_not.
  - destruct (fl !! id) as [[dm p now []]|] eqn:Hid; simpl.
    + destruct (queue_of_drain q dm now RELAY_FETCH_MAX_BATCH d) as [Hq Hd].
      destruct (drain q dm now RELAY_FETCH_MAX_BATCH) as [q' dr]. simpl in *. rewrite Hq, Hd.
      destruct (decide (dm = d)) as [->|Hne].
      * rewrite decide_True by done. eexists. split; [done|]. apply queue_moves_drain.
      * rewrite decide_False by naive_solver. exists []. split; [done|]. apply queue_moves_not.
    + exists []. split; [done|]. apply queue_moves_not.
    + exists []. split; [done|]. apply queue_moves_not.
  - exists []. split; [done|]. rewrite queue_of_sweep.
    pose proof (filter_sublist (unexpired now) (queue_of q d)) as Hs. split.
    + intros Hl. apply sublist_length in Hs. unfold retain_unexpired. lia.
    + exists (retain_unexpired (queue_of q d) now). rewrite app_nil_r. split_and!; [done|done|].
      intros _ Hall. apply filter_all. intros e He. apply Hall; [done|left].
  - exists []. split; [done|]. apply queue_moves_not.
Qed.

(** The relay forwards bytes verbatim: what has been handed out of a
    domain's queue, followed by what is still queued, is a subsequence, in
    order, of what was accepted for that domain (recipient from the path, body
    byte for byte under the base64url of the response), so nothing is
    duplicated, reordered, altered or moved between domains; it is everything
    accepted when at most 1024 entries were accepted and none was past its TTL
    at a drain or sweep; and a queue never exceeds 1024 entries. *)
Theorem relay_forwards_verbatim `{!CryptoLaws} d s E D R :
  queue_run d s E D R ->
  exists T, D = map envelope_json T /\
    map (fun e => b64url_decode e.2) D = map (fun e => Some (qe_bytes e)) T /\
    (T ++ queue_of (queues s) d) `sublist_of` E /\
    ((length E <= RELAY_QUEUE_MAX_PER_DOMAIN)%nat ->
     (forall e t, e ∈ E -> t ∈ R -> unexpired t e = true) -> T ++ queue_of (queues s) d = E) /\
    (depth (queues s) d <= RELAY_QUEUE_MAX_PER_DOMAIN)%nat.
Proof.
  intros Hrun.
  assert (exists T, D = map envelope_json T /\ (T ++ queue_of (queues s) d) `sublist_of` E /\
    ((length E <= RELAY_QUEUE_MAX_PER_DOMAIN)%nat ->
     (forall e t, e ∈ E -> t ∈ R -> unexpired t e = true) -> T ++ queue_of (queues s) d = E) /\
    (length (queue_of (queues s) d) <= RELAY_QUEUE_MAX_PER_DOMAIN)%nat) as (T & HD & Hsub & Hl & Hn).
  { induction Hrun as [|s E D R l Hrun (T & -> & Hsub & Hall & Hlen)].
    { exists []. split_and!; [done|done|done|]. apply Nat.le_0_l. }
    destruct (relay_step_moves d s l) as (taken & -> & Hcap & kept & Heq & Hk & Hkeep).
    exists (T ++ taken). rewrite map_app, <- (assoc_L (++)), Heq. split_and!; [done| | |by apply Hcap].
    - rewrite (assoc_L (++)). apply sublist_app; [|done]. etrans; [|exact Hsub].
      by apply sublist_app.
    - intros HE Hun. rewrite length_app in HE.
      assert (HT : T ++ queue_of (queues s) d = E).
      { apply Hall; [lia|]. intros e t He Ht. apply Hun; apply elem_of_app; by left. }
      rewrite Hkeep, (assoc_L (++)), HT; [done| |].
      + apply sublist_length in Hsub. rewrite length_app in Hsub. lia.
      + intros e t He Ht. apply Hun; apply elem_of_app; [left|by right].
        rewrite <- HT. apply elem_of_app. by right. }
  exists T. split_and!; try done. rewrite HD, map_map. apply map_ext. intros e.
  apply b64url_roundtrip.
Qed.

(** ** Grants *)

(** C25. A fetch authorization works once: in any interleaving of concurrent
    requests and sweeps, if the limiter and the nonce table see clock readings
    in order, no two grants name the same domain, nonce and (whole-second)
    timestamp; the nonce cache never evicts an entry that could still be
    presented again. *)
Theorem authorization_is_single_use s tr :
  relay_run s tr ->
  NoDup (map same_use (List.filter (fun g => whole_ts (gr_auth g)) (tr_grants tr))) /\
  forall d now, tr_purge_clock tr <= now ->
    (size (live_nonces (auth s) d now) < FETCH_NONCE_MAX_PER_DOMAIN)%nat.
Proof.
  intros Hinv%relay_run_inv. split; [apply Hinv|]. intros d now Hle. destruct s.
  by eapply live_nonces_below_cap.
Qed.

(** A queue is drained only for a granted authorization: the response
    carries the oldest unexpired entries of one domain's queue, at most 64, a
    key configured for that domain signed the request for that domain at this
    relay with a fresh timestamp, the text it signed is the text of no other
    value, every other queue is untouched and the request ends with it. *)
Theorem drain_needs_authorization `{!WireLaws} s tr l s' es :
  relay_run s tr -> relay_step cfg s l = (s', Some (REnvelopes es)) ->
  exists id d p now, l = StDrain id /\
    mkGrant d p now ∈ tr_grants tr /\ authorized d p now /\
    es = map envelope_json
      (take RELAY_FETCH_MAX_BATCH (retain_unexpired (queue_of (queues s) d) now)) /\
    (forall d', d' <> d -> queue_of (queues s') d' = queue_of (queues s) d') /\
    flights s' !! id = None /\
    let request := request_to_value
      (mkRequest FETCH_AUTH_TYP (audience cfg) d (pf_nonce p) (pf_ts p)) in
    forall v c, json_wf v = true -> canonicalize v = Ok c -> canonicalize request = Ok c ->
      v = request.
Proof.
  intros Hinv%relay_run_inv Hstep. destruct l as [pr body now|id dm hs now|id|id|now|now]; simpl in Hstep.
  - unfold enqueue_handler in Hstep. repeat case_match; simplify_eq.
  - unfold begin_fetch, fetch_reject_response in Hstep. repeat case_match; simplify_eq.
  - unfold fetch_reject_response in Hstep. repeat case_match; simplify_eq.
  - destruct (flights s !! id) as [[d p now []]|] eqn:Hid; [|done..].
    destruct (queue_of_drain (queues s) d now RELAY_FETCH_MAX_BATCH d) as [_ Hd].
    assert (forall d', d' <> d -> queue_of (drain (queues s) d now RELAY_FETCH_MAX_BATCH).1 d' =
      queue_of (queues s) d') as Ho.
    { intros d' Hne. destruct (queue_of_drain (queues s) d now RELAY_FETCH_MAX_BATCH d') as [-> _].
      by rewrite decide_False. }
    destruct (drain (queues s) d now RELAY_FETCH_MAX_BATCH) as [q' dr]. simpl in *. simplify_eq.
    destruct (ri_flights s tr Hinv id _ Hid) as [Ha Hg]. simpl in Ha, Hg.
    exists id, d, p, now. split_and!; try done; [by apply Hg|apply lookup_delete_eq|].
    intros v c Hv Hc Hc'. eapply signed_text_injective; [done|done|exact Hc|exact Hc'|done].
  - done.
  - done.
Qed.

(** Verification work is bounded: in any window, the fetch requests of one
    domain admitted to signature verification, over any interleaving, are at
    most 120 per minute plus two windows' worth, so at most 240 in a window of
    a millisecond and at most 1442 within the lifetime of a nonce. *)
Theorem admissions_are_rate_limited s tr d a b :
  relay_run s tr -> a <= b ->
  count_in a b (admits_for d tr) * seconds FETCH_RATE_WINDOW_SECS <=
    FETCH_RATE_MAX_PER_WINDOW * (b - a + 2 * seconds FETCH_RATE_WINDOW_SECS).
Proof. intros Hinv%relay_run_inv Hab. by apply (wi_window _ _ _ _ _ (ri_rate s tr Hinv d)). Qed.

(** ** The handler and its critical sections *)
Fixpoint relay_steps (s : Relay) (ls : list RelayStep) : Relay * list RelayResponse :=
  match ls with
  | [] => (s, [])
  | l :: ls =>
      let '(s, r) := relay_step cfg s l in
      let '(s, rs) := relay_steps s ls in (s, option_list r ++ rs)
  end.

(** Run without interruption, the critical sections of a fetch are the
    handler: same queues, same authorization state, exactly its one response,
    and no flight left behind, on every path including every reject. *)
Theorem fetch_handler_is_its_sections s id d headers now :
  flights s !! id = None ->
  relay_steps s [StAdmit id d headers now; StRecord id; StDrain id] =
  let '(q, st, r) := fetch_handler cfg (queues s) (auth s) d headers now in
  (mkRelay q st (flights s), [r]).
Proof.
  intros Hid. destruct s as [q st fl]. simpl in *. rewrite Hid. simpl.
  assert (Hdone : forall q st r,
    (let '(s, rs) := (let '(s, r) := relay_step cfg (mkRelay q st fl) (StRecord id) in
      let '(s, rs) := (let '(s, r) := relay_step cfg s (StDrain id) in (s, option_list r ++ []))
      in (s, option_list r ++ rs)) in (s, [r] ++ rs)) = (mkRelay q st fl, [r])).
  { intros q' st' r. simpl. rewrite Hid. simpl. by rewrite Hid. }
  unfold begin_fetch, fetch_handler, ingest_fetch. simpl.
  destruct (domains cfg !! d) as [keys|]; [|apply Hdone].
  destruct (extract_presented headers) as [p|e]; [|apply Hdone].
  destruct (auth_admit st d now) as [st1 [[]|e]]; [|apply Hdone].
  destruct (verify_fetch_auth p d (audience cfg) keys now) as [[]|e];
    [|apply Hdone].
  simpl. rewrite lookup_insert_eq.
  destruct (record_nonce st1 d (pf_nonce p) now) as [st2 [[]|e]]; simpl.
  - rewrite lookup_insert_eq. destruct (drain q d now RELAY_FETCH_MAX_BATCH) as [q' dr]. simpl.
    rewrite insert_insert_eq, delete_insert_id by done. done.
  - rewrite delete_insert_id by done. simpl. rewrite Hid. done.
Qed.

(** What the gateway signs, the relay accepts: an authorization minted by
    [sign_fetch_auth] for a configured key, presented through its own header
    pairs with every value within the header limit, is verified up to 300
    seconds later, provided the calendar text of the minting instant parses
    back to its second. *)
Theorem signed_fetch_verifies `{!CryptoLaws} sk d nonce civil t0 now signed keys :
  sign_fetch_auth sk (audience cfg) d nonce civil = Ok signed ->
  rfc3339_parse (format_ts civil) = Some (replace_nanosecond_0 t0) ->
  verifying_key sk ∈ keys ->
  (forall h v, (h, v) ∈ header_pairs signed -> String.length v <= RELAY_AUTH_HEADER_MAX_BYTES)%nat ->
  t0 <= now <= t0 + seconds 300 ->
  exists p, extract_presented (fun h => obj_get h (header_pairs signed)) = Ok p /\
    verify_fetch_auth p d (audience cfg) keys now = Ok tt.
Proof.
  intros Hs Ht Hk Hlen Hnow. unfold sign_fetch_auth in Hs.
  destruct (sign_value sk _) as [sig|] eqn:Esig; [|done]. injection Hs as <-.
  eexists. split; [reflexivity|]. unfold verify_fetch_auth. simpl.
  assert (header_too_long (mkPresented (audience cfg) (format_ts civil) nonce (sig_to_b64url sig))
    = None) as ->.
  { apply find_map_None. intros [h v] Hin. unfold header_pairs in Hlen. simpl in *.
    specialize (Hlen h v Hin). apply Nat.ltb_ge in Hlen. by rewrite Hlen. }
  rewrite String.eqb_refl. simpl. rewrite Ht.
  assert (Hf : replace_nanosecond_0 now - replace_nanosecond_0 t0 < seconds 301 /\
               0 <= replace_nanosecond_0 now - replace_nanosecond_0 t0).
  { unfold replace_nanosecond_0, seconds, NANOS in *. Z.to_euclidean_division_equations. lia. }
  assert (FETCH_FRESHNESS_WINDOW_SECS <?
    Z.abs (whole_seconds (replace_nanosecond_0 now - replace_nanosecond_0 t0)) = false) as ->.
  { apply Z.ltb_ge, whole_seconds_abs_le; [done|].
    change (FETCH_FRESHNESS_WINDOW_SECS + 1) with 301. unfold seconds, NANOS in *. lia. }
  assert (sig_from_b64url (sig_to_b64url sig) = Ok sig) as ->.
  { unfold sign_value in Esig. destruct (canonicalize _); [|done]. injection Esig as <-.
    apply sig_b64url_roundtrip. }
  match goal with |- (if ?b then _ else _) = _ => assert (b = true) as ->; [|done] end.
  apply iter_any_true. exists (verifying_key sk). split; [done|].
  unfold presented_request. simpl. by rewrite (sign_verify _ _ _ Esig).
Qed.
End relay.

(** ** A relay to run the theorems on *)

Definition demo_sk : FampSigningKey := mkSigningKey [x01; x02].
Definition demo_cfg : RelayConfig :=
  mkConfig {["a.test" := [verifying_key demo_sk]]} "https://relay.test".
Definition demo_signed : SignedFetchAuth :=
  match sign_fetch_auth demo_sk "https://relay.test" "a.test" "n1" (mkCivil 1000 0 0 0 0 0) with
  | Ok s => s | Err _ => mkSignedFetch "" "" "" "" end.
Definition headers_of (s : SignedFetchAuth) : Headers := fun h => obj_get h (header_pairs s).

Definition demo_steps : list RelayStep :=
  [StEnqueue "agent:a.test/bob" [x00; xff] (seconds 990);
   StAdmit 1 "a.test" (headers_of demo_signed) (seconds 1000 + 5);
   StAdmit 2 "a.test" (headers_of demo_signed) (seconds 1000 + 7);
   StRecord 1; StRecord 2].

Fixpoint demo_run `{CryptoLib} `{WireLib} `{TimeLib} cfg (s : Relay) (tr : Trace)
    (ls : list RelayStep) : Relay * Trace :=
  match ls with
  | [] => (s, tr)
  | l :: ls => demo_run cfg (relay_step cfg s l).1 (observe cfg s l tr) ls
  end.
Definition demo : Relay * Trace := demo_run demo_cfg relay_new (trace_new 0) demo_steps.

Lemma demo_is_run : relay_run demo_cfg demo.1 demo.2.
Proof.
  unfold demo. cbn [demo_run demo_steps fst snd].
  repeat (apply run_step; [|split; intros t; vm_compute; intros [= <-]; done]).
  apply run_new.
Qed.

Lemma relay_forwards_verbatim_witness : exists s E D R,
  queue_run demo_cfg "a.test" s E D R /\ length E = 1%nat /\
  (depth (queues s) "a.test" <= RELAY_QUEUE_MAX_PER_DOMAIN)%nat.
Proof.
  pose proof (queue_step demo_cfg "a.test" _ _ _ _
    (StEnqueue "agent:a.test/bob" [x00; xff] (seconds 990)) (queue_new demo_cfg "a.test")) as Hrun.
  destruct (relay_forwards_verbatim demo_cfg _ _ _ _ _ Hrun) as (T & _ & _ & _ & _ & Hd).
  eexists _, _, _, _. split; [exact Hrun|]. split; [reflexivity|exact Hd].
Qed.

Lemma authorization_is_single_use_witness :
  length (tr_grants demo.2) = 1%nat /\
  NoDup (map same_use (List.filter (fun g => whole_ts (gr_auth g)) (tr_grants demo.2))).
Proof.
  split; [vm_compute; reflexivity|].
  exact (proj1 (authorization_is_single_use demo_cfg _ _ demo_is_run)).
Defined.

Lemma drain_needs_authorization_witness :
  exists s' id d p now,
    relay_step demo_cfg demo.1 (StDrain 1) = (s', Some (REnvelopes [("agent:a.test/bob", "aaahhg")])) /\
    mkGrant d p now ∈ tr_grants demo.2 /\ authorized demo_cfg d p now /\ flights s' !! id = None.
Proof.
  assert (exists s', relay_step demo_cfg demo.1 (StDrain 1) =
    (s', Some (REnvelopes [("agent:a.test/bob", "aaahhg")]))) as [s' Hs'].
  { eexists. vm_compute. reflexivity. }
  destruct (drain_needs_authorization demo_cfg _ _ _ _ _ demo_is_run Hs')
    as (id & d & p & now & _ & Hg & Ha & _ & _ & Hf & _).
  exists s', id, d, p, now. exact (conj Hs' (conj Hg (conj Ha Hf))).
Qed.

Lemma admissions_are_rate_limited_witness :
  count_in 0 (seconds 2000) (admits_for "a.test" demo.2) = 2 /\
  2 * seconds 60 <= 120 * (seconds 2000 - 0 + 2 * seconds 60).
Proof.
  split; [vm_compute; reflexivity|].
  exact (admissions_are_rate_limited demo_cfg _ _ "a.test" 0 (seconds 2000) demo_is_run ltac:(done)).
Qed.

Lemma fetch_handler_is_its_sections_witness :
  relay_steps demo_cfg relay_new
    [StAdmit 7 "b.test" (headers_of demo_signed) 0; StRecord 7; StDrain 7] =
  (relay_new, [RReject 404 "unknown_domain"]).
Proof.
  rewrite (fetch_handler_is_its_sections demo_cfg relay_new 7 "b.test" _ 0 eq_refl). reflexivity.
Qed.

Lemma signed_fetch_verifies_witness : exists p,
  extract_presented (headers_of demo_signed) = Ok p /\
  verify_fetch_auth p "a.test" "https://relay.test" [verifying_key demo_sk] (seconds 1200) = Ok tt.
Proof.
  apply (signed_fetch_verifies demo_cfg demo_sk "a.test" "n1" (mkCivil 1000 0 0 0 0 0) (seconds 1000));
    try (vm_compute; reflexivity).
  - left.
  - intros h v Hin. apply Nat.leb_le.
    assert (forallb (fun hv => (String.length hv.2 <=? RELAY_AUTH_HEADER_MAX_BYTES)%nat)
      (header_pairs demo_signed) = true) as Hall by (vm_compute; reflexivity).
    rewrite forallb_forall in Hall. apply (Hall (h, v)). by apply list_elem_of_In.
  - split; vm_compute; discriminate.
Qed.

(** ** A timestamp with a fraction outlives its nonce

    [verify_fetch_auth] floors its own clock and truncates the difference, so a
    timestamp that carries a fraction of a second stays fresh for a little more
    than 600 s, while [record_nonce] forgets its nonce after 600 whole seconds. *)
Definition fraction_ts : string := "1000.900000000Z".
Definition fraction_signed : SignedFetchAuth :=
  match sign_value demo_sk (request_to_value
      (mkRequest FETCH_AUTH_TYP "https://relay.test" "a.test" "n1" fraction_ts)) with
  | Ok sig => mkSignedFetch "https://relay.test" fraction_ts "n1" (sig_to_b64url sig)
  | Err _ => mkSignedFetch "" "" "" "" end.
Definition fraction_run : Relay * Trace :=
  demo_run demo_cfg relay_new (trace_new 0)
    [StAdmit 1 "a.test" (headers_of fraction_signed) (seconds 700); StRecord 1; StDrain 1;
     StAdmit 2 "a.test" (headers_of fraction_signed) (seconds 1301 + 900000000); StRecord 2].

Theorem fractional_timestamp_is_replayable :
  relay_run demo_cfg fraction_run.1 fraction_run.2 /\
  exists g1 g2, tr_grants fraction_run.2 = [g2; g1] /\ same_use g1 = same_use g2.
Proof.
  split.
  - unfold fraction_run. cbn [demo_run fst snd].
    repeat (apply run_step; [|split; intros t; vm_compute; intros [= <-]; done]).
    apply run_new.
  - eexists _, _. split; vm_compute; reflexivity.
Qed.

(** ** The relay's start: [main.rs] *)

(** [SocketAddr::from_str] and [Url::parse], and the text of a key's error. *)
Class RelayStartLib := {
  listen_parse : string -> result string string; public_url_parse : string -> result Url string;
  key_error : CryptoError -> string }.
Definition RELAY_MAX_KEYS_PER_DOMAIN : nat := 4%nat.

(** The options while the arguments are read; the texts are [seen_keys_b64]. *)
Record RelayArgs := mkRelayArgs {
  ra_listen : option string; ra_tls_cert : option string; ra_tls_key : option string; ra_public_url : option Url;
  ra_domains : gmap string (list TrustedVerifyingKey); ra_seen : gmap string (list string) }.
Definition no_relay_args : RelayArgs := mkRelayArgs None None None None ∅ ∅.

(** How a relay ends before it is ready. *)
Inductive RelayStartError := RsUsage (message : string) | RsTlsCert | RsTlsKey | RsTlsConfig | RsBind.

Section relay_start.
Context `{CL : CryptoLib} `{RL : RelayStartLib}.

Definition parse_domain_flag (raw : string) (a : RelayArgs) : result RelayArgs string :=
  letsome (domain, key_str) := split_at_char "="%char raw
    orelse Err ("--domain: malformed value '" +:+ raw +:+ "', expected <domain>=<pubkey>") in
  if String.eqb domain EmptyString
  then Err ("--domain: empty domain in '" +:+ raw +:+ "', expected <domain>=<pubkey>") else
  trying key := vk_from_b64url key_str
    catch e => Err ("--domain: the value after '=' for domain '" +:+ domain +:+ "' is not a valid public key (" +:+
      key_error e +:+ ") — this must be the SECOND whitespace-separated field of the peer's `famp peer export` output") in
  let seen := default [] (ra_seen a !! domain) in
  if bool_decide (key_str ∈ seen)
  then Err ("--domain: duplicate domain-and-key pair for domain '" +:+ domain +:+ "' — each --domain entry must be a distinct key")
  else if (RELAY_MAX_KEYS_PER_DOMAIN <=? length seen)%nat
  then Err ("--domain: domain '" +:+ domain +:+ "' already has 4 configured keys (RELAY_MAX_KEYS_PER_DOMAIN) — remove an old key before adding another")
  else Ok (mkRelayArgs (ra_listen a) (ra_tls_cert a) (ra_tls_key a) (ra_public_url a)
             (<[domain := default [] (ra_domains a !! domain) ++ [key]]> (ra_domains a))
             (<[domain := seen ++ [key_str]]> (ra_seen a))).

Definition relay_flag (flag : string) : option (string * (string -> RelayArgs -> result RelayArgs string)) :=
  if String.eqb flag "--listen" then
    Some ("--listen requires an address argument, e.g. 127.0.0.1:8443", fun v a =>
      trying addr := listen_parse v catch e => Err ("--listen: invalid address '" +:+ v +:+ "': " +:+ e) in
      Ok (mkRelayArgs (Some addr) (ra_tls_cert a) (ra_tls_key a) (ra_public_url a) (ra_domains a) (ra_seen a)))
  else if String.eqb flag "--tls-cert" then
    Some ("--tls-cert requires a path argument", fun v a =>
      Ok (mkRelayArgs (ra_listen a) (Some v) (ra_tls_key a) (ra_public_url a) (ra_domains a) (ra_seen a)))
  else if String.eqb flag "--tls-key" then
    Some ("--tls-key requires a path argument", fun v a =>
      Ok (mkRelayArgs (ra_listen a) (ra_tls_cert a) (Some v) (ra_public_url a) (ra_domains a) (ra_seen a)))
  else if String.eqb flag "--public-url" then
    Some ("--public-url requires a url argument, e.g. https://relay.example.com", fun v a =>
      trying url := public_url_parse v catch e => Err ("--public-url: invalid url '" +:+ v +:+ "': " +:+ e) in
      Ok (mkRelayArgs (ra_listen a) (ra_tls_cert a) (ra_tls_key a) (Some url) (ra_domains a) (ra_seen a)))
  else if String.eqb flag "--domain" then Some ("--domain requires a <domain>=<pubkey> argument", parse_domain_flag)
  else None.

Fixpoint relay_parse_loop (args : list string) (a : RelayArgs) : result RelayArgs string :=
  match args with
  | [] => Ok a
  | arg :: rest =>
      match relay_flag arg with
      | Some (missing, act) =>
          match rest with
          | [] => Err missing
          | value :: rest => trying a := act value a catch e => Err e in relay_parse_loop rest a
          end
      | None => Err ("famp-relay: unrecognized argument '" +:+ arg +:+ "'")
      end
  end.

(** [args] starts with the program's own name. *)
Definition relay_parse_args (args : list string) : result (RelayArgs * Url) string :=
  trying a := relay_parse_loop (tail args) no_relay_args catch e => Err e in
  if is_none (ra_listen a) then Err "--listen <addr> is required, e.g. --listen 0.0.0.0:8443" else
  if is_none (ra_tls_cert a) then Err "--tls-cert <path> is required" else
  if is_none (ra_tls_key a) then Err "--tls-key <path> is required" else
  letsome url := ra_public_url a orelse
    Err "--public-url <url> is required — it is the audience every fetch signature is bound to, so a wrong or absent value fails every fetch with an audience mismatch" in
  if bool_decide (ra_domains a = ∅)
  then Err "at least one --domain <domain>=<pubkey> is required — a relay serving no domains has nothing to do"
  else Ok (a, url).

(** [main] up to the line that says the relay is ready; the four booleans are the
    certificate, the key, the two together and the listener. *)
Definition relay_start (args : list string) (cert_ok key_ok config_ok bind_ok : bool) : result RelayConfig RelayStartError :=
  trying (a, url) := relay_parse_args args catch e => Err (RsUsage e) in
  if negb cert_ok then Err RsTlsCert else
  if negb key_ok then Err RsTlsKey else
  if negb config_ok then Err RsTlsConfig else
  if negb bind_ok then Err RsBind else
  Ok (mkConfig (ra_domains a) (normalize_audience url)).

(** What the flags read so far say of each domain. *)
Definition flagged (args : list string) (d t : string) : Prop :=
  exists before raw after, args = before ++ "--domain" :: raw :: after /\ split_at_char "="%char raw = Some (d, t).
Definition key_texts (texts : list string) (keys : list TrustedVerifyingKey) : Prop :=
  Forall2 (fun t k => vk_from_b64url t = Ok k) texts keys /\ NoDup texts /\ (0 < length texts <= RELAY_MAX_KEYS_PER_DOMAIN)%nat.
Definition args_ok (read : list string) (a : RelayArgs) : Prop := forall d,
  match ra_domains a !! d with
  | Some keys => d <> EmptyString /\ exists texts, ra_seen a !! d = Some texts /\ key_texts texts keys /\
                   forall t, t ∈ texts -> flagged read d t
  | None => ra_seen a !! d = None
  end.

Lemma flagged_more read d t more : flagged read d t -> flagged (read ++ more) d t.
Proof. intros (b & r & af & -> & Hs). exists b, r, (af ++ more). by rewrite <- !app_assoc. Qed.

Lemma args_ok_more read a more : args_ok read a -> args_ok (read ++ more) a.
Proof.
  intros H d. specialize (H d). destruct (ra_domains a !! d); [|done].
  destruct H as (Hd & texts & Hs & Hk & Hf). split; [done|]. exists texts. split_and!; [done..|].
  intros t Ht. by apply flagged_more, Hf.
Qed.

Lemma parse_domain_ok read raw a a' : args_ok read a -> parse_domain_flag raw a = Ok a' ->
  args_ok (read ++ ["--domain"; raw]) a'.
Proof.
  intros Hok. unfold parse_domain_flag. destruct (split_at_char "=" raw) as [[domain key_str]|] eqn:Es; [|done].
  destruct (String.eqb_spec domain EmptyString) as [|Hd]; [done|].
  destruct (vk_from_b64url key_str) as [key|e] eqn:Ek; [|done].
  case_bool_decide as Hin; [done|]. destruct (_ <=? _)%nat eqn:El; [done|]. intros [= <-] d.
  pose proof (args_ok_more read a ["--domain"; raw] Hok d) as Hm. cbn [ra_domains ra_seen].
  destruct (decide (d = domain)) as [->|Hne]; [|by rewrite !lookup_insert_ne].
  rewrite !lookup_insert_eq. split; [done|]. eexists. split; [done|].
  assert (Hnew : flagged (read ++ ["--domain"; raw]) domain key_str) by (by exists read, raw, []).
  apply Nat.leb_gt in El. specialize (Hok domain). destruct (ra_domains a !! domain) as [keys|] eqn:Ea.
  - destruct Hm as (_ & texts & Hs & (Hf & Hnd & Hlen) & Hfl). rewrite Hs in *. cbn [from_option id] in *. split.
    + split; [|split].
      * apply Forall2_app; [done|]. by constructor.
      * apply NoDup_app. split_and!; [done| |by apply NoDup_singleton]. intros t Ht ->%list_elem_of_singleton. done.
      * rewrite length_app. simpl. lia.
    + intros t [Ht| ->%list_elem_of_singleton]%elem_of_app; [by apply Hfl|done].
  - rewrite Hm in *. cbn [from_option id app] in *. split.
    + split; [by constructor|]. split; [by apply NoDup_singleton|]. unfold RELAY_MAX_KEYS_PER_DOMAIN. simpl. lia.
    + by intros t ->%list_elem_of_singleton.
Qed.

Lemma parse_loop_ok args : forall read a a', args_ok read a -> relay_parse_loop args a = Ok a' -> args_ok (read ++ args) a'.
Proof.
  remember (length args) as n eqn:En. revert args En. induction n as [n IH] using (well_founded_induction Nat.lt_wf_0).
  intros args -> read a a' Hok. destruct args as [|arg rest]; [intros [= <-]; by rewrite app_nil_r|]. cbn [relay_parse_loop].
  destruct (relay_flag arg) as [[missing act]|] eqn:Ef; [|done]. destruct rest as [|value rest]; [done|].
  destruct (act value a) as [a1|] eqn:Ea; [|done]. intros Hl.
  change (read ++ arg :: value :: rest) with (read ++ [arg; value] ++ rest). rewrite app_assoc.
  apply (IH (length rest)) with (a := a1); [simpl; lia|done| |exact Hl].
  unfold relay_flag in Ef. destruct (String.eqb_spec arg "--domain") as [->|Hn].
  - injection Ef as _ <-. by apply parse_domain_ok with (a := a).
  - assert (Hsame : ra_domains a1 = ra_domains a /\ ra_seen a1 = ra_seen a).
    { repeat case_match; simplify_eq; try done; revert Ea; repeat case_match; by intros [= <-]. }
    destruct Hsame as [Hd Hs]. intros d. rewrite Hd, Hs. by apply args_ok_more.
Qed.

(** A relay that says it is ready serves at least one domain, and for each the keys
    that its arguments name for that domain, in their order: one to four of them,
    under different texts, each a usable key; and it binds fetch signatures to the
    normal form of a URL it was given. *)
Theorem ready_relay_serves_its_flags args cert_ok key_ok config_ok bind_ok cfg :
  relay_start args cert_ok key_ok config_ok bind_ok = Ok cfg ->
  domains cfg <> ∅ /\
  (forall d keys, domains cfg !! d = Some keys -> d <> EmptyString /\
     exists texts, key_texts texts keys /\ forall t, t ∈ texts -> flagged (tail args) d t) /\
  exists url, audience cfg = normalize_audience url.
Proof.
  unfold relay_start, relay_parse_args. destruct (relay_parse_loop (tail args) no_relay_args) as [a|] eqn:El; [|done].
  destruct (ra_listen a); [|done]. destruct (ra_tls_cert a); [|done]. destruct (ra_tls_key a); [|done]. cbn [is_none].
  destruct (ra_public_url a) as [url|]; [|done]. case_bool_decide as He; [done|].
  destruct cert_ok, key_ok, config_ok, bind_ok; try done. cbn [negb]. intros [= <-]. cbn [domains audience].
  assert (Hok : args_ok ([] ++ tail args) a).
  { eapply parse_loop_ok; [|exact El]. intros d. cbn [ra_domains ra_seen no_relay_args]. by rewrite !lookup_empty. }
  split_and!; [done| |by exists url]. intros d keys Hk. specialize (Hok d). rewrite Hk in Hok.
  destruct Hok as (Hd & texts & _ & Ht & Hf). split; [done|]. by exists texts.
Qed.
End relay_start.
