(* ===== verification/Guard.v ===== *)
(** * The gateway's ingress guard

    [crates/famp-gateway/src/ingress_guard.rs]: the cheap checks that run on
    unverified bytes before any signature is verified.  Audience, freshness,
    replay and rate limit, in that order, over the process-lifetime replay cache
    and rate buckets. *)

From Stdlib Require Import Strings.Byte Ascii.
From stdpp Require Import gmap strings list.
From S2P Require Import Prelude Json Proto WireInstance Principal Clock NonceTable.
Local Open Scope Z_scope.

Definition CLOCK_SKEW_WINDOW_SECS : Z := 300.
Definition REPLAY_CACHE_TTL_SECS : Z := 600.
Definition REPLAY_CACHE_MAX_PER_SENDER : nat := 4096%nat.
Definition RATE_LIMIT_MAX_PER_WINDOW : Z := 120.
Definition RATE_LIMIT_WINDOW_SECS : Z := 60.
#[global] Arguments REPLAY_CACHE_MAX_PER_SENDER : simpl never.

Inductive GuardReject :=
| GBadEnvelopeShape
| GStaleTimestamp (ts now : string) (skew_secs : Z)
| GReplayedNonce (principal nonce : string)
| GMissingNonce (principal : string)
| GForeignDomain (expected got : string)
| GSenderNotBacked (principal : string)
| GRateLimited (principal : string) (limit window_secs : Z).

Record PeekedFields := mkPeeked {
  pk_from : Principal; pk_to : Principal; pk_ts : string;
  pk_nonce : option string; pk_expiry : option string }.

Definition replay_bounds_ok (skew_secs ttl_secs max_per_sender rate_max rate_window_secs : Z) :
    bool :=
  if rate_window_secs <=? 0 then false
  else (2 * skew_secs <=? ttl_secs) &&
       (Z.quot (ttl_secs * rate_max) rate_window_secs <=? max_per_sender).

(** ** Peeking *)
Section peek.
Context `{WL : WireLib}.

Definition required_string (obj : list (string * Value)) (field : string) :
    result string GuardReject :=
  letsome s := obj_get field obj ≫= as_str orelse Err GBadEnvelopeShape in Ok s.

Definition required_principal (obj : list (string * Value)) (field : string) :
    result Principal GuardReject :=
  trying raw := required_string obj field catch e => Err e in
  map_err (fun _ => GBadEnvelopeShape) (Principal_from_str raw).

Definition optional_string (obj : list (string * Value)) (field : string) :
    result (option string) GuardReject :=
  match obj_get field obj with
  | None => Ok None
  | Some (VString s) => Ok (Some s)
  | Some _ => Err GBadEnvelopeShape
  end.

Definition peek_guard_fields (body : bytes) : result PeekedFields GuardReject :=
  letok value := from_slice_strict body orelse Err GBadEnvelopeShape in
  letsome obj := as_object value orelse Err GBadEnvelopeShape in
  trying from := required_principal obj "from" catch e => Err e in
  trying to := required_principal obj "to" catch e => Err e in
  trying ts := required_string obj "ts" catch e => Err e in
  trying nonce := optional_string obj "nonce" catch e => Err e in
  trying expiry := optional_string obj "expiry" catch e => Err e in
  Ok (mkPeeked from to ts nonce expiry).
End peek.

(** ** The replay cache *)
Abbreviation ReplayCache := (gmap string NonceTable).

Definition sender_entries (c : ReplayCache) (sender : string) : NonceTable :=
  default ∅ (c !! sender).

Definition cache_live (now : OffsetDateTime) (kv : string * OffsetDateTime) : Prop :=
  whole_seconds (now - kv.2) < REPLAY_CACHE_TTL_SECS.
#[export] Instance cache_live_dec now kv : Decision (cache_live now kv).
Proof. unfold cache_live. apply _. Defined.

(** [min_by] with the comparison of the closure: [Iterator::min_by] keeps the
    earlier of two equal elements. *)
Definition entry_cmp (a b : string * OffsetDateTime) : comparison :=
  match Z.compare a.2 b.2 with Eq => String.compare a.1 b.1 | c => c end.
Definition min_entry (l : list (string * OffsetDateTime)) : option (string * OffsetDateTime) :=
  foldl (fun acc y =>
    match acc with
    | None => Some y
    | Some x => match entry_cmp x y with Gt => Some y | _ => Some x end
    end) None l.

Definition cache_record (c : ReplayCache) (sender nonce : string) (now : OffsetDateTime) :
    ReplayCache * result unit GuardReject :=
  if String.eqb nonce EmptyString then (c, Err (GMissingNonce sender)) else
  let inner := filter (cache_live now) (sender_entries c sender) in
  if is_some (inner !! nonce) then (<[sender := inner]> c, Err (GReplayedNonce sender nonce))
  else
    let inner :=
      if (REPLAY_CACHE_MAX_PER_SENDER <=? size inner)%nat then
        match min_entry (map_to_list inner) with
        | Some (oldest, _) => delete oldest inner
        | None => inner
        end
      else inner in
    (<[sender := <[nonce := now]> inner]> c, Ok tt).

Definition cache_sweep (c : ReplayCache) (now : OffsetDateTime) : ReplayCache :=
  filter (fun kv => kv.2 <> ∅) ((fun inner : NonceTable => filter (cache_live now) inner) <$> c).

Definition len_for (c : ReplayCache) (sender : string) : nat := size (sender_entries c sender).

(** ** The rate limiter *)
Abbreviation RateLimiter := (gmap string (OffsetDateTime * Z)).

Definition rate_admit (b : RateLimiter) (sender : string) (now : OffsetDateTime) :
    RateLimiter * result unit GuardReject :=
  let bucket := default (now, 0) (b !! sender) in
  if RATE_LIMIT_WINDOW_SECS <=? whole_seconds (now - bucket.1) then (<[sender := (now, 1)]> b, Ok tt)
  else if bucket.2 <? RATE_LIMIT_MAX_PER_WINDOW
  then (<[sender := (bucket.1, bucket.2 + 1)]> b, Ok tt)
  else (<[sender := bucket]> b,
        Err (GRateLimited sender RATE_LIMIT_MAX_PER_WINDOW RATE_LIMIT_WINDOW_SECS)).

(** ** The chain *)
Record IngressGuard := mkGuard {
  g_started_at : OffsetDateTime; g_replay : ReplayCache; g_rate : RateLimiter }.
Definition guard_new (now : OffsetDateTime) : IngressGuard := mkGuard now ∅ ∅.

Record GuardInput := mkInput {
  gi_peeked : PeekedFields; gi_now : string; gi_own_domain : string; gi_sender_is_backed : bool }.

Definition audience_check (input : GuardInput) : result unit GuardReject :=
  let got := pr_authority (pk_to (gi_peeked input)) in
  if negb (String.eqb got (gi_own_domain input))
  then Err (GForeignDomain (gi_own_domain input) got)
  else if negb (gi_sender_is_backed input)
  then Err (GSenderNotBacked (pr_name (pk_from (gi_peeked input))))
  else Ok tt.

Section gates.
Context `{TL : TimeLib}.

Definition freshness_check (ts now : string) (skew_secs : Z) : result unit GuardReject :=
  letsome ts_instant := rfc3339_parse ts orelse Err GBadEnvelopeShape in
  letsome now_instant := rfc3339_parse now orelse Err GBadEnvelopeShape in
  let diff_secs := Z.abs (whole_seconds (now_instant - ts_instant)) in
  if diff_secs <=? skew_secs then Ok tt else Err (GStaleTimestamp ts now skew_secs).

Definition run_cheap_gates (input : GuardInput) (guard : IngressGuard) :
    IngressGuard * result unit GuardReject :=
  trying _ := audience_check input catch e => (guard, Err e) in
  trying _ := freshness_check (pk_ts (gi_peeked input)) (gi_now input) CLOCK_SKEW_WINDOW_SECS
    catch e => (guard, Err e) in
  let sender := pr_name (pk_from (gi_peeked input)) in
  letsome nonce := pk_nonce (gi_peeked input) orelse (guard, Err (GMissingNonce sender)) in
  letsome parsed_now := rfc3339_parse (gi_now input) orelse (guard, Err GBadEnvelopeShape) in
  let '(replay, r) := cache_record (g_replay guard) sender nonce parsed_now in
  let guard := mkGuard (g_started_at guard) replay (g_rate guard) in
  trying _ := r catch e => (guard, Err e) in
  let '(rate, r) := rate_admit (g_rate guard) sender parsed_now in
  (mkGuard (g_started_at guard) (g_replay guard) rate, r).
End gates.
