(* ===== verification/GuardProps.v ===== *)
(** * What the ingress guard guarantees

    When a nonce can be seen twice, and the two ways it can; how many requests
    pass the limiter; what an accepted request satisfied. *)

From Stdlib Require Import Strings.Byte Ascii.
From stdpp Require Import gmap strings list pretty.
From S2P Require Import Prelude Json Proto WireInstance Principal Clock NonceTable Guard.
Local Open Scope Z_scope.

(** ** The victim of an eviction *)
Lemma entry_cmp_older x y : entry_cmp x y = Gt <-> older y x = true.
Proof.
  unfold entry_cmp, older. destruct x as [k v], y as [k' v']; simpl.
  destruct (Z.compare_spec v v') as [->|H|H].
  - rewrite Z.ltb_irrefl, Z.eqb_refl. simpl. unfold String.ltb.
    rewrite (String.compare_antisym k k'). by destruct (String.compare k' k).
  - replace (v' <? v) with false by lia. replace (v' =? v) with false by lia. done.
  - replace (v' <? v) with true by lia. done.
Qed.

Lemma min_entry_oldest l : min_entry l = oldest l.
Proof.
  unfold min_entry, oldest. generalize (@None (string * OffsetDateTime)) as acc.
  induction l as [|y l IH]; intros acc; [done|]. simpl. rewrite IH. f_equal.
  destruct acc as [x|]; [|done]. pose proof (entry_cmp_older x y) as H.
  destruct (entry_cmp x y), (older y x); naive_solver.
Qed.

Definition live_entries (c : ReplayCache) (sender : string) (now : OffsetDateTime) : NonceTable :=
  filter (cache_live now) (sender_entries c sender).

Lemma cache_live_spec now kv : cache_live now kv <-> now - kv.2 < seconds 600.
Proof.
  unfold cache_live, REPLAY_CACHE_TTL_SECS.
  pose proof (whole_seconds_ge (now - kv.2) 600 ltac:(done)). lia.
Qed.

Lemma live_entries_lookup c sender now n r :
  live_entries c sender now !! n = Some r <->
  sender_entries c sender !! n = Some r /\ now - r < seconds 600.
Proof.
  unfold live_entries. by rewrite map_lookup_filter_Some, cache_live_spec.
Qed.

Lemma sender_entries_put c s e s' :
  sender_entries (<[s := e]> c) s' = if decide (s = s') then e else sender_entries c s'.
Proof.
  unfold sender_entries. case_decide as E; [subst; by rewrite lookup_insert_eq|].
  by rewrite lookup_insert_ne.
Qed.

Lemma cache_record_cases c s n now :
  n <> EmptyString ->
  (is_Some (live_entries c s now !! n) /\
   cache_record c s n now = (<[s := live_entries c s now]> c, Err (GReplayedNonce s n))) \/
  (live_entries c s now !! n = None /\
   cache_record c s n now =
     (<[s := <[n := now]>
        (if (REPLAY_CACHE_MAX_PER_SENDER <=? size (live_entries c s now))%nat
         then evict (live_entries c s now) else live_entries c s now)]> c, Ok tt)).
Proof.
  intros Hn. unfold cache_record. apply String.eqb_neq in Hn. rewrite Hn.
  fold (live_entries c s now).
  destruct (live_entries c s now !! n) as [r|] eqn:E; cbn [is_some].
  - left. split; [eauto|done].
  - right. split; [done|]. unfold evict. by rewrite min_entry_oldest.
Qed.

Lemma rate_admit_cases b s now :
  exists k r, rate_admit b s now = (<[s := k]> b, r) /\
  match b !! s with
  | None => k = (now, 1) /\ r = Ok tt
  | Some (w, n) =>
      if decide (seconds RATE_LIMIT_WINDOW_SECS <= now - w) then k = (now, 1) /\ r = Ok tt
      else if decide (n < RATE_LIMIT_MAX_PER_WINDOW) then k = (w, n + 1) /\ r = Ok tt
      else k = (w, n) /\ r = Err (GRateLimited s RATE_LIMIT_MAX_PER_WINDOW RATE_LIMIT_WINDOW_SECS)
  end.
Proof.
  unfold rate_admit. destruct (b !! s) as [[w k]|] eqn:E; simpl.
  - pose proof (whole_seconds_ge (now - w) RATE_LIMIT_WINDOW_SECS ltac:(done)) as Hge.
    destruct (decide (seconds RATE_LIMIT_WINDOW_SECS <= now - w)) as [H|H].
    + apply Hge, Z.leb_le in H. rewrite H. by eexists _, _.
    + rewrite <- Hge in H. apply Z.leb_nle in H. rewrite H.
      destruct (decide (k < RATE_LIMIT_MAX_PER_WINDOW)) as [Hk|Hk].
      * apply Z.ltb_lt in Hk. rewrite Hk. by eexists _, _.
      * apply Z.ltb_nlt in Hk. rewrite Hk. by eexists _, _.
  - rewrite Z.sub_diag. by eexists _, _.
Qed.

(** ** Histories *)

(** A nonce the replay check let through, whatever the limiter said next. *)
Record Sighting := mkSighting {
  sg_sender : string; sg_nonce : string; sg_ts : string; sg_now : OffsetDateTime }.

Section guard.
Context `{TL : TimeLib}.

Definition sender_of (input : GuardInput) : string := pr_name (pk_from (gi_peeked input)).

Definition sightings_of (input : GuardInput) (guard : IngressGuard) : list Sighting :=
  match pk_nonce (gi_peeked input), rfc3339_parse (gi_now input) with
  | Some nonce, Some now =>
      if is_ok (audience_check input) &&
         is_ok (freshness_check (pk_ts (gi_peeked input)) (gi_now input) CLOCK_SKEW_WINDOW_SECS) &&
         is_ok (cache_record (g_replay guard) (sender_of input) nonce now).2
      then [mkSighting (sender_of input) nonce (pk_ts (gi_peeked input)) now] else []
  | _, _ => []
  end.

(** Runs of the guard: sightings and admissions, newest first, and the latest
    reading.  The guard's lock serializes requests; readings reach it in
    order. *)
Inductive guard_run : IngressGuard -> list Sighting -> list (string * OffsetDateTime) ->
    OffsetDateTime -> Prop :=
| guard_run_new t0 : guard_run (guard_new t0) [] [] t0
| guard_run_step g H A clock input now :
    guard_run g H A clock -> rfc3339_parse (gi_now input) = Some now -> clock <= now ->
    guard_run (run_cheap_gates input g).1 (sightings_of input g ++ H)
      ((if is_ok (run_cheap_gates input g).2 then [(sender_of input, now)] else []) ++ A) now.

Definition seen_by (sender : string) (H : list Sighting) : list OffsetDateTime :=
  omap (fun s => if decide (sg_sender s = sender) then Some (sg_now s) else None) H.
Definition passed_by (sender : string) (A : list (string * OffsetDateTime)) : list OffsetDateTime :=
  omap (fun a : string * OffsetDateTime => if decide (a.1 = sender) then Some a.2 else None) A.

#[local] Arguments seen_by : simpl never.
#[local] Arguments passed_by : simpl never.

(** What a request that passed every gate satisfied. *)
Record passed_gates (input : GuardInput) (ts now : OffsetDateTime) (nonce : string) : Prop := {
  pg_domain : pr_authority (pk_to (gi_peeked input)) = gi_own_domain input;
  pg_backed : gi_sender_is_backed input = true;
  pg_ts : rfc3339_parse (pk_ts (gi_peeked input)) = Some ts;
  pg_now : rfc3339_parse (gi_now input) = Some now;
  pg_fresh : - seconds 301 < now - ts < seconds 301;
  pg_nonce : pk_nonce (gi_peeked input) = Some nonce /\ nonce <> EmptyString
}.

(** The early gates leave the guard alone; past them both tables may move. *)
Lemma run_cheap_gates_cases input g :
  (exists e, run_cheap_gates input g = (g, Err e) /\ sightings_of input g = []) \/
  exists ts now nonce, passed_gates input ts now nonce /\
    let rec := cache_record (g_replay g) (sender_of input) nonce now in
    let adm := rate_admit (g_rate g) (sender_of input) now in
    sightings_of input g =
      (if is_ok rec.2 then [mkSighting (sender_of input) nonce (pk_ts (gi_peeked input)) now] else []) /\
    run_cheap_gates input g =
      match rec.2 with
      | Ok _ => (mkGuard (g_started_at g) rec.1 adm.1, adm.2)
      | Err e => (mkGuard (g_started_at g) rec.1 (g_rate g), Err e)
      end.
Proof.
  unfold run_cheap_gates, sightings_of.
  destruct (audience_check input) as [[]|e] eqn:Ea.
  2:{ left. exists e. split; [done|]. by repeat case_match. }
  destruct (freshness_check (pk_ts (gi_peeked input)) (gi_now input) CLOCK_SKEW_WINDOW_SECS)
    as [[]|e] eqn:Ef.
  2:{ left. exists e. split; [done|]. by repeat case_match. }
  destruct (pk_nonce (gi_peeked input)) as [nonce|] eqn:En; [|left; by eexists].
  unfold freshness_check in Ef. destruct (rfc3339_parse (pk_ts (gi_peeked input))) as [ts|] eqn:Et; [|done].
  destruct (rfc3339_parse (gi_now input)) as [now|] eqn:Ew; [|done].
  destruct (Z.abs (whole_seconds (now - ts)) <=? CLOCK_SKEW_WINDOW_SECS) eqn:Ed; [|done].
  apply Z.leb_le, whole_seconds_abs_le in Ed; [|done].
  unfold audience_check in Ea.
  destruct (String.eqb (pr_authority (pk_to (gi_peeked input))) (gi_own_domain input)) eqn:Eq; [|done].
  destruct (gi_sender_is_backed input) eqn:Eb; [|done].
  destruct (decide (nonce = EmptyString)) as [->|Hne].
  - left. exists (GMissingNonce (sender_of input)). unfold cache_record. simpl. by destruct g.
  - right. exists ts, now, nonce. split.
    { split; try done. by apply String.eqb_eq. }
    unfold sender_of in *. cbn zeta. simpl is_ok. simpl andb.
    destruct (cache_record (g_replay g) (pr_name (pk_from (gi_peeked input))) nonce now)
      as [c [[]|e]]; simpl; [|done].
    destruct (rate_admit (g_rate g) (pr_name (pk_from (gi_peeked input))) now) as [b r]. done.
Qed.

(** ** The invariant *)
Record guard_inv (g : IngressGuard) (H : list Sighting) (A : list (string * OffsetDateTime))
    (clock : OffsetDateTime) : Prop := {
  gi_rate s : window_inv RATE_LIMIT_MAX_PER_WINDOW (seconds RATE_LIMIT_WINDOW_SECS)
    (g_rate g !! s) clock (passed_by s A);
  gi_count s a b :
    table_count a b (sender_entries (g_replay g) s) <= count_in a b (seen_by s H);
  gi_past s : map_Forall (fun _ r => r <= clock) (sender_entries (g_replay g) s);
  gi_seen x : x ∈ H -> sg_now x <= clock /\
    (clock - sg_now x < seconds 600 ->
     count_in (sg_now x - 1) clock (seen_by (sg_sender x) H) < Z.of_nat REPLAY_CACHE_MAX_PER_SENDER ->
     sender_entries (g_replay g) (sg_sender x) !! sg_nonce x = Some (sg_now x));
  gi_fresh x : x ∈ H -> exists ts, rfc3339_parse (sg_ts x) = Some ts /\
    - seconds 301 < sg_now x - ts < seconds 301
}.

Lemma guard_inv_new t0 : guard_inv (guard_new t0) [] [] t0.
Proof.
  split; simpl.
  - intros s. rewrite lookup_empty. by apply window_inv_init.
  - done.
  - intros s. apply map_Forall_empty.
  - intros x Hx. by apply elem_of_nil in Hx.
  - intros x Hx. by apply elem_of_nil in Hx.
Qed.

Lemma seen_past s H clock :
  (forall x, x ∈ H -> sg_now x <= clock) -> Forall (fun t => t <= clock) (seen_by s H).
Proof.
  intros Hx. apply Forall_forall. intros t Ht. unfold seen_by in Ht.
  apply list_elem_of_omap in Ht as (x & Hin & Ht). case_decide; [|done]. injection Ht as <-. by apply Hx.
Qed.

Lemma guard_inv_clock g H A clock now :
  clock <= now -> guard_inv g H A clock -> guard_inv g H A now.
Proof.
  intros Hle [Hr Hc Hp Hs Hf]. split; try done.
  - intros s. by apply window_inv_clock with clock, Hr.
  - intros s n r Hl. specialize (Hp s n r Hl). simpl in Hp. lia.
  - intros x Hx. destruct (Hs x Hx) as [? Hl]. split; [lia|]. intros Hy Hcnt. apply Hl; [lia|].
    pose proof (count_in_mono (sg_now x - 1) clock (sg_now x - 1) now (seen_by (sg_sender x) H)
      ltac:(lia) Hle). lia.
Qed.

(** A replay leaves the cache with only its expired entries gone. *)
Lemma guard_inv_expire g H A now s :
  guard_inv g H A now ->
  guard_inv (mkGuard (g_started_at g) (<[s := live_entries (g_replay g) s now]> (g_replay g)) (g_rate g))
    H A now.
Proof.
  intros [Hr Hc Hp Hs Hf]. split; try done; simpl.
  - intros s' a b. rewrite sender_entries_put. specialize (Hc s' a b). destruct (decide (s = s')) as [<-|]; [|done].
    pose proof (table_count_filter a b (cache_live now) (sender_entries (g_replay g) s)).
    unfold live_entries. lia.
  - intros s'. rewrite sender_entries_put. case_decide as E; [|apply Hp]. subst s'.
    intros n r [Hl _]%live_entries_lookup. by apply (Hp s n r).
  - intros x Hx. destruct (Hs x Hx) as [? Hl]. split; [done|]. intros Hy Hcnt. specialize (Hl Hy Hcnt).
    rewrite sender_entries_put. case_decide as E; [|done]. rewrite E. rewrite <- E in Hl.
    apply live_entries_lookup. by rewrite <- E.
Qed.

Lemma seen_by_cons s x H :
  seen_by s (x :: H) = (if decide (sg_sender x = s) then [sg_now x] else []) ++ seen_by s H.
Proof. unfold seen_by. simpl. by case_decide. Qed.

(** The table never has to forget a sighting while fewer than a table's worth
    of sightings of that sender are as recent. *)
Lemma room_keeps g H A now s n r :
  guard_inv g H A now ->
  live_entries (g_replay g) s now !! n = Some r ->
  count_in (r - 1) now (seen_by s H) < Z.of_nat REPLAY_CACHE_MAX_PER_SENDER ->
  (if (REPLAY_CACHE_MAX_PER_SENDER <=? size (live_entries (g_replay g) s now))%nat
   then evict (live_entries (g_replay g) s now) else live_entries (g_replay g) s now) !! n = Some r.
Proof.
  intros [Hr Hc Hp Hs Hf] Hn Hcnt.
  destruct (REPLAY_CACHE_MAX_PER_SENDER <=? size (live_entries (g_replay g) s now))%nat eqn:E; [|done].
  apply Nat.leb_le in E. apply evict_lookup; [done|].
  destruct (decide (map_Forall (fun _ v => r <= v) (live_entries (g_replay g) s now))) as [Hall|Hno].
  - exfalso. assert (map_Forall (fun _ v => r - 1 < v <= now) (live_entries (g_replay g) s now)) as Hw.
    { intros k v Hk. specialize (Hall k v Hk). apply live_entries_lookup in Hk as [Hk _].
      specialize (Hp s k v Hk). simpl in Hp, Hall. lia. }
    apply table_size_count in Hw. specialize (Hc s (r - 1) now).
    pose proof (table_count_filter (r - 1) now (cache_live now) (sender_entries (g_replay g) s)).
    unfold live_entries in Hw, E. lia.
  - apply map_not_Forall in Hno as (k & v & Hk & Hv); [|apply _]. exists k, v. split; [done|lia].
Qed.

Lemma guard_inv_sight g H A now s n ts tsi :
  rfc3339_parse ts = Some tsi -> - seconds 301 < now - tsi < seconds 301 ->
  live_entries (g_replay g) s now !! n = None ->
  guard_inv g H A now ->
  guard_inv (mkGuard (g_started_at g)
      (<[s := <[n := now]> (if (REPLAY_CACHE_MAX_PER_SENDER <=? size (live_entries (g_replay g) s now))%nat
         then evict (live_entries (g_replay g) s now) else live_entries (g_replay g) s now)]>
        (g_replay g)) (g_rate g))
    (mkSighting s n ts now :: H) A now.
Proof.
  intros Hts Hfr Hn Hinv. pose proof (fun n r => room_keeps g H A now s n r Hinv) as Hroom.
  set (room := if (_ <=? _)%nat then _ else _) in *.
  assert (Hsub : room ⊆ live_entries (g_replay g) s now).
  { unfold room. case_match; [apply evict_subseteq|done]. }
  destruct Hinv as [Hr Hc Hp Hs Hf].
  assert (Hrn : room !! n = None) by (eapply lookup_weaken_None; eauto).
  split; try done; simpl.
  - intros s' a b. rewrite sender_entries_put, seen_by_cons, count_in_app. specialize (Hc s' a b).
    simpl. destruct (decide (s = s')) as [<-|Hne]; [|done].
    rewrite table_count_insert, count_in_cons, count_in_nil by done.
    assert (table_count a b room <= table_count a b (sender_entries (g_replay g) s)); [|lia].
    etrans; [|apply (table_count_filter a b (cache_live now))]. unfold room.
    case_match; [|done]. unfold evict. repeat case_match; [apply table_count_delete|done].
  - intros s'. rewrite sender_entries_put. case_decide as E; [|apply Hp]. subst s'.
    apply map_Forall_insert_2; [done|]. intros k v Hk.
    eapply lookup_weaken in Hk; [|exact Hsub]. apply live_entries_lookup in Hk as [Hk _]. by apply (Hp s k v).
  - intros x [->|Hx]%elem_of_cons; simpl.
    { split; [done|]. intros _ _. rewrite sender_entries_put, decide_True by done. apply lookup_insert_eq. }
    destruct (Hs x Hx) as [Hle Hl]. split; [done|]. intros Hy Hcnt.
    rewrite seen_by_cons, count_in_app in Hcnt. simpl in Hcnt.
    match type of Hcnt with count_in ?a ?b ?l + _ < _ => pose proof (count_in_nonneg a b l) end.
    specialize (Hl Hy ltac:(lia)). rewrite sender_entries_put. case_decide as E; [|done].
    rewrite lookup_insert_ne.
    + apply Hroom; [|rewrite E; lia]. apply live_entries_lookup. by rewrite E.
    + intros En. rewrite <- En in Hl.
      assert (live_entries (g_replay g) s now !! n = Some (sg_now x)); [|congruence].
      apply live_entries_lookup. by rewrite E.
  - intros x [->|Hx]%elem_of_cons; [by exists tsi|by apply Hf].
Qed.

Lemma passed_by_app s l A : passed_by s (l ++ A) = passed_by s l ++ passed_by s A.
Proof. unfold passed_by. apply omap_app. Qed.

(** The limiter's step, seen by the invariant. *)
Lemma guard_inv_admit g H A now s :
  guard_inv g H A now ->
  guard_inv (mkGuard (g_started_at g) (g_replay g) (rate_admit (g_rate g) s now).1) H
    ((if is_ok (rate_admit (g_rate g) s now).2 then [(s, now)] else []) ++ A) now.
Proof.
  intros [Hr Hc Hp Hs Hf]. split; try done. intros s'. simpl.
  destruct (rate_admit_cases (g_rate g) s now) as (k & r & -> & Hk). simpl.
  rewrite passed_by_app. specialize (Hr s').
  destruct (decide (s = s')) as [<-|Hne].
  - rewrite lookup_insert_eq.
    assert (Hpb : passed_by s (if is_ok r then [(s, now)] else []) = if is_ok r then [now] else []).
    { unfold passed_by. destruct (is_ok r); simpl; [by case_decide|done]. }
    rewrite Hpb. destruct (g_rate g !! s) as [[w n]|] eqn:E.
    + case_decide as Hw; [|case_decide as Hn]; destruct Hk as [-> ->]; simpl.
      * apply window_inv_reset with (Some (w, n)); try done. intros ?? [= <- <-]. done.
      * apply window_inv_admit; try done. lia.
      * done.
    + destruct Hk as [-> ->]. simpl. by apply window_inv_reset with None.
  - rewrite lookup_insert_ne by done.
    assert (passed_by s' (if is_ok r then [(s, now)] else []) = []) as ->; [|done].
    unfold passed_by. destruct (is_ok r); simpl; [by case_decide|done].
Qed.

Lemma guard_inv_step g H A clock input now :
  rfc3339_parse (gi_now input) = Some now -> clock <= now -> guard_inv g H A clock ->
  guard_inv (run_cheap_gates input g).1 (sightings_of input g ++ H)
    ((if is_ok (run_cheap_gates input g).2 then [(sender_of input, now)] else []) ++ A) now.
Proof.
  intros Hnow Hle Hinv. apply (guard_inv_clock g H A clock now Hle) in Hinv.
  destruct (run_cheap_gates_cases input g) as [(e & -> & ->)|(ts & now' & n & Hp & Hs & ->)]; [done|].
  assert (now' = now) as -> by (pose proof (pg_now _ _ _ _ Hp); congruence).
  destruct (pg_nonce _ _ _ _ Hp) as [_ Hn]. rewrite Hs. clear Hs.
  destruct (cache_record_cases (g_replay g) (sender_of input) n now Hn) as [[_ ->]|[Hnone ->]]; simpl.
  - by apply guard_inv_expire.
  - exact (guard_inv_admit _ _ _ now (sender_of input) (guard_inv_sight g H A now (sender_of input) n
      _ ts (pg_ts _ _ _ _ Hp) (pg_fresh _ _ _ _ Hp) Hnone Hinv)).
Qed.

Lemma guard_run_inv g H A clock : guard_run g H A clock -> guard_inv g H A clock.
Proof. induction 1; [apply guard_inv_new|by eapply guard_inv_step]. Qed.

(** ** The guarantees *)

(** C26. The replay check is exact up to two gaps, over any run of requests whose
    clock readings reach the guard's lock in order: if a nonce of one sender
    passes it a second time, under whatever timestamp, then either the two
    sightings are at least 600 s apart (and for the same envelope, that is for
    equal timestamps, with whole-second texts: exactly 300 s before and exactly
    300 s after its timestamp), or at least 4096 nonces of that sender were let
    through since the first. *)
Theorem replay_needs_a_gap_or_a_flood g H A clock input now x1 x2 :
  guard_run g H A clock -> rfc3339_parse (gi_now input) = Some now -> clock <= now ->
  sightings_of input g = [x2] -> x1 ∈ H ->
  sg_sender x1 = sg_sender x2 -> sg_nonce x1 = sg_nonce x2 ->
  (seconds 600 <= now - sg_now x1 /\
   (sg_ts x1 = sg_ts x2 ->
    forall ts, rfc3339_parse (sg_ts x1) = Some ts -> whole_second ts ->
     whole_second (sg_now x1) -> whole_second now ->
     sg_now x1 = ts - seconds 300 /\ now = ts + seconds 300)) \/
  Z.of_nat REPLAY_CACHE_MAX_PER_SENDER <= count_in (sg_now x1 - 1) now (seen_by (sg_sender x1) H).
Proof.
  intros Hinv%guard_run_inv Hnow Hle Hx2 Hin Hss Hsn.
  apply (guard_inv_clock g H A clock now Hle) in Hinv.
  destruct (run_cheap_gates_cases input g) as [(e & _ & Hno)|(ts' & now' & n & Hp & Hs & _)];
    [congruence|].
  assert (now' = now) as -> by (pose proof (pg_now _ _ _ _ Hp); congruence).
  destruct (pg_nonce _ _ _ _ Hp) as [_ Hn]. rewrite Hx2 in Hs.
  destruct (cache_record_cases (g_replay g) (sender_of input) n now Hn) as [[_ E]|[Hnone E]];
    rewrite E in Hs; simpl in Hs; [done|]. injection Hs as ->. simpl in *.
  destruct (decide (seconds 600 <= now - sg_now x1)) as [Hgap|Hgap].
  - left. split; [done|]. intros Hst ts Hts Hw1 Hw2 Hw3. simpl in Hst.
    destruct (gi_fresh _ _ _ _ Hinv x1 Hin) as (ts1 & Hts1 & Hf1).
    pose proof (pg_ts _ _ _ _ Hp) as Hts2. pose proof (pg_fresh _ _ _ _ Hp) as Hf2.
    rewrite <- Hst, Hts in Hts2. injection Hts2 as <-. rewrite Hts in Hts1. injection Hts1 as <-.
    pose proof (whole_second_gap now ts 300 Hw3 Hw1 (proj2 Hf2)).
    pose proof (whole_second_gap ts (sg_now x1) 300 Hw1 Hw2
      ltac:(change (300 + 1) with 301; lia)).
    unfold seconds, NANOS in *. lia.
  - right. destruct (gi_seen _ _ _ _ Hinv x1 Hin) as [_ Hl].
    apply Z.nlt_ge. intros Hcnt. specialize (Hl ltac:(lia) Hcnt).
    rewrite Hss, Hsn in Hl.
    assert (live_entries (g_replay g) (sender_of input) now !! n = Some (sg_now x1)); [|congruence].
    apply live_entries_lookup. split; [done|lia].
Qed.

(** A request passes the guard exactly when it is addressed to this
    gateway's domain, its claimed sender is backed, its timestamp is within the
    skew window, its nonce is present, non-empty and not remembered, and the
    sender's window has room; every other request is refused. *)
Theorem guard_accepts_iff input g :
  (run_cheap_gates input g).2 = Ok tt <->
  exists ts now nonce, passed_gates input ts now nonce /\
    live_entries (g_replay g) (sender_of input) now !! nonce = None /\
    match g_rate g !! sender_of input with
    | None => True
    | Some (w, k) => seconds RATE_LIMIT_WINDOW_SECS <= now - w \/ k < RATE_LIMIT_MAX_PER_WINDOW
    end.
Proof.
  destruct (run_cheap_gates_cases input g) as [(e & E & Hs)|(ts & now & n & Hp & Hs & ->)].
  - rewrite E. split; [done|]. intros (ts & now & n & Hp & Hl & Hr).
    unfold sightings_of in Hs. destruct Hp as [Hd Hb Ht Hw Hf [Hn Hne]].
    rewrite Hn, Hw in Hs. unfold audience_check, freshness_check in Hs.
    apply String.eqb_eq in Hd. rewrite Hd, Hb, Ht, Hw in Hs. simpl in Hs.
    assert (Z.abs (whole_seconds (now - ts)) <=? CLOCK_SKEW_WINDOW_SECS = true) as Hsk.
    { by apply Z.leb_le, whole_seconds_abs_le. }
    rewrite Hsk in Hs. simpl in Hs.
    destruct (cache_record_cases (g_replay g) (sender_of input) n now Hne) as [[[? H'] _]|[_ E']];
      [congruence|]. by rewrite E' in Hs.
  - destruct (pg_nonce _ _ _ _ Hp) as [Hpn Hn].
    assert (Hu : forall ts' now' n', passed_gates input ts' now' n' -> now' = now /\ n' = n).
    { intros ts' now' n' Hp'. pose proof (pg_now _ _ _ _ Hp). pose proof (pg_now _ _ _ _ Hp').
      destruct (pg_nonce _ _ _ _ Hp'). split; congruence. }
    destruct (rate_admit_cases (g_rate g) (sender_of input) now) as (k & r & Er & Hk).
    destruct (cache_record_cases (g_replay g) (sender_of input) n now Hn) as [[[? Hl] ->]|[Hl ->]];
      simpl; rewrite ?Er; simpl.
    + split; [done|]. intros (ts' & now' & n' & [-> ->]%Hu & Hl' & _). congruence.
    + split.
      * intros ->. exists ts, now, n. split_and!; [done|done|].
        destruct (g_rate g !! sender_of input) as [[w m]|]; [|done].
        repeat case_decide; destruct Hk; [by left|by right|done].
      * intros (ts' & now' & n' & [-> ->]%Hu & _ & Hroom).
        destruct (g_rate g !! sender_of input) as [[w m]|]; [|by destruct Hk].
        repeat case_decide; destruct Hk; [done|done|]. lia.
Qed.

End guard.

(** ** Filling the cache *)
Definition flood_cache (s : string) (t : OffsetDateTime) (c : ReplayCache) (ns : list string) :
    ReplayCache := foldl (fun c n => (cache_record c s n t).1) c ns.

(** While an entry older than [t] survives, everything recorded at [t] does. *)
Record flooded (s : string) (t : OffsetDateTime) (e0 e : NonceTable) (seen : list string) : Prop := {
  fd_size : (size e <= REPLAY_CACHE_MAX_PER_SENDER)%nat;
  fd_old k v : e !! k = Some v -> (k ∈ seen /\ v = t) \/ (v < t /\ e0 !! k = Some v);
  fd_keep n : (exists k v, e !! k = Some v /\ v < t) -> n ∈ seen -> e !! n = Some t
}.

Lemma flooded_step s t e0 c n seen :
  n <> EmptyString -> n ∉ seen -> e0 !! n = None ->
  map_Forall (fun _ v => t - v < seconds 600) (sender_entries c s) ->
  flooded s t e0 (sender_entries c s) seen ->
  exists c', cache_record c s n t = (c', Ok tt) /\
    flooded s t e0 (sender_entries c' s) (n :: seen).
Proof.
  intros Hn Hns He0 Hlive [Hsz Hold Hkeep].
  assert (Hall : live_entries c s t = sender_entries c s).
  { apply map_filter_id. intros k v Hk. apply cache_live_spec. by apply (Hlive k v). }
  assert (Hnone : sender_entries c s !! n = None).
  { destruct (sender_entries c s !! n) as [v|] eqn:E; [|done].
    destruct (Hold n v E) as [[? _]|[_ ?]]; [done|congruence]. }
  destruct (cache_record_cases c s n t Hn) as [[[v Hv] _]|[_ E]];
    rewrite Hall in *; [congruence|]. eexists. split; [exact E|].
  rewrite sender_entries_put, decide_True by done.
  set (e := sender_entries c s) in *.
  set (room := if (REPLAY_CACHE_MAX_PER_SENDER <=? size e)%nat then evict e else e).
  assert (Hsub : room ⊆ e). { unfold room. case_match; [apply evict_subseteq|done]. }
  assert (Hrn : room !! n = None) by (eapply lookup_weaken_None; eauto).
  split.
  - rewrite map_size_insert_None by done. unfold room.
    destruct (REPLAY_CACHE_MAX_PER_SENDER <=? size e)%nat eqn:El;
      [apply Nat.leb_le in El|apply Nat.leb_gt in El; lia].
    assert (e <> ∅). { intros ->. rewrite map_size_empty in El. by apply Nat.le_0_r in El. }
    pose proof (evict_size e ltac:(done)). lia.
  - intros k v Hk. destruct (decide (k = n)) as [->|Hne].
    + rewrite lookup_insert_eq in Hk. injection Hk as <-. left. split; [left|done].
    + rewrite lookup_insert_ne in Hk by done. eapply lookup_weaken in Hk; [|exact Hsub].
      destruct (Hold k v Hk) as [[? ?]|?]; [left|by right]. split; [by right|done].
  - intros m (k & v & Hk & Hv) [->|Hm]%elem_of_cons; [apply lookup_insert_eq|].
    assert (k <> n) as Hkn. { intros ->. rewrite lookup_insert_eq in Hk. injection Hk as <-. lia. }
    rewrite lookup_insert_ne in Hk by done.
    pose proof (lookup_weaken _ _ _ _ Hk Hsub) as Hke.
    assert (m <> n) as Hmn by (by intros ->).
    rewrite lookup_insert_ne by done.
    pose proof (Hkeep m (ex_intro _ k (ex_intro _ v (conj Hke Hv))) Hm) as Hmt.
    unfold room. case_match; [|done]. apply evict_lookup; [done|]. exists k, v. split; [done|lia].
Qed.

Lemma flood_seen s t ns c seen e0 :
  NoDup ns -> (forall n, n ∈ ns -> n <> EmptyString /\ n ∉ seen /\ e0 !! n = None) ->
  map_Forall (fun _ v => t - v < seconds 600) e0 ->
  flooded s t e0 (sender_entries c s) seen ->
  exists seen', (forall n, n ∈ seen' <-> n ∈ ns \/ n ∈ seen) /\
    flooded s t e0 (sender_entries (flood_cache s t c ns) s) seen'.
Proof.
  intros Hnd Hns He0. revert c seen Hns. induction Hnd as [|n ns Hn Hnd IH]; intros c seen Hns Hfl.
  { exists seen. split; [|done]. intros n. rewrite elem_of_nil. tauto. }
  destruct (Hns n ltac:(left)) as (Hne & Hnseen & Hn0).
  assert (Hlive : map_Forall (fun _ v => t - v < seconds 600) (sender_entries c s)).
  { intros k v Hk. destruct (fd_old _ _ _ _ _ Hfl k v Hk) as [[_ ->]|[_ H0]];
      [unfold seconds, NANOS; lia|by apply (He0 k v)]. }
  destruct (flooded_step s t e0 c n seen Hne Hnseen Hn0 Hlive Hfl) as (c' & Ec & Hfl').
  destruct (IH c' (n :: seen)) as (seen' & Hs & H'); [|done|].
  - intros m Hm. destruct (Hns m ltac:(by right)) as (? & ? & ?). split_and!; [done| |done].
    intros [->|?]%elem_of_cons; done.
  - exists seen'. split.
    + intros m. rewrite Hs, !elem_of_cons. tauto.
    + unfold flood_cache in *. simpl. by rewrite Ec.
Qed.

(** A cache's worth of later nonces displaces everything older. *)
Lemma flood_displaces s t ns c :
  NoDup ns -> length ns = REPLAY_CACHE_MAX_PER_SENDER ->
  (forall n, n ∈ ns -> n <> EmptyString /\ sender_entries c s !! n = None) ->
  map_Forall (fun _ v => v < t /\ t - v < seconds 600) (sender_entries c s) ->
  (size (sender_entries c s) <= REPLAY_CACHE_MAX_PER_SENDER)%nat ->
  map_Forall (fun k v => k ∈ ns /\ v = t) (sender_entries (flood_cache s t c ns) s).
Proof.
  intros Hnd Hlen Hns Hall Hsz.
  destruct (flood_seen s t ns c [] (sender_entries c s) Hnd) as (seen & Hs & [Hsz' Hold Hkeep]).
  - intros n Hn. destruct (Hns n Hn). split_and!; [done| |done]. apply not_elem_of_nil.
  - intros k v Hk. by apply (Hall k v).
  - split; [done| |].
    + intros k v Hk. right. split; [by apply (Hall k v)|done].
    + intros n _ Hn. by apply elem_of_nil in Hn.
  - intros k v Hk. destruct (Hold k v Hk) as [[Hin ->]|[Hlt Hk0]].
    { split; [|done]. apply Hs in Hin as [?|Hin]; [done|by apply elem_of_nil in Hin]. }
    exfalso. set (e := sender_entries (flood_cache s t c ns) s) in *.
    assert (Hin : forall n, n ∈ ns -> e !! n = Some t).
    { intros n Hn. apply Hkeep; [by exists k, v|]. apply Hs. by left. }
    assert (Hknot : k ∉ ns). { intros Hk'. rewrite (Hin k Hk') in Hk. injection Hk as <-. lia. }
    assert (list_to_set (k :: ns) ⊆ dom e) as Hdom.
    { intros x Hx. apply elem_of_list_to_set in Hx. apply elem_of_dom.
      apply elem_of_cons in Hx as [->|Hx]; [by eexists|eexists; by apply Hin]. }
    apply subseteq_size in Hdom. rewrite size_list_to_set, size_dom in Hdom by (by constructor).
    simpl in Hdom. lia.
Qed.

(** ** The two gaps, in the running code *)
Definition guard_feed `{TimeLib} (g : IngressGuard) (inputs : list GuardInput) : IngressGuard :=
  foldl (fun g i => (run_cheap_gates i g).1) g inputs.

(** An envelope for [bob@a.test] that claims to be from [alice@b.test]; the
    guard never asks for a signature. *)
Definition claimed (nonce ts now : string) : GuardInput :=
  mkInput (mkPeeked (mkPrincipal "b.test" "alice") (mkPrincipal "a.test" "bob") ts (Some nonce) None)
    now "a.test" true.

Lemma claimed_replay `{TL : TimeLib} n ts now t g :
  n <> EmptyString -> freshness_check ts now CLOCK_SKEW_WINDOW_SECS = Ok tt ->
  rfc3339_parse now = Some t ->
  g_replay (run_cheap_gates (claimed n ts now) g).1 = (cache_record (g_replay g) "alice" n t).1 /\
  (forall w k, g_rate (run_cheap_gates (claimed n ts now) g).1 !! "alice" = Some (w, k) ->
     w = t \/ exists k', g_rate g !! "alice" = Some (w, k')).
Proof.
  intros Hn Hf Ht. unfold run_cheap_gates. simpl (gi_now _). simpl (pk_ts _). rewrite Hf.
  simpl. rewrite Ht. destruct (cache_record (g_replay g) "alice" n t) as [c [[]|e]]; simpl; [|eauto].
  destruct (rate_admit_cases (g_rate g) "alice" t) as (b & r & -> & Hb). simpl. split; [done|].
  intros w k. rewrite lookup_insert_eq. intros [= ->].
  destruct (g_rate g !! "alice") as [[w' k']|].
  - repeat case_decide; destruct Hb as [Hb _]; injection Hb as -> ->; eauto.
  - destruct Hb as [Hb _]. injection Hb as -> _. by left.
Qed.

Lemma claimed_flood `{TL : TimeLib} ns ts now t g :
  (forall n, n ∈ ns -> n <> EmptyString) ->
  freshness_check ts now CLOCK_SKEW_WINDOW_SECS = Ok tt -> rfc3339_parse now = Some t ->
  let g' := guard_feed g (map (fun n => claimed n ts now) ns) in
  g_replay g' = flood_cache "alice" t (g_replay g) ns /\
  (forall w k, g_rate g' !! "alice" = Some (w, k) ->
     w = t \/ exists k', g_rate g !! "alice" = Some (w, k')).
Proof.
  intros Hns Hf Ht. revert g. induction ns as [|n ns IH]; intros g; simpl; [split; eauto|].
  destruct (claimed_replay n ts now t g (Hns n ltac:(left)) Hf Ht) as [Hr Hb].
  destruct (IH ltac:(intros m Hm; apply Hns; by right) (run_cheap_gates (claimed n ts now) g).1)
    as [Hr' Hb'].
  split.
  - rewrite Hr'. unfold flood_cache. simpl. by rewrite <- Hr.
  - intros w k Hw. destruct (Hb' w k Hw) as [->|[k' Hk']]; [by left|]. by apply Hb in Hk'.
Qed.

Lemma claimed_passes `{TL : TimeLib} n ts now t g :
  n <> EmptyString -> freshness_check ts now CLOCK_SKEW_WINDOW_SECS = Ok tt ->
  rfc3339_parse now = Some t ->
  live_entries (g_replay g) "alice" t !! n = None ->
  (forall w k, g_rate g !! "alice" = Some (w, k) -> seconds RATE_LIMIT_WINDOW_SECS <= t - w) ->
  (run_cheap_gates (claimed n ts now) g).2 = Ok tt.
Proof.
  intros Hn Hf Ht Hl Hr. unfold run_cheap_gates. simpl (gi_now _). simpl (pk_ts _). rewrite Hf.
  simpl. rewrite Ht.
  destruct (cache_record_cases (g_replay g) "alice" n t Hn) as [[[v Hv] _]|[_ ->]]; [congruence|].
  destruct (rate_admit_cases (g_rate g) "alice" t) as (b & r & E & Hb). simpl. rewrite E. simpl.
  destruct (g_rate g !! "alice") as [[w k]|]; [|by destruct Hb].
  rewrite decide_True in Hb by (by eapply Hr). by destruct Hb.
Qed.

(** Finding: replay protection can be defeated without any key.  Nonces are
    remembered before the rate limit and before any signature is checked, so
    4096 unsigned requests that merely claim a backed sender, within one
    second, displace a genuine envelope's nonce, and a minute later the captured
    envelope passes every gate again although its timestamp is still fresh and
    its nonce was used; and without any flood an envelope first seen exactly
    300 s before its timestamp passes again exactly 300 s after it, because the
    cache drops an entry at age 600 s while the skew window still includes it. *)
Theorem flood_reopens_replay ns :
  NoDup ns -> length ns = REPLAY_CACHE_MAX_PER_SENDER ->
  (forall n, n ∈ ns -> n <> EmptyString /\ n <> "n1") ->
  let envelope := claimed "n1" "1000Z" in
  let first := run_cheap_gates (envelope "1000Z") (guard_new 0) in
  let after := guard_feed first.1 (map (fun n => claimed n "1001Z" "1001Z") ns) in
  let early := run_cheap_gates (envelope "700Z") (guard_new 0) in
  first.2 = Ok tt /\
  (run_cheap_gates (envelope "1062Z") first.1).2 = Err (GReplayedNonce "alice" "n1") /\
  (run_cheap_gates (envelope "1062Z") after).2 = Ok tt /\
  early.2 = Ok tt /\ (run_cheap_gates (envelope "1300Z") early.1).2 = Ok tt.
Proof.
  intros Hnd Hlen Hns envelope first after early.
  split; [vm_compute; reflexivity|]. split; [vm_compute; reflexivity|].
  assert (early.2 = Ok tt /\ (run_cheap_gates (envelope "1300Z") early.1).2 = Ok tt) as Hedge
    by (split; vm_compute; reflexivity).
  refine (conj _ Hedge).
  destruct (claimed_flood ns "1001Z" "1001Z" (seconds 1001) first.1) as [Hr Hb];
    [intros n Hn; by apply Hns|done|done|]. fold after in Hr, Hb.
  assert (Hfirst : sender_entries (g_replay first.1) "alice" = {["n1" := seconds 1000]})
    by (vm_compute; reflexivity).
  pose proof (flood_displaces "alice" (seconds 1001) ns (g_replay first.1) Hnd Hlen) as Hfd.
  rewrite Hfirst, <- Hr in Hfd.
  assert (Hgone : live_entries (g_replay after) "alice" (seconds 1062) !! "n1" = None).
  { destruct (live_entries _ _ _ !! "n1") as [v|] eqn:E; [|done].
    apply live_entries_lookup in E as [E _]. apply Hfd in E as [Hin _].
    - by destruct (Hns "n1" Hin).
    - intros n Hn. destruct (Hns n Hn). split; [done|]. by apply lookup_singleton_ne.
    - apply map_Forall_singleton. by vm_compute.
    - rewrite map_size_singleton. unfold REPLAY_CACHE_MAX_PER_SENDER. lia. }
  apply claimed_passes with (seconds 1062); [done|done|done|done|].
  intros w m Ew. destruct (Hb w m Ew) as [->|[k' Hk']]; [by vm_compute|].
  assert (g_rate first.1 !! "alice" = Some (seconds 1000, 1)) as Hf by (vm_compute; reflexivity).
  rewrite Hf in Hk'. injection Hk' as <- _. by vm_compute.
Qed.

Definition numbered (i : nat) : string := ("m" ++ pretty i)%string.
#[export] Instance numbered_inj : Inj (=) (=) numbered.
Proof. intros i j [= H]. exact (inj pretty _ _ H). Qed.

Lemma flood_reopens_replay_witness :
  length (map numbered (seq 0 REPLAY_CACHE_MAX_PER_SENDER)) = REPLAY_CACHE_MAX_PER_SENDER /\
  (run_cheap_gates (claimed "n1" "1000Z" "1062Z")
    (guard_feed (run_cheap_gates (claimed "n1" "1000Z" "1000Z") (guard_new 0)).1
      (map (fun n => claimed n "1001Z" "1001Z")
        (map numbered (seq 0 REPLAY_CACHE_MAX_PER_SENDER))))).2 = Ok tt.
Proof.
  assert (Hl : length (map numbered (seq 0 REPLAY_CACHE_MAX_PER_SENDER)) = REPLAY_CACHE_MAX_PER_SENDER).
  { rewrite length_map, length_seq. reflexivity. }
  split; [exact Hl|].
  refine (proj1 (proj2 (proj2 (flood_reopens_replay _ _ Hl _)))).
  - change (NoDup (numbered <$> seq 0 REPLAY_CACHE_MAX_PER_SENDER)).
    apply NoDup_fmap_2; [apply _|apply NoDup_seq].
  - intros n Hn. apply list_elem_of_In, in_map_iff in Hn as (i & <- & _). split; discriminate.
Qed.

Definition edge_guard : IngressGuard := (run_cheap_gates (claimed "n1" "1000Z" "700Z") (guard_new 0)).1.
Lemma edge_run :
  guard_run edge_guard [mkSighting "alice" "n1" "1000Z" (seconds 700)] [("alice", seconds 700)]
    (seconds 700).
Proof.
  exact (guard_run_step (guard_new 0) [] [] 0 (claimed "n1" "1000Z" "700Z") (seconds 700)
    (guard_run_new 0) eq_refl ltac:(done)).
Qed.

Lemma replay_needs_a_gap_or_a_flood_witness :
  (seconds 600 <= seconds 1300 - seconds 700 /\
   ("1000Z" = "1000Z" -> forall ts, rfc3339_parse "1000Z" = Some ts -> whole_second ts ->
     whole_second (seconds 700) -> whole_second (seconds 1300) ->
     seconds 700 = ts - seconds 300 /\ seconds 1300 = ts + seconds 300)) \/
  Z.of_nat REPLAY_CACHE_MAX_PER_SENDER <= 1.
Proof.
  exact (replay_needs_a_gap_or_a_flood _ _ _ _ (claimed "n1" "1000Z" "1300Z") (seconds 1300)
    (mkSighting "alice" "n1" "1000Z" (seconds 700)) (mkSighting "alice" "n1" "1000Z" (seconds 1300))
    edge_run eq_refl ltac:(done) eq_refl ltac:(left) eq_refl eq_refl).
Defined.

