(* ===== verification/Keyring.v ===== *)
(** * The pinned-peer keyring

    [crates/famp-keyring/src/{entry,file_format,lib,revocation,peer_flag}.rs]:
    which keys speak for which principals.  Entries are active, retired or
    revoked; [active_key] is the one time-aware trust decision; rotation,
    retirement and (signed) revocation change it; the file format keeps it. *)

From Stdlib Require Import Strings.Byte Ascii.
From stdpp Require Import gmap strings list pretty.
From S2P Require Import Prelude Json Proto WireInstance Principal Crypto.

#[export] Instance principal_eq_dec : EqDecision Principal.
Proof. solve_decision. Defined.
#[export] Instance principal_countable : Countable Principal.
Proof.
  refine (inj_countable' (fun p => (pr_authority p, pr_name p)) (fun x => mkPrincipal x.1 x.2) _).
  by intros [].
Defined.

(** ** Entries: [entry.rs] *)
Inductive KeyState := KActive | KRetired | KRevoked.
#[export] Instance keyState_eq_dec : EqDecision KeyState.
Proof. solve_decision. Defined.

Definition as_token (s : KeyState) : string :=
  match s with KActive => "active" | KRetired => "retired" | KRevoked => "revoked" end.
Definition from_token (t : string) : option KeyState :=
  if String.eqb t "active" then Some KActive
  else if String.eqb t "retired" then Some KRetired
  else if String.eqb t "revoked" then Some KRevoked else None.

Record KeyEntry := mkEntry {
  ke_key : TrustedVerifyingKey; ke_state : KeyState;
  ke_valid_until : option string; ke_pinned_at : option string; ke_state_since : option string }.
#[export] Instance keyEntry_eq_dec : EqDecision KeyEntry.
Proof. solve_decision. Defined.

Definition legacy (k : TrustedVerifyingKey) : KeyEntry := mkEntry k KActive None None None.
Definition is_legacy_shaped (e : KeyEntry) : bool :=
  bool_decide (ke_state e = KActive) && is_none (ke_valid_until e) &&
  is_none (ke_pinned_at e) && is_none (ke_state_since e).

(** [YYYY-MM-DDTHH:MM:SSZ], position by position. *)
Fixpoint matches (ps : list (ascii -> bool)) (s : string) : bool :=
  match ps, s with
  | [], EmptyString => true
  | p :: ps, String c s => p c && matches ps s
  | _, _ => false
  end.
Definition canonical_utc_shape : list (ascii -> bool) :=
  let d := is_digit in let l c := fun x => Ascii.eqb x c in
  [d; d; d; d; l "-"%char; d; d; l "-"%char; d; d; l "T"%char; d; d; l ":"%char; d; d;
   l ":"%char; d; d; l "Z"%char].
Definition is_canonical_utc (v : string) : bool := matches canonical_utc_shape v.

(** ** Errors *)
Inductive KeyringError :=
| KDuplicatePrincipal (principal : Principal) (line : nat)
| KDuplicatePubkey (existing : Principal) (line : nat)
| KDuplicateKeyEntry (principal : Principal) (line : nat)
| KMalformedEntry (line : nat) (reason : string)
| KKeyConflict (principal : Principal)
| KKeyChangeRequiresConfirmation (principal : Principal) (previous_key_id new_key_id : string)
| KKeyRevoked (principal : Principal) (key_id : string)
| KNoSuchKeyEntry (principal : Principal) (key_id : string)
| KCannotRetire (principal : Principal) (key_id state : string)
| KNonCanonicalTimestamp (value : string)
| KRevocationSignerNotAuthorized (principal : Principal)
| KRevocationSignatureInvalid (principal : Principal)
| KRevocationBlobMalformed (reason : string)
| KInvalidPeerFlag (reason : string)
| KCrypto (e : CryptoError).

(** ** The keyring: [lib.rs] *)
Inductive KeyLookupOutcome :=
| LkActive (k : TrustedVerifyingKey)
| LkUnpinned
| LkExpired (valid_until : string)
| LkRetired (retired_at : option string)
| LkRevoked (revoked_at : option string)
| LkNonCanonicalNow.

Inductive RotationOutcome :=
| RtFirstPin | RtAlreadyPinned | RtRotated (previous_key_id new_key_id : string).

Abbreviation Keyring := (gmap Principal (list KeyEntry)).

Definition in_state (s : KeyState) (e : KeyEntry) : bool := bool_decide (ke_state e = s).
(** [iter().find], and [iter().position] with the entry at that index. *)
Definition find_entry (p : KeyEntry -> bool) (l : list KeyEntry) : option KeyEntry := List.find p l.
Fixpoint position (p : KeyEntry -> bool) (l : list KeyEntry) : option (nat * KeyEntry) :=
  match l with
  | [] => None
  | e :: l => if p e then Some (0%nat, e) else '(i, x) ← position p l; Some (S i, x)
  end.

Definition entries (k : Keyring) (p : Principal) : list KeyEntry := default [] (k !! p).

Definition keyring_get (k : Keyring) (p : Principal) : option TrustedVerifyingKey :=
  l ← k !! p; ke_key <$> find_entry (in_state KActive) l.

(** [valid_until <= now] on strings. *)
Definition active_key (k : Keyring) (p : Principal) (now : string) : KeyLookupOutcome :=
  if negb (is_canonical_utc now) then LkNonCanonicalNow else
  letsome l := k !! p orelse LkUnpinned in
  match l with
  | [] => LkUnpinned
  | _ =>
      match find_entry (in_state KActive) l with
      | Some active =>
          match ke_valid_until active with
          | Some valid_until =>
              if String.leb valid_until now then LkExpired valid_until else LkActive (ke_key active)
          | None => LkActive (ke_key active)
          end
      | None =>
          match find_entry (in_state KRevoked) l with
          | Some revoked => LkRevoked (ke_state_since revoked)
          | None =>
              match find_entry (in_state KRetired) l with
              | Some retired => LkRetired (ke_state_since retired)
              | None => LkUnpinned
              end
          end
      end
  end.

Section keyring.
Context `{CL : CryptoLib} `{WL : WireLib}.

Definition has_revoked (l : list KeyEntry) (key : TrustedVerifyingKey) : bool :=
  iter_any (fun e => in_state KRevoked e && bool_decide (as_bytes (ke_key e) = as_bytes key)) l.

Definition pin_tofu (k : Keyring) (p : Principal) (key : TrustedVerifyingKey) :
    Keyring * result unit KeyringError :=
  let push := (<[p := entries k p ++ [legacy key]]> k, Ok tt) in
  match k !! p with
  | Some l =>
      if has_revoked l key then (k, Err (KKeyRevoked p (key_id key))) else
      match find_entry (in_state KActive) l with
      | Some active =>
          if negb (bool_decide (as_bytes (ke_key active) = as_bytes key))
          then (k, Err (KKeyConflict p)) else (k, Ok tt)
      | None => push
      end
  | None => push
  end.

Definition with_peer (k : Keyring) (p : Principal) (key : TrustedVerifyingKey) :
    result Keyring KeyringError :=
  let '(k, r) := pin_tofu k p key in trying _ := r catch e => Err e in Ok k.

Definition noncanonical (valid_until : option string) : option string :=
  option_filter (fun vu => negb (is_canonical_utc vu)) valid_until.

Definition rotate_to (k : Keyring) (p : Principal) (new_key : TrustedVerifyingKey) (now : string)
    (valid_until : option string) (confirmed : bool) : Keyring * result RotationOutcome KeyringError :=
  if negb (is_canonical_utc now) then (k, Err (KNonCanonicalTimestamp now)) else
  match noncanonical valid_until with Some vu => (k, Err (KNonCanonicalTimestamp vu)) | None =>
  let new_key_id := key_id new_key in
  if has_revoked (entries k p) new_key then (k, Err (KKeyRevoked p new_key_id)) else
  let l := entries k p in
  let pinned := mkEntry new_key KActive valid_until (Some now) None in
  match position (in_state KActive) l with
  | None => (<[p := l ++ [pinned]]> k, Ok RtFirstPin)
  | Some (idx, old) =>
      if bool_decide (as_bytes (ke_key old) = as_bytes new_key) then (k, Ok RtAlreadyPinned) else
      let previous_key_id := key_id (ke_key old) in
      if negb confirmed
      then (k, Err (KKeyChangeRequiresConfirmation p previous_key_id new_key_id)) else
      let retired := mkEntry (ke_key old) KRetired (ke_valid_until old) (ke_pinned_at old)
        (Some now) in
      (<[p := <[idx := retired]> l ++ [pinned]]> k, Ok (RtRotated previous_key_id new_key_id))
  end
  end.

Definition has_key_id (id : string) (e : KeyEntry) : bool := String.eqb (key_id (ke_key e)) id.

Definition retire (k : Keyring) (p : Principal) (id : string) : Keyring * result unit KeyringError :=
  letsome l := k !! p orelse (k, Err (KNoSuchKeyEntry p id)) in
  letsome (idx, e) := position (has_key_id id) l orelse (k, Err (KNoSuchKeyEntry p id)) in
  match ke_state e with
  | KActive => (k, Err (KCannotRetire p id "active"))
  | KRevoked => (k, Err (KCannotRetire p id "revoked"))
  | KRetired =>
      let l := delete idx l in
      (match l with [] => delete p k | _ => <[p := l]> k end, Ok tt)
  end.

Definition revoke (k : Keyring) (p : Principal) (id now : string) :
    Keyring * result unit KeyringError :=
  if negb (is_canonical_utc now) then (k, Err (KNonCanonicalTimestamp now)) else
  letsome l := k !! p orelse (k, Err (KNoSuchKeyEntry p id)) in
  letsome (idx, old) := position (has_key_id id) l orelse (k, Err (KNoSuchKeyEntry p id)) in
  if in_state KRevoked old then (k, Ok tt) else
  (<[p := <[idx := mkEntry (ke_key old) KRevoked (ke_valid_until old) (ke_pinned_at old) (Some now)]> l]> k,
   Ok tt).

(** ** Signed revocation: [revocation.rs] *)
Record RevocationStatement := mkStatement {
  rs_principal : string; rs_revoked_key_id : string; rs_revoked_at : string;
  rs_reason : option string }.
Record SignedRevocation := mkSignedRevocation { sr_statement : RevocationStatement; sr_sig : string }.

(** The derived [Serialize]: an absent reason is [null]. *)
Definition statement_to_value (s : RevocationStatement) : Value :=
  json_obj [("principal", VString (rs_principal s)); ("revoked_key_id", VString (rs_revoked_key_id s));
            ("revoked_at", VString (rs_revoked_at s));
            ("reason", match rs_reason s with Some r => VString r | None => VNull end)].

Definition statement_sign (s : RevocationStatement) (sk : FampSigningKey) :
    result SignedRevocation KeyringError :=
  trying sig := sign_value sk (statement_to_value s) catch e => Err (KCrypto e) in
  Ok (mkSignedRevocation s (sig_to_b64url sig)).

Definition authorized_signer_for (k : Keyring) (p : Principal) (revoked_key_id : string) :
    list TrustedVerifyingKey :=
  map ke_key (List.filter (fun e =>
    negb (in_state KRevoked e) && (in_state KActive e || has_key_id revoked_key_id e)) (entries k p)).

Definition apply_signed_revocation (k : Keyring) (signed : SignedRevocation) (now : string) :
    Keyring * result unit KeyringError :=
  if negb (is_canonical_utc now) then (k, Err (KNonCanonicalTimestamp now)) else
  let statement := sr_statement signed in
  let id := rs_revoked_key_id statement in
  if negb (is_canonical_utc (rs_revoked_at statement))
  then (k, Err (KNonCanonicalTimestamp (rs_revoked_at statement))) else
  trying p := Principal_from_str (rs_principal statement)
    catch e => (k, Err (KRevocationBlobMalformed
      ("invalid principal '" +:+ rs_principal statement +:+ "': " +:+ ParsePrincipalError_display e))) in
  if (length (entries k p) =? 0)%nat then (k, Err (KNoSuchKeyEntry p id)) else
  if negb (iter_any (has_key_id id) (entries k p)) then (k, Err (KNoSuchKeyEntry p id)) else
  let candidates := authorized_signer_for k p id in
  if (length candidates =? 0)%nat then (k, Err (KRevocationSignerNotAuthorized p)) else
  trying sig := sig_from_b64url (sr_sig signed)
    catch e => (k, Err (KRevocationSignatureInvalid p)) in
  if negb (iter_any (fun vk => is_ok (verify_value vk (statement_to_value statement) sig)) candidates)
  then (k, Err (KRevocationSignatureInvalid p)) else
  revoke k p id (rs_revoked_at statement).

(** ** The file: [file_format.rs], [load_from_file], [save_to_file] *)
Definition ABSENT : string := "-".

(** The length in bytes of the Unicode white space character [s] starts with, 0
    when it starts with none ([char::is_whitespace] on UTF-8 text). *)
Definition ws_len (s : string) : nat :=
  let n c := N_of_ascii c in
  match s with
  | EmptyString => 0%nat
  | String a r =>
      if ((9 <=? n a) && (n a <=? 13) || (n a =? 32))%N then 1%nat else
      match r with
      | EmptyString => 0%nat
      | String b r =>
          if ((n a =? 194) && ((n b =? 133) || (n b =? 160)))%N then 2%nat else
          match r with
          | EmptyString => 0%nat
          | String c _ =>
              if ((n a =? 225) && (n b =? 154) && (n c =? 128) ||
                  (n a =? 226) && (n b =? 128) &&
                    ((128 <=? n c) && (n c <=? 138) || (n c =? 168) || (n c =? 169) || (n c =? 175)) ||
                  (n a =? 226) && (n b =? 129) && (n c =? 159) ||
                  (n a =? 227) && (n b =? 128) && (n c =? 128))%N then 3%nat else 0%nat
          end
      end
  end.

(** [str::split_whitespace]: [skip] bytes of a white space character remain,
    [cur] is the field being read. *)
Definition flush (cur : string) (fields : list string) : list string :=
  if String.eqb cur EmptyString then fields else cur :: fields.
Fixpoint split_ws (skip : nat) (cur : string) (s : string) : list string :=
  match s with
  | EmptyString => flush cur []
  | String c s' =>
      match skip with
      | S k => split_ws k cur s'
      | O =>
          match ws_len s with
          | O => split_ws 0 (cur +:+ String c EmptyString) s'
          | S k => flush cur (split_ws k EmptyString s')
          end
      end
  end.
Definition split_whitespace (s : string) : list string := split_ws 0 EmptyString s.

(** [str::trim_start]. *)
Fixpoint trim_ws (skip : nat) (s : string) : string :=
  match s with
  | EmptyString => EmptyString
  | String c s' =>
      match skip with
      | S k => trim_ws k s'
      | O => match ws_len s with O => s | S k => trim_ws k s' end
      end
  end.
Definition trim_start (s : string) : string := trim_ws 0 s.

Definition CR : ascii := "013"%char.

(** [strip_suffix('\r').unwrap_or]. *)
Fixpoint strip_cr (s : string) : string :=
  match s with
  | EmptyString => EmptyString
  | String c EmptyString => if Ascii.eqb c CR then EmptyString else s
  | String c s => String c (strip_cr s)
  end.

(** [BufRead::lines]: split after each newline, which is dropped with a
    carriage return before it; no line after a final newline. *)
Definition file_lines (text : string) : list string :=
  let parts := split_char LF text in
  let '(terminated, rest) := (removelast parts, List.last parts EmptyString) in
  map strip_cr terminated ++ (if String.eqb rest EmptyString then [] else [rest]).

Definition parse_ts (line_no : nat) (field_name raw : string) : result (option string) KeyringError :=
  if String.eqb raw ABSENT then Ok None
  else if negb (is_canonical_utc raw) then
    Err (KMalformedEntry line_no ("field '" +:+ field_name +:+
      "' is not a canonical UTC timestamp or '-' sentinel: '" +:+ raw +:+ "'"))
  else Ok (Some raw).

Definition parse_line (raw : string) (line_no : nat) : result (Principal * KeyEntry) KeyringError :=
  let line := strip_cr raw in
  if contains "#"%char line
  then Err (KMalformedEntry line_no "inline '#' comments are not permitted") else
  let head principal_str pubkey_str :=
    trying p := map_err (fun e => KMalformedEntry line_no
        ("invalid principal: " +:+ ParsePrincipalError_display e)) (Principal_from_str principal_str)
      catch e => Err e in
    trying k := map_err KCrypto (vk_from_b64url pubkey_str) catch e => Err e in
    Ok (p, k) in
  match split_whitespace line with
  | [f0; f1] =>
      trying pk := head f0 f1 catch e => Err e in Ok (pk.1, legacy pk.2)
  | [f0; f1; state_tok; f3; f4; f5] =>
      trying pk := head f0 f1 catch e => Err e in
      letsome state := from_token state_tok
        orelse Err (KMalformedEntry line_no ("invalid state token '" +:+ state_tok +:+
          "' (expected active/retired/revoked)")) in
      trying valid_until := parse_ts line_no "valid_until" f3 catch e => Err e in
      trying pinned_at := parse_ts line_no "pinned_at" f4 catch e => Err e in
      trying state_since := parse_ts line_no "state_since" f5 catch e => Err e in
      Ok (pk.1, mkEntry pk.2 state valid_until pinned_at state_since)
  | fields =>
      Err (KMalformedEntry line_no ("expected 2 (legacy) or 6 (v1.1) fields, found " +:+
        pretty (length fields)))
  end.

(** [serialize_entry], without the final newline. *)
Definition entry_line (p : Principal) (e : KeyEntry) : string :=
  let ts v := unwrap_or v ABSENT in
  if is_legacy_shaped e then Principal_display p +:+ "  " +:+ vk_to_b64url (ke_key e)
  else Principal_display p +:+ "  " +:+ vk_to_b64url (ke_key e) +:+ "  " +:+
       as_token (ke_state e) +:+ "  " +:+ ts (ke_valid_until e) +:+ "  " +:+
       ts (ke_pinned_at e) +:+ "  " +:+ ts (ke_state_since e).
Definition serialize_entry (p : Principal) (e : KeyEntry) : string :=
  entry_line p e +:+ String LF EmptyString.

(** The loop of [load_from_file]: the map so far and the keys already seen. *)
Fixpoint load_lines (line_no : nat) (lines : list string) (k : Keyring)
    (seen_keys : list (bytes * Principal)) : result Keyring KeyringError :=
  match lines with
  | [] => Ok k
  | line :: lines =>
      let trimmed := trim_start line in
      if String.eqb trimmed EmptyString || String.prefix "#" trimmed
      then load_lines (S line_no) lines k seen_keys else
      trying parsed := parse_line line line_no catch e => Err e in
      let '(p, e) := parsed in
      if in_state KActive e && iter_any (in_state KActive) (entries k p)
      then Err (KDuplicatePrincipal p line_no) else
      match find_map (fun '(b, q) => if bool_decide (b = as_bytes (ke_key e)) then Some q else None)
              seen_keys with
      | Some existing =>
          if bool_decide (existing = p) then Err (KDuplicateKeyEntry p line_no)
          else Err (KDuplicatePubkey existing line_no)
      | None =>
          load_lines (S line_no) lines (<[p := entries k p ++ [e]]> k)
            ((as_bytes (ke_key e), p) :: seen_keys)
      end
  end.
Definition load_from_file (text : string) : result Keyring KeyringError :=
  load_lines 1 (file_lines text) ∅ [].

(** [sort_by_cached_key], which is stable. *)
Fixpoint insert_by {A} (key : A -> string) (x : A) (l : list A) : list A :=
  match l with
  | [] => [x]
  | y :: l' => if String.leb (key x) (key y) then x :: l else y :: insert_by key x l'
  end.
Definition sort_by {A} (key : A -> string) (l : list A) : list A := foldr (insert_by key) [] l.

Definition entry_key (e : KeyEntry) : string := vk_to_b64url (ke_key e).
Definition principal_key (pl : Principal * list KeyEntry) : string := Principal_display pl.1.

Definition save_to_file (k : Keyring) : string :=
  foldr (fun pl text =>
      foldr (fun e text => serialize_entry pl.1 e +:+ text) text (sort_by entry_key pl.2))
    EmptyString (sort_by principal_key (map_to_list k)).
End keyring.
