(* ===== verification/KeyringProps.v ===== *)
(** * What the keyring guarantees

    At most one usable key per principal; failed operations change nothing;
    expiry is decided chronologically; revocation is final as long as no
    principal holds the same key twice, and what happens when one does. *)

From Stdlib Require Import Strings.Byte Ascii.
From stdpp Require Import gmap strings list pretty.
From S2P Require Import Prelude Json Proto WireInstance Principal Crypto Keyring.

(** ** Canonical timestamps compare chronologically *)

(** The 14 digits of a timestamp, read as one number: year, month, day, hour,
    minute and second, most significant first. *)
Fixpoint utc_number (acc : N) (s : string) : N :=
  match s with
  | EmptyString => acc
  | String c s =>
      if is_digit c then utc_number (acc * 10 + (N_of_ascii c - 48)) s else utc_number acc s
  end.

Definition digit_or_literal (p : ascii -> bool) : Prop :=
  (forall c, p c = true -> is_digit c = true) \/
  (exists l, is_digit l = false /\ forall c, p c = true -> c = l).

Lemma digit_bounds c : is_digit c = true -> (48 <= N_of_ascii c <= 57)%N.
Proof. unfold is_digit, ascii_between. simpl. lia. Qed.

Lemma utc_number_lt ps a b x y :
  Forall digit_or_literal ps -> matches ps a = true -> matches ps b = true ->
  (x < y)%N -> (utc_number x a < utc_number y b)%N.
Proof.
  intros Hps. revert a b x y.
  induction Hps as [|p ps Hp _ IH]; intros [|c a] [|d b] x y; simpl; try done.
  rewrite !andb_true_iff. intros [Hc Ha] [Hd Hb] Hxy.
  destruct Hp as [Hp|(l & Hl & Hp)].
  - rewrite (Hp c), (Hp d) by done. apply IH; [done|done|].
    pose proof (digit_bounds c (Hp c Hc)). pose proof (digit_bounds d (Hp d Hd)). lia.
  - rewrite (Hp c Hc), (Hp d Hd), Hl. by apply IH.
Qed.

Lemma utc_number_compare ps a b x :
  Forall digit_or_literal ps -> matches ps a = true -> matches ps b = true ->
  String.compare a b = N.compare (utc_number x a) (utc_number x b).
Proof.
  intros Hps. revert a b x.
  induction Hps as [|p ps Hp Hps' IH]; intros [|c a] [|d b] x; simpl; try done.
  { intros _ _. by rewrite N.compare_refl. }
  rewrite !andb_true_iff. intros [Hc Ha] [Hd Hb].
  destruct Hp as [Hp|(l & Hl & Hp)].
  - rewrite (Hp c), (Hp d) by done. unfold Ascii.compare.
    pose proof (digit_bounds c (Hp c Hc)). pose proof (digit_bounds d (Hp d Hd)).
    destruct (N.compare_spec (N_of_ascii c) (N_of_ascii d)) as [E|E|E].
    + rewrite E. by apply IH.
    + symmetry. apply N.compare_lt_iff. eapply utc_number_lt; [done..|]. lia.
    + symmetry. apply N.compare_gt_iff. eapply utc_number_lt; [done..|]. lia.
  - rewrite (Hp c Hc), (Hp d Hd), Hl. unfold Ascii.compare. rewrite N.compare_refl. by apply IH.
Qed.

Lemma canonical_shape_ok : Forall digit_or_literal canonical_utc_shape.
Proof.
  unfold canonical_utc_shape. cbn zeta.
  repeat (constructor; [first [by left | right; eexists; split; [|by intros c ->%Ascii.eqb_eq]; done]|]).
  constructor.
Qed.

Lemma canonical_leb a b :
  is_canonical_utc a = true -> is_canonical_utc b = true ->
  String.leb a b = (utc_number 0 a <=? utc_number 0 b)%N.
Proof.
  intros Ha Hb. unfold String.leb.
  rewrite (utc_number_compare _ a b 0 canonical_shape_ok Ha Hb).
  unfold N.leb. by destruct (_ ?= _)%N.
Qed.

(** ** One change to a principal's entries *)
Definition entry_canonical (e : KeyEntry) : Prop :=
  forall v, v ∈ [ke_valid_until e; ke_pinned_at e; ke_state_since e] ->
    match v with Some s => is_canonical_utc s = true | None => True end.
Definition actives (l : list KeyEntry) : nat := length (List.filter (in_state KActive) l).

Definition restate (s : KeyState) (now : string) (e : KeyEntry) : KeyEntry :=
  mkEntry (ke_key e) s (ke_valid_until e) (ke_pinned_at e) (Some now).

Inductive change : list KeyEntry -> list KeyEntry -> Prop :=
| ch_same l : change l l
| ch_pin l e :
    actives l = 0%nat -> ke_state e = KActive -> entry_canonical e -> has_revoked l (ke_key e) = false ->
    change l (l ++ [e])
| ch_rotate l1 old l2 e now :
    actives l1 = 0%nat -> ke_state old = KActive -> is_canonical_utc now = true ->
    ke_state e = KActive -> entry_canonical e -> has_revoked (l1 ++ old :: l2) (ke_key e) = false ->
    change (l1 ++ old :: l2) ((l1 ++ restate KRetired now old :: l2) ++ [e])
| ch_retire l1 old l2 :
    ke_state old = KRetired -> change (l1 ++ old :: l2) (l1 ++ l2)
| ch_revoke l1 old l2 now :
    ke_state old <> KRevoked -> is_canonical_utc now = true ->
    change (l1 ++ old :: l2) (l1 ++ restate KRevoked now old :: l2).

Lemma actives_app l l' : actives (l ++ l') = (actives l + actives l')%nat.
Proof. unfold actives. by rewrite List.filter_app, length_app. Qed.
Lemma actives_cons e l :
  actives (e :: l) = ((if in_state KActive e then 1 else 0) + actives l)%nat.
Proof. unfold actives. simpl. by destruct (in_state KActive e). Qed.
Lemma in_state_true s e : in_state s e = true <-> ke_state e = s.
Proof. unfold in_state. apply bool_decide_eq_true. Qed.
Lemma in_state_other s e : ke_state e <> s -> in_state s e = false.
Proof. intros H. by apply bool_decide_eq_false. Qed.

Lemma actives_zero l : actives l = 0%nat <-> forall e, e ∈ l -> ke_state e <> KActive.
Proof.
  induction l as [|x l IH]; [split; [intros _ e He; by apply elem_of_nil in He|done]|].
  rewrite actives_cons. setoid_rewrite elem_of_cons.
  destruct (in_state KActive x) eqn:E.
  - apply in_state_true in E. split; [lia|]. intros H. exfalso. apply (H x); auto.
  - split.
    + intros H e [->|He]; [|apply IH; [lia|done]]. intros Hs. apply in_state_true in Hs. congruence.
    + intros H. rewrite (proj2 IH); [done|]. intros e He. apply H. by right.
Qed.

Lemma position_split p l i e :
  position p l = Some (i, e) ->
  exists l1 l2, l = l1 ++ e :: l2 /\ i = length l1 /\ p e = true /\ forall x, x ∈ l1 -> p x = false.
Proof.
  revert i. induction l as [|x l IH]; intros i; simpl; [done|].
  destruct (p x) eqn:E.
  - intros [= <- <-]. exists [], l. split_and!; try done. intros y Hy. by apply elem_of_nil in Hy.
  - destruct (position p l) as [[j y]|]; [|done]. simpl. intros [= <- <-].
    destruct (IH j eq_refl) as (l1 & l2 & -> & -> & Hp & Hl). exists (x :: l1), l2.
    split_and!; try done. intros z [->|Hz]%elem_of_cons; [done|by apply Hl].
Qed.
Lemma position_none p l : position p l = None -> forall x, x ∈ l -> p x = false.
Proof.
  induction l as [|x l IH]; simpl; [intros _ y Hy; by apply elem_of_nil in Hy|].
  destruct (p x) eqn:E; [done|]. destruct (position p l) as [[]|]; [done|].
  intros _ y [->|Hy]%elem_of_cons; [done|by apply IH].
Qed.
Lemma find_entry_none p l : find_entry p l = None -> forall x, x ∈ l -> p x = false.
Proof. intros H x Hx. apply (List.find_none p l H). by apply list_elem_of_In. Qed.
Lemma find_entry_some p l e : find_entry p l = Some e -> e ∈ l /\ p e = true.
Proof. intros H. apply List.find_some in H as [H1 H2]. split; [by apply list_elem_of_In|done]. Qed.

Lemma insert_at_split (l1 : list KeyEntry) x y l2 : <[length l1 := y]> (l1 ++ x :: l2) = l1 ++ y :: l2.
Proof. by rewrite insert_app_r_alt, Nat.sub_diag by lia. Qed.
Lemma delete_at_split (l1 : list KeyEntry) x l2 : delete (length l1) (l1 ++ x :: l2) = l1 ++ l2.
Proof. by rewrite delete_middle. Qed.

(** ** Operations *)
Section keyring.
Context `{CL : CryptoLib} `{WL : WireLib}.

Inductive KeyringOp :=
| OpPin (p : Principal) (key : TrustedVerifyingKey)
| OpRotate (p : Principal) (key : TrustedVerifyingKey) (now : string) (valid_until : option string)
    (confirmed : bool)
| OpRetire (p : Principal) (id : string)
| OpRevoke (p : Principal) (id now : string)
| OpApply (signed : SignedRevocation) (now : string).

Definition keyring_apply (k : Keyring) (op : KeyringOp) : Keyring * result unit KeyringError :=
  match op with
  | OpPin p key => pin_tofu k p key
  | OpRotate p key now vu c =>
      let '(k, r) := rotate_to k p key now vu c in (k, result_map (fun _ => tt) r)
  | OpRetire p id => retire k p id
  | OpRevoke p id now => revoke k p id now
  | OpApply signed now => apply_signed_revocation k signed now
  end.
Definition keyring_run (k : Keyring) (ops : list KeyringOp) : Keyring :=
  foldl (fun k op => (keyring_apply k op).1) k ops.

Lemma entries_insert k p l q :
  entries (<[p := l]> k) q = if decide (p = q) then l else entries k q.
Proof.
  unfold entries. case_decide as E; [subst; by rewrite lookup_insert_eq|by rewrite lookup_insert_ne].
Qed.

Lemma change_insert k p l :
  change (entries k p) l -> forall q, change (entries k q) (entries (<[p := l]> k) q).
Proof. intros H q. rewrite entries_insert. case_decide; [by subst|apply ch_same]. Qed.

Lemma canonical_filter vu : noncanonical vu = None -> forall s, vu = Some s -> is_canonical_utc s = true.
Proof.
  unfold noncanonical. intros H s ->. simpl in H. by destruct (is_canonical_utc s).
Qed.

Lemma pin_change k p key q : change (entries k q) (entries (pin_tofu k p key).1 q).
Proof.
  unfold pin_tofu. destruct (k !! p) as [l|] eqn:E.
  - assert (entries k p = l) as Hl by (unfold entries; by rewrite E).
    destruct (has_revoked l key) eqn:Hr; [apply ch_same|].
    destruct (find_entry (in_state KActive) l) as [a|] eqn:Ea.
    + case_match; apply ch_same.
    + apply change_insert. rewrite Hl. apply ch_pin; try done.
      * apply actives_zero. intros e He. apply (find_entry_none _ _ Ea) in He.
        intros Hs. apply in_state_true in Hs. congruence.
      * intros v Hv. repeat (apply elem_of_cons in Hv as [->|Hv]; [done|]). by apply elem_of_nil in Hv.
  - apply change_insert. unfold entries. rewrite E. apply (ch_pin []); try done.
    intros v Hv. repeat (apply elem_of_cons in Hv as [->|Hv]; [done|]). by apply elem_of_nil in Hv.
Qed.

Lemma rotate_change k p key now vu c q : change (entries k q) (entries (rotate_to k p key now vu c).1 q).
Proof.
  unfold rotate_to. destruct (is_canonical_utc now) eqn:En; [|apply ch_same].
  destruct (noncanonical vu) eqn:Ev; [apply ch_same|]. simpl.
  destruct (has_revoked (entries k p) key) eqn:Hr; [apply ch_same|].
  assert (Hc : entry_canonical (mkEntry key KActive vu (Some now) None)).
  { intros v Hv. apply elem_of_cons in Hv as [->|Hv]; simpl.
    - destruct vu; [by apply (canonical_filter _ Ev)|done].
    - repeat (apply elem_of_cons in Hv as [->|Hv]; [done|]). by apply elem_of_nil in Hv. }
  destruct (position (in_state KActive) (entries k p)) as [[i old]|] eqn:Ep.
  - case_match; [apply ch_same|]. case_match; [apply ch_same|]. apply change_insert.
    apply position_split in Ep as (l1 & l2 & El & -> & Ho & Hl). rewrite El in *.
    rewrite insert_at_split. apply (ch_rotate l1 old l2 _ now); try done.
    + apply actives_zero. intros e He Hs. apply Hl in He. apply in_state_true in Hs. congruence.
    + by apply in_state_true.
  - apply change_insert. apply ch_pin; try done. apply actives_zero. intros e He Hs.
    apply (position_none _ _ Ep) in He. apply in_state_true in Hs. congruence.
Qed.

Lemma revoke_change k p id now q : change (entries k q) (entries (revoke k p id now).1 q).
Proof.
  unfold revoke. destruct (is_canonical_utc now) eqn:En; [|apply ch_same]. simpl.
  destruct (k !! p) as [l|] eqn:E; [|apply ch_same].
  assert (entries k p = l) as Hl by (unfold entries; by rewrite E).
  destruct (position (has_key_id id) l) as [[i old]|] eqn:Ep; [|apply ch_same].
  destruct (in_state KRevoked old) eqn:Es; [apply ch_same|]. apply change_insert. rewrite Hl.
  apply position_split in Ep as (l1 & l2 & -> & -> & _ & _). rewrite insert_at_split.
  apply ch_revoke; [|done]. intros Hs. apply in_state_true in Hs. congruence.
Qed.

Lemma retire_change k p id q : change (entries k q) (entries (retire k p id).1 q).
Proof.
  unfold retire. destruct (k !! p) as [l|] eqn:E; [|apply ch_same].
  assert (entries k p = l) as Hl by (unfold entries; by rewrite E).
  destruct (position (has_key_id id) l) as [[i old]|] eqn:Ep; [|apply ch_same].
  destruct (ke_state old) eqn:Es; [apply ch_same| |apply ch_same].
  apply position_split in Ep as (l1 & l2 & El & -> & _ & _). rewrite El, delete_at_split.
  assert (Hch : change l (l1 ++ l2)) by (rewrite El; by apply ch_retire).
  destruct (l1 ++ l2) as [|x l'] eqn:Ell.
  - simpl. unfold entries at 2. destruct (decide (p = q)) as [<-|Hne].
    + rewrite lookup_delete_eq, Hl. exact Hch.
    + rewrite lookup_delete_ne by done. apply ch_same.
  - apply change_insert. by rewrite Hl.
Qed.

Lemma apply_change k signed now q :
  change (entries k q) (entries (apply_signed_revocation k signed now).1 q).
Proof.
  unfold apply_signed_revocation. repeat case_match; try apply ch_same. apply revoke_change.
Qed.

Lemma keyring_apply_change k op q : change (entries k q) (entries (keyring_apply k op).1 q).
Proof.
  destruct op; simpl;
    [apply pin_change| |apply retire_change|apply revoke_change|apply apply_change].
  pose proof (rotate_change k p key now valid_until confirmed q).
  by destruct (rotate_to k p key now valid_until confirmed).
Qed.

(** ** The invariant *)
Definition principal_entries_ok (l : list KeyEntry) : Prop :=
  (actives l <= 1)%nat /\ Forall entry_canonical l.

Lemma restate_canonical s now e :
  is_canonical_utc now = true -> entry_canonical e -> entry_canonical (restate s now e).
Proof.
  intros Hn He v Hv. apply elem_of_cons in Hv as [->|Hv]; [apply (He (ke_valid_until e)); left|].
  apply elem_of_cons in Hv as [->|Hv]; [apply (He (ke_pinned_at e)); right; left|].
  apply elem_of_cons in Hv as [->|Hv]; [done|by apply elem_of_nil in Hv].
Qed.

Lemma change_ok l l' : change l l' -> principal_entries_ok l -> principal_entries_ok l'.
Proof.
  unfold principal_entries_ok. intros [|l0 e Ha Hs Hc _|l1 old l2 e now Ha Ho Hn Hs Hc _|l1 old l2 Ho|l1 old l2 now Ho Hn];
    [done|..]; rewrite ?actives_app, ?actives_cons, ?Forall_app, ?Forall_cons;
    simpl; rewrite ?(proj2 (in_state_true KActive e) Hs).
  - intros [_ Hall]. split; [rewrite Ha; unfold actives; simpl; lia|]. by repeat constructor.
  - intros [Hle (H1 & H2 & H3)]. rewrite (proj2 (in_state_true _ _) Ho) in Hle.
    split; [unfold actives in *; simpl; lia|]. split_and!; try done. by apply restate_canonical.
  - rewrite (in_state_other KActive old) by congruence. intros [Hle (H1 & H2 & H3)]. by split.
  - intros [Hle (H1 & H2 & H3)]. split; [lia|]. split_and!; try done. by apply restate_canonical.
Qed.

Definition keyring_ok (k : Keyring) : Prop :=
  forall p l, k !! p = Some l -> l <> [] /\ principal_entries_ok l.

Definition no_empty (k : Keyring) : Prop := forall p l, k !! p = Some l -> l <> [].

Lemma no_empty_insert k p l : no_empty k -> l <> [] -> no_empty (<[p := l]> k).
Proof.
  intros Hk Hl q l' Hq. destruct (decide (p = q)) as [<-|Hne].
  - rewrite lookup_insert_eq in Hq. by injection Hq as <-.
  - rewrite lookup_insert_ne in Hq by done. by apply (Hk q).
Qed.
Lemma no_empty_delete k p : no_empty k -> no_empty (delete p k).
Proof. intros Hk q l [_ Hq]%lookup_delete_Some. by apply (Hk q). Qed.
Lemma insert_not_nil {A} (l : list A) i x : l <> [] -> <[i := x]> l <> [].
Proof. destruct l, i; done. Qed.
Lemma snoc_not_nil {A} (l : list A) x : l ++ [x] <> [].
Proof. by destruct l. Qed.

Lemma revoke_no_empty k p id now : no_empty k -> no_empty (revoke k p id now).1.
Proof.
  intros Hk. unfold revoke. destruct (is_canonical_utc now); [|done]. simpl.
  destruct (k !! p) as [l|] eqn:E; [|done].
  destruct (position (has_key_id id) l) as [[i old]|]; [|done].
  destruct (in_state KRevoked old); [done|].
  apply no_empty_insert; [done|]. apply insert_not_nil. by apply (Hk p).
Qed.

Lemma keyring_apply_no_empty k op : no_empty k -> no_empty (keyring_apply k op).1.
Proof.
  intros Hk. destruct op; simpl.
  - unfold pin_tofu. repeat case_match; try done; apply no_empty_insert; try done; apply snoc_not_nil.
  - unfold rotate_to. repeat case_match; simpl; simplify_eq; try done;
      apply no_empty_insert; try done; apply snoc_not_nil.
  - unfold retire. repeat case_match; simplify_eq; try done; simpl.
    + by apply no_empty_delete.
    + by apply no_empty_insert.
  - by apply revoke_no_empty.
  - unfold apply_signed_revocation. repeat case_match; try done. by apply revoke_no_empty.
Qed.

Lemma keyring_ok_split k :
  keyring_ok k <-> no_empty k /\ forall p, principal_entries_ok (entries k p).
Proof.
  unfold keyring_ok, no_empty, entries. split.
  - intros H. split; [intros p l Hl; by apply (H p l)|]. intros p.
    destruct (k !! p) as [l|] eqn:E; simpl; [by apply (H p l)|].
    split; [unfold actives; simpl; lia|constructor].
  - intros [H1 H2] p l Hl. split; [by apply (H1 p)|]. specialize (H2 p). by rewrite Hl in H2.
Qed.

Lemma keyring_run_ok k ops : keyring_ok k -> keyring_ok (keyring_run k ops).
Proof.
  revert k. induction ops as [|op ops IH]; intros k Hk; [done|]. apply IH.
  apply keyring_ok_split in Hk as [H1 H2]. apply keyring_ok_split.
  split; [by apply keyring_apply_no_empty|]. intros p.
  eapply change_ok; [apply keyring_apply_change|done].
Qed.

Lemma parse_ts_canonical n f raw v :
  parse_ts n f raw = Ok v -> match v with Some s => is_canonical_utc s = true | None => True end.
Proof.
  unfold parse_ts. destruct (String.eqb raw ABSENT); [by intros [= <-]|].
  destruct (is_canonical_utc raw) eqn:E; [by intros [= <-]|done].
Qed.

Lemma parse_line_canonical raw n p e : parse_line raw n = Ok (p, e) -> entry_canonical e.
Proof.
  unfold parse_line. repeat case_match; try done; intros [= <- <-] v Hv; simpl in Hv;
    repeat (apply elem_of_cons in Hv as [->|Hv]; [done || (by eapply parse_ts_canonical)|]);
    by apply elem_of_nil in Hv.
Qed.

Lemma load_lines_ok n lines k seen k' :
  keyring_ok k -> load_lines n lines k seen = Ok k' -> keyring_ok k'.
Proof.
  revert n k seen. induction lines as [|line lines IH]; intros n k seen Hk; simpl; [by intros [= <-]|].
  case_match; [by apply IH|].
  destruct (parse_line line n) as [[p e]|] eqn:Ep; [|done].
  destruct (in_state KActive e && iter_any (in_state KActive) (entries k p)) eqn:Ea; [done|].
  case_match; [by case_match|]. apply IH.
  apply keyring_ok_split in Hk as [H1 H2]. apply keyring_ok_split.
  split; [by apply no_empty_insert, snoc_not_nil|].
  intros q. rewrite entries_insert. case_decide as E; [subst q|done].
  destruct (H2 p) as [Hle Hall]. split.
  - rewrite actives_app, actives_cons. apply andb_false_iff in Ea as [Ea|Ea].
    + rewrite Ea. unfold actives in *. simpl. lia.
    + assert (actives (entries k p) = 0%nat) as ->.
      { apply actives_zero. intros x Hx Hs. apply in_state_true in Hs.
        by rewrite (proj1 (iter_any_false _ _) Ea x Hx) in Hs. }
      unfold actives. simpl. case_match; lia.
  - apply Forall_app. split; [done|]. constructor; [by eapply parse_line_canonical|done].
Qed.

(** One usable key: whatever a keyring file holds that loads, and whatever
    sequence of pins, rotations, retirements and local or signed revocations
    follows, every listed principal has at least one entry, at most one of them
    active, and every recorded timestamp is canonical. *)
Theorem keyring_invariant text k ops :
  load_from_file text = Ok k -> keyring_ok (keyring_run k ops).
Proof.
  intros H. apply keyring_run_ok. eapply load_lines_ok; [|exact H]. intros p l.
  by rewrite lookup_empty.
Qed.

Lemma revoke_err k p id now e : (revoke k p id now).2 = Err e -> (revoke k p id now).1 = k.
Proof. unfold revoke. by repeat case_match. Qed.

(** A failed keyring operation changes nothing: conflicts, unconfirmed key
    changes, revoked keys, unknown key ids, protected states, non-canonical
    timestamps and bad revocation signatures all leave the keyring as it was. *)
Theorem keyring_errors_change_nothing k op e :
  (keyring_apply k op).2 = Err e -> (keyring_apply k op).1 = k.
Proof.
  destruct op; simpl.
  - unfold pin_tofu. by repeat case_match.
  - unfold rotate_to. by repeat case_match; simplify_eq.
  - unfold retire. by repeat case_match; simplify_eq.
  - apply revoke_err.
  - unfold apply_signed_revocation. repeat case_match; try done. apply revoke_err.
Qed.

(** ** The trust decision *)
Lemma find_active l :
  (actives l <= 1)%nat ->
  match find_entry (in_state KActive) l with
  | Some e => e ∈ l /\ ke_state e = KActive /\ forall x, x ∈ l -> ke_state x = KActive -> x = e
  | None => forall x, x ∈ l -> ke_state x <> KActive
  end.
Proof.
  unfold find_entry.
  induction l as [|x l IH]; simpl; [intros _ x Hx; by apply elem_of_nil in Hx|].
  rewrite actives_cons. destruct (in_state KActive x) eqn:E.
  - intros Hle. split_and!; [left|by apply in_state_true|].
    intros y [->|Hy]%elem_of_cons Hs; [done|].
    exfalso. assert (actives l = 0%nat) as Hz by lia. by apply (proj1 (actives_zero l) Hz y).
  - intros Hle. specialize (IH ltac:(lia)).
    assert (Hx : ke_state x <> KActive) by (intros Hs%in_state_true; congruence).
    destruct (List.find (in_state KActive) l) as [e|].
    + destruct IH as (Hin & Hs & Hu). split_and!; [by right|done|].
      intros y [->|Hy]%elem_of_cons Hys; [done|by apply Hu].
    + intros y [->|Hy]%elem_of_cons; [done|by apply IH].
Qed.

(** The trust decision is exact and chronological: in a well-formed keyring
    a key is usable for a principal at a canonical instant exactly when it is
    the key of that principal's active entry and the entry has no expiry or the
    instant, read as a date and time, lies before it; at a non-canonical
    instant nothing is usable. *)
Theorem active_key_iff k p now key :
  keyring_ok k ->
  active_key k p now = LkActive key <->
  is_canonical_utc now = true /\ exists e, e ∈ entries k p /\ ke_state e = KActive /\
    ke_key e = key /\
    forall vu, ke_valid_until e = Some vu -> (utc_number 0 now < utc_number 0 vu)%N.
Proof.
  intros [Hne Hok]%keyring_ok_split. specialize (Hok p). unfold active_key.
  destruct (is_canonical_utc now) eqn:En; simpl; [|by split; [|intros [? _]]].
  unfold entries in *. destruct (k !! p) as [l|] eqn:El; simpl in *.
  2:{ split; [done|]. intros [_ (e & He & _)]. by apply elem_of_nil in He. }
  destruct l as [|x l]; [by apply Hne in El|]. destruct Hok as [Hle Hcan].
  pose proof (find_active (x :: l) Hle) as Hf.
  destruct (find_entry (in_state KActive) (x :: l)) as [e|].
  - destruct Hf as (Hin & Hs & Hu).
    assert (Hdec : forall vu, ke_valid_until e = Some vu ->
      String.leb vu now = (utc_number 0 vu <=? utc_number 0 now)%N).
    { intros vu Hvu. apply canonical_leb; [|done]. rewrite Forall_forall in Hcan.
      specialize (Hcan e Hin (ke_valid_until e) ltac:(left)). by rewrite Hvu in Hcan. }
    destruct (ke_valid_until e) as [vu|] eqn:Ev.
    + rewrite (Hdec vu eq_refl). destruct (_ <=? _)%N eqn:Ec.
      * split; [done|]. intros [_ (y & Hy & Hys & _ & Hlt)]. apply Hu in Hy; [|done]. subst y.
        specialize (Hlt vu Ev). apply N.leb_le in Ec. lia.
      * apply N.leb_gt in Ec. split.
        -- intros [= <-]. split; [done|]. exists e. split_and!; try done.
           intros vu' Hvu'. rewrite Ev in Hvu'. by injection Hvu' as <-.
        -- intros [_ (y & Hy & Hys & <- & _)]. apply Hu in Hy; [|done]. by subst y.
    + split.
      * intros [= <-]. split; [done|]. exists e. split_and!; try done. intros vu Hvu. congruence.
      * intros [_ (y & Hy & Hys & <- & _)]. apply Hu in Hy; [|done]. by subst y.
  - split; [by repeat case_match|]. intros [_ (y & Hy & Hys & _)]. by apply Hf in Hy.
Qed.

(** ** Revocation *)

(** The key is a revoked entry and no active one. *)
Definition dead (key : bytes) (l : list KeyEntry) : Prop :=
  (exists e, e ∈ l /\ ke_state e = KRevoked /\ as_bytes (ke_key e) = key) /\
  (forall e, e ∈ l -> ke_state e = KActive -> as_bytes (ke_key e) <> key).

Lemma has_revoked_false l e key :
  e ∈ l -> ke_state e = KRevoked -> has_revoked l key = false -> as_bytes (ke_key e) <> as_bytes key.
Proof.
  intros Hin Hs H. apply iter_any_false with (x := e) in H; [|done].
  apply andb_false_iff in H as [H|H]; [apply in_state_true in Hs; congruence|].
  by apply bool_decide_eq_false in H.
Qed.

Lemma change_dead key l l' : change l l' -> dead key l -> dead key l'.
Proof.
  intros Hch [(r & Hr & Hrs & Hrk) Hact].
  destruct Hch as [l|l e Ha Hs Hc Hrev|l1 old l2 e now Ha Ho Hn Hs Hc Hrev|l1 old l2 Ho|l1 old l2 now Ho Hn].
  - split; [by exists r|done].
  - pose proof (has_revoked_false _ _ _ Hr Hrs Hrev) as Hne. split.
    + exists r. split; [apply elem_of_app; by left|done].
    + intros x [Hx|Hx%list_elem_of_singleton]%elem_of_app Hxs; [by apply Hact|congruence].
  - pose proof (has_revoked_false _ _ _ Hr Hrs Hrev) as Hne. split.
    + exists r. split_and!; try done. rewrite !elem_of_app, elem_of_cons in *.
      destruct Hr as [?|[->|?]]; [tauto|congruence|tauto].
    + intros x Hx Hxs. rewrite !elem_of_app, elem_of_cons, list_elem_of_singleton in Hx.
      destruct Hx as [[Hx|[->|Hx]]| ->]; [|done| |congruence];
        apply Hact; try done; rewrite elem_of_app, elem_of_cons; tauto.
  - split.
    + exists r. split_and!; try done. rewrite elem_of_app, elem_of_cons in *.
      destruct Hr as [?|[->|?]]; [tauto|congruence|tauto].
    + intros x Hx. apply Hact. rewrite elem_of_app, elem_of_cons in *. tauto.
  - split.
    + exists r. split_and!; try done. rewrite elem_of_app, elem_of_cons in *.
      destruct Hr as [?|[->|?]]; [tauto|congruence|tauto].
    + intros x Hx Hxs. rewrite elem_of_app, elem_of_cons in Hx.
      destruct Hx as [Hx|[->|Hx]]; [|done|]; apply Hact; try done;
        rewrite elem_of_app, elem_of_cons; tauto.
Qed.

Lemma keyring_run_dead key k ops p : dead key (entries k p) -> dead key (entries (keyring_run k ops) p).
Proof.
  revert k. induction ops as [|op ops IH]; intros k Hk; [done|]. apply IH.
  eapply change_dead; [apply keyring_apply_change|done].
Qed.

Lemma dead_not_active k p now key :
  dead (as_bytes key) (entries k p) -> active_key k p now <> LkActive key.
Proof.
  intros [_ Hact]. unfold active_key, entries in *.
  destruct (is_canonical_utc now); [|done]. simpl. destruct (k !! p) as [l|]; [|done]. simpl in Hact.
  destruct l as [|x l]; [done|].
  destruct (find_entry (in_state KActive) (x :: l)) as [e|] eqn:Ef; [|by repeat case_match].
  apply find_entry_some in Ef as [Hin Hs]. apply in_state_true in Hs.
  specialize (Hact e Hin Hs). repeat case_match; congruence.
Qed.

(** The keys of one principal are pairwise different. *)
Definition distinct_keys (l : list KeyEntry) : Prop := NoDup (map (fun e => as_bytes (ke_key e)) l).

Lemma revoke_kills k p id now k' :
  distinct_keys (entries k p) -> revoke k p id now = (k', Ok tt) ->
  exists key, key_id key = id /\ dead (as_bytes key) (entries k' p).
Proof.
  intros Hd. unfold revoke. destruct (is_canonical_utc now); [|done]. simpl.
  destruct (k !! p) as [l|] eqn:El; [|done].
  assert (entries k p = l) as He by (unfold entries; by rewrite El). rewrite He in Hd.
  destruct (position (has_key_id id) l) as [[i old]|] eqn:Ep; [|done].
  apply position_split in Ep as (l1 & l2 & -> & -> & Hid & _). apply String.eqb_eq in Hid.
  assert (Hother : forall e, e ∈ l1 ++ l2 -> as_bytes (ke_key e) <> as_bytes (ke_key old)).
  { intros e Hin E. unfold distinct_keys in Hd. rewrite map_app in Hd. simpl in Hd.
    apply NoDup_app in Hd as (_ & H1 & H2). apply NoDup_cons in H2 as [H2 _].
    apply elem_of_app in Hin as [Hin|Hin].
    - apply (H1 (as_bytes (ke_key e))); [apply list_elem_of_In, in_map_iff; exists e; by rewrite <- list_elem_of_In|].
      rewrite E. left.
    - apply H2. rewrite <- E. apply list_elem_of_In, in_map_iff. exists e. by rewrite <- list_elem_of_In. }
  destruct (in_state KRevoked old) eqn:Es; intros [= <-]; exists (ke_key old); (split; [done|]).
  - apply in_state_true in Es. rewrite He. split.
    + exists old. split_and!; try done. apply elem_of_app. right. left.
    + intros e Hin Hs. rewrite elem_of_app, elem_of_cons in Hin.
      destruct Hin as [Hin|[->|Hin]]; [|congruence|]; apply Hother, elem_of_app; auto.
  - rewrite entries_insert, decide_True, insert_at_split by done. split.
    + exists (restate KRevoked now old). split_and!; try done. apply elem_of_app. right. left.
    + intros e Hin Hs. rewrite elem_of_app, elem_of_cons in Hin.
      destruct Hin as [Hin|[->|Hin]]; [|done|]; apply Hother, elem_of_app; auto.
Qed.

(** Revocation is final: when no principal's list holds a key twice, a
    successful local revocation makes the named key unusable for that principal
    at every instant, and no later sequence of pins, rotations, retirements and
    revocations can make it usable again. *)
Theorem revocation_is_final k p id now k' :
  distinct_keys (entries k p) -> revoke k p id now = (k', Ok tt) ->
  exists key, key_id key = id /\
    forall ops t key', as_bytes key' = as_bytes key ->
      active_key (keyring_run k' ops) p t <> LkActive key'.
Proof.
  intros Hd Hr. destruct (revoke_kills k p id now k' Hd Hr) as (key & Hid & Hdead).
  exists key. split; [done|]. intros ops t key' Heq. apply dead_not_active. rewrite Heq.
  by apply keyring_run_dead.
Qed.

(** A signed revocation is applied only on an authorized signature, and then
    it is exactly the local revocation at the signer's instant: the statement
    names a parseable principal with an entry of the named key id, and a key of
    that principal that is not revoked, and is active or the named one itself,
    signed exactly that statement. *)
Theorem signed_revocation_is_authorized k signed now k' :
  apply_signed_revocation k signed now = (k', Ok tt) ->
  let s := sr_statement signed in
  exists p signer sig,
    Principal_from_str (rs_principal s) = Ok p /\
    revoke k p (rs_revoked_key_id s) (rs_revoked_at s) = (k', Ok tt) /\
    signer ∈ entries k p /\ ke_state signer <> KRevoked /\
    (ke_state signer = KActive \/ key_id (ke_key signer) = rs_revoked_key_id s) /\
    sig_from_b64url (sr_sig signed) = Ok sig /\
    vouches (ke_key signer) (statement_to_value s) sig.
Proof.
  unfold apply_signed_revocation.
  destruct (is_canonical_utc now); [|done]. simpl.
  destruct (is_canonical_utc (rs_revoked_at (sr_statement signed))) eqn:Er; [|done]. simpl.
  destruct (Principal_from_str _) as [p|e]; [|done].
  destruct (length (entries k p) =? 0)%nat; [done|].
  destruct (iter_any (has_key_id _) (entries k p)); [|done]. simpl.
  destruct (length (authorized_signer_for k p _) =? 0)%nat; [done|].
  destruct (sig_from_b64url (sr_sig signed)) as [sig|e]; [|done].
  destruct (iter_any _ (authorized_signer_for k p _)) eqn:Ev; [|done]. simpl.
  intros Hrev. apply iter_any_true in Ev as (vk & Hin & Hv).
  apply verify_value_vouches in Hv. unfold authorized_signer_for in Hin.
  apply list_elem_of_In, in_map_iff in Hin as (e & <- & Hin).
  apply filter_In in Hin as [Hin Hc]. apply andb_true_iff in Hc as [Hnr Hc].
  exists p, e, sig. split_and!; try done.
  - by apply list_elem_of_In.
  - apply negb_true_iff in Hnr. intros Hs. apply in_state_true in Hs. congruence.
  - apply orb_true_iff in Hc as [Hc|Hc]; [left; by apply in_state_true|right; by apply String.eqb_eq].
Qed.

(** A confirmed rotation does what it says: the previous active entry is
    kept, key and window unchanged, as retired at [now], the new key is appended
    as the active entry with its own window, nothing else in the keyring moves,
    and from then on, until the window closes, the new key is the usable one. *)
Theorem rotation_retires_and_pins k p key now vu confirmed k' prev new :
  keyring_ok k -> rotate_to k p key now vu confirmed = (k', Ok (RtRotated prev new)) ->
  confirmed = true /\ new = key_id key /\
  (exists l1 old l2, entries k p = l1 ++ old :: l2 /\ ke_state old = KActive /\
     prev = key_id (ke_key old) /\ as_bytes (ke_key old) <> as_bytes key /\
     entries k' p = (l1 ++ restate KRetired now old :: l2) ++ [mkEntry key KActive vu (Some now) None]) /\
  (forall q, q <> p -> entries k' q = entries k q) /\
  forall t, is_canonical_utc t = true ->
    match vu with Some v => String.leb v t = false | None => True end ->
    active_key k' p t = LkActive key.
Proof.
  intros Hok Hrot. pose proof (proj2 (proj1 (keyring_ok_split k) Hok) p) as [Hle _].
  unfold rotate_to in Hrot. destruct (is_canonical_utc now); [|done].
  destruct (noncanonical vu); [done|]. simpl in Hrot.
  destruct (has_revoked (entries k p) key); [done|].
  destruct (position (in_state KActive) (entries k p)) as [[i old]|] eqn:Ep; [|done].
  destruct (bool_decide _) eqn:Eb; [done|]. destruct confirmed; [|done]. simpl in Hrot.
  injection Hrot as <- <- <-. apply bool_decide_eq_false in Eb.
  apply position_split in Ep as (l1 & l2 & El & -> & Ho & Hl). apply in_state_true in Ho.
  rewrite El in *. rewrite insert_at_split. split_and!; [done|done| | |].
  - exists l1, old, l2. split_and!; try done. by rewrite entries_insert, decide_True.
  - intros q Hq. by rewrite entries_insert, decide_False.
  - intros t Ht Hvu. unfold active_key. rewrite Ht, lookup_insert_eq. simpl.
    assert (Hfind : find_entry (in_state KActive)
      ((l1 ++ mkEntry (ke_key old) KRetired (ke_valid_until old) (ke_pinned_at old) (Some now) :: l2) ++
       [mkEntry key KActive vu (Some now) None]) = Some (mkEntry key KActive vu (Some now) None)).
    { assert (Hno : forall x, x ∈ l1 ++ l2 -> in_state KActive x = false).
      { intros x Hx. rewrite actives_app, actives_cons, (proj2 (in_state_true _ _) Ho) in Hle.
        assert (actives (l1 ++ l2) = 0%nat) as Hz by (rewrite actives_app; lia).
        apply in_state_other. by apply (proj1 (actives_zero _) Hz). }
      assert (Hskip : forall l r, (forall x, x ∈ l -> in_state KActive x = false) ->
        find_entry (in_state KActive) (l ++ r) = find_entry (in_state KActive) r).
      { induction l as [|x l IH]; intros r Hx; [done|]. unfold find_entry in *. simpl.
        rewrite (Hx x) by left. apply IH. intros y Hy. apply Hx. by right. }
      rewrite <- (assoc_L (++)), Hskip by (intros x Hx; apply Hno, elem_of_app; auto).
      simpl. change (?a :: l2 ++ ?b) with ([a] ++ l2 ++ b).
      rewrite (Hskip l2) by (intros x Hx; apply Hno, elem_of_app; auto). done. }
    rewrite Hfind. simpl.
    destruct ((l1 ++ _ :: l2) ++ _) eqn:Enil; [by destruct l1|].
    destruct vu as [v|]; [by rewrite Hvu|done].
Qed.
End keyring.
