(* ===== verification/KeyringFile.v ===== *)
(** * The keyring file

    Saving and loading are inverse on storable keyrings, and the one way the
    operations leave that class. *)

From Stdlib Require Import Strings.Byte Ascii.
From stdpp Require Import gmap strings list pretty.
From S2P Require Import Prelude Json Proto WireInstance Principal Crypto Keyring KeyringProps.

(** ** Fields *)

(** Printable ASCII other than the space and the comment character. *)
Definition plain (c : ascii) : bool :=
  (33 <=? N_of_ascii c)%N && (N_of_ascii c <=? 126)%N && negb (N_of_ascii c =? 35)%N.
Definition field (s : string) : Prop := s <> EmptyString /\ string_forall plain s = true.

Lemma plain_ws c s : plain c = true -> ws_len (String c s) = 0%nat.
Proof.
  unfold plain. intros H. simpl. set (n := N_of_ascii c) in *.
  replace ((9 <=? n) && (n <=? 13) || (n =? 32))%N with false by lia.
  destruct s as [|b s]; [done|].
  replace ((n =? 194) && ((N_of_ascii b =? 133) || (N_of_ascii b =? 160)))%N with false by lia.
  destruct s as [|d s]; [done|].
  replace (n =? 225)%N with false by lia. replace (n =? 226)%N with false by lia.
  replace (n =? 227)%N with false by lia. done.
Qed.


Lemma split_ws_field f cur s :
  string_forall plain f = true -> split_ws 0 cur (f +:+ s) = split_ws 0 (cur +:+ f) s.
Proof.
  revert cur. induction f as [|c f IH]; intros cur; [by rewrite str_app_nil|].
  intros [Hc Hf]%andb_true_iff. change (String c f +:+ s) with (String c (f +:+ s)).
  cbn [split_ws]. rewrite (plain_ws c (f +:+ s) Hc), IH by done. by rewrite str_app_assoc.
Qed.

Fixpoint joined (fs : list string) : string :=
  match fs with
  | [] => EmptyString
  | [f] => f
  | f :: fs => f +:+ "  " +:+ joined fs
  end.

Lemma split_whitespace_join fs : Forall field fs -> split_whitespace (joined fs) = fs.
Proof.
  unfold split_whitespace. induction 1 as [|f fs [Hne Hp] Hfs IH]; [done|].
  assert (Hflush : forall l, flush f l = f :: l).
  { intros l. unfold flush. by rewrite (proj2 (String.eqb_neq f EmptyString) Hne). }
  destruct fs as [|g fs].
  - simpl joined. rewrite <- (str_app_nil f) at 1. rewrite split_ws_field by done. simpl. apply Hflush.
  - change (joined (f :: g :: fs)) with (f +:+ "  " +:+ joined (g :: fs)).
    rewrite split_ws_field by done. simpl. rewrite Hflush. f_equal. apply IH.
Qed.

Lemma entry_line_join `{CL : CryptoLib} p e :
  entry_line p e = joined (if is_legacy_shaped e then [Principal_display p; vk_to_b64url (ke_key e)]
    else [Principal_display p; vk_to_b64url (ke_key e); as_token (ke_state e);
          unwrap_or (ke_valid_until e) ABSENT; unwrap_or (ke_pinned_at e) ABSENT;
          unwrap_or (ke_state_since e) ABSENT]).
Proof. unfold entry_line. by destruct (is_legacy_shaped e). Qed.

(** ** What can be stored *)
Section file.
Context `{CL : CryptoLib} `{CLW : !CryptoLaws}.

Definition entry_storable (e : KeyEntry) : Prop :=
  length (as_bytes (ke_key e)) = 32%nat /\ vk_from_bytes (as_bytes (ke_key e)) = Ok (ke_key e) /\
  entry_canonical e.

Lemma plain_field_forall (q : ascii -> bool) s :
  (forall c, q c = true -> plain c = true) -> string_forall q s = true -> string_forall plain s = true.
Proof. apply string_forall_impl. Qed.

Lemma matches_forall ps s :
  Forall (fun p => forall c, p c = true -> plain c = true) ps -> matches ps s = true ->
  string_forall plain s = true.
Proof.
  intros H. revert s. induction H as [|p ps Hp _ IH]; intros [|c s]; simpl; try done.
  rewrite !andb_true_iff. intros [Hc Hs]. split; [by apply Hp|by apply IH].
Qed.

Lemma canonical_field s : is_canonical_utc s = true -> field s.
Proof.
  intros H. split.
  - by destruct s.
  - apply (matches_forall canonical_utc_shape); [|done].
    unfold canonical_utc_shape. cbn zeta.
    repeat (constructor; [intros c Hc; first [by apply Ascii.eqb_eq in Hc as -> |
      unfold is_digit, ascii_between in Hc; simpl in Hc; unfold plain; lia]|]).
    constructor.
Qed.

Lemma ts_field v :
  match v with Some s => is_canonical_utc s = true | None => True end -> field (unwrap_or v ABSENT).
Proof. destruct v; simpl; [apply canonical_field|by split]. Qed.

Lemma b64_field b : b <> [] -> field (b64url_encode b).
Proof.
  intros Hb. split; [by apply b64url_nonempty|].
  assert (H : forall c, In c (String.list_ascii_of_string (b64url_encode b)) -> plain c = true).
  { intros c Hc. apply b64url_alphabet in Hc. unfold b64url_char in Hc. unfold plain. lia. }
  revert H. generalize (b64url_encode b) as s. induction s as [|c s IH]; simpl; [done|].
  intros H. rewrite (H c) by auto. simpl. apply IH. auto.
Qed.

Lemma name_char_plain c : name_char c = true -> plain c = true.
Proof.
  unfold name_char, is_alphanumeric, is_digit, is_lower, is_upper, ascii_between, plain. simpl.
  rewrite !orb_true_iff, !Ascii.eqb_eq.
  intros [[[[[H|H]|H]| ->]| ->]| ->]; try done; lia.
Qed.

Lemma split_char_forall (q : ascii -> bool) d s :
  q d = true -> Forall (fun l => string_forall q l = true) (split_char d s) -> string_forall q s = true.
Proof.
  intros Hd. induction s as [|x s IH]; simpl; [done|].
  destruct (Ascii.eqb_spec x d) as [->|Hx].
  - intros [_ Hs]%Forall_cons. rewrite Hd. by apply IH.
  - destruct (split_char d s) as [|l ls] eqn:Es.
    + intros [Hl _]%Forall_cons. destruct s as [|y s]; [done|]. exfalso. simpl in Es.
      repeat case_match; discriminate Es.
    + intros [Hl Hls]%Forall_cons. simpl in Hl. apply andb_true_iff in Hl as [-> Hl]. simpl.
      apply IH. by constructor.
Qed.

Lemma authority_plain s : validate_authority s = Ok tt -> string_forall plain s = true.
Proof.
  unfold validate_authority. intros H. repeat case_match; try done.
  apply (split_char_forall _ "."%char); [done|].
  match goal with H : validate_labels ?l = Ok _ |- Forall _ ?l' => revert H; generalize l as ls end.
  intros ls Hls. induction ls as [|l ls IH]; [constructor|]. simpl in Hls.
  destruct (validate_label l) as [[]|] eqn:El; [|done]. constructor; [|by apply IH].
  unfold validate_label in El. repeat case_match; try done.
  match goal with H : negb (string_forall _ l) = false |- _ => apply negb_false_iff in H; revert H end.
  apply string_forall_impl. intros c Hc. apply name_char_plain. unfold name_char.
  apply orb_true_iff in Hc as [-> | ->]; [done|]. by rewrite orb_true_r.
Qed.

Lemma name_plain s : validate_name_or_instance_id s = Ok tt -> string_forall plain s = true.
Proof.
  unfold validate_name_or_instance_id. intros H. repeat case_match; try done.
  match goal with H : negb (string_forall name_char s) = false |- _ =>
    apply negb_false_iff in H; revert H end.
  apply string_forall_impl, name_char_plain.
Qed.

Lemma principal_field p : principal_ok p -> field (Principal_display p).
Proof.
  intros [Ha Hn]. split; [done|]. unfold Principal_display.
  rewrite !string_forall_app, (authority_plain _ Ha), (name_plain _ Hn). done.
Qed.

Lemma fields_of_entry p e :
  principal_ok p -> entry_storable e ->
  Forall field (if is_legacy_shaped e then [Principal_display p; vk_to_b64url (ke_key e)]
    else [Principal_display p; vk_to_b64url (ke_key e); as_token (ke_state e);
          unwrap_or (ke_valid_until e) ABSENT; unwrap_or (ke_pinned_at e) ABSENT;
          unwrap_or (ke_state_since e) ABSENT]).
Proof.
  intros Hp (Hl & _ & Hc). assert (as_bytes (ke_key e) <> []) as Hk by (intros E; by rewrite E in Hl).
  pose proof (principal_field p Hp). pose proof (b64_field _ Hk) as Hb.
  case_match; repeat (constructor; try done).
  - by destruct (ke_state e).
  - by destruct (ke_state e).
  - apply (ts_field (ke_valid_until e)), Hc. left.
  - apply (ts_field (ke_valid_until e)), Hc. left.
  - apply (ts_field (ke_pinned_at e)), Hc. right. left.
  - apply (ts_field (ke_pinned_at e)), Hc. right. left.
  - apply (ts_field (ke_state_since e)), Hc. right. right. left.
  - apply (ts_field (ke_state_since e)), Hc. right. right. left.
Qed.

Lemma parse_ts_roundtrip n f v :
  match v with Some s => is_canonical_utc s = true | None => True end ->
  parse_ts n f (unwrap_or v ABSENT) = Ok v.
Proof.
  destruct v as [s|]; [|done]. simpl. intros H. unfold parse_ts.
  destruct (String.eqb_spec s ABSENT) as [->|]; [done|]. by rewrite H.
Qed.

(** A line of the file is made of printable characters, so no line ends in a
    carriage return or contains a newline, and reads back as the entry. *)
Lemma field_app a b : field a -> string_forall (fun c => plain c || Ascii.eqb c " ") b = true ->
  string_forall (fun c => plain c || Ascii.eqb c " ") (a +:+ b) = true.
Proof.
  intros [_ Ha] Hb. rewrite string_forall_app, Hb, andb_true_r.
  revert Ha. apply string_forall_impl. by intros c ->.
Qed.

Lemma join_printable fs :
  Forall field fs -> string_forall (fun c => plain c || Ascii.eqb c " ") (joined fs) = true.
Proof.
  induction 1 as [|f fs Hf Hfs IH]; [done|]. destruct fs as [|g fs].
  - simpl. rewrite <- (str_app_nil f). by apply field_app.
  - change (joined (f :: g :: fs)) with (f +:+ ("  " +:+ joined (g :: fs))). by apply field_app.
Qed.

Lemma printable_no x s :
  plain x = false -> x <> " "%char ->
  string_forall (fun c => plain c || Ascii.eqb c " ") s = true -> contains x s = false.
Proof.
  intros Hx Hsp Hs. apply contains_false. revert Hs. apply string_forall_impl.
  intros c Hc. apply negb_true_iff, Ascii.eqb_neq. intros ->.
  rewrite Hx in Hc. by apply Ascii.eqb_eq in Hc.
Qed.

Lemma strip_cr_no s : contains CR s = false -> strip_cr s = s.
Proof.
  intros H%contains_false. induction s as [|c s IH]; [done|]. simpl in H.
  apply andb_true_iff in H as [Hc Hs]. apply negb_true_iff in Hc.
  destruct s as [|d s]; simpl; [by rewrite Hc|]. f_equal. by apply IH.
Qed.

Lemma entry_line_printable p e :
  principal_ok p -> entry_storable e ->
  string_forall (fun c => plain c || Ascii.eqb c " ") (entry_line p e) = true.
Proof. intros Hp He. rewrite entry_line_join. by apply join_printable, fields_of_entry. Qed.

Lemma legacy_shape e : is_legacy_shaped e = true -> e = legacy (ke_key e).
Proof.
  unfold is_legacy_shaped, legacy, is_none. rewrite !andb_true_iff, bool_decide_eq_true.
  destruct e as [k s [] [] []]; simpl; intros [[[-> ?] ?] ?]; done.
Qed.

Lemma parse_entry_line n p e :
  principal_ok p -> entry_storable e -> parse_line (entry_line p e) n = Ok (p, e).
Proof.
  intros Hp He. pose proof (entry_line_printable p e Hp He) as Hpr.
  unfold parse_line. rewrite strip_cr_no by (by apply printable_no).
  rewrite (printable_no "#"%char) by done.
  rewrite entry_line_join, split_whitespace_join by (by apply fields_of_entry).
  destruct He as (Hl & Hv & Hc).
  assert (Hhead : Principal_from_str (Principal_display p) = Ok p) by (by apply Principal_from_str_display).
  assert (Hkey : vk_from_b64url (vk_to_b64url (ke_key e)) = Ok (ke_key e)) by (by apply vk_b64url_roundtrip).
  destruct (is_legacy_shaped e) eqn:El; rewrite Hhead, Hkey; simpl.
  - by rewrite <- legacy_shape.
  - assert (from_token (as_token (ke_state e)) = Some (ke_state e)) as -> by (by destruct (ke_state e)).
    rewrite (parse_ts_roundtrip n _ (ke_valid_until e)) by (apply Hc; left).
    rewrite (parse_ts_roundtrip n _ (ke_pinned_at e)) by (apply Hc; right; left).
    rewrite (parse_ts_roundtrip n _ (ke_state_since e)) by (apply Hc; right; right; left).
    by destruct e.
Qed.

(** ** Lines *)
Definition unlines (ls : list string) : string :=
  foldr (fun l t => l +:+ String LF EmptyString +:+ t) EmptyString ls.

Lemma split_char_line l t : contains LF l = false -> split_char LF (l +:+ String LF t) = l :: split_char LF t.
Proof.
  intros H%contains_false. induction l as [|c l IH]; [done|]. simpl in H.
  apply andb_true_iff in H as [Hc Hl]. apply negb_true_iff in Hc.
  change (String c l +:+ String LF t) with (String c (l +:+ String LF t)). cbn [split_char].
  by rewrite Hc, (IH Hl).
Qed.

Lemma file_lines_unlines ls :
  Forall (fun l => contains LF l = false /\ contains CR l = false) ls -> file_lines (unlines ls) = ls.
Proof.
  intros H. assert (Hs : split_char LF (unlines ls) = ls ++ [EmptyString]).
  { induction H as [|l ls [Hl _] _ IH]; [done|].
    change (unlines (l :: ls)) with (l +:+ String LF (unlines ls)).
    by rewrite split_char_line, IH. }
  unfold file_lines. rewrite Hs, removelast_last, List.last_last. simpl. rewrite app_nil_r.
  rewrite <- (map_id ls) at 2. apply map_ext_in. intros l Hl%list_elem_of_In.
  rewrite Forall_forall in H. by apply strip_cr_no, H.
Qed.

(** ** Loading what was saved *)
Definition flat (k : Keyring) : list (Principal * KeyEntry) :=
  sort_by principal_key (map_to_list k) ≫= fun pl => map (pair pl.1) (sort_by entry_key pl.2).

Lemma insert_by_perm {A} (key : A -> string) x l : insert_by key x l ≡ₚ x :: l.
Proof.
  induction l as [|y l IH]; [done|]. simpl. case_match; [done|]. rewrite IH. apply Permutation_swap.
Qed.
Lemma sort_by_perm {A} (key : A -> string) l : sort_by key l ≡ₚ l.
Proof. induction l as [|x l IH]; [done|]. simpl. by rewrite insert_by_perm, IH. Qed.

Lemma serialize_fold p l t :
  foldr (fun e text => serialize_entry p e +:+ text) t l =
  foldr (fun l t => l +:+ String LF EmptyString +:+ t) t (map (entry_line p) l).
Proof.
  induction l as [|e l IH]; [done|]. simpl. rewrite IH. unfold serialize_entry. by rewrite str_app_assoc.
Qed.

Lemma save_to_file_lines k : save_to_file k = unlines (map (fun pe => entry_line pe.1 pe.2) (flat k)).
Proof.
  unfold save_to_file, flat, unlines. generalize (sort_by principal_key (map_to_list k)) as L.
  induction L as [|[p l] L IH]; [done|]. simpl. rewrite IH, serialize_fold, map_app, foldr_app.
  do 2 f_equal. by rewrite map_map.
Qed.

Definition add (k : Keyring) (pe : Principal * KeyEntry) : Keyring :=
  <[pe.1 := entries k pe.1 ++ [pe.2]]> k.
Definition of_principal (p : Principal) (L : list (Principal * KeyEntry)) : list KeyEntry :=
  omap (fun pe : Principal * KeyEntry => if decide (pe.1 = p) then Some pe.2 else None) L.

Lemma load_lines_flat L n k seen :
  (forall p e, (p, e) ∈ L -> principal_ok p /\ entry_storable e) ->
  (forall p, (actives (entries k p ++ of_principal p L) <= 1)%nat) ->
  NoDup (map (fun pe => as_bytes (ke_key pe.2)) L) ->
  (forall p e b q, (p, e) ∈ L -> (b, q) ∈ seen -> b <> as_bytes (ke_key e)) ->
  load_lines n (map (fun pe => entry_line pe.1 pe.2) L) k seen = Ok (foldl add k L).
Proof.
  revert n k seen. induction L as [|[p e] L IH]; intros n k seen Hok Hact Hnd Hseen; [done|].
  destruct (Hok p e ltac:(left)) as [Hp He]. cbn [map load_lines fst snd].
  assert (Htrim : String.eqb (trim_start (entry_line p e)) EmptyString ||
    String.prefix "#" (trim_start (entry_line p e)) = false).
  { unfold entry_line, Principal_display. by destruct (is_legacy_shaped e). }
  rewrite Htrim, (parse_entry_line n p e Hp He).
  assert (Ha : in_state KActive e && iter_any (in_state KActive) (entries k p) = false).
  { destruct (in_state KActive e) eqn:Es; [|done]. simpl. apply iter_any_false. intros x Hx.
    apply in_state_other. specialize (Hact p). unfold of_principal in Hact. simpl in Hact.
    rewrite decide_True in Hact by done. rewrite actives_app, actives_cons, Es in Hact.
    apply (proj1 (actives_zero (entries k p))); [lia|done]. }
  rewrite Ha.
  assert (find_map (fun '(b, q) => if bool_decide (b = as_bytes (ke_key e)) then Some q else None)
    seen = None) as ->.
  { apply find_map_None. intros [b q] Hin. rewrite bool_decide_eq_false_2; [done|].
    apply (Hseen p e b q); [left|done]. }
  apply NoDup_cons in Hnd as [Hnin Hnd]. apply IH.
  - intros q f Hin. apply Hok. by right.
  - intros q. specialize (Hact q). unfold of_principal in *. simpl in Hact. rewrite entries_insert.
    destruct (decide (p = q)) as [<-|Hne]; [by rewrite <- (assoc_L (++))|done].
  - done.
  - intros q f b r Hin [[= -> ->]|Hs]%elem_of_cons.
    + intros Heq. apply Hnin. simpl. rewrite Heq. apply list_elem_of_In, in_map_iff. exists (q, f).
      split; [done|]. by apply list_elem_of_In.
    + apply (Hseen q f b r); [by right|done].
Qed.

Lemma foldl_add_lookup L k p :
  no_empty k ->
  foldl add k L !! p =
    match entries k p ++ of_principal p L with [] => None | l => Some l end.
Proof.
  revert k. induction L as [|[q e] L IH]; intros k Hk; simpl.
  - rewrite app_nil_r. unfold entries. destruct (k !! p) as [l|] eqn:E; simpl; [|done].
    pose proof (Hk p l E). by destruct l.
  - rewrite IH by (apply no_empty_insert; [done|apply snoc_not_nil]).
    unfold add. simpl. rewrite entries_insert. unfold of_principal. simpl.
    destruct (decide (q = p)) as [<-|Hne]; [by rewrite <- (assoc_L (++))|done].
Qed.

Lemma of_principal_app p L L' : of_principal p (L ++ L') = of_principal p L ++ of_principal p L'.
Proof. apply omap_app. Qed.
Lemma of_principal_cons p pe L :
  of_principal p (pe :: L) = (if decide (pe.1 = p) then [pe.2] else []) ++ of_principal p L.
Proof. unfold of_principal. simpl. by case_decide. Qed.
Lemma of_principal_map p q l :
  of_principal p (map (pair q) l) = if decide (q = p) then l else [].
Proof.
  induction l as [|e l IH]; [by case_decide|]. cbn [map]. rewrite of_principal_cons, IH. simpl.
  by case_decide.
Qed.

Lemma of_principal_groups p (G : list (Principal * list KeyEntry)) :
  NoDup G.*1 ->
  of_principal p (G ≫= fun pl => map (pair pl.1) (sort_by entry_key pl.2)) =
  match list_find (fun pl => pl.1 = p) G with Some (_, (_, l)) => sort_by entry_key l | None => [] end.
Proof.
  induction G as [|[q l] G IH]; [done|]. intros [Hq Hnd]%NoDup_cons.
  cbn [mbind list_bind fst snd]. rewrite of_principal_app, of_principal_map, IH by done. simpl.
  destruct (decide (q = p)) as [->|Hne].
  - assert (list_find (fun pl : Principal * list KeyEntry => pl.1 = p) G = None) as ->.
    { apply list_find_None, Forall_forall. intros [r l'] Hin Heq. simpl in Heq. subst r.
      apply Hq. apply list_elem_of_fmap. by exists (p, l'). }
    by rewrite app_nil_r.
  - simpl. by destruct (list_find _ G) as [[i [r l']]|].
Qed.

Lemma flat_of_principal k p : of_principal p (flat k) = sort_by entry_key (entries k p).
Proof.
  unfold flat. assert (HG : sort_by principal_key (map_to_list k) ≡ₚ map_to_list k) by apply sort_by_perm.
  rewrite of_principal_groups by (rewrite HG; apply NoDup_fst_map_to_list).
  unfold entries. destruct (list_find _ _) as [[i [q l]]|] eqn:Ef.
  - apply list_find_Some in Ef as (Hi & Heq & _). simpl in Heq. subst q.
    apply list_elem_of_lookup_2 in Hi. rewrite HG in Hi. apply elem_of_map_to_list in Hi. by rewrite Hi.
  - apply list_find_None in Ef. destruct (k !! p) as [l|] eqn:E; [|done].
    exfalso. rewrite Forall_forall in Ef. apply (Ef (p, l)); [|done].
    rewrite HG. by apply elem_of_map_to_list.
Qed.

(** A keyring the file can hold: valid principals and keys, canonical
    timestamps, no empty list, at most one active entry each, and no key
    anywhere twice. *)
Record storable (k : Keyring) : Prop := {
  st_ok : keyring_ok k;
  st_entries p e : e ∈ entries k p -> principal_ok p /\ entry_storable e;
  st_distinct p : distinct_keys (entries k p);
  st_apart p q e f : p <> q -> e ∈ entries k p -> f ∈ entries k q ->
    as_bytes (ke_key e) <> as_bytes (ke_key f)
}.

Lemma elem_of_flat k p e : (p, e) ∈ flat k -> e ∈ entries k p.
Proof.
  intros H. rewrite <- (sort_by_perm entry_key (entries k p)), <- flat_of_principal.
  apply list_elem_of_omap. exists (p, e). split; [done|]. simpl. by rewrite decide_True.
Qed.

Lemma flat_keys_NoDup k : storable k -> NoDup (map (fun pe => as_bytes (ke_key pe.2)) (flat k)).
Proof.
  intros [Hok He Hd Ha]. unfold flat.
  assert (HG : sort_by principal_key (map_to_list k) ≡ₚ map_to_list k) by apply sort_by_perm.
  assert (Hnd : NoDup (sort_by principal_key (map_to_list k)).*1)
    by (rewrite HG; apply NoDup_fst_map_to_list).
  assert (Hin : forall p l, (p, l) ∈ sort_by principal_key (map_to_list k) -> entries k p = l).
  { intros p l H. rewrite HG in H. apply elem_of_map_to_list in H. unfold entries. by rewrite H. }
  clear HG. revert Hnd Hin. generalize (sort_by principal_key (map_to_list k)) as G.
  induction G as [|[p l] G IH]; intros Hnd Hin; [constructor|].
  apply NoDup_cons in Hnd as [Hp Hnd]. cbn [mbind list_bind fst snd]. rewrite map_app, map_map.
  apply NoDup_app. split_and!.
  - simpl. specialize (Hd p). rewrite (Hin p l ltac:(left)) in Hd. unfold distinct_keys in Hd.
    assert (map (fun e => as_bytes (ke_key e)) (sort_by entry_key l) ≡ₚ
            map (fun e => as_bytes (ke_key e)) l) as ->; [|done].
    apply Permutation_map, sort_by_perm.
  - intros b Hb1 Hb2. simpl in Hb1.
    apply list_elem_of_In, in_map_iff in Hb1 as (e & <- & He1%list_elem_of_In).
    apply list_elem_of_In, in_map_iff in Hb2 as ([q f] & Hk & Hf%list_elem_of_In). simpl in Hk.
    apply list_elem_of_bind in Hf as ([r l'] & Hf & Hr). simpl in Hf.
    apply list_elem_of_In, in_map_iff in Hf as (f' & [= -> ->] & Hf%list_elem_of_In).
    apply (Ha p q e f); [| | |done].
    + intros ->. apply Hp. apply list_elem_of_fmap. by exists (q, l').
    + rewrite (Hin p l ltac:(left)). by rewrite sort_by_perm in He1.
    + rewrite (Hin q l' ltac:(by right)). by rewrite sort_by_perm in Hf.
  - apply IH; [done|]. intros q l' Hq. apply Hin. by right.
Qed.

Lemma save_load k :
  storable k -> load_from_file (save_to_file k) = Ok (sort_by entry_key <$> k).
Proof.
  intros Hst. pose proof Hst as [Hok He Hd Ha]. unfold load_from_file.
  rewrite save_to_file_lines, file_lines_unlines.
  2:{ apply Forall_forall. intros l Hl. apply list_elem_of_In, in_map_iff in Hl as ([p e] & <- & Hin).
      apply list_elem_of_In, elem_of_flat, He in Hin as [Hp Hs]. simpl.
      split; (apply printable_no; [done|done|by apply entry_line_printable]). }
  assert (Hents : forall p, entries (∅ : Keyring) p = []) by (intros p; unfold entries; by rewrite lookup_empty).
  rewrite load_lines_flat.
  - f_equal. apply map_eq. intros p. rewrite foldl_add_lookup by (intros q l; by rewrite lookup_empty).
    rewrite Hents, flat_of_principal, lookup_fmap. simpl. unfold entries.
    destruct (k !! p) as [l|] eqn:E; simpl; [|done].
    pose proof (proj1 (Hok p l E)) as Hne. pose proof (sort_by_perm entry_key l) as Hp.
    destruct (sort_by entry_key l); [|done]. by apply Permutation_nil_l in Hp.
  - intros p e Hin%elem_of_flat. by apply He in Hin.
  - intros p. rewrite Hents, flat_of_principal. simpl.
    assert (actives (sort_by entry_key (entries k p)) = actives (entries k p)) as ->.
    { unfold actives. assert (Hf : forall l l', l ≡ₚ l' ->
        length (List.filter (in_state KActive) l) = length (List.filter (in_state KActive) l')).
      { induction 1; simpl; repeat case_match; simpl; congruence. }
      apply Hf, sort_by_perm. }
    apply (proj2 (proj1 (keyring_ok_split k) Hok) p).
  - by apply flat_keys_NoDup.
  - intros p e b q _ Hin. by apply elem_of_nil in Hin.
Qed.

(** The file loses nothing: loading what [save_to_file] wrote for a storable
    keyring gives the same principals with the same entries, states, windows and
    dates, each list in the canonical order of its keys. *)
Theorem keyring_file_roundtrip k :
  storable k -> load_from_file (save_to_file k) = Ok (sort_by entry_key <$> k).
Proof. apply save_load. Qed.
End file.

(** ** Concrete keyrings *)
Definition demo_key (b : byte) : TrustedVerifyingKey := mkVerifyingKey (b :: replicate 31 x07).
Definition demo_peer : Principal := mkPrincipal "b.test" "alice".
Definition demo_now (d : string) : string := "2026-08-0" +:+ d +:+ "T00:00:00Z".
Definition demo_keyring : Keyring := {[demo_peer := [legacy (demo_key x01)]]}.
Definition demo_rotated : Keyring :=
  keyring_run demo_keyring [OpRotate demo_peer (demo_key x02) (demo_now "1") None true].

Lemma demo_storable : storable demo_rotated.
Proof.
  assert (E : demo_rotated = {[demo_peer :=
    [mkEntry (demo_key x01) KRetired None None (Some (demo_now "1"));
     mkEntry (demo_key x02) KActive None (Some (demo_now "1")) None]]}).
  { apply (bool_decide_eq_true_1 (_ = _)). vm_compute. reflexivity. }
  rewrite E. assert (Hl : forall p e, e ∈ entries {[demo_peer :=
    [mkEntry (demo_key x01) KRetired None None (Some (demo_now "1"));
     mkEntry (demo_key x02) KActive None (Some (demo_now "1")) None]]} p -> p = demo_peer /\
     (e = mkEntry (demo_key x01) KRetired None None (Some (demo_now "1")) \/
      e = mkEntry (demo_key x02) KActive None (Some (demo_now "1")) None)).
  { intros p e. unfold entries. destruct (decide (demo_peer = p)) as [<-|Hne].
    - rewrite lookup_singleton_eq. simpl. rewrite !elem_of_cons, elem_of_nil. naive_solver.
    - rewrite lookup_singleton_ne by done. simpl. by intros ?%elem_of_nil. }
  split.
  - intros p l [<- <-]%lookup_singleton_Some. split; [done|]. split; [vm_compute; lia|].
    repeat constructor; intros v Hv;
      repeat (apply elem_of_cons in Hv as [->|Hv]; [done|]); by apply elem_of_nil in Hv.
  - intros p e [-> He]%Hl. split; [by vm_compute|].
    destruct He as [-> | ->]; split_and!; try done; intros v Hv;
      repeat (apply elem_of_cons in Hv as [->|Hv]; [done|]); by apply elem_of_nil in Hv.
  - intros p. unfold distinct_keys. unfold entries. destruct (decide (demo_peer = p)) as [<-|Hne].
    + rewrite lookup_singleton_eq. simpl. repeat constructor; [|by intros ?%elem_of_nil].
      intros [H|H]%elem_of_cons; [discriminate|by apply elem_of_nil in H].
    + rewrite lookup_singleton_ne by done. constructor.
  - intros p q e f Hpq [-> _]%Hl [-> _]%Hl. done.
Qed.

Lemma keyring_file_roundtrip_witness :
  load_from_file (save_to_file demo_rotated) = Ok (sort_by entry_key <$> demo_rotated).
Proof. exact (keyring_file_roundtrip demo_rotated demo_storable). Qed.

Lemma keyring_invariant_witness :
  is_ok (load_from_file (save_to_file demo_keyring)) = true /\
  forall k, load_from_file (save_to_file demo_keyring) = Ok k ->
    keyring_ok (keyring_run k [OpRetire demo_peer "x"]).
Proof.
  split; [vm_compute; reflexivity|]. intros k H. exact (keyring_invariant _ _ _ H).
Qed.

Lemma keyring_errors_change_nothing_witness :
  (keyring_apply demo_keyring (OpPin demo_peer (demo_key x02))).1 = demo_keyring.
Proof.
  exact (keyring_errors_change_nothing demo_keyring (OpPin demo_peer (demo_key x02))
    (KKeyConflict demo_peer) eq_refl).
Qed.

Lemma active_key_iff_witness :
  active_key demo_rotated demo_peer (demo_now "2") = LkActive (demo_key x02).
Proof.
  apply (active_key_iff demo_rotated demo_peer (demo_now "2") (demo_key x02));
    [exact (st_ok _ demo_storable)|].
  split; [reflexivity|]. exists (mkEntry (demo_key x02) KActive None (Some (demo_now "1")) None).
  split; [|split; [reflexivity|split; [reflexivity|discriminate]]].
  apply (bool_decide_eq_true_1 (_ ∈ _)). vm_compute. reflexivity.
Qed.

Lemma revocation_is_final_witness :
  exists key, key_id key = key_id (demo_key x02) /\
    forall ops t key', as_bytes key' = as_bytes key ->
      active_key (keyring_run
        (revoke demo_rotated demo_peer (key_id (demo_key x02)) (demo_now "2")).1 ops) demo_peer t
        <> LkActive key'.
Proof.
  apply (revocation_is_final demo_rotated demo_peer _ (demo_now "2")).
  - exact (st_distinct _ demo_storable demo_peer).
  - assert ((revoke demo_rotated demo_peer (key_id (demo_key x02)) (demo_now "2")).2 = Ok tt) as H
      by (vm_compute; reflexivity).
    by destruct (revoke _ _ _ _) as [k' r]; simpl in *; subst r.
Qed.

Definition demo_revocation : SignedRevocation :=
  match statement_sign (mkStatement (Principal_display demo_peer)
      (key_id (verifying_key (mkSigningKey [x05]))) (demo_now "3") None) (mkSigningKey [x05]) with
  | Ok s => s | Err _ => mkSignedRevocation (mkStatement "" "" "" None) "" end.

Lemma signed_revocation_is_authorized_witness :
  exists p signer sig, Principal_from_str (Principal_display demo_peer) = Ok p /\
    sig_from_b64url (sr_sig demo_revocation) = Ok sig /\
    vouches (ke_key signer) (statement_to_value (sr_statement demo_revocation)) sig.
Proof.
  assert ((apply_signed_revocation
    {[demo_peer := [legacy (verifying_key (mkSigningKey [x05]))]]} demo_revocation (demo_now "4")).2 =
    Ok tt) as Hok by (vm_compute; reflexivity).
  destruct (apply_signed_revocation _ _ _) as [k' r] eqn:Hk in Hok. simpl in Hok. subst r.
  destruct (signed_revocation_is_authorized _ _ _ _ Hk) as (p & s & sig & Hp & _ & _ & _ & _ & Hs & Hv).
  exists p, s, sig. exact (conj Hp (conj Hs Hv)).
Qed.

Lemma rotation_retires_and_pins_witness :
  active_key demo_rotated demo_peer (demo_now "2") = LkActive (demo_key x02).
Proof.
  refine (proj2 (proj2 (proj2 (proj2 (rotation_retires_and_pins demo_keyring demo_peer (demo_key x02)
    (demo_now "1") None true demo_rotated _ _ _ eq_refl)))) (demo_now "2") eq_refl I).
  unfold demo_keyring. intros p l [<- <-]%lookup_singleton_Some. split; [discriminate|]. split; [vm_compute; lia|].
  constructor; [|constructor]. intros v Hv.
  repeat (apply elem_of_cons in Hv as [->|Hv]; [exact I|]). by apply elem_of_nil in Hv.
Qed.

(** Finding: rotating back to a retired key corrupts the trust store.
    [rotate_to] refuses revoked keys but accepts a retired one, leaving the key
    twice in the principal's list.  The file then saved no longer loads, so
    every later command and the gateway's start fail; and on the keyring in
    memory, revoking that key succeeds on the retired copy, as often as it is
    asked, while the active copy stays usable. *)
Theorem rotating_back_corrupts_the_keyring :
  let back := rotate_to demo_rotated demo_peer (demo_key x01) (demo_now "2") None true in
  let id := key_id (demo_key x01) in
  let revoked := revoke back.1 demo_peer id (demo_now "3") in
  back.2 = Ok (RtRotated (key_id (demo_key x02)) id) /\
  is_ok (load_from_file (save_to_file demo_rotated)) = true /\
  load_from_file (save_to_file back.1) = Err (KDuplicateKeyEntry demo_peer 3) /\
  revoked.2 = Ok tt /\
  active_key revoked.1 demo_peer (demo_now "4") = LkActive (demo_key x01) /\
  (revoke revoked.1 demo_peer id (demo_now "4")).2 = Ok tt /\
  (revoke revoked.1 demo_peer id (demo_now "4")).1 = revoked.1.
Proof.
  intros back id revoked.
  do 6 (split; [vm_compute; reflexivity|]).
  apply (bool_decide_eq_true_1 (_ = _)). vm_compute. reflexivity.
Qed.

(** The same happens without any rotation: [pin_tofu] does not look at other
    principals, so importing two agents that share one gateway key gives a file
    that no longer loads. *)
Theorem shared_key_breaks_the_keyring_file :
  let pinned := pin_tofu demo_keyring (mkPrincipal "b.test" "bob") (demo_key x01) in
  pinned.2 = Ok tt /\
  load_from_file (save_to_file pinned.1) = Err (KDuplicatePubkey demo_peer 2).
Proof. split; vm_compute; reflexivity. Qed.
