(* ===== verification/Ingress.v ===== *)
(** * The gateway's ingress: wire to local bus

    [crates/famp-gateway/src/{error,registry,principal,verify,ingress}.rs]: the
    inbound handler in its two halves, the cheap gates under the guard lock and
    the verification and delivery after it, against the interface of a local bus
    connection; and that interface implemented by the broker process. *)

From Stdlib Require Import Strings.Byte Ascii.
From stdpp Require Import gmap strings list.
From S2P Require Import Prelude Json Proto WireInstance Crypto Principal Fsm Core Derive Body.
From S2P Require Import Envelope Codec BrokerState Handle Executor Clock NonceTable Guard Keyring.

(** ** Errors: [error.rs] *)
Inductive RejectReason :=
| RejInvalidSignature
| RejUnpinnedKey (p : Principal)
| RejExpiredKey (p : Principal) (valid_until : string)
| RejRevokedKey (p : Principal) (revoked_at : option string).

Inductive GatewayError :=
| GwIo
| GwBrokerUnreachable
| GwHelloFailed (kind : BusErrorKind) (message : string)
| GwRegisterFailed (kind : BusErrorKind) (message : string)
| GwUnexpectedReply (text : string)
| GwDuplicatePrincipal (name : string).

Inductive IngressError :=
| InBadPrincipal
| InInvalidSignature
| InUnpinnedKey (p : Principal)
| InExpiredKey (p : Principal) (valid_until : string)
| InRevokedKey (p : Principal)
| InSenderNotBacked
| InMisaddressedRecipient (to recipient : Principal)
| InForeignDomain (expected got : string)
| InMalformedFederationFields
| InBadEnvelopeShape
| InStaleTimestamp (ts now : string) (skew_secs : Z)
| InReplayedNonce (principal nonce : string)
| InMissingNonce (principal : string)
| InRateLimited (principal : string) (limit window_secs : Z)
| InInternal.

(** [IntoResponse]: status and slug. *)
Definition ingress_status (e : IngressError) : N * string :=
  match e with
  | InBadPrincipal => (400%N, "bad_principal")
  | InInvalidSignature => (400%N, "invalid_signature")
  | InUnpinnedKey _ => (403%N, "unpinned_key")
  | InExpiredKey _ _ => (403%N, "expired_key")
  | InRevokedKey _ => (403%N, "revoked_key")
  | InSenderNotBacked => (502%N, "sender_not_backed")
  | InMisaddressedRecipient _ _ => (400%N, "misaddressed_recipient")
  | InForeignDomain _ _ => (403%N, "foreign_domain")
  | InMalformedFederationFields => (400%N, "malformed_federation_fields")
  | InBadEnvelopeShape => (400%N, "bad_envelope_shape")
  | InStaleTimestamp _ _ _ => (400%N, "stale_timestamp")
  | InReplayedNonce _ _ => (400%N, "replayed_nonce")
  | InMissingNonce _ => (400%N, "missing_nonce")
  | InRateLimited _ _ _ => (429%N, "rate_limited")
  | InInternal => (500%N, "internal")
  end.

Definition ingress_error_for_reject (reason : RejectReason) : IngressError :=
  match reason with
  | RejInvalidSignature => InInvalidSignature
  | RejUnpinnedKey p => InUnpinnedKey p
  | RejExpiredKey p valid_until => InExpiredKey p valid_until
  | RejRevokedKey p _ => InRevokedKey p
  end.

Definition ingress_error_for_guard (reject : GuardReject) : IngressError :=
  match reject with
  | GBadEnvelopeShape => InBadEnvelopeShape
  | GStaleTimestamp ts now skew => InStaleTimestamp ts now skew
  | GReplayedNonce p nonce => InReplayedNonce p nonce
  | GMissingNonce p => InMissingNonce p
  | GForeignDomain expected got => InForeignDomain expected got
  | GSenderNotBacked _ => InSenderNotBacked
  | GRateLimited p limit window => InRateLimited p limit window
  end.

(** ** Verification: [verify.rs] *)

(** [None] is the arm the callers never reach with. *)
Definition reject_for_outcome (from : Principal) (outcome : KeyLookupOutcome) :
    option RejectReason :=
  match outcome with
  | LkActive _ => None
  | LkUnpinned | LkRetired _ => Some (RejUnpinnedKey from)
  | LkExpired valid_until => Some (RejExpiredKey from valid_until)
  | LkRevoked revoked_at => Some (RejRevokedKey from revoked_at)
  | LkNonCanonicalNow => Some (RejUnpinnedKey from)
  end.

Section verify.
Context `{WL : WireLib} `{CL : CryptoLib}.

(** The key the sender's messages must verify under now. *)
Definition usable_key (keyring : Keyring) (from : Principal) (now : string) :
    result TrustedVerifyingKey RejectReason :=
  match active_key keyring from now with
  | LkActive vk => Ok vk
  | outcome => Err (default RejInvalidSignature (reject_for_outcome from outcome))
  end.

Definition verify_inbound (B : Type) `{BodySchema B} (body : bytes) (keyring : Keyring)
    (now : string) : result (SignedEnvelope B) RejectReason :=
  letok from := peek_sender body orelse Err RejInvalidSignature in
  try vk := usable_key keyring from now in
  map_err (fun _ => RejInvalidSignature) (decode B body vk).

Definition verify_inbound_any (body : bytes) (keyring : Keyring) (now : string) :
    result AnySignedEnvelope RejectReason :=
  letok from := peek_sender body orelse Err RejInvalidSignature in
  try vk := usable_key keyring from now in
  map_err (fun _ => RejInvalidSignature) (AnySignedEnvelope_decode body vk).
End verify.

(** ** Reading the verified envelope: [ingress.rs] *)
Definition envelope_sender (env : AnySignedEnvelope) : Principal :=
  match env with
  | SRequest e => ue_from (inner e) | SCommit e => ue_from (inner e)
  | SDeliver e => ue_from (inner e) | SAck e => ue_from (inner e)
  | SControl e => ue_from (inner e) | SAuditLog e => ue_from (inner e)
  end.
Definition envelope_recipient (env : AnySignedEnvelope) : Principal :=
  match env with
  | SRequest e => ue_to (inner e) | SCommit e => ue_to (inner e)
  | SDeliver e => ue_to (inner e) | SAck e => ue_to (inner e)
  | SControl e => ue_to (inner e) | SAuditLog e => ue_to (inner e)
  end.
Definition envelope_federation_format_ok (env : AnySignedEnvelope) : bool :=
  match env with
  | SRequest e => federation_format_ok e | SCommit e => federation_format_ok e
  | SDeliver e => federation_format_ok e | SAck e => federation_format_ok e
  | SControl e => federation_format_ok e | SAuditLog e => federation_format_ok e
  end.

Definition RELAY_WRAPPER_FIELDS : list string :=
  ["signature"; "from_domain"; "to_domain"; "sender_key_id"; "nonce"; "expiry";
   "capability"; "approval"].

Definition strip_relay_fields (value : Value) : Value :=
  match value with
  | VObject obj => VObject (foldl (fun obj key => obj_remove key obj) obj RELAY_WRAPPER_FIELDS)
  | v => v
  end.

Definition check_audience_and_format (envelope : AnySignedEnvelope) (recipient : Principal) :
    result unit IngressError :=
  if bool_decide (envelope_recipient envelope <> recipient)
  then Err (InMisaddressedRecipient (envelope_recipient envelope) recipient)
  else if negb (envelope_federation_format_ok envelope) then Err InMalformedFederationFields
  else Ok tt.

(** ** The local bus

    [ProxiedPrincipal::send_recv]: one request on a stand-in's own connection
    and its reply. *)
Class LocalBus (W : Type) :=
  send_recv : W -> ClientId -> BusMessage -> W * result BusReply GatewayError.

(** [GatewayRegistry]: backed names and their stand-ins' connections. *)
Abbreviation GatewayRegistry := (gmap string ClientId).

(** What [ProxiedPrincipal::register] sends first; the only place an origin is
    declared. *)
Definition stand_in_register (name : string) (pid : N) : BusMessage :=
  Register name pid None false (Some Gateway).

(** [GatewayRegistry::back], on a connection that completed its handshake. *)
Definition back {W} `{LocalBus W} (registry : GatewayRegistry) (w : W) (conn : ClientId)
    (name : string) (pid : N) : GatewayRegistry * W * result unit GatewayError :=
  if is_some (registry !! name) then (registry, w, Err (GwDuplicatePrincipal name)) else
  let '(w, reply) := send_recv w conn (stand_in_register name pid) in
  match reply with
  | Ok (RegisterOk _ _ _) => (<[name := conn]> registry, w, Ok tt)
  | Ok (ReplyErr kind message) => (registry, w, Err (GwRegisterFailed kind message))
  | Ok other => (registry, w, Err (GwUnexpectedReply (variant_name other)))
  | Err e => (registry, w, Err e)
  end.

(** ** The handler *)
Definition ONE_MIB : N := 1048576%N.

Section ingress.
Context `{WL : WireLib} `{CL : CryptoLib} `{TL : TimeLib} {W : Type} `{LB : !LocalBus W}.

Definition deliver_envelope (sender recipient : Principal) (body : bytes)
    (registry : GatewayRegistry) (w : W) : W * result unit IngressError :=
  letok value := from_slice body orelse (w, Err InInternal) in
  let value := strip_relay_fields value in
  letsome conn := registry !! pr_name sender orelse (w, Err InSenderNotBacked) in
  let '(w, reply) := send_recv w conn (Send (TgtAgent (pr_name recipient)) value) in
  match reply with
  | Ok (SendOk _ _) => (w, Ok tt)
  | _ => (w, Err InInternal)
  end.

(** Up to the release of the guard lock. *)
Definition admit_request (registry : GatewayRegistry) (own_domain : string)
    (guard : IngressGuard) (body : bytes) (now : string) :
    IngressGuard * result unit IngressError :=
  trying peeked := peek_guard_fields body
    catch reject => (guard, Err (ingress_error_for_guard reject)) in
  let sender_is_backed := is_some (registry !! pr_name (pk_from peeked)) in
  let '(guard, r) :=
    run_cheap_gates (mkInput peeked now own_domain sender_is_backed) guard in
  (guard, map_err ingress_error_for_guard r).

(** Everything after it; the registry is read again. *)
Definition finish_request (registry : GatewayRegistry) (keyring : Keyring)
    (recipient : Principal) (body : bytes) (now : string) (w : W) : W * result unit IngressError :=
  trying envelope := verify_inbound_any body keyring now
    catch reason => (w, Err (ingress_error_for_reject reason)) in
  trying _ := check_audience_and_format envelope recipient catch e => (w, Err e) in
  deliver_envelope (envelope_sender envelope) recipient body registry w.

Definition ingest_inbound_at (registry : GatewayRegistry) (keyring : Keyring)
    (own_domain : string) (recipient : Principal) (body : bytes) (now : string)
    (guard : IngressGuard) (w : W) : IngressGuard * W * result unit IngressError :=
  let '(guard, admitted) := admit_request registry own_domain guard body now in
  trying _ := admitted catch e => (guard, w, Err e) in
  let '(w, r) := finish_request registry keyring recipient body now w in
  (guard, w, r).

(** The HTTP status and slug; 202 carries no body. *)
Definition inbox_handler (registry : GatewayRegistry) (keyring : Keyring) (own_domain : string)
    (principal_str : string) (body : bytes) (now : string) (guard : IngressGuard) (w : W) :
    IngressGuard * W * (N * string) :=
  letok recipient := Principal_from_str principal_str
    orelse (guard, w, ingress_status InBadPrincipal) in
  let '(guard, w, r) :=
    ingest_inbound_at registry keyring own_domain recipient body now guard w in
  match r with
  | Ok _ => (guard, w, (202%N, EmptyString))
  | Err e => (guard, w, ingress_status e)
  end.

(** [build_gateway_router]: the body limit in front of the route.  The limit
    layer's own response text is not modelled. *)
Definition gateway_router (registry : GatewayRegistry) (keyring : Keyring) (own_domain : string)
    (principal_str : string) (body : bytes) (now : string) (guard : IngressGuard) (w : W) :
    IngressGuard * W * (N * string) :=
  if (ONE_MIB <? blen body)%N then (guard, w, (413%N, EmptyString)) else
  inbox_handler registry keyring own_domain principal_str body now guard w.
End ingress.

(** ** The broker process as a local bus

    A request that is answered in the iteration that reads it, on a connection
    with no other reply outstanding: the first reply to the connection among
    those the iteration sent. *)
Definition first_reply (conn : ClientId) (replies : list (ClientId * BusReply)) :
    option BusReply :=
  find_map (fun '(c, r) => if bool_decide (c = conn) then Some r else None) replies.

#[export] Instance process_bus `{WireLib} (io : Io) (now : Instant) (wall : WallClock) :
    LocalBus World := fun w conn msg =>
  match step io true w (Frame conn msg) now wall with
  | Running w' =>
      match first_reply conn (drop (length (w_sent w)) (w_sent w')) with
      | Some r => (w', Ok r)
      | None => (w', Err GwBrokerUnreachable)
      end
  | Exited w' => (w', Err GwBrokerUnreachable)
  | Panicked => (w, Err GwBrokerUnreachable)
  end.
