(* ===== verification/IngressProps.v ===== *)
(** * What the gateway's ingress delivers

    Only envelopes a pinned key vouches for, from a backed sender, to the
    recipient they were posted for, inside this gateway's own domain, reach the
    local bus, exactly once per request and without their federation wrapper;
    and over the broker process such a delivery ends in the recipient's mailbox
    marked as coming from the gateway. *)

From Stdlib Require Import Strings.Byte Ascii.
From stdpp Require Import gmap strings list.
From S2P Require Import Prelude Json Proto Mailbox Origin WireInstance Serde Codec Crypto Principal.
From S2P Require Import Fsm Core Derive Body BodyProps Envelope EnvelopeProps DrainWalk Authorship.
From S2P Require Import BrokerState Awaiting Handle BrokerInv Scenario Executor BrokerProps.
From S2P Require Import SessionProps Delivery Clock NonceTable Guard GuardProps Keyring Ingress.

Lemma field_principal_inj obj k p q :
  principal_ok p -> principal_ok q ->
  obj_get k obj = Some (v_principal p) -> obj_get k obj = Some (v_principal q) -> p = q.
Proof.
  intros Hp Hq Hkp Hkq. apply Principal_display_inj; [done..|].
  rewrite Hkp in Hkq. unfold v_principal in Hkq. congruence.
Qed.

Lemma get_str_principal obj k p :
  obj_get k obj = Some (v_principal p) -> get_str (VObject obj) k = Some (Principal_display p).
Proof. intros Hg. unfold get_str. cbn [get]. by rewrite Hg. Qed.

(** ** Reading a verified envelope *)
Section reading.
Context `{WL : WireLib} `{CL : CryptoLib}.

(** The object as signed names this sender and this recipient, and the key
    vouches for all of it but the signature. *)
Record vouched (vk : TrustedVerifyingKey) (obj : list (string * Value))
    (from to : Principal) : Prop := {
  vo_from : obj_get "from" obj = Some (v_principal from) /\ principal_ok from;
  vo_to : obj_get "to" obj = Some (v_principal to) /\ principal_ok to;
  vo_signature : exists txt sg,
    obj_get SIGNATURE_FIELD obj = Some (VString txt) /\ sig_from_b64url txt = Ok sg /\
    vouches vk (VObject (obj_remove SIGNATURE_FIELD obj)) sg }.

Lemma accepted_by_vouched vk obj B (BS : BodySchema B) (s : SignedEnvelope B) :
  accepted_by vk obj B BS s -> vouched vk obj (ue_from (inner s)) (ue_to (inner s)).
Proof.
  intros (_ & (txt & Htxt & Hsg) & Hv & [Hr _ _ _ _]).
  assert (Hget : forall k p, k <> SIGNATURE_FIELD ->
    required d_principal (obj_remove SIGNATURE_FIELD obj) k = Ok p ->
    obj_get k obj = Some (v_principal p) /\ principal_ok p).
  { intros k p Hk Hp. apply required_principal_get in Hp as [Hp ?].
    rewrite obj_get_remove, (proj2 (String.eqb_neq _ _) Hk) in Hp. done. }
  split; [apply Hget, Hr; done..|]. by exists txt, (signature s).
Qed.

Lemma any_vouched vk obj env :
  any_typed (accepted_by vk obj) env ->
  vouched vk obj (envelope_sender env) (envelope_recipient env).
Proof. destruct env; apply accepted_by_vouched. Qed.

Lemma view_principal_of obj k p :
  obj_get k obj = Some (v_principal p) -> principal_ok p ->
  view_principal (VObject obj) k = Some p.
Proof.
  intros Hg Hp. unfold view_principal. rewrite (get_str_principal _ _ _ Hg). simpl.
  by rewrite Principal_from_str_display.
Qed.

(** What the two peeks and the verification agree on. *)
Lemma verify_inbound_any_sound body keyring now env :
  verify_inbound_any body keyring now = Ok env ->
  exists obj vk,
    from_slice_strict body = Ok (VObject obj) /\
    active_key keyring (envelope_sender env) now = LkActive vk /\
    any_typed (accepted_by vk obj) env.
Proof.
  unfold verify_inbound_any, peek_sender.
  destruct (from_slice_strict body) as [v|] eqn:Hb; [|done]. simpl map_err. cbv beta iota.
  destruct (view_from v) as [from|] eqn:Hf; [|done]. cbv beta iota.
  unfold usable_key. destruct (active_key keyring from now) as [vk| | | | |] eqn:Hk; try done.
  destruct (AnySignedEnvelope_decode body vk) as [env'|] eqn:Hd; [|done]. intros [= ->].
  apply any_decode_sound in Hd as (obj & Hb' & He). rewrite Hb in Hb'. injection Hb' as ->.
  exists obj, vk. split_and!; try done.
  destruct (vo_from _ _ _ _ (any_vouched _ _ _ He)) as [Hg Hok].
  unfold view_from in Hf. rewrite (view_principal_of obj "from" _ Hg Hok) in Hf.
  by injection Hf as ->.
Qed.

Lemma peek_guard_sound body pk :
  peek_guard_fields body = Ok pk ->
  exists obj, from_slice_strict body = Ok (VObject obj) /\
    (obj_get "from" obj = Some (v_principal (pk_from pk)) /\ principal_ok (pk_from pk)) /\
    (obj_get "to" obj = Some (v_principal (pk_to pk)) /\ principal_ok (pk_to pk)) /\
    obj_get "ts" obj = Some (VString (pk_ts pk)) /\
    (forall nonce, pk_nonce pk = Some nonce -> obj_get "nonce" obj = Some (VString nonce)).
Proof.
  unfold peek_guard_fields. destruct (from_slice_strict body) as [v|]; [|done].
  destruct v as [| | | | |obj]; try done. simpl as_object. cbv beta iota.
  assert (Hp : forall k p, required_principal obj k = Ok p ->
    obj_get k obj = Some (v_principal p) /\ principal_ok p).
  { intros k p. unfold required_principal, required_string.
    destruct (obj_get k obj) as [[]|]; try done. simpl.
    destruct (Principal_from_str s) as [q|] eqn:E; [|done]. intros [= <-].
    by apply Principal_from_str_sound in E as [-> ?]. }
  destruct (required_principal obj "from") as [f|] eqn:Hf; [|done].
  destruct (required_principal obj "to") as [t|] eqn:Ht; [|done].
  destruct (required_string obj "ts") as [ts|] eqn:Hts; [|done].
  destruct (optional_string obj "nonce") as [n|] eqn:Hn; [|done].
  destruct (optional_string obj "expiry") as [x|] eqn:Hx; [|done].
  intros [= <-]. exists obj. simpl.
  split; [done|]. split; [by apply Hp|]. split; [by apply Hp|]. split.
  - unfold required_string in Hts. destruct (obj_get "ts" obj) as [[]|]; try done.
    by injection Hts as ->.
  - intros nonce ->. unfold optional_string in Hn.
    destruct (obj_get "nonce" obj) as [[]|]; try done. by injection Hn as ->.
Qed.
End reading.

(** ** Through the handler *)
Section handler.
Context `{WL : WireLib} `{CL : CryptoLib} `{TL : TimeLib} {W : Type} `{LB : !LocalBus W}.

(** What the guard established about the request's object: the recipient is in
    this domain, the sender is backed, and the signed timestamp is within the
    clock skew of now, with a nonce. *)
Record admitted (registry : GatewayRegistry) (own_domain : string) (now : string)
    (obj : list (string * Value)) : Prop := {
  ad_to to : principal_ok to -> obj_get "to" obj = Some (v_principal to) ->
    pr_authority to = own_domain;
  ad_from from : principal_ok from -> obj_get "from" obj = Some (v_principal from) ->
    is_Some (registry !! pr_name from);
  ad_fresh : exists ts ti ni, obj_get "ts" obj = Some (VString ts) /\
    rfc3339_parse ts = Some ti /\ rfc3339_parse now = Some ni /\
    (- seconds 301 < ni - ti < seconds 301)%Z;
  ad_nonce : exists nonce, obj_get "nonce" obj = Some (VString nonce) /\ nonce <> EmptyString }.

Lemma admit_request_sound registry own_domain guard body now guard' :
  admit_request registry own_domain guard body now = (guard', Ok tt) ->
  exists obj, from_slice_strict body = Ok (VObject obj) /\ admitted registry own_domain now obj.
Proof.
  unfold admit_request. destruct (peek_guard_fields body) as [pk|] eqn:Hpk; [|done].
  apply peek_guard_sound in Hpk as (obj & Hb & [Hf Hfo] & [Ht Hto] & Hts & Hn).
  set (input := mkInput pk now own_domain (is_some (registry !! pr_name (pk_from pk)))).
  intros H. exists obj. split; [done|].
  destruct (run_cheap_gates_cases input guard) as
    [(e & He & _)|(ts & ni & nonce & Hp & _ & He)];
    fold input in H; rewrite He in H; [done|].
  destruct Hp as [Hd Hbk Hti Hni Hfr [Hno Hne]]. simpl in *. split.
  - intros to Hok Hg. by rewrite (field_principal_inj _ _ _ _ Hok Hto Hg Ht).
  - intros from Hok Hg. rewrite (field_principal_inj _ _ _ _ Hok Hfo Hg Hf).
    apply is_some_true in Hbk as [c Hc]. eauto.
  - exists (pk_ts pk), ts, ni. eauto.
  - eauto.
Qed.

Lemma strip_is_without_wrapper obj : strip_relay_fields (VObject obj) = VObject (without_wrapper obj).
Proof. done. Qed.

(** The one request the bus sees for a verified envelope. *)
Definition delivery_of (recipient : Principal) (obj : list (string * Value)) : BusMessage :=
  Send (TgtAgent (pr_name recipient)) (VObject (without_wrapper obj)).

Definition ingress_answer (reply : result BusReply GatewayError) : result unit IngressError :=
  match reply with Ok (SendOk _ _) => Ok tt | _ => Err InInternal end.

Lemma deliver_envelope_once `{!WireLaws} sender recipient body registry w obj conn :
  from_slice_strict body = Ok (VObject obj) -> registry !! pr_name sender = Some conn ->
  deliver_envelope sender recipient body registry w =
    ((send_recv w conn (delivery_of recipient obj)).1,
     ingress_answer (send_recv w conn (delivery_of recipient obj)).2).
Proof.
  intros Hb Hc. unfold deliver_envelope. rewrite (from_slice_of_strict _ _ Hb), Hc.
  rewrite strip_is_without_wrapper. fold (delivery_of recipient obj).
  destruct (send_recv _ _ _) as [w' [r|e]]; [|done]. by destruct r.
Qed.

Lemma finish_request_cases `{!WireLaws} registry keyring recipient body now w w' r :
  finish_request registry keyring recipient body now w = (w', r) ->
  (w' = w /\ exists e, r = Err e) \/
  exists obj from vk conn,
    from_slice_strict body = Ok (VObject obj) /\
    active_key keyring from now = LkActive vk /\ vouched vk obj from recipient /\
    (exists env, any_typed (accepted_by vk obj) env) /\
    registry !! pr_name from = Some conn /\
    w' = (send_recv w conn (delivery_of recipient obj)).1 /\
    r = ingress_answer (send_recv w conn (delivery_of recipient obj)).2.
Proof.
  unfold finish_request.
  destruct (verify_inbound_any body keyring now) as [env|] eqn:Hv; [|intros [= <- <-]; eauto].
  apply verify_inbound_any_sound in Hv as (obj & vk & Hb & Hk & He).
  pose proof (any_vouched _ _ _ He) as Hvo.
  unfold check_audience_and_format. case_bool_decide as Hto; [intros [= <- <-]; eauto|].
  rewrite Hto in Hvo.
  destruct (negb (envelope_federation_format_ok env)); [intros [= <- <-]; eauto|].
  destruct (registry !! pr_name (envelope_sender env)) as [conn|] eqn:Hc.
  - rewrite (deliver_envelope_once _ _ _ _ _ _ _ Hb Hc). intros [= <- <-].
    right. exists obj, (envelope_sender env), vk, conn. eauto 10.
  - unfold deliver_envelope. rewrite (from_slice_of_strict _ _ Hb), Hc.
    intros [= <- <-]. eauto.
Qed.

(** The bus is untouched, or it saw exactly one [Send] of a verified envelope. *)
Lemma ingest_cases `{!WireLaws} registry keyring own_domain recipient body now guard w guard' w' r :
  ingest_inbound_at registry keyring own_domain recipient body now guard w = (guard', w', r) ->
  (w' = w /\ exists e, r = Err e) \/
  exists obj from vk conn,
    from_slice_strict body = Ok (VObject obj) /\ admitted registry own_domain now obj /\
    active_key keyring from now = LkActive vk /\ vouched vk obj from recipient /\
    (exists env, any_typed (accepted_by vk obj) env) /\
    registry !! pr_name from = Some conn /\
    w' = (send_recv w conn (delivery_of recipient obj)).1 /\
    r = ingress_answer (send_recv w conn (delivery_of recipient obj)).2.
Proof.
  unfold ingest_inbound_at.
  destruct (admit_request registry own_domain guard body now) as [g [[]|e]] eqn:Ha;
    [|intros [= <- <- <-]; eauto].
  apply admit_request_sound in Ha as (obj & Hb & Had).
  destruct (finish_request registry keyring recipient body now w) as [w1 r1] eqn:Hf.
  intros [= <- <- <-].
  apply finish_request_cases in Hf as [?|(obj' & from & vk & conn & Hb' & ?)]; [by left|right].
  rewrite Hb in Hb'. injection Hb' as <-. exists obj, from, vk, conn. eauto.
Qed.
End handler.

(** C21. Ingress delivers only what is vouched for: a request either leaves the
    local bus exactly as it was and is answered with an error, or the posted
    bytes are an envelope whose sender's active pinned key vouches for every
    field but the signature, addressed to the recipient it was posted for,
    inside this gateway's domain, fresh and carrying a nonce, from a sender
    with a stand-in; the bus then saw exactly one request, on that stand-in's
    connection, sending the signed object without its federation wrapper, and
    the answer is success exactly when the bus confirmed it. *)
Theorem ingress_delivers_only_verified `{WireLaws} `{CryptoLib} `{TimeLib} {W} `{!LocalBus W}
    registry keyring own_domain recipient body now guard (w : W) guard' w' r :
  ingest_inbound_at registry keyring own_domain recipient body now guard w = (guard', w', r) ->
  (w' = w /\ exists e, r = Err e) \/
  exists obj from vk conn,
    from_slice_strict body = Ok (VObject obj) /\
    active_key keyring from now = LkActive vk /\ vouched vk obj from recipient /\
    pr_authority recipient = own_domain /\ admitted registry own_domain now obj /\
    registry !! pr_name from = Some conn /\
    w' = (send_recv w conn (delivery_of recipient obj)).1 /\
    (r = Ok tt <-> exists task rows,
       (send_recv w conn (delivery_of recipient obj)).2 = Ok (SendOk task rows)).
Proof.
  intros [?|(obj & from & vk & conn & Hb & Had & Hk & Hv & _ & Hc & -> & ->)]%ingest_cases; [by left|].
  right. exists obj, from, vk, conn. split_and!; try done.
  - destruct (vo_to _ _ _ _ Hv) as [Hr Hok]. by apply (ad_to _ _ _ _ Had).
  - unfold ingress_answer. repeat case_match; naive_solver.
Qed.

(** ** Over the broker process *)
Section process.
Context `{WL : WireLib} {WLaws : WireLaws}.

(** The gateway's table is right about the broker: every stand-in's connection
    is open, acts for the name it is filed under, and declared its origin. *)
Definition stand_ins (io : Io) (registry : GatewayRegistry) (w : World) : Prop :=
  forall name conn, registry !! name = Some conn ->
    conn ∈ w_senders w /\
    resolve_op_identity (disk_env io w) (w_broker w) conn = Ok name /\
    client_origin (w_broker w) conn = Gateway.

(** A message that is not local wakes nobody who waits at an agent's mailbox. *)
Lemma gateway_wakes_none env s nm e len :
  send_wakeups env s (TgtAgent nm) e Gateway len = (s, []).
Proof. done. Qed.

Lemma first_reply_last conn l r : first_reply conn (drop (length l) (l ++ [(conn, r)])) = Some r.
Proof.
  rewrite drop_app_length. unfold first_reply. simpl. by rewrite bool_decide_true.
Qed.

Lemma delivery_sent io now w to line org client reply :
  client ∈ w_senders w ->
  w_sent (execute_outs io now [AppendMailbox (target_mailbox to) line org; Reply client reply] w) =
  w_sent w ++ [(client, reply)].
Proof.
  intros Hin. simpl. unfold deliver.
  destruct (stamp_line line org); simpl; by rewrite bool_decide_true.
Qed.

Lemma process_send_recv alive t wall w conn to e nm line :
  Inv (w_broker w) -> disk_whole w -> conn ∈ w_senders w ->
  resolve_op_identity (disk_env (healthy alive) w) (w_broker w) conn = Ok nm ->
  client_origin (w_broker w) conn = Gateway ->
  is_self_authored e (Some nm) = true -> value_wf e = true ->
  canonicalize e = Ok line -> (blen line <= MAX_FRAME_BYTES)%N ->
  is_ok (AnyBusEnvelope_decode line) = true ->
  exists w' rows,
    process_bus (healthy alive) t wall w conn (Send (TgtAgent to) e) =
      (w', Ok (SendOk (task_id_from e) rows)) /\
    mailbox_log w' (MbAgent to) = mailbox_log w (MbAgent to) ++ [(Gateway, e)] /\
    (forall p, p <> mailbox_path (MbAgent to) -> w_files w' !! p = w_files w !! p) /\
    disk_whole w'.
Proof.
  intros HI Hd Hin Hr Ho Ha Hwf Hc Hl Hdec. unfold process_bus. simpl. unfold call_broker.
  set (env := disk_env (healthy alive) w) in *.
  destruct (resolved_dispatch env (w_broker w) conn nm (Send (TgtAgent to) e) t wall HI Hr)
    as (s & -> & _ & _ & Hrt & _ & Horg); [done|]. simpl. rewrite Ho in Horg.
  destruct (stamp_line_ok e line Gateway Hwf Hc) as (st & Hst & _).
  rewrite (send_accepted env s conn (TgtAgent to) e nm line st), Horg by (rewrite ?Horg; done).
  rewrite gateway_wakes_none. cbn [fst snd app].
  rewrite (delivery_sent _ _ _ (TgtAgent to) line Gateway) by done.
  simpl w_sent at 1 2. rewrite first_reply_last. eexists _, _. split; [reflexivity|].
  destruct (append_stamped_log alive (w_files w) (TgtAgent to) e line Gateway Hd Hwf Hc Hdec)
    as (Hw' & Hlog & Hother).
  unfold mailbox_log, file_of, disk_whole.
  match goal with |- context [execute_outs ?io ?n [?o; Reply ?c ?r] ?x] =>
    pose proof (execute_send_files io n (TgtAgent to) line Gateway [] c r x (Forall_nil_2 _)) as Hf
  end. cbn [app target_mailbox] in Hf |- *. rewrite Hf.
  split_and!; [exact Hlog|exact Hother|exact Hw'].
Qed.
End process.

Section mailbox.
Context `{WL : WireLib} {WLaws : WireLaws} `{CL : CryptoLib} `{TL : TimeLib}.

Lemma stripped_author vk obj from to :
  vouched vk obj from to ->
  is_self_authored (VObject (without_wrapper obj)) (Some (pr_name from)) = true.
Proof.
  intros [[Hg Hok] _ _]. rewrite (author_check_is_principal_name _ from); [apply String.eqb_refl|done|].
  unfold get_str. simpl get. unfold without_wrapper. rewrite obj_get_without. simpl.
  by rewrite Hg.
Qed.

Lemma without_wrapper_wf obj :
  value_wf (VObject obj) = true -> value_wf (VObject (without_wrapper obj)) = true.
Proof.
  unfold without_wrapper. generalize wrapper_keys as keys.
  intros keys. revert obj. induction keys as [|k keys IH]; intros obj H; [done|].
  simpl foldl. apply IH. by apply wf_at_filter.
Qed.
End mailbox.

(** C20. End to end from the wire to the mailbox: with the broker process on a
    healthy disk as the local bus and a registry whose stand-ins are live, a
    posted envelope that fits a frame is either refused, and then no state of
    the broker process changed, or accepted, and then the recipient's mailbox
    log gained exactly that envelope without its federation wrapper, stamped as
    coming from the gateway, the sender's active pinned key vouches for it, and
    every other mailbox file is as before. *)
Theorem ingress_reaches_the_mailbox `{WireLaws} `{CryptoLib} `{TimeLib} alive t wall
    registry keyring own_domain recipient body now guard w guard' w' r obj line :
  Inv (w_broker w) -> disk_whole w -> stand_ins (healthy alive) registry w ->
  from_slice_strict body = Ok (VObject obj) -> value_wf (VObject obj) = true ->
  canonicalize (VObject (without_wrapper obj)) = Ok line -> (blen line <= MAX_FRAME_BYTES)%N ->
  ingest_inbound_at (LB := process_bus (healthy alive) t wall)
    registry keyring own_domain recipient body now guard w = (guard', w', r) ->
  (w' = w /\ exists e, r = Err e) \/
  (r = Ok tt /\
   (exists from vk, active_key keyring from now = LkActive vk /\ vouched vk obj from recipient) /\
   mailbox_log w' (MbAgent (pr_name recipient)) =
     mailbox_log w (MbAgent (pr_name recipient)) ++ [(Gateway, VObject (without_wrapper obj))] /\
   (forall p, p <> mailbox_path (MbAgent (pr_name recipient)) -> w_files w' !! p = w_files w !! p) /\
   disk_whole w').
Proof.
  intros HI Hd Hreg Hb Hwf Hc Hl Hin. apply ingest_cases in Hin
    as [?|(obj' & from & vk & conn & Hb' & _ & Hk & Hv & (env & He) & Hconn & -> & ->)]; [by left|].
  rewrite Hb in Hb'. injection Hb' as <-. right.
  destruct (Hreg _ _ Hconn) as (Hs & Hr & Ho).
  pose proof (without_wrapper_wf obj Hwf) as Hwf'.
  destruct (process_send_recv alive t wall w conn (pr_name recipient) _ (pr_name from) line
    HI Hd Hs Hr Ho (stripped_author _ _ _ _ Hv) Hwf' Hc Hl) as (w' & rows & E & Hlog & Hf & Hd').
  { apply (any_bus_of_signed vk env obj line He). by apply canonicalize_parse_strict; [apply value_wf_json|]. }
  unfold delivery_of, send_recv. rewrite E. simpl. split_and!; eauto.
Qed.

(** ** A concrete gateway *)
Definition gw_turns : list Turn :=
  map turn [Accept; Frame 0 (Hello 3 "cli" None); Frame 0 (Register "bob" 10 None true (Some Local));
            Accept; Frame 1 (Hello 3 "gateway" None); Frame 1 (stand_in_register "alice" 11)].
Definition w_gw : World := world_of (run_loop false w_boot gw_turns) w_boot.
Definition gw_registry : GatewayRegistry := {["alice" := 1%N]}.
Definition gw_envelope : UnsignedEnvelope RequestBody :=
  mkEnvelope FAMP_SPEC_VERSION 7 demo_from demo_to Standalone Request None CommitLocal
    "2026-01-01T00:00:00Z" None None None (Some "a.example") (Some "b.example") None (Some "n1")
    None None None (ue_body demo_request).
Definition gw_bytes : bytes :=
  match sign gw_envelope demo_key with
  | Ok s => match encode s with Ok b => b | Err _ => [] end
  | Err _ => []
  end.
Definition gw_obj : list (string * Value) :=
  match from_slice_strict gw_bytes with Ok (VObject m) => m | _ => [] end.
Definition gw_line : bytes := toy_print (VObject (without_wrapper gw_obj)).
Definition gw_now : string := "2026-01-01T00:00:00Z".
Definition gw_keyring : Keyring := {[demo_from := [legacy (verifying_key demo_key)]]}.
Definition gw_result : IngressGuard * World * result unit IngressError :=
  ingest_inbound_at (LB := process_bus (healthy (fun _ => true)) 0 wall0)
    gw_registry gw_keyring "b.example" demo_to gw_bytes gw_now (guard_new 0) w_gw.

Lemma w_gw_Inv : Inv (w_broker w_gw).
Proof.
  unfold w_gw. destruct (run_loop false w_boot gw_turns) as [w|w|] eqn:E.
  - exact (run_loop_Inv false w_boot gw_turns w (Inv_new 0) E).
  - exfalso. vm_compute in E. discriminate.
  - exfalso. vm_compute in E. discriminate.
Qed.

Lemma gw_stand_ins : stand_ins (healthy (fun _ => true)) gw_registry w_gw.
Proof.
  intros name conn. unfold gw_registry. rewrite lookup_singleton_Some. intros [<- <-].
  split_and!; [apply (bool_decide_unpack _); vm_compute; done|vm_compute; reflexivity..].
Qed.

Lemma ingress_delivers_only_verified_witness :
  exists obj from vk conn,
    from_slice_strict gw_bytes = Ok (VObject obj) /\
    active_key gw_keyring from gw_now = LkActive vk /\ vouched vk obj from demo_to /\
    gw_registry !! pr_name from = Some conn.
Proof.
  destruct (ingress_delivers_only_verified (LocalBus0 := process_bus (healthy (fun _ => true)) 0 wall0)
    gw_registry gw_keyring "b.example" demo_to gw_bytes gw_now (guard_new 0) w_gw
    gw_result.1.1 gw_result.1.2 gw_result.2) as [[_ [e He]]|(obj & from & vk & conn & H)].
  - unfold gw_result. by destruct (ingest_inbound_at _ _ _ _ _ _ _ _) as [[? ?] ?].
  - vm_compute in He. discriminate.
  - exists obj, from, vk, conn. tauto.
Defined.

Lemma ingress_reaches_the_mailbox_witness :
  mailbox_log gw_result.1.2 (MbAgent "bob") =
    mailbox_log w_gw (MbAgent "bob") ++ [(Gateway, VObject (without_wrapper gw_obj))].
Proof.
  destruct (ingress_reaches_the_mailbox (fun _ => true) 0 wall0
    gw_registry gw_keyring "b.example" demo_to gw_bytes gw_now (guard_new 0) w_gw
    gw_result.1.1 gw_result.1.2 gw_result.2 gw_obj gw_line) as [[_ [e He]]|H].
  - exact w_gw_Inv.
  - apply map_Forall_empty.
  - exact gw_stand_ins.
  - vm_compute. reflexivity.
  - vm_compute. reflexivity.
  - vm_compute. reflexivity.
  - vm_compute. discriminate.
  - unfold gw_result. by destruct (ingest_inbound_at _ _ _ _ _ _ _ _) as [[? ?] ?].
  - vm_compute in He. discriminate.
  - apply H.
Defined.
