(* ===== verification/Transport.v ===== *)
(** * Transports between principals

    [crates/famp-transport/src/{lib,memory,error}.rs] and
    [crates/famp-transport-http/src/{transport,server,middleware,error}.rs]:
    the in-process transport, the HTTP client, and the receiving server with its
    signature-verifying middleware.  TLS, URL syntax and the HTTP exchange itself
    are third-party code behind [HttpClient]. *)

From Stdlib Require Import Strings.Byte.
From stdpp Require Import gmap strings list.
From S2P Require Import Prelude Json WireInstance Crypto Principal Fsm Core Derive Body Envelope.
From S2P Require Import EnvelopeProps Clock Keyring Ingress IngressProps.

(** ** Messages: [lib.rs] *)
Record TransportMessage := mkTransportMessage {
  tm_sender : Principal; tm_recipient : Principal; tm_bytes : bytes }.

(** ** In process: [memory.rs]

    A registered principal's two channel ends share one unbounded queue; the
    receiver is kept by the transport, so the channel never closes. *)
Inductive MemoryTransportError :=
| MtUnknownRecipient (principal : Principal)
| MtInboxClosed (principal : Principal).

Abbreviation MemoryTransport := (gmap Principal (list TransportMessage)).

Definition memory_register (t : MemoryTransport) (p : Principal) : MemoryTransport :=
  if is_some (t !! p) then t else <[p := []]> t.

Definition memory_send (t : MemoryTransport) (msg : TransportMessage) :
    MemoryTransport * result unit MemoryTransportError :=
  match t !! tm_recipient msg with
  | None => (t, Err (MtUnknownRecipient (tm_recipient msg)))
  | Some queue => (<[tm_recipient msg := queue ++ [msg]]> t, Ok tt)
  end.

(** [None] is a receive that waits. *)
Definition memory_recv (t : MemoryTransport) (as_principal : Principal) :
    option (MemoryTransport * result TransportMessage MemoryTransportError) :=
  match t !! as_principal with
  | None => Some (t, Err (MtUnknownRecipient as_principal))
  | Some [] => None
  | Some (msg :: queue) => Some (<[as_principal := queue]> t, Ok msg)
  end.

(** ** The HTTP client: [transport.rs] *)
Inductive HttpTransportError :=
| HtUnknownRecipient (principal : Principal)
| HtReqwestFailed (text : string)
| HtServerStatus (code : N) (body : string)
| HtInvalidUrl.

Inductive HttpAnswer := HttpFailed (text : string) | HttpResponse (status : N) (body : string).

(** [reqwest]'s POST of [bytes] to [{base}/famp/v0.5.1/inbox/{recipient}], over a
    network of type [N]; [url_has_path] is [Url::path_segments_mut] succeeding. *)
Class HttpClient (Net : Type) := {
  url_has_path : string -> bool;
  http_post : Net -> string -> Principal -> bytes -> Net * HttpAnswer }.

Abbreviation addr_map := (gmap Principal string) (only parsing).

Definition add_peer (peers : addr_map) (p : Principal) (url : string) : addr_map :=
  <[p := url]> peers.

Definition HTTP_ACCEPTED : N := 202%N.

Definition http_send {Net} `{HttpClient Net} (peers : addr_map) (net : Net)
    (msg : TransportMessage) : Net * result unit HttpTransportError :=
  letsome base := peers !! tm_recipient msg
    orelse (net, Err (HtUnknownRecipient (tm_recipient msg))) in
  if negb (url_has_path base) then (net, Err HtInvalidUrl) else
  let '(net, answer) := http_post net base (tm_recipient msg) (tm_bytes msg) in
  match answer with
  | HttpFailed text => (net, Err (HtReqwestFailed text))
  | HttpResponse status body =>
      if (status =? HTTP_ACCEPTED)%N then (net, Ok tt) else (net, Err (HtServerStatus status body))
  end.

(** ** The receiving server: [server.rs], [middleware.rs] *)
Inductive MiddlewareError :=
| MwBodyTooLarge | MwBadPrincipal | MwBadEnvelope | MwCanonicalDivergence
| MwUnknownSender | MwSignatureInvalid | MwUnknownRecipient | MwInternal.

Definition middleware_status (e : MiddlewareError) : N * string :=
  match e with
  | MwBodyTooLarge => (413%N, "body_too_large")
  | MwBadPrincipal => (400%N, "bad_principal")
  | MwBadEnvelope => (400%N, "bad_envelope")
  | MwCanonicalDivergence => (400%N, "canonical_divergence")
  | MwUnknownSender => (401%N, "unknown_sender")
  | MwSignatureInvalid => (401%N, "signature_invalid")
  | MwUnknownRecipient => (404%N, "unknown_recipient")
  | MwInternal => (500%N, "internal")
  end.

Definition SIG_VERIFY_BODY_CAP : N := (ONE_MIB + 16 * 1024)%N.
Definition INBOX_CHANNEL_CAPACITY : nat := 64%nat.

(** A bounded inbox: what it holds and whether its receiver still exists. *)
Record HttpInbox := mkHttpInbox { ib_queue : list TransportMessage; ib_open : bool }.
Abbreviation InboxRegistry := (gmap Principal HttpInbox).

Definition inbox_register (r : InboxRegistry) (p : Principal) : InboxRegistry :=
  if is_some (r !! p) then r else <[p := mkHttpInbox [] true]> r.

(** [None]: not registered or closed and drained is an error, empty waits. *)
Definition http_recv (r : InboxRegistry) (as_principal : Principal) :
    option (InboxRegistry * result TransportMessage Principal) :=
  match r !! as_principal with
  | None => Some (r, Err as_principal)
  | Some inbox =>
      match ib_queue inbox with
      | msg :: queue => Some (<[as_principal := mkHttpInbox queue (ib_open inbox)]> r, Ok msg)
      | [] => if ib_open inbox then None else Some (r, Err as_principal)
      end
  end.

Section server.
Context `{WL : WireLib} `{CL : CryptoLib}.

(** [FampSigVerifyService::call]: the envelope it stashes for the handler. *)
Definition sig_verify (keyring : Keyring) (body : bytes) :
    result AnySignedEnvelope MiddlewareError :=
  if (SIG_VERIFY_BODY_CAP <? blen body)%N then Err MwBodyTooLarge else
  letok sender := peek_sender body orelse Err MwBadEnvelope in
  letsome pinned := keyring_get keyring sender orelse Err MwUnknownSender in
  letok parsed := from_slice_strict body orelse Err MwBadEnvelope in
  letok re_canonical := canonicalize parsed orelse Err MwBadEnvelope in
  if bool_decide (re_canonical <> body) then Err MwCanonicalDivergence else
  match AnySignedEnvelope_decode body pinned with
  | Ok e => Ok e
  | Err SignatureInvalid | Err (EnvInvalidSignatureEncoding _) => Err MwSignatureInvalid
  | Err _ => Err MwBadEnvelope
  end.

(** [inbox_handler] of the transport; [None] is a send that waits for room. *)
Definition server_inbox_handler (inboxes : InboxRegistry) (principal_str : string)
    (envelope : AnySignedEnvelope) (body : bytes) :
    option (InboxRegistry * result unit MiddlewareError) :=
  letok recipient := Principal_from_str principal_str
    orelse Some (inboxes, Err MwBadPrincipal) in
  let sender := envelope_sender envelope in
  letsome inbox := inboxes !! recipient orelse Some (inboxes, Err MwUnknownRecipient) in
  if negb (ib_open inbox) then Some (inboxes, Err MwInternal)
  else if (INBOX_CHANNEL_CAPACITY <=? length (ib_queue inbox))%nat then None
  else Some (<[recipient := mkHttpInbox (ib_queue inbox ++ [mkTransportMessage sender recipient body])
                              true]> inboxes, Ok tt).

(** The router: body limit, verification, handler. *)
Definition serve (keyring : Keyring) (inboxes : InboxRegistry) (principal_str : string)
    (body : bytes) : option (InboxRegistry * result unit MiddlewareError) :=
  if (ONE_MIB <? blen body)%N then Some (inboxes, Err MwBodyTooLarge) else
  match sig_verify keyring body with
  | Err e => Some (inboxes, Err e)
  | Ok envelope => server_inbox_handler inboxes principal_str envelope body
  end.
End server.

(** ** The in-process transport is a reliable FIFO *)
Inductive MemoryOp := MoRegister (p : Principal) | MoSend (msg : TransportMessage) | MoRecv (p : Principal).

(** One operation; a receive that would wait is left for later. *)
Definition memory_op (t : MemoryTransport) (op : MemoryOp) :
    MemoryTransport * option TransportMessage :=
  match op with
  | MoRegister p => (memory_register t p, None)
  | MoSend msg => ((memory_send t msg).1, None)
  | MoRecv p =>
      match memory_recv t p with
      | Some (t, Ok msg) => (t, Some msg)
      | _ => (t, None)
      end
  end.

Definition sent_to (p : Principal) (t : MemoryTransport) (op : MemoryOp) : list TransportMessage :=
  match op with
  | MoSend msg =>
      if bool_decide (tm_recipient msg = p) && is_ok (memory_send t msg).2 then [msg] else []
  | _ => []
  end.
Definition received_by (p : Principal) (t : MemoryTransport) (op : MemoryOp) : list TransportMessage :=
  match op with
  | MoRecv q => if bool_decide (q = p) then option_list (memory_op t op).2 else []
  | _ => []
  end.

(** A run, with the messages accepted for [p] and the ones [p] received. *)
Fixpoint memory_run (p : Principal) (t : MemoryTransport) (ops : list MemoryOp) :
    MemoryTransport * list TransportMessage * list TransportMessage :=
  match ops with
  | [] => (t, [], [])
  | op :: ops =>
      let '(t', sent, received) := memory_run p (memory_op t op).1 ops in
      (t', sent_to p t op ++ sent, received_by p t op ++ received)
  end.

Definition queue_for (t : MemoryTransport) (p : Principal) : list TransportMessage :=
  default [] (t !! p).

Lemma memory_op_queue p t op :
  queue_for t p ++ sent_to p t op = received_by p t op ++ queue_for (memory_op t op).1 p.
Proof.
  destruct op as [q|msg|q]; simpl.
  - rewrite app_nil_r. unfold memory_register, queue_for.
    destruct (t !! q) eqn:E; simpl; [done|]. destruct (decide (q = p)) as [->|Hne].
    + by rewrite lookup_insert_eq, E.
    + by rewrite lookup_insert_ne.
  - unfold memory_send, queue_for. destruct (t !! tm_recipient msg) as [l|] eqn:E; simpl;
      [|rewrite andb_false_r, app_nil_r; done].
    case_bool_decide as Hp; simpl.
    + subst p. by rewrite E, lookup_insert_eq.
    + rewrite app_nil_r, lookup_insert_ne by done. done.
  - rewrite app_nil_r. unfold memory_recv, queue_for.
    destruct (t !! q) as [[|msg l]|] eqn:E; simpl; [by case_bool_decide| |by case_bool_decide].
    case_bool_decide as Hp; simpl.
    + subst q. by rewrite E, lookup_insert_eq.
    + by rewrite lookup_insert_ne.
Qed.

(** Over any sequence of registrations, sends and receives, the in-process
    transport hands every principal exactly the messages accepted for it, once
    each and in order: those it held at the start, then those sent, are those
    received, then those still queued. *)
Theorem memory_transport_fifo p t ops :
  let '(t', sent, received) := memory_run p t ops in
  queue_for t p ++ sent = received ++ queue_for t' p.
Proof.
  revert t. induction ops as [|op ops IH]; intros t; simpl; [by rewrite app_nil_r|].
  specialize (IH (memory_op t op).1).
  destruct (memory_run p _ ops) as [[t' sent] received].
  by rewrite app_assoc, memory_op_queue, <- app_assoc, IH, app_assoc.
Qed.

(** ** What the server queues *)
Section served.
Context `{WL : WireLib} `{CL : CryptoLib}.

Lemma sig_verify_sound keyring body env :
  sig_verify keyring body = Ok env ->
  exists obj vk,
    from_slice_strict body = Ok (VObject obj) /\ canonicalize (VObject obj) = Ok body /\
    keyring_get keyring (envelope_sender env) = Some vk /\
    any_typed (accepted_by vk obj) env.
Proof.
  unfold sig_verify. destruct (_ <? _)%N; [done|]. unfold peek_sender.
  destruct (from_slice_strict body) as [v|] eqn:Hb; [|done]. simpl map_err. cbv beta iota.
  destruct (view_from v) as [from|] eqn:Hf; [|done]. cbv beta iota.
  destruct (keyring_get keyring from) as [vk|] eqn:Hk; [|done].
  destruct (canonicalize v) as [c|] eqn:Hc; [|done].
  case_bool_decide as Hcb; [done|]. subst c.
  destruct (AnySignedEnvelope_decode body vk) as [e|er] eqn:Hd; [|by destruct er].
  intros [= ->]. apply any_decode_sound in Hd as (obj & Hb' & He).
  rewrite Hb in Hb'. injection Hb' as ->. exists obj, vk. split_and!; try done.
  destruct (vo_from _ _ _ _ (any_vouched _ _ _ He)) as [Hg Hok].
  unfold view_from in Hf. rewrite (view_principal_of obj "from" _ Hg Hok) in Hf.
  by injection Hf as ->.
Qed.
End served.

(** The HTTP server queues only verified, canonical envelopes: a request it
    accepts is at most a mebibyte, byte-identical to its own RFC 8785 form,
    vouched for by the key the keyring holds for the sender it names, and
    queued once, behind what the inbox named in the path already holds, under
    that very sender; a request it refuses leaves every inbox as it was. *)
Theorem server_queues_only_verified `{WireLib} `{CryptoLib} keyring inboxes path body inboxes' r :
  serve keyring inboxes path body = Some (inboxes', r) ->
  match r with
  | Err _ => inboxes' = inboxes
  | Ok _ => exists obj vk from to p queue,
      (blen body <= ONE_MIB)%N /\ from_slice_strict body = Ok (VObject obj) /\
      canonicalize (VObject obj) = Ok body /\ keyring_get keyring from = Some vk /\
      vouched vk obj from to /\ path = Principal_display p /\
      inboxes !! p = Some (mkHttpInbox queue true) /\
      (length queue < INBOX_CHANNEL_CAPACITY)%nat /\
      inboxes' = <[p := mkHttpInbox (queue ++ [mkTransportMessage from p body]) true]> inboxes
  end.
Proof.
  unfold serve. destruct (ONE_MIB <? blen body)%N eqn:Hlen; [by intros [= <- <-]|].
  destruct (sig_verify keyring body) as [env|e] eqn:Hs; [|by intros [= <- <-]].
  apply sig_verify_sound in Hs as (obj & vk & Hb & Hc & Hk & He).
  unfold server_inbox_handler.
  destruct (Principal_from_str path) as [p|] eqn:Hp; [|by intros [= <- <-]].
  apply Principal_from_str_sound in Hp as [-> _].
  destruct (inboxes !! p) as [[queue open]|] eqn:Hi; [|by intros [= <- <-]].
  cbn [ib_open ib_queue]. destruct open; [|by intros [= <- <-]]. cbn [negb].
  destruct (INBOX_CHANNEL_CAPACITY <=? length queue)%nat eqn:Hcap; [done|]. intros [= <- <-].
  exists obj, vk, (envelope_sender env), (envelope_recipient env), p, queue.
  split_and!; try done; try (by apply any_vouched); lia.
Qed.
