(* ===== verification/RelayFetch.v ===== *)
(** * The gateway's side of the relay

    [crates/famp-gateway/src/relay_fetch.rs]: a signed fetch every poll, and every
    drained envelope through the gateway's one ingest.  The HTTP exchange is the
    class [RelayClient]; the relay of [Relay] is an instance of it. *)

From Stdlib Require Import Strings.Byte Ascii.
From stdpp Require Import gmap pretty strings list.
From S2P Require Import Prelude Json Proto WireInstance Crypto Principal Derive Clock NonceTable Relay.
From S2P Require Import Guard Keyring BrokerState Ingress Transport.

Definition RELAY_POLL_INTERVAL_MS : N := 1000%N.
Definition RELAY_FETCH_BACKOFF_MAX_MS : N := 30000%N.

Inductive RelayFetchError :=
| RfTransport | RfMalformedResponse | RfUnauthorized | RfRateLimited | RfAuthBuild | RfBadRecipient.

(** ** The batch *)

(** [json!({"envelopes": [{"to": .., "body": ..}, ..]})], as the relay answers. *)
Definition batch_value (l : list (string * string)) : Value :=
  json_obj [("envelopes", VArray (map (fun '(to, body) =>
    json_obj [("to", VString to); ("body", VString body)]) l))].

(** [serde_json::from_slice::<FetchBatchResponse>]: the [to] and [body] of each
    entry.  The reader skips unknown keys; on a text without repeated keys that
    says a batch it reads that batch. *)
Class BatchReader := read_batch : bytes -> option (list (string * string)).
Class BatchReaderLaw `{WireLib} `{BR : BatchReader} : Prop :=
  read_batch_strict b l : from_slice_strict b = Ok (batch_value l) -> read_batch b = Some l.

Section batch.
Context `{CL : CryptoLib} `{BR : BatchReader}.

Fixpoint decode_entries (l : list (string * string)) :
    result (list (Principal * bytes)) RelayFetchError :=
  match l with
  | [] => Ok []
  | (to, body) :: l =>
      letok p := Principal_from_str to orelse Err RfBadRecipient in
      letsome b := b64url_decode body orelse Err RfMalformedResponse in
      try rest := decode_entries l in Ok ((p, b) :: rest)
  end.

Definition decode_fetch_batch (body : bytes) : result (list (Principal * bytes)) RelayFetchError :=
  letsome entries := read_batch body orelse Err RfMalformedResponse in decode_entries entries.
End batch.

(** ** Outcomes and backoff *)
Inductive FetchOutcome := FoSuccess | FoUnauthorized | FoRateLimited | FoOther.

Definition classify_fetch_status (status : N) : FetchOutcome :=
  if (status =? 200)%N then FoSuccess
  else if ((status =? 401) || (status =? 403))%N then FoUnauthorized
  else if (status =? 429)%N then FoRateLimited else FoOther.

(** [saturating_mul(2).min(MAX)] on [u64]. *)
Definition next_backoff_ms (current_ms : N) : N :=
  N.min (N.min (current_ms * 2) u64_max) RELAY_FETCH_BACKOFF_MAX_MS.

(** ** One poll *)

(** The GET with its headers: no response, or a status and, when it could be
    read, the body. *)
Inductive FetchAnswer := FetchFailed | FetchResponse (status : N) (body : option bytes).
Class RelayClient (Net : Type) :=
  relay_get : Net -> list (string * string) -> Net * FetchAnswer.

Section poll.
Context `{WL : WireLib} `{CL : CryptoLib} `{TL : TimeLib} `{BR : BatchReader}.
Context {W : Type} `{LB : !LocalBus W}.
Variables (registry : GatewayRegistry) (keyring : Keyring) (own_domain : string).

(** The entries in order, each at its own reading of the clock; a refused one
    does not stop the others. *)
Fixpoint ingest_entries (nows : nat -> string) (entries : list (Principal * bytes))
    (guard : IngressGuard) (w : W) : IngressGuard * W :=
  match entries with
  | [] => (guard, w)
  | (recipient, body) :: entries =>
      let '(guard, w, _) :=
        ingest_inbound_at registry keyring own_domain recipient body (nows O) guard w in
      ingest_entries (fun i => nows (S i)) entries guard w
  end.

Definition ingest_success_batch (nows : nat -> string) (body : option bytes)
    (guard : IngressGuard) (w : W) : IngressGuard * W :=
  letsome body := body orelse (guard, w) in
  letok entries := decode_fetch_batch body orelse (guard, w) in
  ingest_entries nows entries guard w.

(** [nonce] and [civil] are the UUID and the calendar reading [sign_fetch_auth]
    takes; the answer is the time to sleep. *)
Definition poll_once {Net} `{RC : RelayClient Net} (sk : FampSigningKey) (audience nonce : string)
    (civil : Civil) (nows : nat -> string) (backoff_ms : N) (net : Net) (guard : IngressGuard) (w : W) :
    Net * IngressGuard * W * N :=
  letok signed := sign_fetch_auth sk audience own_domain nonce civil
    orelse (net, guard, w, next_backoff_ms backoff_ms) in
  let '(net, answer) := relay_get net (header_pairs signed) in
  match answer with
  | FetchFailed => (net, guard, w, next_backoff_ms backoff_ms)
  | FetchResponse status body =>
      match classify_fetch_status status with
      | FoUnauthorized | FoRateLimited | FoOther => (net, guard, w, next_backoff_ms backoff_ms)
      | FoSuccess =>
          let '(guard, w) := ingest_success_batch nows body guard w in
          (net, guard, w, RELAY_POLL_INTERVAL_MS)
      end
  end.

(** [run_relay_fetch], for the polls so far: what each drew and read. *)
Record PollInput := mkPoll { po_nonce : string; po_civil : Civil; po_nows : nat -> string }.
Definition run_relay_fetch {Net} `{RC : RelayClient Net} (sk : FampSigningKey) (relay_base : Url)
    (polls : list PollInput) (net : Net) (guard : IngressGuard) (w : W) :
    Net * IngressGuard * W * N :=
  let audience := normalize_audience relay_base in
  foldl (fun '(net, guard, w, backoff_ms) po =>
      poll_once sk audience (po_nonce po) (po_civil po) (po_nows po) backoff_ms net guard w)
    (net, guard, w, RELAY_POLL_INTERVAL_MS) polls.
End poll.

(** ** The relay behind the client *)
Definition RELAY_MAX_BODY_BYTES : N := 1048576%N.

Definition header_get (pairs : list (string * string)) : Headers := fun name => obj_get name pairs.

(** The relay's fetch route for one domain, its queues and its authorization
    state as the network; [json!] of its answers through [to_vec]. *)
#[export] Instance relay_route `{WireLib} `{CryptoLib} `{TimeLib} (cfg : RelayConfig)
    (domain : string) (now : OffsetDateTime) : RelayClient (RelayQueues * FetchAuthState) :=
  fun net pairs =>
    let '(q, st, response) := fetch_handler cfg net.1 net.2 domain (header_get pairs) now in
    ((q, st), match response with
              | RStatus code => FetchResponse code (Some [])
              | RReject code slug => FetchResponse code None
              | REnvelopes l =>
                  FetchResponse 200 (match to_vec (batch_value l) with Ok b => Some b | Err _ => None end)
              end).

(** The relay's inbox route as the network of a sending gateway, with the body
    limit in front of it. *)
Definition relay_inlet (cfg : RelayConfig) (now : OffsetDateTime) : HttpClient RelayQueues := {|
  url_has_path _ := true;
  http_post q _ recipient body :=
    if (RELAY_MAX_BODY_BYTES <? blen body)%N then (q, HttpResponse 413 EmptyString) else
    let '(q, r) := enqueue_handler cfg q (Principal_display recipient) body now in
    (q, HttpResponse (match r with RStatus code => code | RReject code _ => code | REnvelopes _ => 200%N end)
          EmptyString) |}.

(** ** A concrete reader: strict, then entry by entry *)
Definition toy_entry (v : Value) : option (string * string) :=
  match v with
  | VObject [("body", VString body); ("to", VString to)] => Some (to, body)
  | _ => None
  end.
Fixpoint toy_entries (l : list Value) : option (list (string * string)) :=
  match l with
  | [] => Some []
  | v :: l => e ← toy_entry v; es ← toy_entries l; Some (e :: es)
  end.
#[export] Instance toy_reader `{WireLib} : BatchReader := fun b =>
  match from_slice_strict b with
  | Ok (VObject [("envelopes", VArray l)]) => toy_entries l
  | _ => None
  end.
#[export] Instance toy_reader_law `{WireLib} : BatchReaderLaw.
Proof.
  intros b l Hb. unfold read_batch, toy_reader. rewrite Hb. unfold batch_value. simpl. clear Hb.
  induction l as [|[to body] l IH]; [done|]. simpl. by rewrite IH.
Qed.
