(* ===== verification/Egress.v ===== *)
(** * The gateway's egress: mailbox to wire

    [crates/famp-gateway/src/{egress,clock}.rs]: draining a backed principal's
    mailbox over its stand-in's connection, adding the federation fields and the
    gateway's signature, posting to the peer, and telling the local sender about
    failures.  Random identifiers and formatted clock readings are inputs. *)

From Stdlib Require Import Strings.Byte Ascii.
From stdpp Require Import gmap pretty strings list.
From S2P Require Import Prelude Json Proto WireInstance Crypto Principal Fsm Core Derive Body.
From S2P Require Import Envelope BrokerState Clock Keyring Ingress Transport.

(** ** Clock texts: [clock.rs] *)

(** [{:02}] and [{:04}]: zero-padded decimal, wider when it does not fit. *)
Definition digit (n : N) : ascii := pretty_N_char (n mod 10).
Definition pad2 (n : N) : string :=
  if (n <? 100)%N then String (digit (n / 10)) (String (digit n) EmptyString) else pretty n.
Definition pad4 (n : N) : string :=
  if (n <? 10000)%N
  then String (digit (n / 1000)) (String (digit (n / 100))
         (String (digit (n / 10)) (String (digit n) EmptyString)))
  else pretty n.

Definition now_canonical_utc (now : Civil) : string :=
  pad4 (cv_year now) +:+ "-" +:+ pad2 (cv_month now) +:+ "-" +:+ pad2 (cv_day now) +:+ "T" +:+
  pad2 (cv_hour now) +:+ ":" +:+ pad2 (cv_minute now) +:+ ":" +:+ pad2 (cv_second now) +:+ "Z".

(** Everything before, and from, the first character that satisfies [p]. *)
Fixpoint str_before (p : ascii -> bool) (s : string) : string :=
  match s with
  | EmptyString => EmptyString
  | String c r => if p c then EmptyString else String c (str_before p r)
  end.
Fixpoint str_from (p : ascii -> bool) (s : string) : string :=
  match s with
  | EmptyString => EmptyString
  | String c r => if p c then s else str_from p r
  end.

Definition is_dot (c : ascii) : bool := Ascii.eqb c ".".
Definition is_zone (c : ascii) : bool := Ascii.eqb c "Z" || Ascii.eqb c "+" || Ascii.eqb c "-".
Definition strip_subseconds (ts : string) : string :=
  if contains "."%char ts
  then str_before is_dot ts +:+ str_from is_zone (str_from is_dot ts)
  else ts.

(** ** Signing: [sign_federation_fields] *)
Definition AWAIT_TIMEOUT_MS : N := 1000%N.

Definition FEDERATION_OWNED_FIELDS : list string :=
  ["from_domain"; "to_domain"; "sender_key_id"; "nonce"; "expiry"; "capability"; "approval"].
Definition RELAY_FAILURE_REASON_PREFIX : string := "famp-gateway relay failed:".

Inductive EgressError :=
| EgNotAnObject
| EgExpiryFormat (e : string)
| EgSign (e : CryptoError)
| EgMissingField (field : string)
| EgBadPrincipal (field e : string).

(** The clock's answer, five minutes from now, formatted as RFC 3339. *)
Definition federation_expiry (raw : result string string) : result string EgressError :=
  match raw with Ok raw => Ok (strip_subseconds raw) | Err e => Err (EgExpiryFormat e) end.

(** What one relayed envelope draws from the system: a nonce, the formatted
    expiry instant, the text of now and a message id for a failure notice. *)
Record Fresh := mkFresh {
  fr_nonce : string; fr_expiry : result string string; fr_now : string; fr_id : N }.

Section sign.
Context `{WL : WireLib} `{CL : CryptoLib}.

(** The object with the gateway's five fields, before the signature. *)
Definition federated (obj : list (string * Value)) (from to : Principal)
    (vk : TrustedVerifyingKey) (nonce expiry : string) : list (string * Value) :=
  let obj := obj_insert "from_domain" (VString (pr_authority from)) obj in
  let obj := obj_insert "to_domain" (VString (pr_authority to)) obj in
  let obj := obj_insert "sender_key_id" (VString (key_id vk)) obj in
  let obj := obj_insert "nonce" (VString nonce) obj in
  obj_insert "expiry" (VString expiry) obj.

(** The mutated value, also when signing it failed. *)
Definition sign_federation_fields (value : Value) (from to : Principal) (sk : FampSigningKey)
    (vk : TrustedVerifyingKey) (fresh : Fresh) : Value * result unit EgressError :=
  letsome obj := as_object value orelse (value, Err EgNotAnObject) in
  if is_some (obj_get "signature" obj) then (value, Ok tt) else
  trying expiry := federation_expiry (fr_expiry fresh) catch e => (value, Err e) in
  let obj := federated obj from to vk (fr_nonce fresh) expiry in
  trying signature := sign_value sk (VObject obj) catch e => (VObject obj, Err (EgSign e)) in
  (VObject (obj_insert "signature" (VString (sig_to_b64url signature)) obj), Ok tt).
End sign.

(** ** Relaying: [relay_one] *)
Inductive RelayError :=
| RlMissingField (field : string)
| RlBadPrincipal (field e : string)
| RlSign (e : EgressError)
| RlEncode (e : string)
| RlTransport (e : HttpTransportError)
| RlFromDomainMismatch (expected got : string)
| RlClientSuppliedFederationField (fields : string).

Definition parse_principal_field (envelope : Value) (field : string) :
    result Principal RelayError :=
  letsome raw := get_str envelope field orelse Err (RlMissingField field) in
  map_err (fun e => RlBadPrincipal field (ParsePrincipalError_display e)) (Principal_from_str raw).

Definition supplied_fields (envelope : Value) : list string :=
  match as_object envelope with
  | Some obj => List.filter (fun k => is_some (obj_get k obj)) FEDERATION_OWNED_FIELDS
  | None => []
  end.

Section relay.
Context `{WL : WireLib} `{CL : CryptoLib} {Net : Type} `{HC : !HttpClient Net}.

Definition relay_one (peers : gmap Principal string) (own_domain : string) (sk : FampSigningKey)
    (vk : TrustedVerifyingKey) (fresh : Fresh) (envelope : Value) (net : Net) :
    Value * Net * result unit RelayError :=
  trying from := parse_principal_field envelope "from" catch e => (envelope, net, Err e) in
  trying to := parse_principal_field envelope "to" catch e => (envelope, net, Err e) in
  let got := pr_authority from in
  if negb (String.eqb got own_domain)
  then (envelope, net, Err (RlFromDomainMismatch own_domain got)) else
  if negb (bool_decide (supplied_fields envelope = []))
  then (envelope, net,
        Err (RlClientSuppliedFederationField (String.concat ", " (supplied_fields envelope)))) else
  let '(envelope, signed) := sign_federation_fields envelope from to sk vk fresh in
  trying _ := signed catch e => (envelope, net, Err (RlSign e)) in
  trying body := to_vec envelope catch e => (envelope, net, Err (RlEncode e)) in
  let '(net, r) := http_send peers net (mkTransportMessage from to body) in
  (envelope, net, map_err RlTransport r).

(** ** Telling the sender: [build_relay_failure_ack], [notify_relay_failure] *)
Definition egress_principal (original : Value) (field : string) : result Principal EgressError :=
  letsome raw := get_str original field orelse Err (EgMissingField field) in
  map_err (fun e => EgBadPrincipal field (ParsePrincipalError_display e)) (Principal_from_str raw).

Definition build_relay_failure_ack (original : Value) (own_domain detail now : string) (id : N) :
    result Value EgressError :=
  try original_from := egress_principal original "from" in
  try original_to := egress_principal original "to" in
  Ok (json_obj
    [("famp", VString FAMP_SPEC_VERSION);
     ("id", VString (uuid_to_string id));
     ("from", VString ("agent:" +:+ own_domain +:+ "/" +:+ pr_name original_to));
     ("to", VString (Principal_display original_from));
     ("scope", VString "standalone");
     ("class", VString "ack");
     ("authority", VString "advisory");
     ("ts", VString now);
     ("body", json_obj
        [("disposition", VString "failed");
         ("reason", VString (RELAY_FAILURE_REASON_PREFIX +:+ " could not relay to " +:+
            Principal_display original_to +:+ ": " +:+ detail))])]).

Definition sender_is_itself_backed (sender_name : string) (backed_names : list string) : bool :=
  iter_any (String.eqb sender_name) backed_names.

Context {W : Type} `{LB : !LocalBus W}.

Definition backed_names (registry : GatewayRegistry) : list string := (map_to_list registry).*1.

(** Replies other than [SendOk] are only logged. *)
Definition notify_relay_failure (name : string) (registry : GatewayRegistry) (original : Value)
    (own_domain detail : string) (fresh : Fresh) (w : W) : W :=
  letsome raw := get_str original "from" orelse w in
  letok from := Principal_from_str raw orelse w in
  let original_from_name := pr_name from in
  if sender_is_itself_backed original_from_name (backed_names registry) then w else
  letok ack := build_relay_failure_ack original own_domain detail (fr_now fresh) (fr_id fresh)
    orelse w in
  letsome conn := registry !! name orelse w in
  (send_recv w conn (Send (TgtAgent original_from_name) ack)).1.

(** ** The drain loop: [run_egress] *)
Definition drained (reply : result BusReply GatewayError) : list StampedEnvelope :=
  match reply with
  | Ok (AwaitOk envelopes _ _) => envelopes
  | _ => []
  end.

(** [debug] is the [Debug] text of the error; [fresh] is indexed by the
    envelope's place in the batch. *)
Fixpoint relay_batch (peers : gmap Principal string) (debug : RelayError -> string)
    (name : string) (registry : GatewayRegistry) (own_domain : string) (sk : FampSigningKey)
    (vk : TrustedVerifyingKey) (fresh : nat -> Fresh) (envelopes : list Value)
    (net : Net) (w : W) : Net * W :=
  match envelopes with
  | [] => (net, w)
  | envelope :: rest =>
      let '(envelope, net, r) := relay_one peers own_domain sk vk (fresh O) envelope net in
      let w := match r with
               | Ok _ => w
               | Err e =>
                   notify_relay_failure name registry envelope own_domain (debug e) (fresh O) w
               end in
      relay_batch peers debug name registry own_domain sk vk (fun i => fresh (S i)) rest net w
  end.

(** One turn of the loop; [None] once the principal is no longer backed.  The
    origin stamp stays behind. *)
Definition egress_turn (peers : gmap Principal string) (debug : RelayError -> string)
    (name : string) (registry : GatewayRegistry) (own_domain : string) (sk : FampSigningKey)
    (vk : TrustedVerifyingKey) (fresh : nat -> Fresh) (net : Net) (w : W) : option (Net * W) :=
  letsome conn := registry !! name orelse None in
  let '(w, reply) := send_recv w conn (Await AWAIT_TIMEOUT_MS None) in
  Some (relay_batch peers debug name registry own_domain sk vk fresh
          (map st_envelope (drained reply)) net w).
End relay.
