(* ===== verification/EgressProps.v ===== *)
(** * What the gateway's egress sends

    The gateway signs for its own domain only and changes nothing but the
    federation fields; what it sends, a peer's ingress with the right keyring
    delivers as the original envelope; and a failure is reported to the local
    sender. *)

From Stdlib Require Import Strings.Byte Ascii.
From stdpp Require Import gmap pretty strings list.
From S2P Require Import Prelude Json Proto Mailbox Origin WireInstance Serde Codec Crypto Principal.
From S2P Require Import Fsm Core Derive Body BodyProps Envelope EnvelopeProps DrainWalk Authorship.
From S2P Require Import BrokerState Awaiting Handle BrokerInv Scenario Executor BrokerProps.
From S2P Require Import SessionProps Delivery InboxReader Clock NonceTable Guard GuardProps Keyring.
From S2P Require Import Ingress IngressProps Transport Egress.

(** ** The gateway's clock text *)
Record civil_ok (c : Civil) : Prop := {
  co_year : (cv_year c < 10000)%N; co_month : (cv_month c < 100)%N; co_day : (cv_day c < 100)%N;
  co_hour : (cv_hour c < 100)%N; co_minute : (cv_minute c < 100)%N;
  co_second : (cv_second c < 100)%N }.

Lemma digit_is_digit n : is_digit (digit n) = true.
Proof. unfold digit. apply pretty_char_digit. pose proof (N.mod_lt n 10). lia. Qed.

(** The clock text of any reading before the year 10000 is canonical, so the
    keyring never answers that it is not. *)
Lemma now_is_canonical c : civil_ok c -> is_canonical_utc (now_canonical_utc c) = true.
Proof.
  intros [Hy Hmo Hd Hh Hmi Hs]. unfold now_canonical_utc, pad2, pad4.
  rewrite !(proj2 (N.ltb_lt _ _)) by done. unfold is_canonical_utc, canonical_utc_shape.
  simpl. by rewrite !digit_is_digit.
Qed.

(** ** Objects the gateway writes *)
Section federated.
Context `{WL : WireLib} `{CL : CryptoLib}.

Definition owned_free (obj : list (string * Value)) : Prop :=
  forall k, In k FEDERATION_OWNED_FIELDS -> obj_get k obj = None.

Lemma supplied_none obj : supplied_fields (VObject obj) = [] <-> owned_free obj.
Proof.
  unfold supplied_fields, owned_free. cbn [as_object]. split.
  - intros H k Hk. destruct (obj_get k obj) as [v|] eqn:E; [|done]. exfalso.
    assert (In k []) as []. rewrite <- H. apply filter_In. by rewrite E.
  - intros H. induction FEDERATION_OWNED_FIELDS as [|k ks IH]; [done|]. simpl.
    rewrite (H k) by (by left). simpl. apply IH. intros q Hq. apply H. by right.
Qed.

Lemma federated_get k obj from to vk nonce expiry :
  obj_get k (federated obj from to vk nonce expiry) =
  if String.eqb k "expiry" then Some (VString expiry)
  else if String.eqb k "nonce" then Some (VString nonce)
  else if String.eqb k "sender_key_id" then Some (VString (key_id vk))
  else if String.eqb k "to_domain" then Some (VString (pr_authority to))
  else if String.eqb k "from_domain" then Some (VString (pr_authority from))
  else obj_get k obj.
Proof. unfold federated. by rewrite !obj_get_insert. Qed.

Lemma federated_wf obj from to vk nonce expiry :
  value_wf (VObject obj) = true -> value_wf (VObject (federated obj from to vk nonce expiry)) = true.
Proof. intros H. unfold federated. by do 5 (apply wf_at_insert; [done|]). Qed.

(** The signed object as posted. *)
Definition posted (obj : list (string * Value)) (from to : Principal) (vk : TrustedVerifyingKey)
    (nonce expiry : string) (sg : FampSignature) : list (string * Value) :=
  obj_insert "signature" (VString (sig_to_b64url sg)) (federated obj from to vk nonce expiry).

Lemma posted_wf obj from to vk nonce expiry sg :
  value_wf (VObject obj) = true ->
  value_wf (VObject (posted obj from to vk nonce expiry sg)) = true.
Proof. intros H. apply wf_at_insert; [done|]. by apply federated_wf. Qed.

(** Everything the gateway added comes off again, and nothing else does. *)
Lemma posted_stripped obj from to vk nonce expiry sg :
  keys_ascend obj = true -> owned_free obj -> obj_get "signature" obj = None ->
  without_wrapper (posted obj from to vk nonce expiry sg) = obj.
Proof.
  intros Hk Hfree Hsig. apply keys_ascend_ext; [|done|].
  - unfold without_wrapper. assert (Hs : forall keys (m : list (string * Value)),
      keys_ascend m = true -> keys_ascend (foldl (fun m k => obj_remove k m) m keys) = true).
    { clear. induction keys as [|k keys IH]; intros m Hm; [done|]. simpl. apply IH.
      by apply keys_ascend_filter. }
    apply Hs. unfold posted, federated. by do 6 apply keys_ascend_insert.
  - intros k. unfold without_wrapper. rewrite obj_get_without.
    destruct (existsb (String.eqb k) wrapper_keys) eqn:Hw.
    + apply existsb_exists in Hw as (q & Hq & ->%String.eqb_eq). simpl in Hq.
      destruct Hq as [<-|Hq]; [done|]. symmetry. apply Hfree. exact Hq.
    + unfold posted. rewrite obj_get_insert, federated_get. simpl in Hw.
      repeat (apply orb_false_iff in Hw as [? Hw]).
      by repeat match goal with H : String.eqb k _ = false |- _ => rewrite H; clear H end.
Qed.

Lemma posted_signed obj from to vk nonce expiry sg :
  obj_get "signature" obj = None ->
  obj_remove SIGNATURE_FIELD (posted obj from to vk nonce expiry sg) =
  federated obj from to vk nonce expiry.
Proof.
  intros H. apply obj_remove_insert. by rewrite federated_get.
Qed.
End federated.

(** ** Relaying one envelope *)
Section relay.
Context `{WL : WireLib} `{CL : CryptoLib} {Net : Type} `{HC : !HttpClient Net}.

Lemma parse_principal_sound obj k p :
  parse_principal_field (VObject obj) k = Ok p ->
  obj_get k obj = Some (v_principal p) /\ principal_ok p.
Proof.
  unfold parse_principal_field, get_str. cbn [get].
  destruct (obj_get k obj) as [[]|]; try done. simpl.
  destruct (Principal_from_str s) as [q|] eqn:E; [|done]. intros [= <-].
  by apply Principal_from_str_sound in E as [-> ?].
Qed.

Lemma parse_principal_complete obj k p :
  obj_get k obj = Some (v_principal p) -> principal_ok p ->
  parse_principal_field (VObject obj) k = Ok p.
Proof.
  intros Hg Hp. unfold parse_principal_field. rewrite (get_str_principal _ _ _ Hg). cbv iota beta.
  by rewrite Principal_from_str_display.
Qed.

(** A relay that reached the network. *)
Record relayed (own_domain : string) (sk : FampSigningKey) (vk : TrustedVerifyingKey)
    (fresh : Fresh) (obj : list (string * Value)) (from to : Principal) (body : bytes) : Prop := {
  rl_from : obj_get "from" obj = Some (v_principal from) /\ principal_ok from;
  rl_to : obj_get "to" obj = Some (v_principal to) /\ principal_ok to;
  rl_own : pr_authority from = own_domain;
  rl_free : owned_free obj;
  rl_body : exists raw sg, fr_expiry fresh = Ok raw /\
    sign_value sk (VObject (federated obj from to vk (fr_nonce fresh) (strip_subseconds raw))) = Ok sg /\
    to_vec (VObject (posted obj from to vk (fr_nonce fresh) (strip_subseconds raw) sg)) = Ok body }.

Lemma relay_one_cases peers own_domain sk vk fresh obj net env' net' r :
  obj_get "signature" obj = None ->
  relay_one peers own_domain sk vk fresh (VObject obj) net = (env', net', r) ->
  (net' = net /\ exists e, r = Err e) \/
  exists from to body, relayed own_domain sk vk fresh obj from to body /\
    http_send peers net (mkTransportMessage from to body) = (net', snd (http_send peers net (mkTransportMessage from to body))) /\
    r = map_err RlTransport (snd (http_send peers net (mkTransportMessage from to body))).
Proof.
  intros Hsig. unfold relay_one.
  destruct (parse_principal_field (VObject obj) "from") as [from|] eqn:Hf; [|intros [= <- <- <-]; eauto].
  destruct (parse_principal_field (VObject obj) "to") as [to|] eqn:Ht; [|intros [= <- <- <-]; eauto].
  apply parse_principal_sound in Hf, Ht.
  destruct (String.eqb_spec (pr_authority from) own_domain) as [Hd|]; [|intros [= <- <- <-]; eauto].
  case_bool_decide as Hs; [|intros [= <- <- <-]; eauto]. apply supplied_none in Hs. simpl negb. cbv iota.
  unfold sign_federation_fields. cbn [as_object]. rewrite Hsig. cbn [is_some].
  destruct (fr_expiry fresh) as [raw|] eqn:Hx; simpl federation_expiry; cbv iota beta;
    [|intros [= <- <- <-]; eauto].
  destruct (sign_value sk _) as [sg|] eqn:Hsg; [|intros [= <- <- <-]; eauto].
  destruct (to_vec _) as [body|] eqn:Hb; [|intros [= <- <- <-]; eauto].
  destruct (http_send peers net (mkTransportMessage from to body)) as [n q] eqn:Hh.
  intros [= <- <- <-]. right. exists from, to, body. rewrite Hh. simpl. split_and!; try done.
  split; try done. exists raw, sg. done.
Qed.

Lemma relay_one_complete peers own_domain sk vk fresh obj net from to body :
  obj_get "signature" obj = None -> relayed own_domain sk vk fresh obj from to body ->
  exists env', relay_one peers own_domain sk vk fresh (VObject obj) net =
    (env', (http_send peers net (mkTransportMessage from to body)).1,
     map_err RlTransport (http_send peers net (mkTransportMessage from to body)).2).
Proof.
  intros Hsig [[Hf Hfo] [Ht Hto] Hd Hfree (raw & sg & Hx & Hsg & Hb)]. unfold relay_one.
  rewrite (parse_principal_complete obj "from" from), (parse_principal_complete obj "to" to) by done.
  rewrite Hd, String.eqb_refl, bool_decide_true by (by apply supplied_none). simpl negb. cbv iota.
  unfold sign_federation_fields. cbn [as_object]. rewrite Hsig, Hx. cbn [is_some federation_expiry].
  cbv iota beta. rewrite Hsg. fold (posted obj from to vk (fr_nonce fresh) (strip_subseconds raw) sg).
  rewrite Hb. destruct (http_send _ _ _) as [n q]. by eexists.
Qed.
End relay.

(** C22. The gateway signs for its own domain only, and changes nothing: an
    unsigned envelope that relaying put on the network names a sender in the
    gateway's own domain and carried none of the seven gateway-owned fields;
    the bytes posted to its recipient are the envelope with exactly the
    federation fields and a signature added, vouched for by the gateway's key;
    stripping them gives the envelope back. *)
Theorem egress_signs_only_its_own `{WireLaws} `{CryptoLaws} {Net} `{!HttpClient Net}
    peers own_domain sk fresh obj (net : Net) env' net' r :
  keys_ascend obj = true -> obj_get "signature" obj = None ->
  relay_one peers own_domain sk (verifying_key sk) fresh (VObject obj) net = (env', net', r) ->
  net' <> net ->
  exists from to expiry sg body url,
    obj_get "from" obj = Some (v_principal from) /\ pr_authority from = own_domain /\
    obj_get "to" obj = Some (v_principal to) /\ owned_free obj /\
    let signed := posted obj from to (verifying_key sk) (fr_nonce fresh) expiry sg in
    vouches (verifying_key sk) (VObject (obj_remove SIGNATURE_FIELD signed)) sg /\
    without_wrapper signed = obj /\ to_vec (VObject signed) = Ok body /\
    peers !! to = Some url /\ net' = (http_post net url to body).1.
Proof.
  intros Hk Hsig Hr Hne.
  apply relay_one_cases in Hr as [[? _]|(from & to & body & Hrl & Hh & _)]; [done| |done].
  destruct Hrl as [[Hf Hfo] [Ht Hto] Hd Hfree (raw & sg & Hx & Hsg & Hb)].
  unfold http_send in Hh. simpl in Hh.
  destruct (peers !! to) as [url|] eqn:Hu; [|by injection Hh as <-].
  destruct (negb (url_has_path url)); [by injection Hh as <-|].
  exists from, to, (strip_subseconds raw), sg, body, url. cbv zeta. split_and!; try done.
  - rewrite (posted_signed obj) by done. apply verify_value_vouches. by rewrite (sign_verify _ _ _ Hsg).
  - by apply posted_stripped.
  - destruct (http_post net url to body) as [n a]. destruct a as [|st]; [by injection Hh|].
    destruct (_ =? _)%N; by injection Hh.
Qed.

(** ** From one gateway to another *)

(** The peer's gateway as the network of the sending one: its router behind
    every URL, its guard and its local bus as the state. *)
Definition peer_gateway `{WireLib} `{CryptoLib} `{TimeLib} {W} `{!LocalBus W}
    (registry : GatewayRegistry) (keyring : Keyring) (own_domain now : string) :
    HttpClient (IngressGuard * W) := {|
  url_has_path _ := true;
  http_post net _ recipient body :=
    let '(guard, w, (status, slug)) :=
      gateway_router registry keyring own_domain (Principal_display recipient) body now net.1 net.2 in
    ((guard, w), HttpResponse status slug) |}.

Section link.
Context `{WL : WireLib} {WLaws : WireLaws} `{CL : CryptoLib} {CLaws : CryptoLaws} `{TL : TimeLib}.

Definition federate (from to : Principal) (vk : TrustedVerifyingKey) (nonce expiry : string)
    (B : Type) (e : UnsignedEnvelope B) : UnsignedEnvelope B :=
  with_expiry (with_nonce (with_sender_key_id (with_to_domain (with_from_domain e
    (pr_authority from)) (pr_authority to)) (key_id vk)) nonce) expiry.

Lemma accepted_federated B (BS : BodySchema B) obj (e : UnsignedEnvelope B) from to vk nonce expiry :
  shallow_validate expiry = true -> accepted obj e ->
  accepted (federated obj from to vk nonce expiry) (federate from to vk nonce expiry B e).
Proof.
  intros Hx He. unfold federated, federate. apply accepted_expiry; [done|].
  by apply accepted_nonce, accepted_sender_key_id, accepted_to_domain, accepted_from_domain.
Qed.

(** The signed timestamps order as the format check wants them. *)
Record well_timed (obj : list (string * Value)) (nonce expiry ts : string) : Prop := {
  wt_nonce : nonce <> EmptyString;
  wt_ts : obj_get "ts" obj = Some (VString ts);
  wt_ts_canonical : is_canonical_utc_form ts = true;
  wt_canonical : is_canonical_utc_form expiry = true;
  wt_later : String.leb expiry ts = false }.

Lemma federated_format_ok B (BS : BodySchema B) obj (e : UnsignedEnvelope B) from to vk nonce expiry ts sg :
  well_timed obj nonce expiry ts -> accepted obj e ->
  federation_format_ok (mkSigned (federate from to vk nonce expiry B e) sg) = true.
Proof.
  intros [Hn Hts Htc Hxc Hl] [Hr _ _ _ _]. pose proof (wr_ts _ _ Hr) as Ht.
  apply required_timestamp in Ht as [Ht _]. rewrite Hts in Ht. injection Ht as Ht.
  unfold federation_format_ok. cbn. rewrite <- Ht, Htc, Hxc, Hl, (proj2 (String.eqb_neq _ _) Hn).
  unfold is_canonical_utc_form in Hxc. apply andb_true_iff in Hxc as [Hxc _].
  by apply andb_true_iff in Hxc as [-> _].
Qed.

Lemma any_format_ok obj env from to vk nonce expiry ts sg :
  well_timed obj nonce expiry ts -> bus_typed (bus_accepted obj) env ->
  envelope_federation_format_ok (signed_of (federate from to vk nonce expiry) sg env) = true.
Proof.
  intros Hw He. destruct env as [e|e|e|e|e|e]; destruct He as (_ & _ & Ha);
    by eapply (federated_format_ok _ _ obj e).
Qed.

(** The peer verifies what was posted. *)
Lemma posted_verifies keyring obj line from to sk nonce expiry ts sg now body :
  value_wf (VObject obj) = true -> obj_get "signature" obj = None ->
  canonicalize (VObject obj) = Ok line -> is_ok (AnyBusEnvelope_decode line) = true ->
  obj_get "from" obj = Some (v_principal from) -> principal_ok from ->
  obj_get "to" obj = Some (v_principal to) -> principal_ok to ->
  well_timed obj nonce expiry ts ->
  active_key keyring from now = LkActive (verifying_key sk) ->
  sign_value sk (VObject (federated obj from to (verifying_key sk) nonce expiry)) = Ok sg ->
  to_vec (VObject (posted obj from to (verifying_key sk) nonce expiry sg)) = Ok body ->
  exists env, verify_inbound_any body keyring now = Ok env /\
    envelope_sender env = from /\ envelope_recipient env = to /\
    envelope_federation_format_ok env = true.
Proof.
  intros Hwf Hsig Hline Hbus Hf Hfo Ht Hto Hw Hk Hsg Hb.
  set (vk := verifying_key sk) in *. set (m := posted obj from to vk nonce expiry sg) in *.
  pose proof (to_vec_parse_strict _ body
    (value_wf_json _ (posted_wf obj from to vk nonce expiry sg Hwf)) Hb) as Hbody.
  fold m in Hbody.
  pose proof (canonicalize_parse_strict _ line (value_wf_json _ Hwf) Hline) as Hl.
  destruct (any_bus_sound line obj Hl Hbus) as (benv & _ & Hbt).
  assert (Hmf : forall k p, k = "from" \/ k = "to" -> obj_get k obj = Some (v_principal p) ->
    obj_get k m = Some (v_principal p)).
  { intros k p Hkk Hg. unfold m, posted. rewrite obj_get_insert, federated_get.
    by destruct Hkk as [-> | ->]. }
  assert (Hdec : AnySignedEnvelope_decode body vk =
    Ok (signed_of (federate from to vk nonce expiry) sg benv)).
  { apply (any_signed_complete _ benv obj m body vk (sig_to_b64url sg) sg); try done.
    - intros B BS e He. unfold m. rewrite (posted_signed obj) by done.
      apply accepted_federated; [|done]. pose proof (wt_canonical _ _ _ _ Hw) as Hc.
      unfold is_canonical_utc_form in Hc. apply andb_true_iff in Hc as [Hc _].
      by apply andb_true_iff in Hc as [-> _].
    - unfold m, posted. by rewrite obj_get_insert, federated_get.
    - unfold m, posted. by rewrite obj_get_insert.
    - by eapply sign_value_b64url.
    - unfold m. rewrite (posted_signed obj) by done. by apply sign_verify. }
  exists (signed_of (federate from to vk nonce expiry) sg benv). split.
  - unfold verify_inbound_any, peek_sender. rewrite Hbody. simpl map_err. cbv beta iota.
    unfold view_from. rewrite (view_principal_of m "from" from) by auto. cbv beta iota.
    unfold usable_key. rewrite Hk. cbv beta iota. by rewrite Hdec.
  - apply any_decode_sound in Hdec as (m' & Hm' & Hty). assert (m' = m) as -> by congruence.
    apply any_vouched in Hty as [[Hsf Hsfo] [Hrt Hrto] _]. split_and!.
    + eapply field_principal_inj; [done|exact Hfo|exact Hsf|auto].
    + eapply field_principal_inj; [done|exact Hto|exact Hrt|auto].
    + by eapply any_format_ok.
Qed.
End link.

Section delivery.
Context `{WL : WireLib} {WLaws : WireLaws} `{CL : CryptoLib} {CLaws : CryptoLaws} `{TL : TimeLib}.
Context {W : Type} `{LB : !LocalBus W}.

Definition peeked_of (from to : Principal) (ts nonce expiry : string) : PeekedFields :=
  mkPeeked from to ts (Some nonce) (Some expiry).

Lemma posted_peeked obj from to vk nonce expiry ts sg body :
  from_slice_strict body = Ok (VObject (posted obj from to vk nonce expiry sg)) ->
  obj_get "from" obj = Some (v_principal from) -> principal_ok from ->
  obj_get "to" obj = Some (v_principal to) -> principal_ok to ->
  obj_get "ts" obj = Some (VString ts) ->
  peek_guard_fields body = Ok (peeked_of from to ts nonce expiry).
Proof.
  intros Hb Hf Hfo Ht Hto Hts. unfold peek_guard_fields. rewrite Hb. cbn [as_object].
  unfold required_principal, required_string, optional_string, posted.
  rewrite !obj_get_insert, !federated_get. cbn -[Principal_from_str].
  rewrite Hf, Ht, Hts. cbn -[Principal_from_str].
  by rewrite !Principal_from_str_display.
Qed.

Lemma peer_accepts registry keyring obj line from to sk nonce expiry ts sg now body guard conn
    (w w' : W) task rows :
  value_wf (VObject obj) = true -> obj_get "signature" obj = None -> owned_free obj ->
  canonicalize (VObject obj) = Ok line -> is_ok (AnyBusEnvelope_decode line) = true ->
  obj_get "from" obj = Some (v_principal from) -> principal_ok from ->
  obj_get "to" obj = Some (v_principal to) -> principal_ok to ->
  well_timed obj nonce expiry ts ->
  sign_value sk (VObject (federated obj from to (verifying_key sk) nonce expiry)) = Ok sg ->
  to_vec (VObject (posted obj from to (verifying_key sk) nonce expiry sg)) = Ok body ->
  active_key keyring from now = LkActive (verifying_key sk) ->
  registry !! pr_name from = Some conn ->
  is_ok (run_cheap_gates (mkInput (peeked_of from to ts nonce expiry) now (pr_authority to) true)
           guard).2 = true ->
  send_recv w conn (Send (TgtAgent (pr_name to)) (VObject obj)) = (w', Ok (SendOk task rows)) ->
  exists guard', ingest_inbound_at registry keyring (pr_authority to) to body now guard w =
    (guard', w', Ok tt).
Proof.
  intros Hwf Hsig Hfree Hline Hbus Hf Hfo Ht Hto Hw Hsg Hb Hk Hc Hgate Hsend.
  pose proof (to_vec_parse_strict _ body
    (value_wf_json _ (posted_wf obj from to (verifying_key sk) nonce expiry sg Hwf)) Hb) as Hbody.
  destruct (posted_verifies keyring obj line from to sk nonce expiry ts sg now body)
    as (env & Hver & Hes & Her & Hfmt); [done..|].
  unfold ingest_inbound_at, admit_request.
  rewrite (posted_peeked obj from to (verifying_key sk) nonce expiry ts sg body)
    by (try done; apply (wt_ts _ _ _ _ Hw)).
  cbn [peeked_of pk_from]. rewrite Hc. cbn [is_some]. fold (peeked_of from to ts nonce expiry).
  destruct (run_cheap_gates _ guard) as [g [[]|]]; [|done]. cbn [map_err].
  unfold finish_request. rewrite Hver. unfold check_audience_and_format.
  rewrite Her, Hes, Hfmt, bool_decide_false by tauto. cbn [negb].
  rewrite (deliver_envelope_once _ _ _ _ _ _ _ Hbody Hc). unfold delivery_of.
  rewrite posted_stripped, Hsend by (try done; by eapply wf_at_ascend).
  by exists g.
Qed.
End delivery.

(** An envelope the local bus accepted, of a local sender to a valid recipient,
    and the texts one relay of it draws; signed, it fits the peer's body limit. *)
Record outbound `{WireLib} `{CryptoLib} `{TimeLib} (obj : list (string * Value)) (line : bytes)
    (from to : Principal) (sk : FampSigningKey) (fresh : Fresh) (raw ts : string) : Prop := {
  ob_wf : value_wf (VObject obj) = true;
  ob_unsigned : obj_get "signature" obj = None;
  ob_free : owned_free obj;
  ob_line : canonicalize (VObject obj) = Ok line;
  ob_bus : is_ok (AnyBusEnvelope_decode line) = true;
  ob_from : obj_get "from" obj = Some (v_principal from);
  ob_from_ok : principal_ok from;
  ob_to : obj_get "to" obj = Some (v_principal to);
  ob_to_ok : principal_ok to;
  ob_raw : fr_expiry fresh = Ok raw;
  ob_timed : well_timed obj (fr_nonce fresh) (strip_subseconds raw) ts;
  ob_size sg body :
    sign_value sk (VObject (federated obj from to (verifying_key sk) (fr_nonce fresh)
      (strip_subseconds raw))) = Ok sg ->
    to_vec (VObject (posted obj from to (verifying_key sk) (fr_nonce fresh) (strip_subseconds raw) sg))
      = Ok body -> (blen body <= ONE_MIB)%N }.

(** The receiving gateway has the key active, a stand-in, an open guard, and a
    bus that confirms the delivery, moving from [w] to [w']. *)
Record welcome `{WireLib} `{CryptoLib} `{TimeLib} {W} `{!LocalBus W} (registry : GatewayRegistry)
    (keyring : Keyring) (obj : list (string * Value)) (from to : Principal) (sk : FampSigningKey)
    (nonce expiry ts now : string) (guard : IngressGuard) (w w' : W) : Prop := {
  wc_key : active_key keyring from now = LkActive (verifying_key sk);
  wc_gates : is_ok (run_cheap_gates
    (mkInput (peeked_of from to ts nonce expiry) now (pr_authority to) true) guard).2 = true;
  wc_bus : exists conn task rows, registry !! pr_name from = Some conn /\
    send_recv w conn (Send (TgtAgent (pr_name to)) (VObject obj)) = (w', Ok (SendOk task rows)) }.

(** The body one relay posts; a gateway that welcomes it delivers the original. *)
Lemma outbound_posts `{WireLaws} `{CryptoLaws} `{TimeLib} {W} `{!LocalBus W}
    obj line from to sk fresh raw ts :
  outbound obj line from to sk fresh raw ts ->
  exists body, relayed (pr_authority from) sk (verifying_key sk) fresh obj from to body /\
    (blen body <= ONE_MIB)%N /\
    forall registry keyring now guard (w w' : W),
      welcome registry keyring obj from to sk (fr_nonce fresh) (strip_subseconds raw) ts now guard w w' ->
      exists guard', ingest_inbound_at registry keyring (pr_authority to) to body now guard w =
        (guard', w', Ok tt).
Proof.
  intros [Hwf Hsig Hfree Hline Hbus Hf Hfo Ht Hto Hx Hw Hsize].
  set (vk := verifying_key sk) in *. set (expiry := strip_subseconds raw) in *.
  pose proof (federated_wf obj from to vk (fr_nonce fresh) expiry Hwf) as Hfw.
  destruct (canonicalize_total _ (value_wf_json _ Hfw)) as [c Hcan].
  assert (exists sg, sign_value sk (VObject (federated obj from to vk (fr_nonce fresh) expiry)) = Ok sg)
    as [sg Hsg] by (unfold sign_value; rewrite Hcan; eauto).
  destruct (to_vec_total _ (value_wf_json _ (posted_wf obj from to vk (fr_nonce fresh) expiry sg Hwf))) as [body Hb].
  exists body. split_and!; [|by eapply Hsize|].
  - split; try done. by exists raw, sg.
  - intros registry keyring now guard w w' [Hk Hgate (conn & task & rows & Hc & Hsend)].
    by apply (peer_accepts registry keyring obj line from to sk (fr_nonce fresh) expiry ts sg now body
      guard conn w w' task rows).
Qed.

(** A post whose body the peer's ingress takes is a relay that succeeded. *)
Lemma peer_delivers `{WireLaws} `{CryptoLaws} `{TimeLib} {W} `{!LocalBus W}
    registry keyring peers url sk fresh obj from to body now guard guard' (w w' : W) :
  obj_get "signature" obj = None -> principal_ok to -> peers !! to = Some url ->
  relayed (pr_authority from) sk (verifying_key sk) fresh obj from to body ->
  (blen body <= ONE_MIB)%N ->
  ingest_inbound_at registry keyring (pr_authority to) to body now guard w = (guard', w', Ok tt) ->
  exists signed,
    relay_one (HC := peer_gateway registry keyring (pr_authority to) now)
      peers (pr_authority from) sk (verifying_key sk) fresh (VObject obj) (guard, w) =
    (signed, (guard', w'), Ok tt).
Proof.
  intros Hs Hto Hu Hrl Hsize Hg.
  destruct (relay_one_complete (HC := peer_gateway registry keyring (pr_authority to) now)
    peers (pr_authority from) sk (verifying_key sk) fresh obj (guard, w) from to body Hs Hrl) as [env' ->].
  unfold http_send. cbn [tm_recipient tm_bytes]. rewrite Hu. cbn [peer_gateway url_has_path http_post negb].
  unfold gateway_router. rewrite (proj2 (N.ltb_ge _ _)) by done. cbn [fst snd].
  unfold inbox_handler. rewrite Principal_from_str_display, Hg by done. by exists env'.
Qed.

(** C11. Two gateways in a row deliver the original envelope: an envelope the
    local bus accepted, that names a sender of this gateway's domain and a
    recipient of the peer's, with a canonical timestamp, is signed, posted,
    verified and handed to the peer's bus exactly as it was, once, for the
    recipient it names, and the sending gateway sees success; provided the peer
    has the gateway's key active for that sender and a stand-in for it, its
    guard admits the fields and its bus confirms the delivery. *)
Theorem relayed_envelope_is_delivered `{WireLaws} `{CryptoLaws} `{TimeLib} {W} `{!LocalBus W}
    registry keyring peers url sk fresh obj line from to ts raw now guard (w w' : W) :
  outbound obj line from to sk fresh raw ts -> peers !! to = Some url ->
  welcome registry keyring obj from to sk (fr_nonce fresh) (strip_subseconds raw) ts now guard w w' ->
  exists signed guard',
    relay_one (HC := peer_gateway registry keyring (pr_authority to) now)
      peers (pr_authority from) sk (verifying_key sk) fresh (VObject obj) (guard, w) =
    (signed, (guard', w'), Ok tt).
Proof.
  intros Ho Hu Hw.
  destruct (outbound_posts (W := W) _ _ _ _ _ _ _ _ Ho) as (body & Hrl & Hsize & Hin).
  destruct (Hin _ _ _ _ _ _ Hw) as [guard' Hg].
  destruct (peer_delivers registry keyring peers url sk fresh obj from to body now guard guard' w w')
    as [signed Hr]; [apply Ho..|done|done|done|done|]. by exists signed, guard'.
Qed.

(** ** A concrete link *)
Definition link_obj : list (string * Value) := without_wrapper gw_obj.
Definition link_fresh : Fresh :=
  mkFresh "n2" (Ok "2026-01-01T00:05:00.123Z") gw_now 9.
Definition link_reply : World * result BusReply GatewayError :=
  process_bus (healthy (fun _ => true)) 0 wall0 w_gw 1%N
    (Send (TgtAgent "bob") (VObject link_obj)).

Lemma link_outbound :
  outbound link_obj (toy_print (VObject link_obj)) demo_from demo_to demo_key link_fresh
    "2026-01-01T00:05:00.123Z" gw_now.
Proof.
  split.
  - vm_compute. reflexivity.
  - vm_compute. reflexivity.
  - intros k Hk. destruct Hk as [<-|[<-|[<-|[<-|[<-|[<-|[<-|[]]]]]]]]; vm_compute; reflexivity.
  - vm_compute. reflexivity.
  - vm_compute. reflexivity.
  - vm_compute. reflexivity.
  - split; reflexivity.
  - vm_compute. reflexivity.
  - split; reflexivity.
  - reflexivity.
  - split; vm_compute; done.
  - intros sg body Hs Hb. vm_compute in Hs. injection Hs as <-. vm_compute in Hb.
    injection Hb as <-. vm_compute. discriminate.
Qed.

Lemma link_welcome :
  welcome (LocalBus0 := process_bus (healthy (fun _ => true)) 0 wall0) gw_registry gw_keyring link_obj
    demo_from demo_to demo_key (fr_nonce link_fresh) (strip_subseconds "2026-01-01T00:05:00.123Z")
    gw_now gw_now (guard_new 0) w_gw link_reply.1.
Proof.
  assert (exists task rows, link_reply.2 = Ok (SendOk task rows)) as (task & rows & Hr).
  { eexists _, _. vm_compute. reflexivity. }
  split.
  - vm_compute. reflexivity.
  - vm_compute. reflexivity.
  - exists 1%N, task, rows. split; [vm_compute; reflexivity|].
    rewrite <- Hr. unfold send_recv, link_reply. by destruct (process_bus _ _ _ _ _ _).
Qed.

Lemma relayed_envelope_is_delivered_witness :
  exists signed guard',
    relay_one (HC := peer_gateway (LocalBus0 := process_bus (healthy (fun _ => true)) 0 wall0)
        gw_registry gw_keyring "b.example" gw_now)
      {[demo_to := "https://b.example"]} "a.example" demo_key (verifying_key demo_key) link_fresh
      (VObject link_obj) (guard_new 0, w_gw) =
    (signed, (guard', link_reply.1), Ok tt).
Proof.
  apply (relayed_envelope_is_delivered (LocalBus0 := process_bus (healthy (fun _ => true)) 0 wall0)
    gw_registry gw_keyring {[demo_to := "https://b.example"]} "https://b.example" demo_key link_fresh
    link_obj (toy_print (VObject link_obj)) demo_from demo_to gw_now "2026-01-01T00:05:00.123Z"
    gw_now (guard_new 0) w_gw link_reply.1).
  - exact link_outbound.
  - apply lookup_singleton_eq.
  - exact link_welcome.
Defined.

(** ** Failure notices *)
Section notices.
Context `{WL : WireLib} {WLaws : WireLaws}.

Definition failure_reason (to : Principal) (detail : string) : string :=
  RELAY_FAILURE_REASON_PREFIX +:+ " could not relay to " +:+ Principal_display to +:+ ": " +:+ detail.

(** The notice is an acknowledgement the unreached recipient's name signs with
    this gateway's domain. *)
Definition failure_ack (from to : Principal) (own_domain detail now : string) (id : N) :
    UnsignedEnvelope AckBody :=
  envelope_new id (mkPrincipal own_domain (pr_name to)) from Advisory now
    (mkAckBody AdFailed (Some (failure_reason to detail))).

Lemma egress_principal_complete obj k p :
  obj_get k obj = Some (v_principal p) -> principal_ok p ->
  egress_principal (VObject obj) k = Ok p.
Proof.
  intros Hg Hp. unfold egress_principal. rewrite (get_str_principal _ _ _ Hg). cbv iota beta.
  by rewrite Principal_from_str_display.
Qed.

Lemma build_ack_is_envelope obj from to own_domain detail now id :
  obj_get "from" obj = Some (v_principal from) -> principal_ok from ->
  obj_get "to" obj = Some (v_principal to) -> principal_ok to ->
  build_relay_failure_ack (VObject obj) own_domain detail now id =
    Ok (wire_to_value (failure_ack from to own_domain detail now id)).
Proof.
  intros Hf Hfo Ht Hto. unfold build_relay_failure_ack.
  by rewrite (egress_principal_complete obj "from" from), (egress_principal_complete obj "to" to).
Qed.

Section ack.
Context (from to : Principal) (own_domain detail now : string) (id : N).
Hypothesis Hfrom : principal_ok from.
Hypothesis Hown : principal_ok (mkPrincipal own_domain (pr_name to)).
Hypothesis Hnow : shallow_validate now = true.
Hypothesis Hid : (id < 2 ^ 128)%N.

Lemma failure_ack_ok : envelope_ok (failure_ack from to own_domain detail now id).
Proof. by split. Qed.

Lemma failure_ack_wf : value_wf (wire_to_value (failure_ack from to own_domain detail now id)) = true.
Proof. reflexivity. Qed.

Lemma failure_ack_on_bus line :
  canonicalize (wire_to_value (failure_ack from to own_domain detail now id)) = Ok line ->
  is_ok (AnyBusEnvelope_decode line) = true.
Proof.
  intros Hc. set (e := failure_ack from to own_domain detail now id) in *.
  assert (Hs : from_slice_strict line = Ok (wire_to_value e)).
  { apply canonicalize_parse_strict; [apply value_wf_json, failure_ack_wf|done]. }
  unfold AnyBusEnvelope_decode. rewrite Hs. simpl map_err. cbv beta iota.
  replace (get_str (wire_to_value e) "class") with (Some "ack") by reflexivity.
  cbn -[bus_decode]. unfold bus_decode. rewrite Hs. simpl map_err. cbv beta iota.
  pose proof (wire_roundtrip e failure_ack_ok) as Hw.
  replace (as_object (wire_to_value e)) with
    (Some (foldr (fun f m => obj_insert f.1 f.2 m) [] (wire_fields e))) by reflexivity.
  cbv beta iota.
  replace (is_some (obj_get "signature" _)) with false by reflexivity.
  replace (check_version _) with (Ok (A := unit) (E := EnvelopeDecodeError) tt) by reflexivity.
  cbv beta iota. by rewrite Hw.
Qed.

Lemma failure_ack_author nm :
  is_self_authored (wire_to_value (failure_ack from to own_domain detail now id)) (Some nm) =
  String.eqb (pr_name to) nm.
Proof. by rewrite (author_check_is_principal_name _ (mkPrincipal own_domain (pr_name to))). Qed.
End ack.
End notices.

(** A failed relay is reported to the local sender: when the sender is not
    itself backed by the gateway and the envelope was drained from the mailbox
    of the recipient it names, the sender's own mailbox gains exactly one
    notice, an unsigned acknowledgement of failure from that recipient's name in
    the gateway's domain, and no other mailbox file changes. *)
Theorem failure_is_reported `{WireLaws} alive t wall registry w name conn obj from to own_domain
    detail fresh line :
  Inv (w_broker w) -> disk_whole w -> stand_ins (healthy alive) registry w ->
  registry !! name = Some conn -> registry !! pr_name from = None ->
  obj_get "from" obj = Some (v_principal from) -> principal_ok from ->
  obj_get "to" obj = Some (v_principal to) -> principal_ok to -> pr_name to = name ->
  principal_ok (mkPrincipal own_domain name) ->
  shallow_validate (fr_now fresh) = true -> (fr_id fresh < 2 ^ 128)%N ->
  let ack := wire_to_value (failure_ack from to own_domain detail (fr_now fresh) (fr_id fresh)) in
  canonicalize ack = Ok line -> (blen line <= MAX_FRAME_BYTES)%N ->
  let w' := notify_relay_failure (LB := process_bus (healthy alive) t wall)
    name registry (VObject obj) own_domain detail fresh w in
  mailbox_log w' (MbAgent (pr_name from)) = mailbox_log w (MbAgent (pr_name from)) ++ [(Gateway, ack)] /\
  (forall p, p <> mailbox_path (MbAgent (pr_name from)) -> w_files w' !! p = w_files w !! p).
Proof.
  intros HI Hd Hreg Hc Hnb Hf Hfo Ht Hto Hname Hown Hnow Hid ack Hline Hl w'. subst name.
  destruct (Hreg _ _ Hc) as (Hin & Hr & Ho).
  destruct (process_send_recv alive t wall w conn (pr_name from) ack (pr_name to) line HI Hd Hin Hr Ho)
    as (w1 & rows & Hsend & Hlog & Hother & _); try done.
  { unfold ack. rewrite failure_ack_author by done. apply String.eqb_refl. }
  { by apply (failure_ack_on_bus from to own_domain detail (fr_now fresh) (fr_id fresh)). }
  assert (w' = w1) as ->; [|done]. unfold w', notify_relay_failure.
  rewrite (get_str_principal _ _ _ Hf). cbv iota beta. rewrite Principal_from_str_display by done.
  assert (sender_is_itself_backed (pr_name from) (backed_names registry) = false) as ->.
  { apply iter_any_false. intros x (kv & -> & Hx)%list_elem_of_fmap. apply String.eqb_neq. intros E.
    destruct kv as [k c]. apply elem_of_map_to_list in Hx. simpl in E. subst k. congruence. }
  rewrite (build_ack_is_envelope obj from to), Hc by done. unfold ack in Hsend.
  unfold send_recv. by rewrite Hsend.
Qed.

Lemma failure_is_reported_witness :
  exists ack, mailbox_log (notify_relay_failure (LB := process_bus (healthy (fun _ => true)) 0 wall0)
      "alice" gw_registry
      (VObject [("from", v_principal (mkPrincipal "b.example" "bob"));
                ("to", v_principal demo_from)]) "b.example" "down" link_fresh w_gw) (MbAgent "bob") =
    mailbox_log w_gw (MbAgent "bob") ++ [(Gateway, ack)].
Proof.
  eexists. eapply (failure_is_reported (fun _ => true) 0 wall0 gw_registry w_gw "alice" 1%N
    [("from", v_principal (mkPrincipal "b.example" "bob")); ("to", v_principal demo_from)]
    (mkPrincipal "b.example" "bob") demo_from "b.example" "down" link_fresh).
  - exact w_gw_Inv.
  - apply map_Forall_empty.
  - exact gw_stand_ins.
  - reflexivity.
  - reflexivity.
  - reflexivity.
  - split; reflexivity.
  - reflexivity.
  - split; reflexivity.
  - reflexivity.
  - split; reflexivity.
  - reflexivity.
  - vm_compute. reflexivity.
  - vm_compute. reflexivity.
  - vm_compute. discriminate.
Qed.

(** Finding: the notice is built on the assumption that a mailbox holds only
    envelopes addressed to its owner, which the broker does not enforce.  When
    an envelope drained from one mailbox names another recipient, the broker
    refuses the notice as not authored by the connection that carries it: no
    mailbox file changes and the sender never learns of the failure. *)
Theorem misaddressed_failure_is_lost `{WireLaws} io t wall registry w name conn obj from to own_domain
    detail fresh :
  registry !! name = Some conn ->
  resolve_op_identity (disk_env io w) (w_broker w) conn = Ok name ->
  obj_get "from" obj = Some (v_principal from) -> principal_ok from ->
  obj_get "to" obj = Some (v_principal to) -> principal_ok to -> pr_name to <> name ->
  principal_ok (mkPrincipal own_domain (pr_name to)) ->
  w_files (notify_relay_failure (LB := process_bus io t wall)
    name registry (VObject obj) own_domain detail fresh w) = w_files w.
Proof.
  intros Hc Hr Hf Hfo Ht Hto Hname Hown. unfold notify_relay_failure.
  rewrite (get_str_principal _ _ _ Hf). cbv iota beta. rewrite Principal_from_str_display by done.
  destruct (sender_is_itself_backed _ _); [done|].
  rewrite (build_ack_is_envelope obj from to), Hc by done. unfold send_recv, process_bus.
  set (ev := Frame _ _). destruct (step io true w ev t wall) as [w1|w1|] eqn:Hs; [| |done].
  - destruct (step_files io true w ev t wall w1 Hs) as
      [E|(c & tg & e & nm & line & Hev & Hr' & Ha & _)]; [by case_match|].
    injection Hev as <- <- <-. exfalso.
    rewrite (resolve_op_identity_sim _ (w_broker w)), Hr in Hr' by apply touch_activity_sim.
    injection Hr' as <-. rewrite failure_ack_author in Ha by done.
    by apply String.eqb_eq in Ha.
  - exfalso. unfold ev, step in Hs. by destruct (call_broker _ _ _ _ _) as [[? ?]|].
Qed.

(** "bob" drains a message that is addressed to somebody else. *)
Lemma misaddressed_failure_is_lost_witness :
  w_files (notify_relay_failure (LB := process_bus (healthy (fun _ => true)) 0 wall0)
    "alice" gw_registry
    (VObject [("from", v_principal (mkPrincipal "b.example" "bob"));
              ("to", v_principal (mkPrincipal "b.example" "carol"))])
    "b.example" "down" link_fresh w_gw) = w_files w_gw.
Proof.
  apply (misaddressed_failure_is_lost (healthy (fun _ => true)) 0 wall0 gw_registry w_gw "alice" 1%N
    [("from", v_principal (mkPrincipal "b.example" "bob"));
     ("to", v_principal (mkPrincipal "b.example" "carol"))]
    (mkPrincipal "b.example" "bob") (mkPrincipal "b.example" "carol") "b.example" "down" link_fresh).
  - reflexivity.
  - vm_compute. reflexivity.
  - reflexivity.
  - split; reflexivity.
  - reflexivity.
  - split; reflexivity.
  - discriminate.
  - split; reflexivity.
Qed.

Definition link_turn :=
  relay_one (HC := peer_gateway (LocalBus0 := process_bus (healthy (fun _ => true)) 0 wall0)
      gw_registry gw_keyring "b.example" gw_now)
    {[demo_to := "https://b.example"]} "a.example" demo_key (verifying_key demo_key) link_fresh
    (VObject link_obj) (guard_new 0, w_gw).

Lemma egress_signs_only_its_own_witness :
  exists from to,
    obj_get "from" link_obj = Some (v_principal from) /\ pr_authority from = "a.example" /\
    obj_get "to" link_obj = Some (v_principal to).
Proof.
  assert (Hne : is_ok link_turn.2 = true) by (vm_compute; reflexivity).
  assert (Hfiles : (w_files link_turn.1.2.2 !! mailbox_path (MbAgent "bob")) <>
    (w_files w_gw !! mailbox_path (MbAgent "bob"))) by (vm_compute; discriminate).
  destruct (egress_signs_only_its_own
    (HttpClient0 := peer_gateway (LocalBus0 := process_bus (healthy (fun _ => true)) 0 wall0)
      gw_registry gw_keyring "b.example" gw_now)
    {[demo_to := "https://b.example"]} "a.example" demo_key link_fresh link_obj (guard_new 0, w_gw)
    link_turn.1.1 link_turn.1.2 link_turn.2) as (from & to & _ & _ & _ & _ & Hf & Ha & Ht & _).
  - vm_compute. reflexivity.
  - vm_compute. reflexivity.
  - unfold link_turn. by destruct (relay_one _ _ _ _ _ _ _) as [[? ?] ?].
  - intros E. apply Hfiles. rewrite E. reflexivity.
  - exists from, to. exact (conj Hf (conj Ha Ht)).
Defined.

Definition link_inboxes : InboxRegistry := {[demo_to := mkHttpInbox [] true]}.

Lemma server_queues_only_verified_witness :
  exists obj vk from to,
    from_slice_strict gw_bytes = Ok (VObject obj) /\ vouched vk obj from to.
Proof.
  destruct (serve gw_keyring link_inboxes (Principal_display demo_to) gw_bytes) as [[inboxes r]|] eqn:E.
  - pose proof (server_queues_only_verified gw_keyring link_inboxes _ gw_bytes inboxes r E) as H.
    assert (is_ok r = true) as Hr.
    { assert (match serve gw_keyring link_inboxes (Principal_display demo_to) gw_bytes with
        Some (_, r) => is_ok r | None => false end = true) as H0 by (vm_compute; reflexivity).
      by rewrite E in H0. }
    destruct r as [[]|]; [|discriminate Hr].
    destruct H as (obj & vk & from & to & p & queue & _ & Hs & _ & _ & Hv & _).
    exists obj, vk, from, to. exact (conj Hs Hv).
  - exfalso. assert (is_some (serve gw_keyring link_inboxes (Principal_display demo_to) gw_bytes) = true)
      as H0 by (vm_compute; reflexivity). by rewrite E in H0.
Qed.
