(* ===== verification/RelayFetchProps.v ===== *)
(** * What a poll of the relay delivers

    A granted poll hands exactly what the relay drained, byte for byte and in
    order, to the gateway's one ingest; with the egress on the other side, an
    envelope crosses the relay unchanged; and one unparseable recipient loses the
    whole batch. *)

From Stdlib Require Import Strings.Byte Ascii.
From stdpp Require Import gmap pretty strings list.
From S2P Require Import Prelude Json Proto Mailbox Origin WireInstance Serde Codec Crypto Principal.
From S2P Require Import Fsm Core Derive Body BodyProps Envelope EnvelopeProps DrainWalk Authorship.
From S2P Require Import BrokerState Awaiting Handle BrokerInv Scenario Executor BrokerProps.
From S2P Require Import SessionProps Delivery InboxReader Clock NonceTable Relay RelayProps.
From S2P Require Import Guard GuardProps Keyring Ingress IngressProps RelayFetch Transport Egress EgressProps.
Local Open Scope Z_scope.

(** ** The batch survives the wire *)
Section batch.
Context `{WL : WireLib} `{WLW : !WireLaws} `{CL : CryptoLib} `{CLW : !CryptoLaws}
  `{BR : BatchReader} `{BRL : !BatchReaderLaw}.

Lemma batch_value_wf l : json_wf (batch_value l) = true.
Proof.
  apply wf_at_json_obj; [done|]. repeat constructor. cbn [snd wf_at]. simpl. apply forallb_forall.
  intros v Hv. apply in_map_iff in Hv as ([to body] & <- & _). reflexivity.
Qed.

Lemma batch_written l : exists b, to_vec (batch_value l) = Ok b /\ read_batch b = Some l.
Proof.
  destruct (to_vec_total _ (batch_value_wf l)) as [b Hb]. exists b. split; [done|].
  apply read_batch_strict. apply to_vec_parse_strict; [apply batch_value_wf|done].
Qed.

(** An entry whose recipient is the text of a principal. *)
Definition entry_for (e : QueuedEnvelope) (pb : Principal * bytes) : Prop :=
  Principal_from_str (qe_recipient e) = Ok pb.1 /\ qe_bytes e = pb.2.

Lemma decode_entries_all l entries :
  Forall2 entry_for l entries -> decode_entries (map envelope_json l) = Ok entries.
Proof.
  induction 1 as [|e [p b] l entries [Hp Hb] _ IH]; simpl; [done|].
  simpl in Hp, Hb. by rewrite Hp, b64url_roundtrip, Hb, IH.
Qed.

Lemma decode_entries_poisoned l :
  (exists e, e ∈ l /\ is_ok (Principal_from_str (qe_recipient e)) = false) ->
  decode_entries (map envelope_json l) = Err RfBadRecipient.
Proof.
  intros (e & He & Hbad). induction l as [|x l IH]; [by apply elem_of_nil in He|]. simpl.
  destruct (Principal_from_str (qe_recipient x)) as [p|] eqn:Hp; [|done].
  rewrite b64url_roundtrip. rewrite IH; [done|].
  apply elem_of_cons in He as [->|He]; [by rewrite Hp in Hbad|done].
Qed.
End batch.

(** ** Backoff *)
Definition backoff_ok (b : N) : Prop := (RELAY_POLL_INTERVAL_MS <= b <= RELAY_FETCH_BACKOFF_MAX_MS)%N.

Lemma next_backoff_ok b : backoff_ok b -> backoff_ok (next_backoff_ms b) /\ (b <= next_backoff_ms b)%N.
Proof.
  unfold backoff_ok, next_backoff_ms, RELAY_POLL_INTERVAL_MS, RELAY_FETCH_BACKOFF_MAX_MS, u64_max. lia.
Qed.

Section polls.
Context `{WL : WireLib} `{CL : CryptoLib} `{TL : TimeLib} `{BR : BatchReader}.
Context {W : Type} `{LB : !LocalBus W} {Net : Type} `{RC : !RelayClient Net}.
Variables (registry : GatewayRegistry) (keyring : Keyring) (own_domain : string).

Lemma poll_backoff_ok sk aud nonce civil nows b net guard w :
  backoff_ok b -> backoff_ok (poll_once registry keyring own_domain sk aud nonce civil nows b net guard w).2.
Proof.
  intros Hb. apply next_backoff_ok in Hb as [Hb _]. unfold poll_once.
  destruct (sign_fetch_auth _ _ _ _ _) as [signed|]; [|done].
  destruct (relay_get net _) as [net' a]. destruct a as [|status body]; [done|].
  destruct (classify_fetch_status status); try done.
  by destruct (ingest_success_batch _ _ _ _ _ _ _).
Qed.

(** The loop never sleeps less than a second nor more than thirty. *)
Lemma relay_fetch_backoff_bounded sk base polls net guard w :
  backoff_ok (run_relay_fetch registry keyring own_domain sk base polls net guard w).2.
Proof.
  unfold run_relay_fetch. assert (backoff_ok RELAY_POLL_INTERVAL_MS) as Hb by (split; vm_compute; done).
  revert Hb. generalize RELAY_POLL_INTERVAL_MS as b. revert net guard w.
  induction polls as [|po polls IH]; intros net guard w b Hb; [done|]. simpl.
  pose proof (poll_backoff_ok sk (normalize_audience base) (po_nonce po) (po_civil po) (po_nows po) b
    net guard w Hb) as Hb'.
  destruct (poll_once _ _ _ _ _ _ _ _ _ _ _ _) as [[[net' guard'] w'] b']. by apply IH.
Qed.
End polls.

(** ** Against the relay *)
Section granted.
Context `{WL : WireLib} `{WLW : !WireLaws} `{CL : CryptoLib} `{CLW : !CryptoLaws} `{TL : TimeLib}
  `{BR : BatchReader} `{BRL : !BatchReaderLaw}.
Context {W : Type} `{LB : !LocalBus W}.
Variables (registry : GatewayRegistry) (keyring : Keyring).

(** The relay knows the gateway's key, the clocks agree within the freshness
    window, and neither the rate nor a replay stands in the way. *)
Record granted (cfg : RelayConfig) (d : string) (sk : FampSigningKey) (nonce : string) (civil : Civil)
    (st : FetchAuthState) (now : OffsetDateTime) : Prop := {
  ga_key : exists keys, domains cfg !! d = Some keys /\ verifying_key sk ∈ keys;
  ga_clock : exists t0, rfc3339_parse (format_ts civil) = Some (replace_nanosecond_0 t0) /\
    t0 <= now <= t0 + seconds 300;
  ga_sizes : forall signed, sign_fetch_auth sk (audience cfg) d nonce civil = Ok signed ->
    forall h v, (h, v) ∈ header_pairs signed -> (String.length v <= RELAY_AUTH_HEADER_MAX_BYTES)%nat;
  ga_rate : (auth_admit st d now).2 = Ok tt;
  ga_nonce : (record_nonce (auth_admit st d now).1 d nonce now).2 = Ok tt }.

Lemma sign_fetch_total sk aud d nonce civil :
  exists signed, sign_fetch_auth sk aud d nonce civil = Ok signed.
Proof.
  unfold sign_fetch_auth, sign_value.
  destruct (canonicalize_total (request_to_value (mkRequest FETCH_AUTH_TYP aud d nonce (format_ts civil))))
    as [b ->]; [reflexivity|]. by eexists.
Qed.

Lemma fetch_granted cfg d sk nonce civil st now q signed :
  granted cfg d sk nonce civil st now ->
  sign_fetch_auth sk (audience cfg) d nonce civil = Ok signed ->
  exists st', fetch_handler cfg q st d (header_get (header_pairs signed)) now =
    ((drain q d now RELAY_FETCH_MAX_BATCH).1, st',
     REnvelopes (map envelope_json (drain q d now RELAY_FETCH_MAX_BATCH).2)).
Proof.
  intros [(keys & Hk & Hin) (t0 & Hts & Hnow) Hsz Hrate Hnonce] Hs.
  destruct (signed_fetch_verifies cfg sk d nonce civil t0 now signed keys Hs Hts Hin (Hsz _ Hs) Hnow)
    as (p & Hp & Hv).
  assert (pf_nonce p = nonce) as Hn.
  { unfold sign_fetch_auth in Hs. destruct (sign_value sk _); [|done]. injection Hs as <-.
    vm_compute in Hp. by injection Hp as <-. }
  unfold fetch_handler. rewrite Hk. unfold ingest_fetch. change (header_get (header_pairs signed))
    with (fun h => obj_get h (header_pairs signed)). rewrite Hp.
  destruct (auth_admit st d now) as [st1 r1] eqn:Ha. simpl in Hrate, Hnonce. subst r1. rewrite Hv, Hn.
  destruct (record_nonce st1 d nonce now) as [st2 r2] eqn:Hr. simpl in Hnonce. subst r2.
  destruct (drain q d now RELAY_FETCH_MAX_BATCH) as [q' l]. by exists st2.
Qed.

(** A granted poll delivers the drain: the gateway ingests exactly the
    envelopes the relay took from the front of its queue, their bytes unchanged
    and in queue order, each for the recipient it was posted to, provided every
    one of those recipients is a principal's text; the relay keeps exactly the
    rest of its queue, and the next poll is a second away. *)
Lemma poll_ingests cfg d sk nonce civil nows b now q st guard w entries :
  granted cfg d sk nonce civil st now ->
  Forall2 entry_for (drain q d now RELAY_FETCH_MAX_BATCH).2 entries ->
  exists st', poll_once (RC := relay_route cfg d now) registry keyring d sk (audience cfg)
      nonce civil nows b (q, st) guard w =
    (((drain q d now RELAY_FETCH_MAX_BATCH).1, st'),
     (ingest_entries registry keyring d nows entries guard w).1,
     (ingest_entries registry keyring d nows entries guard w).2, RELAY_POLL_INTERVAL_MS).
Proof.
  intros Hg He. destruct (sign_fetch_total sk (audience cfg) d nonce civil) as [signed Hs].
  destruct (fetch_granted _ _ _ _ _ _ _ q signed Hg Hs) as [st' Hf]. exists st'.
  unfold poll_once. rewrite Hs. unfold relay_get, relay_route. simpl fst. simpl snd. rewrite Hf.
  destruct (batch_written (map envelope_json (drain q d now RELAY_FETCH_MAX_BATCH).2)) as (body & Hb & Hr).
  rewrite Hb. cbn [classify_fetch_status N.eqb Pos.eqb]. unfold ingest_success_batch, decode_fetch_batch.
  rewrite Hr, (decode_entries_all _ _ He). by destruct (ingest_entries _ _ _ _ _ _ _).
Qed.

(** Room in the queue: a post is appended; at most one batch: a poll takes all
    that has not expired. *)
Lemma enqueue_short q d recipient body t :
  (length (queue_of q d) < RELAY_QUEUE_MAX_PER_DOMAIN)%nat ->
  (enqueue q d recipient body t).1 = <[d := queue_of q d ++ [mkQueued recipient body t]]> q.
Proof. intros H. unfold enqueue. by rewrite (proj2 (Nat.leb_gt _ _)) by done. Qed.

Lemma drain_short q d l now :
  q !! d = Some l -> (length l <= RELAY_FETCH_MAX_BATCH)%nat ->
  drain q d now RELAY_FETCH_MAX_BATCH = (<[d := []]> q, retain_unexpired l now).
Proof.
  intros Hq Hl. unfold drain. rewrite Hq.
  assert (length (retain_unexpired l now) <= RELAY_FETCH_MAX_BATCH)%nat.
  { unfold retain_unexpired. etransitivity; [apply List.filter_length_le|done]. }
  rewrite Nat.min_r by done. by rewrite drop_all, firstn_all.
Qed.

Lemma ingest_entries_app d nows es es' guard w :
  ingest_entries registry keyring d nows (es ++ es') guard w =
  let '(guard', w') := ingest_entries registry keyring d nows es guard w in
  ingest_entries registry keyring d (fun i => nows (length es + i)%nat) es' guard' w'.
Proof.
  revert nows guard w. induction es as [|[r b] es IH]; intros nows guard w; [done|]. simpl.
  destruct (ingest_inbound_at _ _ _ _ _ _ _ _) as [[g1 w1] x]. apply IH.
Qed.

(** Finding: one bad path poisons a batch.  The relay accepts, from anybody,
    a post to any path that starts with "agent:", a served domain and a slash,
    whether or not the rest is a name; the gateway throws away a whole batch on
    the first recipient that is no principal, after the relay has taken it from
    the queue.  So one such post among fewer than 64 waiting envelopes makes the
    next granted poll lose them all: nothing is ingested and nothing is left. *)
Theorem poisoned_batch_is_lost cfg d sk nonce civil nows b t now q st guard w bad junk :
  granted cfg d sk nonce civil st now ->
  extract_domain bad = Some d -> is_ok (Principal_from_str bad) = false ->
  (length (queue_of q d) < RELAY_FETCH_MAX_BATCH)%nat -> whole_seconds (now - t) <= RELAY_ENTRY_TTL_SECS ->
  exists q1 q2 st',
    enqueue_handler cfg q bad junk t = (q1, RStatus 202) /\
    queue_of q1 d = queue_of q d ++ [mkQueued bad junk t] /\
    poll_once (RC := relay_route cfg d now) registry keyring d sk (audience cfg)
      nonce civil nows b (q1, st) guard w = ((q2, st'), guard, w, RELAY_POLL_INTERVAL_MS) /\
    queue_of q2 d = [].
Proof.
  intros Hg Hd Hbad Hlen Httl. pose proof (ga_key _ _ _ _ _ _ _ Hg) as (keys & Hk & _).
  set (q1 := (enqueue q d bad junk t).1).
  assert (Hq1' : q1 = <[d := queue_of q d ++ [mkQueued bad junk t]]> q).
  { apply enqueue_short. unfold RELAY_FETCH_MAX_BATCH, RELAY_QUEUE_MAX_PER_DOMAIN in *. lia. }
  assert (Hq1 : queue_of q1 d = queue_of q d ++ [mkQueued bad junk t]).
  { rewrite Hq1'. unfold queue_of at 1. by rewrite lookup_insert_eq. }
  assert (Hdr : drain q1 d now RELAY_FETCH_MAX_BATCH =
    (<[d := []]> q1, retain_unexpired (queue_of q1 d) now)).
  { apply drain_short; [by rewrite Hq1, Hq1', lookup_insert_eq|].
    rewrite Hq1, length_app. simpl. lia. }
  destruct (sign_fetch_total sk (audience cfg) d nonce civil) as [signed Hs].
  destruct (fetch_granted _ _ _ _ _ _ _ q1 signed Hg Hs) as [st' Hf].
  exists q1, (<[d := []]> q1), st'. split_and!; [|done| |].
  - unfold enqueue_handler. by rewrite Hd, Hk.
  - unfold poll_once. rewrite Hs. unfold relay_get, relay_route. simpl fst. simpl snd.
    rewrite Hf, Hdr. simpl fst. simpl snd.
    destruct (batch_written (map envelope_json (retain_unexpired (queue_of q1 d) now))) as (body & Hb & Hr).
    rewrite Hb. cbn [classify_fetch_status N.eqb Pos.eqb]. unfold ingest_success_batch, decode_fetch_batch.
    rewrite Hr, decode_entries_poisoned; [done|]. exists (mkQueued bad junk t). split; [|done].
    apply list_elem_of_In, filter_In. rewrite Hq1. split.
    + apply in_app_iff. right. by left.
    + unfold unexpired. simpl. by apply Z.leb_le.
  - unfold queue_of. by rewrite lookup_insert_eq.
Qed.

(** ** Across the relay *)
Lemma domain_of_principal p : principal_ok p -> extract_domain (Principal_display p) = Some (pr_authority p).
Proof.
  destruct p as [a n]. intros [Ha _]. unfold extract_domain, Principal_display. cbn [pr_authority pr_name].
  rewrite (strip_prefix_app "agent:"). cbn [mbind option_bind].
  change ("/" +:+ n) with (String "/" n). simpl in Ha.
  rewrite split_at_char_app by (apply valid_authority_no; auto). simpl.
  destruct (String.eqb_spec a EmptyString) as [->|]; [|done]. vm_compute in Ha. discriminate.
Qed.

(** C12. The relay is transparent: an outbound envelope posted to a relay instead
    of the peer is appended to whatever the peer's queue already holds, behind
    it, and the sender sees success. With fewer than 64 envelopes waiting, each
    of the unexpired ones for a recipient that is a principal's text, the peer's
    next granted poll within the envelope's lifetime ingests that backlog in
    order and then delivers the original envelope to its bus exactly as a direct
    post at that moment would, once, and the queue is empty; the queues of other
    domains are untouched. (A backlog of 64 or more is taken a batch per poll;
    an unparseable recipient in the batch loses it, see
    [poisoned_batch_is_lost].) *)
Theorem relay_path_delivers cfg peers url sk skb fresh obj line from to raw ts
    nonce civil nows b t now q st guard guardB (w wB w' : W) backlog :
  outbound obj line from to sk fresh raw ts -> peers !! to = Some url ->
  granted cfg (pr_authority to) skb nonce civil st now ->
  (length (queue_of q (pr_authority to)) < RELAY_FETCH_MAX_BATCH)%nat ->
  Forall2 entry_for (retain_unexpired (queue_of q (pr_authority to)) now) backlog ->
  whole_seconds (now - t) <= RELAY_ENTRY_TTL_SECS ->
  ingest_entries registry keyring (pr_authority to) nows backlog guard w = (guardB, wB) ->
  welcome registry keyring obj from to sk (fr_nonce fresh) (strip_subseconds raw) ts
    (nows (length backlog)) guardB wB w' ->
  exists signed body q1 q2 st' guard',
    relay_one (HC := relay_inlet cfg t) peers (pr_authority from) sk (verifying_key sk) fresh (VObject obj) q
      = (signed, q1, Ok tt) /\
    queue_of q1 (pr_authority to) =
      queue_of q (pr_authority to) ++ [mkQueued (Principal_display to) body t] /\
    poll_once (RC := relay_route cfg (pr_authority to) now) registry keyring (pr_authority to) skb
      (audience cfg) nonce civil nows b (q1, st) guard w = ((q2, st'), guard', w', RELAY_POLL_INTERVAL_MS) /\
    queue_of q2 (pr_authority to) = [] /\
    forall d', d' <> pr_authority to -> q1 !! d' = q !! d' /\ q2 !! d' = q !! d'.
Proof.
  intros Ho Hu Hg Hlen Hback Httl HB Hw. set (d := pr_authority to) in *.
  pose proof (ob_to_ok _ _ _ _ _ _ _ _ Ho) as Hto.
  destruct (outbound_posts (W := W) _ _ _ _ _ _ _ _ Ho) as (body & Hrl & Hsize & Hin).
  destruct (Hin _ _ _ _ _ _ Hw) as [guard' Hing].
  destruct (relay_one_complete (HC := relay_inlet cfg t) peers (pr_authority from) sk (verifying_key sk)
    fresh obj q from to body (ob_unsigned _ _ _ _ _ _ _ _ Ho) Hrl) as [env' Hrelay].
  pose proof (ga_key _ _ _ _ _ _ _ Hg) as (keys & Hk & _).
  set (e := mkQueued (Principal_display to) body t). set (q1 := <[d := queue_of q d ++ [e]]> q).
  assert (Hpost : enqueue_handler cfg q (Principal_display to) body t = (q1, RStatus 202)).
  { unfold enqueue_handler. rewrite domain_of_principal by done. fold d. rewrite Hk. simpl is_none. cbv iota.
    rewrite enqueue_short; [done|]. unfold RELAY_FETCH_MAX_BATCH, RELAY_QUEUE_MAX_PER_DOMAIN in *. lia. }
  assert (Hdr : drain q1 d now RELAY_FETCH_MAX_BATCH =
    (<[d := []]> q1, retain_unexpired (queue_of q d) now ++ [e])).
  { rewrite (drain_short q1 d (queue_of q d ++ [e])).
    - unfold retain_unexpired. rewrite List.filter_app. simpl.
      assert (unexpired now e = true) as -> by (by apply Z.leb_le). done.
    - unfold q1. by rewrite lookup_insert_eq.
    - rewrite length_app. simpl. lia. }
  destruct (poll_ingests cfg d skb nonce civil nows b now q1 st guard w (backlog ++ [(to, body)]) Hg)
    as [st' Hpoll].
  { rewrite Hdr. apply Forall2_app; [done|]. constructor; [|constructor].
    split; [by apply Principal_from_str_display|done]. }
  rewrite Hdr in Hpoll. cbn [fst snd] in Hpoll. rewrite ingest_entries_app, HB in Hpoll.
  cbn [ingest_entries] in Hpoll. rewrite Nat.add_0_r in Hpoll. fold d in Hing. rewrite Hing in Hpoll.
  exists env', body, q1, (<[d := []]> q1), st', guard'. split_and!; [| |exact Hpoll| |].
  - rewrite Hrelay. unfold http_send. cbn [tm_recipient tm_bytes]. rewrite Hu.
    cbn [relay_inlet url_has_path http_post negb]. rewrite (proj2 (N.ltb_ge _ _)) by done.
    by rewrite Hpost.
  - unfold q1, queue_of at 1. by rewrite lookup_insert_eq.
  - unfold queue_of. by rewrite lookup_insert_eq.
  - intros d' Hd. unfold q1. by rewrite !lookup_insert_ne by done.
Qed.
End granted.

(** ** A concrete relay path *)
Definition path_sk : FampSigningKey := mkSigningKey [x05; x06].
Definition path_cfg : RelayConfig :=
  mkConfig {["b.example" := [verifying_key path_sk]]} "https://relay.test".
Definition path_civil : Civil := mkCivil 1000 0 0 0 0 0.

Lemma path_granted :
  granted path_cfg "b.example" path_sk "p1" path_civil FetchAuthState_new (seconds 1000 + 5).
Proof.
  split.
  - exists [verifying_key path_sk]. split; [reflexivity|left].
  - exists (seconds 1000). split; [vm_compute; reflexivity|]. split; vm_compute; discriminate.
  - intros signed Hs h v Hin. vm_compute in Hs. injection Hs as <-. vm_compute in Hin.
    repeat (apply elem_of_cons in Hin as [Hin|Hin]; [injection Hin as -> ->; vm_compute; lia|]).
    by apply elem_of_nil in Hin.
  - vm_compute. reflexivity.
  - vm_compute. reflexivity.
Qed.

(** A post that is no envelope waits for bob already; it is taken first. *)
Definition path_queue : RelayQueues :=
  {["b.example" := [mkQueued "agent:b.example/bob" [x7b] (seconds 890)]]}.

Lemma relay_path_delivers_witness :
  exists signed body q1 q2 st' guard',
    relay_one (HC := relay_inlet path_cfg (seconds 900)) {[demo_to := "https://relay.test"]} "a.example"
      EnvelopeProps.demo_key (verifying_key EnvelopeProps.demo_key) link_fresh (VObject link_obj) path_queue
      = (signed, q1, Ok tt) /\
    queue_of q1 "b.example" =
      queue_of path_queue "b.example" ++ [mkQueued (Principal_display demo_to) body (seconds 900)] /\
    poll_once (RC := relay_route path_cfg "b.example" (seconds 1000 + 5))
      (LB := process_bus (healthy (fun _ => true)) 0 wall0) gw_registry gw_keyring "b.example" path_sk
      "https://relay.test" "p1" path_civil (fun _ => gw_now) RELAY_POLL_INTERVAL_MS
      (q1, FetchAuthState_new) (guard_new 0) w_gw =
    ((q2, st'), guard', link_reply.1, RELAY_POLL_INTERVAL_MS) /\ queue_of q2 "b.example" = [].
Proof.
  destruct (relay_path_delivers (LB := process_bus (healthy (fun _ => true)) 0 wall0) gw_registry gw_keyring
    path_cfg {[demo_to := "https://relay.test"]} "https://relay.test" EnvelopeProps.demo_key path_sk
    link_fresh link_obj (toy_print (VObject link_obj)) demo_from demo_to "2026-01-01T00:05:00.123Z"
    gw_now "p1" path_civil (fun _ => gw_now) RELAY_POLL_INTERVAL_MS (seconds 900) (seconds 1000 + 5)
    path_queue FetchAuthState_new (guard_new 0) (guard_new 0) w_gw w_gw link_reply.1 [(demo_to, [x7b])])
    as (signed & body & q1 & q2 & st' & guard' & H1 & H2 & H3 & H4 & _).
  - exact link_outbound.
  - apply lookup_singleton_eq.
  - exact path_granted.
  - vm_compute. lia.
  - vm_compute. repeat constructor.
  - vm_compute. discriminate.
  - vm_compute. reflexivity.
  - exact link_welcome.
  - exists signed, body, q1, q2, st', guard'. exact (conj H1 (conj H2 (conj H3 H4))).
Defined.

(** The path "agent:b.example/two words" names nobody. *)
Lemma poisoned_batch_is_lost_witness :
  exists q1 q2 st',
    enqueue_handler path_cfg {["b.example" := [mkQueued "agent:b.example/bob" gw_bytes (seconds 900)]]}
      "agent:b.example/two words" [] (seconds 950) = (q1, RStatus 202) /\
    length (queue_of q1 "b.example") = 2%nat /\
    poll_once (RC := relay_route path_cfg "b.example" (seconds 1000 + 5))
      (LB := process_bus (healthy (fun _ => true)) 0 wall0) gw_registry gw_keyring "b.example" path_sk
      "https://relay.test" "p1" path_civil (fun _ => gw_now) RELAY_POLL_INTERVAL_MS
      (q1, FetchAuthState_new) (guard_new 0) w_gw =
    ((q2, st'), guard_new 0, w_gw, RELAY_POLL_INTERVAL_MS) /\ queue_of q2 "b.example" = [].
Proof.
  destruct (poisoned_batch_is_lost (LB := process_bus (healthy (fun _ => true)) 0 wall0)
    gw_registry gw_keyring path_cfg "b.example" path_sk "p1" path_civil (fun _ => gw_now)
    RELAY_POLL_INTERVAL_MS (seconds 950) (seconds 1000 + 5)
    {["b.example" := [mkQueued "agent:b.example/bob" gw_bytes (seconds 900)]]}
    FetchAuthState_new (guard_new 0) w_gw "agent:b.example/two words" [])
    as (q1 & q2 & st' & Hp & Hq & H1 & H2).
  - exact path_granted.
  - reflexivity.
  - vm_compute. reflexivity.
  - vm_compute. lia.
  - vm_compute. discriminate.
  - exists q1, q2, st'. split; [exact Hp|]. split; [rewrite Hq; reflexivity|]. exact (conj H1 H2).
Qed.
