(* ===== verification/Client.v ===== *)
(** * The command-line client of the bus

    [crates/famp/src/cli/{identity,own_domain,util}.rs], [bus_client/mod.rs] and
    [cli/send/mod.rs]: who is speaking, the handshake, and the envelopes that
    [famp send] builds for local and remote recipients.  The environment, the
    files read and the terminal are inputs; sockets are the class [BusSocket]. *)

From Stdlib Require Import Strings.Byte Ascii.
From stdpp Require Import gmap pretty strings list.
From S2P Require Import Prelude Json Proto Origin WireInstance Crypto Principal Fsm Core Derive Body.
From S2P Require Import Envelope BrokerState Handle Executor Clock Keyring Ingress Transport Egress.

(** ** Errors *)

(** [BcIo]: whether the error is [NotFound] or [ConnectionRefused]. *)
Inductive BusClientError :=
| BcIo (absent : bool) | BcFrame | BcDecode
| BcHelloFailed (kind : BusErrorKind) (message : string)
| BcProtocolMismatch (broker_message : string)
| BcUnexpectedReply (variant : string)
| BcBrokerDidNotStart.

Inductive CliError :=
| ClNoIdentityBound | ClChannelNotIdentity (name : string)
| ClOwnDomainNotSet | ClOwnDomainInvalid (value : string) (e : ParsePrincipalError)
| ClIo
| ClSendArgsInvalid (reason : string)
| ClEnvelope (e : EnvelopeDecodeError) | ClReparse (e : string)
| ClNotRegisteredHint (name : string) | ClBrokerUnreachable
| ClBusClient (e : BusClientError) | ClUnexpected (variant : string)
| ClBusError (kind : BusErrorKind) (message : string).

(** ** Identity: [identity.rs] *)
Definition reject_channel_name (name : string) : result string CliError :=
  if String.prefix "#" name then Err (ClChannelNotIdentity name) else Ok name.

Definition TAB : ascii := "009"%char.

(** A path's components on Unix: repeated and trailing separators and inner dots
    do not count. *)
Definition path_components (s : string) : bool * list string :=
  let parts := List.filter (fun c => negb (String.eqb c EmptyString)) (split_char "/"%char s) in
  let abs := String.prefix "/" s in
  let inner l := List.filter (fun c => negb (String.eqb c ".")) l in
  (abs, match parts with
        | c :: rest => if negb abs && String.eqb c "." then c :: inner rest else inner parts
        | [] => []
        end).
Definition path_eqb (a b : string) : bool := bool_decide (path_components a = path_components b).

(** [canon] is [Path::canonicalize]. *)
Definition wires_row_name (canon : string -> option string) (cwd_raw line : string) : option string :=
  '(dir_str, name) ← split_at_char TAB line;
  if String.eqb dir_str EmptyString || String.eqb name EmptyString then None else
  let row_canon := default dir_str (canon dir_str) in
  let cwd_canon := default cwd_raw (canon cwd_raw) in
  if path_eqb row_canon cwd_canon || path_eqb dir_str cwd_raw then Some name else None.

(** [cwd] is [None] when the working directory cannot be read; [wires] the file's
    text when it can. *)
Definition lookup_wires_tsv (canon : string -> option string) (cwd wires : option string) :
    result (option string) CliError :=
  letsome cwd_raw := cwd orelse Err ClIo in
  letsome content := wires orelse Ok None in
  Ok (find_map (wires_row_name canon cwd_raw) (file_lines content)).

Definition non_empty (o : option string) : option string :=
  match o with Some EmptyString => None | o => o end.

Definition resolve_identity (canon : string -> option string) (as_flag env cwd wires : option string) :
    result string CliError :=
  match non_empty as_flag with
  | Some name => reject_channel_name name
  | None =>
      match non_empty env with
      | Some name => reject_channel_name name
      | None =>
          try found := lookup_wires_tsv canon cwd wires in
          match found with
          | Some name => reject_channel_name name
          | None => Err ClNoIdentityBound
          end
      end
  end.

(** ** The own domain: [own_domain.rs] *)

(** [str::trim]: a suffix of UTF-8 text that is all white space starts at a
    character, since no continuation byte starts a white space character. *)
Fixpoint trim_end (s : string) : string :=
  match s with
  | EmptyString => EmptyString
  | String c rest =>
      if String.eqb (trim_start s) EmptyString then EmptyString else String c (trim_end rest)
  end.
Definition trim (s : string) : string := trim_end (trim_start s).

(** The file's reading: absent, unreadable, or its text. *)
Inductive TextFile := TfMissing | TfError | TfText (contents : string).

Definition read_own_domain_file (file : TextFile) : result (option string) CliError :=
  match file with
  | TfText contents =>
      let first_line := trim (default EmptyString (head (file_lines contents))) in
      Ok (if String.eqb first_line EmptyString then None else Some first_line)
  | TfMissing => Ok None
  | TfError => Err ClIo
  end.

Definition validate_own_domain (value : string) : result unit CliError :=
  match Principal_from_str ("agent:" +:+ value +:+ "/x") with
  | Ok _ => Ok tt
  | Err e => Err (ClOwnDomainInvalid value e)
  end.

Definition resolve_own_domain (cli_domain env : option string) (file : TextFile) :
    result string CliError :=
  try raw := match cli_domain with
             | Some v => Ok v
             | None =>
                 match env with
                 | Some v => Ok v
                 | None =>
                     try found := read_own_domain_file file in
                     letsome v := found orelse Err ClOwnDomainNotSet in Ok v
                 end
             end in
  try _ := validate_own_domain raw in
  Ok raw.

(** ** Channels: [util.rs] *)
Definition normalize_channel (input : string) : result string CliError :=
  let normalized := if String.prefix "#" input then input else "#" +:+ input in
  if String.prefix "##" normalized
  then Err (ClSendArgsInvalid ("channel name '" +:+ input +:+ "' cannot start with ##"))
  else if negb (channel_re_is_match normalized)
  then Err (ClSendArgsInvalid ("invalid channel name '" +:+ normalized +:+
         "': must match ^#[a-z0-9][a-z0-9_-]{0,31}$"))
  else Ok normalized.

(** ** The handshake: [bus_client/mod.rs] *)
Definition classify_hello_reply (reply : BusReply) : result unit BusClientError :=
  match reply with
  | HelloOk _ => Ok tt
  | HelloErr BrokerProtoMismatch message => Err (BcProtocolMismatch message)
  | HelloErr kind message | ReplyErr kind message => Err (BcHelloFailed kind message)
  | other => Err (BcUnexpectedReply (variant_name other))
  end.

(** A socket to the broker: [open] is spawning, connecting and retrying;
    [request] one frame out and one in. *)
Class BusSocket (W : Type) := {
  sock_open : W -> W * result ClientId BusClientError;
  sock_request : W -> ClientId -> BusMessage -> W * result BusReply BusClientError;
  sock_shutdown : W -> ClientId -> W }.

Definition CLIENT_NAME : string := "famp-cli/1.1.0-rc.2".

(** Dropping the stream of a failed handshake closes the socket. *)
Definition connect {W} `{BusSocket W} (w : W) (bind_as : option string) :
    W * result ClientId BusClientError :=
  let '(w, opened) := sock_open w in
  trying conn := opened catch e => (w, Err e) in
  let '(w, reply) := sock_request w conn (Hello BUS_PROTO_VERSION CLIENT_NAME bind_as) in
  trying reply := reply catch e => (sock_shutdown w conn, Err e) in
  trying _ := classify_hello_reply reply catch e => (sock_shutdown w conn, Err e) in
  (w, Ok conn).

(** The broker process behind the socket. *)
#[export] Instance process_socket `{WireLib} (io : Io) (now : Instant) (wall : WallClock) :
    BusSocket World := {|
  sock_open w :=
    match step io true w Accept now wall with
    | Running w' => (w', Ok (w_next_id w))
    | Exited w' => (w', Err (BcIo false))
    | Panicked => (w, Err (BcIo false))
    end;
  sock_request w conn msg :=
    let '(w, reply) := process_bus io now wall w conn msg in (w, map_err (fun _ => BcIo false) reply);
  sock_shutdown w conn :=
    match step io true w (ConnClosed conn) now wall with Running w' | Exited w' => w' | Panicked => w end |}.
