(* ===== verification/ClientSend.v ===== *)
(** * [famp send]

    [crates/famp/src/cli/send/mod.rs]: argument checks, the mode-tagged payload,
    the local and the remote envelope, and the exchange with the broker. *)

From Stdlib Require Import Strings.Byte Ascii.
From stdpp Require Import gmap pretty strings list.
From S2P Require Import Prelude Json Proto Origin WireInstance Crypto Principal Fsm Core Derive Body.
From S2P Require Import Envelope BrokerState Handle Executor Clock Keyring Ingress Transport Egress Client.

(** ** Arguments and outcome *)
Record SendArgs := mkSendArgs {
  sa_to : option string; sa_channel : option string; sa_new_task : option string;
  sa_task : option string; sa_terminal : bool; sa_body : option string;
  sa_more_coming : bool; sa_act_as : option string; sa_domain : option string }.

Record DeliveredRow := mkDeliveredRow {
  dr_to_kind : string; dr_to_name : string; dr_ok : bool; dr_woken : bool;
  dr_wake_addr : option string }.
Record SendOutcome := mkSendOutcome {
  so_task_id : string; so_thread_task_id : option string; so_delivered : string;
  so_delivered_rows : list DeliveredRow }.

(** What one send draws: a version 7 UUID and the formatted clock. *)
Record SendFresh := mkSendFresh { sf_id : N; sf_rfc3339 : result string string }.

(** What one send reads: the resolver's inputs and the own-domain sources; home
    is missing when neither FAMP_HOME nor HOME is set. *)
Record SendEnv := mkSendEnv {
  en_canon : string -> option string; en_identity : option string; en_cwd : option string;
  en_wires : option string; en_has_home : bool; en_own_domain : option string;
  en_own_domain_file : TextFile }.

Definition invalid {A} (reason : string) : result A CliError := Err (ClSendArgsInvalid reason).

(** ** Payload and envelopes *)
Definition send_mode (args : SendArgs) : option string :=
  match is_some (sa_new_task args), is_some (sa_task args), sa_terminal args, is_some (sa_channel args) with
  | true, false, false, _ => Some "new_task"
  | false, true, true, _ => Some "deliver_terminal"
  | false, true, false, _ => Some "deliver"
  | false, false, false, true => Some "channel_post"
  | _, _, _, _ => None
  end.

Definition build_inner_payload (args : SendArgs) : result Value CliError :=
  letsome mode := send_mode args
    orelse invalid "exactly one of --new-task / --task is required (or use --channel for a bare channel post)" in
  Ok (json_obj (
    [("mode", VString mode)] ++ field_opt "summary" VString (sa_new_task args) ++
    field_opt "task" VString (sa_task args) ++ field_opt "body" VString (sa_body args) ++
    (if sa_terminal args then [("terminal", VBool true)] else []) ++
    (if sa_more_coming args then [("more_coming", VBool true)] else []))).

Definition fresh_ts (fresh : SendFresh) : result string CliError :=
  match sf_rfc3339 fresh with
  | Ok ts => Ok (strip_subseconds ts)
  | Err e => invalid ("failed to format envelope ts: " +:+ e)
  end.

(** [trim_start_matches('#')]. *)
Fixpoint trim_hashes (s : string) : string :=
  match s with
  | String c rest => if Ascii.eqb c "#"%char then trim_hashes rest else s
  | EmptyString => EmptyString
  end.

Definition local_to (target : Target) : string :=
  match target with
  | TgtAgent nm => "agent:local.bus/" +:+ nm
  | TgtChannel nm => "agent:local.bus/channel-" +:+ trim_hashes nm
  end.

Section send.
Context `{WL : WireLib} `{CL : CryptoLib}.

Definition build_local_envelope_value (args : SendArgs) (identity : string) (target : Target)
    (fresh : SendFresh) : result Value CliError :=
  try inner := build_inner_payload args in
  try ts := fresh_ts fresh in
  let event := match send_mode args with Some m => "famp.send." +:+ m | None => "famp.send" end in
  Ok (json_obj (
    [("famp", VString "0.5.2"); ("class", VString "audit_log"); ("scope", VString "standalone");
     ("id", VString (uuid_to_string (sf_id fresh)));
     ("from", VString ("agent:local.bus/" +:+ identity)); ("to", VString (local_to target));
     ("authority", VString "advisory"); ("ts", VString ts);
     ("body", json_obj [("event", VString event); ("details", inner)])] ++
    field_opt "causality" (fun task => json_obj [("rel", VString "delivers"); ("ref", VString task)])
      (sa_task args))).

Definition THROWAWAY_SIGN_SEED : bytes := replicate 32 x2a.

Definition two_key_bounds : Bounds :=
  mkBounds None (Some (mkBudget "0" "usd")) (Some 8%N) None None None None None.

Definition sign_then_strip {B} `{BodySchema B} (env : UnsignedEnvelope B) : result Value CliError :=
  try signed := map_err ClEnvelope (sign env (mkSigningKey THROWAWAY_SIGN_SEED)) in
  try body := map_err ClEnvelope (encode signed) in
  try value := map_err ClReparse (from_slice body) in
  Ok (match value with VObject obj => VObject (obj_remove "signature" obj) | v => v end).

Definition parse_task_id (task : string) : result N CliError :=
  match MessageId_from_str task with
  | Some id => Ok id
  | None => invalid ("invalid --task id '" +:+ task +:+ "': expected a UUIDv7")
  end.

Definition with_causality {B} (c : Causality) (e : UnsignedEnvelope B) : UnsignedEnvelope B :=
  mkEnvelope (ue_famp e) (ue_id e) (ue_from e) (ue_to e) (ue_scope e) (ue_class e) (Some c)
    (ue_authority e) (ue_ts e) (ue_terminal_status e) (ue_idempotency_key e) (ue_extensions e)
    (ue_from_domain e) (ue_to_domain e) (ue_sender_key_id e) (ue_nonce e) (ue_expiry e)
    (ue_capability e) (ue_approval e) (ue_body e).
Definition with_terminal_status {B} (t : TerminalStatus) (e : UnsignedEnvelope B) : UnsignedEnvelope B :=
  mkEnvelope (ue_famp e) (ue_id e) (ue_from e) (ue_to e) (ue_scope e) (ue_class e) (ue_causality e)
    (ue_authority e) (ue_ts e) (Some t) (ue_idempotency_key e) (ue_extensions e)
    (ue_from_domain e) (ue_to_domain e) (ue_sender_key_id e) (ue_nonce e) (ue_expiry e)
    (ue_capability e) (ue_approval e) (ue_body e).

(** The three typed shapes of a remote send. *)
Definition remote_request (id : N) (from to : Principal) (ts summary : string) :
    UnsignedEnvelope RequestBody :=
  envelope_new id from to Advisory ts (mkRequestBody (VObject []) two_key_bounds (Some summary)).
Definition remote_commit (id : N) (from to : Principal) (ts : string) (task : N) (body : option string) :
    UnsignedEnvelope CommitBody :=
  with_causality (mkCausality Commits task)
    (envelope_new id from to CommitLocal ts
      (mkCommitBody (VObject []) None two_key_bounds [] None None
         (json_obj [("type", VString "final_delivery")]) None body)).
Definition remote_deliver (id : N) (from to : Principal) (ts : string) (task : N) (body : option string) :
    UnsignedEnvelope DeliverBody :=
  with_terminal_status TsCompleted (with_causality (mkCausality Delivers task)
    (envelope_new id from to Advisory ts
      (mkDeliverBody false None ((fun b => json_obj [("text", VString b)]) <$> body) None None
         (Some (json_obj [("signer", VString (Principal_display from))])) None))).

Definition build_remote_envelope_value (env : SendEnv) (args : SendArgs) (identity : string)
    (to : Principal) (fresh : SendFresh) : result Value CliError :=
  try own_domain := resolve_own_domain (sa_domain args) (en_own_domain env) (en_own_domain_file env) in
  letok from := Principal_from_str ("agent:" +:+ own_domain +:+ "/" +:+ identity)
    orelse invalid "failed to build a valid `from` principal" in
  try ts := fresh_ts fresh in
  match sa_new_task args, sa_task args, sa_terminal args with
  | Some summary, None, false => sign_then_strip (remote_request (sf_id fresh) from to ts summary)
  | None, Some task, false =>
      try task_id := parse_task_id task in
      sign_then_strip (remote_commit (sf_id fresh) from to ts task_id (sa_body args))
  | None, Some task, true =>
      try task_id := parse_task_id task in
      sign_then_strip (remote_deliver (sf_id fresh) from to ts task_id (sa_body args))
  | _, _, _ => invalid "exactly one of --new-task / --task is required for a remote send"
  end.

Definition build_envelope_value (env : SendEnv) (args : SendArgs) (identity : string)
    (target : Target) (remote : option Principal) (fresh : SendFresh) : result Value CliError :=
  match remote with
  | Some principal => build_remote_envelope_value env args identity principal fresh
  | None => build_local_envelope_value args identity target fresh
  end.

(** ** The command *)
Definition remote_of (args : SendArgs) : result (option Principal) CliError :=
  letsome raw := sa_to args orelse Ok None in
  match Principal_from_str raw with
  | Ok p => Ok (Some p)
  | Err e =>
      if String.prefix "agent:" raw
      then invalid ("'" +:+ raw +:+ "' looks like a remote principal but failed to parse")
      else Ok None
  end.

Definition target_of (args : SendArgs) (remote : option Principal) : result Target CliError :=
  match sa_to args, sa_channel args with
  | Some nm, None => Ok (TgtAgent (match remote with Some p => pr_name p | None => nm end))
  | None, Some ch => result_map TgtChannel (normalize_channel ch)
  | Some _, Some _ => invalid "--to and --channel are mutually exclusive"
  | None, None => invalid "exactly one of --to or --channel is required"
  end.

Definition target_is_hash (target : Target) : bool :=
  match target with TgtAgent nm => String.prefix "#" nm | TgtChannel _ => false end.

(** Steps 1 to 6: everything before the socket is opened. *)
Definition prepare_send (env : SendEnv) (args : SendArgs) (fresh : SendFresh) :
    result (string * Target * Value) CliError :=
  try identity := resolve_identity (en_canon env) (sa_act_as args) (en_identity env) (en_cwd env)
    (en_wires env) in
  if String.prefix "#" identity then
    invalid ("'" +:+ identity +:+ "' looks like a channel name; identities must not start with '#'") else
  if sa_more_coming args && negb (is_some (sa_new_task args)) then
    invalid "--more-coming is only valid with --new-task" else
  try remote := remote_of args in
  try target := target_of args remote in
  if target_is_hash target then
    invalid "the target looks like a channel name; pass channel= instead of peer=" else
  if is_some remote && negb (en_has_home env) then Err ClIo else
  try envelope := build_envelope_value env args identity target remote fresh in
  Ok (identity, target, envelope).

Definition delivered_row (d : Delivered) : DeliveredRow :=
  let '(kind, nm) := match dv_to d with
                     | TgtAgent nm => ("agent", nm) | TgtChannel nm => ("channel", nm) end in
  mkDeliveredRow kind nm (dv_ok d) (dv_woken d) (dv_wake_addr d).

Definition connect_error (identity : string) (e : BusClientError) : CliError :=
  match e with
  | BcHelloFailed NotRegistered _ => ClNotRegisteredHint identity
  | BcIo _ | BcBrokerDidNotStart => ClBrokerUnreachable
  | e => ClBusClient e
  end.

(** [debug] is the [Debug] text of the delivered rows. *)
Definition send_outcome (debug : list Delivered -> string) (identity : string) (args : SendArgs)
    (reply : BusReply) : result SendOutcome CliError :=
  match reply with
  | SendOk task_id delivered =>
      Ok (mkSendOutcome (uuid_to_string task_id) (sa_task args) (debug delivered)
            (map delivered_row delivered))
  | ReplyErr NotRegistered _ => Err (ClNotRegisteredHint identity)
  | ReplyErr kind message => Err (ClBusError kind message)
  | other => Err (ClUnexpected (variant_name other))
  end.

(** A failed request drops the connection, which closes the socket too. *)
Definition run_at_structured {W} `{BusSocket W} (debug : list Delivered -> string) (env : SendEnv)
    (args : SendArgs) (fresh : SendFresh) (w : W) : W * result SendOutcome CliError :=
  trying prepared := prepare_send env args fresh catch e => (w, Err e) in
  let '(identity, target, envelope) := prepared in
  let '(w, bus) := connect w (Some identity) in
  trying conn := bus catch e => (w, Err (connect_error identity e)) in
  let '(w, reply) := sock_request w conn (Send target envelope) in
  let w := sock_shutdown w conn in
  trying reply := reply catch e => (w, Err (ClBusClient e)) in
  (w, send_outcome debug identity args reply).

(** The JSON line on stdout. *)
Definition outcome_to_json_line (o : SendOutcome) : Value :=
  json_obj ([("task_id", VString (so_task_id o))] ++
    field_opt "thread_task_id" VString (so_thread_task_id o) ++
    [("delivered", VString (so_delivered o))]).
End send.
