(* ===== verification/ClientSendProps.v ===== *)
(** * What [famp send] promises

    A one-shot client on the broker process: its handshake, one request and its
    departure; the local and remote envelopes it builds are what the bus
    accepts from that identity; and a remote send, carried by two gateways,
    lands in the peer's mailbox. *)

From Stdlib Require Import Strings.Byte Ascii.
From stdpp Require Import gmap pretty strings list.
From S2P Require Import Prelude Json Proto Mailbox Origin WireInstance Serde Codec Crypto Principal.
From S2P Require Import Fsm Core Derive Body BodyProps Envelope EnvelopeProps DrainWalk Authorship.
From S2P Require Import BrokerState Awaiting Handle BrokerInv Scenario Executor BrokerProps.
From S2P Require Import SessionProps Lifecycle Delivery Process InboxReader Clock NonceTable Guard.
From S2P Require Import GuardProps Keyring Ingress IngressProps Transport Egress EgressProps.
From S2P Require Import Client ClientSend.

(** ** A one-shot session on the broker process *)

(** A running broker over whole mailbox files. *)
Record running (w : World) : Prop := {
  rn_inv : Inv (w_broker w); rn_ids : ids_below w; rn_disk : disk_whole w }.

(** The origin the broker holds for the session registered under [nm]. *)
Definition session_origin (w : World) (nm : string) : Origin :=
  match canonical_holder_id (w_broker w) nm with
  | Some h => client_origin (w_broker w) h
  | None => Unknown
  end.

Section session.
Context `{WL : WireLib} {WLaws : WireLaws} (alive : N -> bool) (now : Instant) (wall : WallClock).
#[local] Existing Instance process_socket.

Lemma fresh_id_unknown w :
  running w -> clients (w_broker w) !! w_next_id w = None /\
  pending_awaits (w_broker w) !! w_next_id w = None.
Proof.
  intros [HI [Hc _] _].
  assert (Hn : clients (w_broker w) !! w_next_id w = None).
  { destruct (clients (w_broker w) !! w_next_id w) eqn:E; [|done].
    specialize (Hc (w_next_id w)). rewrite E in Hc. specialize (Hc (mk_is_Some _ _ eq_refl)). lia. }
  split; [done|]. destruct (pending_awaits (w_broker w) !! w_next_id w) eqn:E; [|done].
  apply (inv_pending _ HI) in E as (c & Hc' & _). congruence.
Qed.

(** The process after it accepted a connection and answered its Hello. *)
Definition greeted (w : World) (nm : string) : World :=
  with_sent (w_sent w ++ [(w_next_id w, HelloOk BUS_PROTO_VERSION)])
    (with_broker (set_clients (<[w_next_id w := fresh_client (Some nm) wall]>) (w_broker w))
      (with_senders ({[w_next_id w]} ∪ w_senders w)
        (with_clients_idle (w_client_count w + 1) (w_next_id w + 1) false w))).

Lemma connect_proxy io w nm :
  running w -> proxy_holder_alive (disk_env io w) (w_broker w) nm = true ->
  connect (H := process_socket io now wall) w (Some nm) = (greeted w nm, Ok (w_next_id w)).
Proof.
  intros Hr Hp. destruct (fresh_id_unknown w Hr) as [Hn _].
  unfold connect. simpl. unfold process_bus. simpl. unfold call_broker. simpl.
  unfold handle_wire. simpl. rewrite Hn. simpl. unfold hello. simpl.
  change (disk_env io (with_senders _ _)) with (disk_env io w). rewrite Hp. simpl.
  unfold deliver. simpl. rewrite bool_decide_true by set_solver. simpl.
  by rewrite first_reply_last.
Qed.


(** The holder answers for its proxy, so the proxy speaks under its name. *)
Lemma greeted_ready w nm :
  running w -> proxy_holder_alive (disk_env (healthy alive) w) (w_broker w) nm = true ->
  let w1 := greeted w nm in
  Inv (w_broker w1) /\ resolve_op_identity (disk_env (healthy alive) w1) (w_broker w1) (w_next_id w) = Ok nm /\
  client_origin (w_broker w1) (w_next_id w) = session_origin w nm.
Proof.
  intros Hr Hp. cbv zeta. destruct (fresh_id_unknown w Hr) as [Hn _].
  destruct Hr as [HI _ _].
  assert (HI1 : Inv (w_broker (greeted w nm))).
  { change (Inv (set_clients (<[w_next_id w := fresh_client (Some nm) wall]>) (w_broker w))).
    pose proof (handle_Inv (disk_env (healthy alive) w) (w_broker w)
      (Wire (w_next_id w) (Hello BUS_PROTO_VERSION CLIENT_NAME (Some nm))) now wall) as H.
    simpl in H. unfold handle_wire in H. rewrite Hn in H. simpl in H. unfold hello in H.
    simpl in H. rewrite Hp in H. simpl in H. by eapply H. }
  assert (Hself : clients (w_broker (greeted w nm)) !! w_next_id w = Some (fresh_client (Some nm) wall)).
  { simpl. by rewrite lookup_insert_eq. }
  assert (Hothers : forall id c, clients (w_broker w) !! id = Some c ->
    clients (w_broker (greeted w nm)) !! id = Some c).
  { intros id c Hc'. simpl. rewrite lookup_insert_ne; [done|congruence]. }
  split; [exact HI1|]. apply proxy_holder_alive_true in Hp as (h & c & p & Hh & Hcon & Hnm & Hpid & Hal).
  assert (Hp1 : proxy_holder_alive (disk_env (healthy alive) (greeted w nm)) (w_broker (greeted w nm)) nm = true).
  { apply proxy_holder_alive_true. exists h, c, p. by rewrite (Hothers h c Hh). }
  generalize dependent (greeted w nm). intros v HI1 Hself Hothers Hp1. split.
  - unfold resolve_op_identity. rewrite Hself. simpl. by rewrite Hp1.
  - unfold client_origin at 1, session_origin. rewrite Hself. simpl.
    rewrite (proj2 (canonical_holder_iff _ nm h HI1)) by (rewrite (Hothers h c Hh); eauto).
    rewrite (proj2 (canonical_holder_iff _ nm h HI)) by eauto.
    simpl. rewrite (Hothers h c Hh). unfold client_origin. by rewrite Hh, Hnm.
Qed.

(** Wakes answer only parked connections, so another connection's first reply
    is its own. *)
Lemma wakes_sent io mid conn w :
  Forall (answers_parked (w_broker w)) mid -> Forall wake_effect mid ->
  pending_awaits (w_broker w) !! conn = None ->
  forall v, w_senders v = w_senders w -> exists l,
    w_sent (execute_outs io now mid v) = w_sent v ++ l /\ Forall (fun cr => cr.1 <> conn) l.
Proof.
  intros Hp Hw Hn. induction mid as [|o mid IH]; intros v Hv.
  { exists []. by rewrite app_nil_r. }
  apply Forall_cons in Hp as [Ho Hp]. apply Forall_cons in Hw as [Hwo Hw].
  change (execute_outs io now (o :: mid) v) with (execute_outs io now mid (execute_out io now v o)).
  destruct o as [c r|?|?|?|c|?|?|?]; try done; simpl.
  - unfold deliver. case_bool_decide.
    + destruct (IH Hp Hw (with_sent (w_sent v ++ [(c, r)]) v) Hv) as (l & -> & Hl).
      exists ((c, r) :: l). simpl. rewrite <- app_assoc. split; [done|]. constructor; [|done].
      simpl. intros ->. destruct (Ho conn r eq_refl) as [? He]. congruence.
    + by apply IH.
  - by apply IH.
Qed.

Lemma first_reply_own conn base l r :
  Forall (fun cr => cr.1 <> conn) l ->
  first_reply conn (drop (length base) (base ++ l ++ [(conn, r)])) = Some r.
Proof.
  rewrite drop_app_length. unfold first_reply. induction l as [|[c r'] l IH]; simpl.
  - intros _. by rewrite bool_decide_true.
  - intros [Hc Hl]%Forall_cons. rewrite bool_decide_false by done. by apply IH.
Qed.

Lemma send_over_proxy w nm to e line :
  running w -> proxy_holder_alive (disk_env (healthy alive) w) (w_broker w) nm = true ->
  is_self_authored e (Some nm) = true -> value_wf e = true ->
  canonicalize e = Ok line -> (blen line <= MAX_FRAME_BYTES)%N ->
  exists w2 rows,
    process_bus (healthy alive) now wall (greeted w nm) (w_next_id w) (Send to e) =
      (w2, Ok (SendOk (task_id_from e) rows)) /\
    clients_sim (w_broker (greeted w nm)) (w_broker w2) /\
    w_files w2 = append_stamped (healthy alive) (w_files w) to line (session_origin w nm).
Proof.
  intros Hr Hp Ha Hwf Hc Hl. destruct (greeted_ready w nm Hr Hp) as (HI1 & Hres & Horg).
  destruct (fresh_id_unknown w Hr) as [_ Hpend].
  assert (Hin : w_next_id w ∈ w_senders (greeted w nm)) by (simpl; set_solver).
  destruct (wire_send_step (healthy alive) true (greeted w nm) (w_next_id w) to e now wall nm line)
    as (b & mid & rows & Hmid & Hpark & Hsim & Hstep); [done..|].
  rewrite Horg in Hstep.
  unfold process_bus. rewrite Hstep. clear Hstep.
  set (v := with_broker b (greeted w nm)). set (A := AppendMailbox _ _ _).
  assert (Hsent : exists l, Forall (fun cr => cr.1 <> w_next_id w) l /\
    w_sent (execute_outs (healthy alive) now (A :: mid ++ [Reply (w_next_id w) (SendOk (task_id_from e) rows)]) v) =
    w_sent (greeted w nm) ++ l ++ [(w_next_id w, SendOk (task_id_from e) rows)]).
  { change (execute_outs ?io now (A :: ?l) v) with (execute_outs io now l (execute_out io now v A)).
    assert (Hv : w_senders (execute_out (healthy alive) now v A) = w_senders (greeted w nm) /\
      w_sent (execute_out (healthy alive) now v A) = w_sent (greeted w nm)).
    { unfold A, execute_out. by destruct (stamp_line _ _). }
    revert Hv. generalize (execute_out (healthy alive) now v A) as x. intros x [Hv1 Hv2].
    destruct (wakes_sent (healthy alive) mid (w_next_id w) (greeted w nm) Hpark Hmid Hpend x Hv1)
      as (l & Hl' & Hne).
    exists l. split; [done|]. unfold execute_outs in *. rewrite foldl_app. simpl. unfold deliver.
    change (foldl (execute_out ?io now) ?x mid) with (execute_outs io now mid x) in *.
    rewrite wakes_keep_senders, Hv1, bool_decide_true by done. simpl.
    by rewrite Hl', Hv2, app_assoc. }
  destruct Hsent as (l & Hne & Hsent). rewrite Hsent, first_reply_own by done.
  eexists _, rows. split; [reflexivity|]. rewrite execute_outs_broker. split; [done|].
  unfold A. by rewrite execute_send_files.
Qed.

(** The client leaves: its session disappears, no file changes. *)
Lemma leave_process io w conn :
  clients (w_broker (sock_shutdown (BusSocket := process_socket io now wall) w conn)) =
    delete conn (clients (w_broker w)) /\
  w_files (sock_shutdown (BusSocket := process_socket io now wall) w conn) = w_files w.
Proof.
  simpl. unfold call_broker. simpl.
  pose proof (disconnect_clients (w_broker w) conn) as Hc.
  pose proof (disconnect_not_append (w_broker w) conn) as Hn.
  destruct (disconnect (w_broker w) conn) as [b outs]. simpl in *.
  rewrite execute_outs_broker. split; [exact Hc|].
  by rewrite execute_outs_files by (by apply not_append_no_write).
Qed.

(** The whole session, up to the envelope's decoding. *)
Lemma one_shot_send w nm to e line :
  running w -> proxy_holder_alive (disk_env (healthy alive) w) (w_broker w) nm = true ->
  is_self_authored e (Some nm) = true -> value_wf e = true ->
  canonicalize e = Ok line -> (blen line <= MAX_FRAME_BYTES)%N ->
  exists w2 rows, let w3 := sock_shutdown (BusSocket := process_socket (healthy alive) now wall) w2 (w_next_id w) in
    process_bus (healthy alive) now wall (greeted w nm) (w_next_id w) (Send to e) =
      (w2, Ok (SendOk (task_id_from e) rows)) /\
    clients_sim (w_broker w) (w_broker w3) /\
    w_files w3 = append_stamped (healthy alive) (w_files w) to line (session_origin w nm).
Proof.
  intros Hr Hp Ha Hwf Hc Hl. destruct (fresh_id_unknown w Hr) as [Hn _].
  destruct (send_over_proxy w nm to e line) as (w2 & rows & Hreq & Hsim & Hf); [done..|].
  exists w2, rows. cbv zeta. destruct (leave_process (healthy alive) w2 (w_next_id w)) as [Hcl Hfl].
  rewrite Hfl. split; [done|]. split; [|done]. intros i. rewrite Hcl. specialize (Hsim i).
  destruct (decide (i = w_next_id w)) as [->|Hi].
  - rewrite lookup_delete_eq, Hn. constructor.
  - rewrite lookup_delete_ne by done. simpl in Hsim. by rewrite lookup_insert_ne in Hsim.
Qed.
End session.

(** ** What the client builds is what the bus accepts *)


(** The identifier in range and the clock printing what [shallow_validate] reads. *)
Record fresh_ok (fresh : SendFresh) : Prop := {
  fr_id_range : (sf_id fresh < 2 ^ 128)%N;
  fr_clock ts : sf_rfc3339 fresh = Ok ts -> shallow_validate (strip_subseconds ts) = true }.

Definition local_name (target : Target) : string :=
  match target with TgtAgent nm => nm | TgtChannel nm => "channel-" +:+ trim_hashes nm end.
Definition on_bus (nm : string) : Principal := mkPrincipal "local.bus" nm.

Section envelopes.
Context `{WL : WireLib} {WLaws : WireLaws} `{CL : CryptoLib}.
#[local] Hint Resolve message_id_decodes : decode.

Lemma fresh_ts_ok fresh ts : fresh_ok fresh -> fresh_ts fresh = Ok ts -> shallow_validate ts = true.
Proof.
  intros [_ Hc]. unfold fresh_ts. destruct (sf_rfc3339 fresh) as [raw|]; [|done].
  intros [= <-]. by apply Hc.
Qed.



Definition local_fields (fresh : SendFresh) (ts identity : string) (target : Target)
    (event : string) (details : Value) (task : option string) : list (string * Value) :=
  [("famp", VString "0.5.2"); ("class", VString "audit_log"); ("scope", VString "standalone");
   ("id", VString (uuid_to_string (sf_id fresh)));
   ("from", VString ("agent:local.bus/" +:+ identity)); ("to", VString (local_to target));
   ("authority", VString "advisory"); ("ts", VString ts);
   ("body", json_obj [("event", VString event); ("details", details)])] ++
  field_opt "causality" (fun task => json_obj [("rel", VString "delivers"); ("ref", VString task)]) task.





Lemma inner_payload_wf args v : build_inner_payload args = Ok v -> wf_at number_safe 1 v = true /\ v <> VNull.
Proof.
  unfold build_inner_payload. destruct (send_mode args) as [mode|]; [|done]. intros [= <-].
  split; [|done]. apply wf_at_json_obj; [done|].
  destruct (sa_new_task args), (sa_task args), (sa_body args), (sa_terminal args), (sa_more_coming args);
    by repeat constructor.
Qed.

Lemma local_value args identity target fresh e :
  build_local_envelope_value args identity target fresh = Ok e ->
  exists ts event details,
    fresh_ts fresh = Ok ts /\ wf_at number_safe 1 details = true /\ details <> VNull /\ event <> EmptyString /\
    e = json_obj (local_fields fresh ts identity target event details (sa_task args)).
Proof.
  unfold build_local_envelope_value.
  destruct (build_inner_payload args) as [inner|] eqn:Ei; [|done].
  destruct (fresh_ts fresh) as [ts|]; [|done]. intros [= <-].
  apply inner_payload_wf in Ei as [Hw Hn]. eexists ts, _, inner. split_and!; [done..| |reflexivity].
  by destruct (send_mode args).
Qed.

Lemma local_fields_wf fresh ts identity target event details task :
  wf_at number_safe 1 details = true ->
  value_wf (json_obj (local_fields fresh ts identity target event details task)) = true.
Proof.
  intros Hd. apply wf_at_json_obj; [done|]. unfold local_fields. rewrite Forall_app. split.
  - repeat constructor. apply wf_at_json_obj; [done|]. repeat constructor. by apply (wf_at_weaken _ 1).
  - by destruct task; repeat constructor.
Qed.

(** A local send by a legal name to a legal name, answering a real task if any. *)
Record local_ok (args : SendArgs) (identity : string) (target : Target) : Prop := {
  lo_from : principal_ok (on_bus identity);
  lo_to : principal_ok (on_bus (local_name target));
  lo_task t : sa_task args = Some t -> exists id, MessageId_from_str t = Some id /\ (id < 2 ^ 128)%N }.


(** *** Remote sends *)
Lemma strip_signed B (BS : BodySchema B) (e : UnsignedEnvelope B) :
  value_wf (wire_to_value e) = true -> sign_then_strip e = Ok (wire_to_value e).
Proof.
  intros Hwf. destruct (canonicalize_total _ (value_wf_json _ Hwf)) as [c Hc].
  unfold sign_then_strip, sign, sign_value. rewrite Hc. cbn [map_err].
  set (s := mkSigned e _). assert (Hv : json_wf (signed_value s) = true) by (by apply wf_at_insert; [|apply value_wf_json]).
  destruct (to_vec_total _ Hv) as [b Hb]. unfold encode. rewrite Hb. cbn [map_err].
  rewrite (from_slice_of_strict _ _ (to_vec_parse_strict _ b Hv Hb)). cbn [map_err].
  unfold signed_value, wire_to_value, json_obj.
  by rewrite obj_remove_insert by (rewrite wire_field; apply wire_no_signature).
Qed.

(** What an egress relays unchanged: an accepted envelope between two valid
    principals that carries none of the gateway's own fields. *)
Record relayable (obj : list (string * Value)) (from to : Principal) (id : N) (ts : string) : Prop := {
  rl_wf : value_wf (VObject obj) = true;
  rl_unsigned : obj_get "signature" obj = None;
  rl_free : owned_free obj;
  rl_accepted : exists env, bus_typed (bus_accepted obj) env;
  rl_from : obj_get "from" obj = Some (v_principal from);
  rl_to : obj_get "to" obj = Some (v_principal to);
  rl_id : obj_get "id" obj = Some (v_message_id id);
  rl_ts : obj_get "ts" obj = Some (VString ts) }.

Record plain {B} (e : UnsignedEnvelope B) : Prop := {
  pl_from_domain : ue_from_domain e = None; pl_to_domain : ue_to_domain e = None;
  pl_sender_key_id : ue_sender_key_id e = None; pl_nonce : ue_nonce e = None;
  pl_expiry : ue_expiry e = None; pl_capability : ue_capability e = None;
  pl_approval : ue_approval e = None }.

Lemma written_relayable B (BS : BodySchema B) (SL : SchemaLaws B) (e : UnsignedEnvelope B)
    (wrap : UnsignedEnvelope B -> AnyBusEnvelope) :
  envelope_ok e -> value_wf (wire_to_value e) = true -> plain e ->
  (forall P, bus_typed P (wrap e) = P B BS e) ->
  relayable (foldr (fun f m => obj_insert f.1 f.2 m) [] (wire_fields e))
    (ue_from e) (ue_to e) (ue_id e) (ue_ts e).
Proof.
  intros Hok Hwf [] Hw. split; try (rewrite wire_field; unfold wire_fields).
  - exact Hwf.
  - apply wire_no_signature.
  - intros k Hk. rewrite wire_field. unfold wire_fields.
    destruct Hk as [<-|[<-|[<-|[<-|[<-|[<-|[<-|[]]]]]]]];
      repeat (rewrite ?obj_get_app, ?obj_get_field_opt; simpl); by rewrite ?pl_from_domain0, ?pl_to_domain0, ?pl_sender_key_id0, ?pl_nonce0, ?pl_expiry0, ?pl_capability0, ?pl_approval0.
  - exists (wrap e). rewrite Hw. by apply (written_accepted B BS SL).
  - done.
  - done.
  - done.
  - repeat (rewrite ?obj_get_app, ?obj_get_field_opt; simpl). done.
Qed.

(** The own domain is a whole authority: no slash can smuggle a name in. *)
Lemma app_inv_suffix (a d t : string) : a +:+ t = d +:+ t -> a = d.
Proof.
  assert (Hl : forall x y : string, String.length (x +:+ y) = (String.length x + String.length y)%nat)
    by (intros x y; induction x as [|? x IHx]; [done|]; simpl; f_equal; exact IHx).
  revert d. induction a as [|c a IH]; intros [|c' d]; simpl; [done| | |].
  - intros H. apply (f_equal String.length) in H. rewrite !Hl in H. simpl in H. lia.
  - intros H. apply (f_equal String.length) in H. rewrite !Hl in H. simpl in H. lia.
  - intros [= -> H]. f_equal. by apply IH.
Qed.

Lemma own_domain_valid cli env file d :
  resolve_own_domain cli env file = Ok d -> validate_authority d = Ok tt.
Proof.
  unfold resolve_own_domain, validate_own_domain.
  match goal with |- (try raw := ?c in _) = _ -> _ => destruct c as [raw|] end; [|done].
  destruct (Principal_from_str _) as [p|] eqn:Hp; [|done]. intros [= <-].
  apply Principal_from_str_sound in Hp as [Hd [Ha Hn]]. unfold Principal_display in Hd.
  apply (inj (String.app "agent:")) in Hd. assert (Hx : pr_name p = "x").
  { rewrite <- (leaf_after_slash (pr_authority p) (pr_name p)) by (apply valid_name_no; auto).
    change (String "/" (pr_name p)) with ("/" +:+ pr_name p). rewrite <- Hd.
    by apply (leaf_after_slash raw "x"). }
  rewrite Hx in Hd. apply app_inv_suffix in Hd. by subst.
Qed.

(** The three remote shapes are envelopes, whatever the text. *)
Section shapes.
Context (id : N) (from to : Principal) (ts : string).
Hypothesis Hid : (id < 2 ^ 128)%N.
Hypothesis Hts : shallow_validate ts = true.
Hypothesis Hfrom : principal_ok from.
Hypothesis Hto : principal_ok to.

Lemma two_key_bounds_ok : bounds_ok two_key_bounds.
Proof. split; intros n [= <-]. vm_compute. discriminate. Qed.

Lemma remote_request_relayable summary :
  sign_then_strip (remote_request id from to ts summary) =
    Ok (wire_to_value (remote_request id from to ts summary)) /\
  relayable (foldr (fun f m => obj_insert f.1 f.2 m) [] (wire_fields (remote_request id from to ts summary)))
    from to id ts.
Proof.
  assert (Hwf : value_wf (wire_to_value (remote_request id from to ts summary)) = true) by done.
  split; [by apply strip_signed|].
  apply (written_relayable _ _ _ (remote_request id from to ts summary) BRequest); [|done|done|done].
  split; try done. exact two_key_bounds_ok.
Qed.

Lemma remote_commit_relayable task body :
  (task < 2 ^ 128)%N ->
  sign_then_strip (remote_commit id from to ts task body) =
    Ok (wire_to_value (remote_commit id from to ts task body)) /\
  relayable (foldr (fun f m => obj_insert f.1 f.2 m) [] (wire_fields (remote_commit id from to ts task body)))
    from to id ts.
Proof.
  intros Ht.
  assert (Hwf : value_wf (wire_to_value (remote_commit id from to ts task body)) = true)
    by (by destruct body).
  split; [by apply strip_signed|].
  apply (written_relayable _ _ _ (remote_commit id from to ts task body) BCommit); [|done|done|done].
  split; try done; [by intros c [= <-]|]. split; try done. exact two_key_bounds_ok.
Qed.

Lemma remote_deliver_relayable task body :
  (task < 2 ^ 128)%N ->
  sign_then_strip (remote_deliver id from to ts task body) =
    Ok (wire_to_value (remote_deliver id from to ts task body)) /\
  relayable (foldr (fun f m => obj_insert f.1 f.2 m) [] (wire_fields (remote_deliver id from to ts task body)))
    from to id ts.
Proof.
  intros Ht.
  assert (Hwf : value_wf (wire_to_value (remote_deliver id from to ts task body)) = true)
    by (by destruct body).
  split; [by apply strip_signed|].
  apply (written_relayable _ _ _ (remote_deliver id from to ts task body) BDeliver); [|done|done|done].
  split; try done; [by intros c [= <-]|]. split; try done. by destruct body.
Qed.
End shapes.

Lemma remote_value env args identity target to fresh e :
  build_remote_envelope_value env args identity to fresh = Ok e ->
  fresh_ok fresh -> principal_ok to -> local_ok args identity target ->
  exists d ts obj,
    resolve_own_domain (sa_domain args) (en_own_domain env) (en_own_domain_file env) = Ok d /\
    fresh_ts fresh = Ok ts /\ e = VObject obj /\ principal_ok (mkPrincipal d identity) /\
    relayable obj (mkPrincipal d identity) to (sf_id fresh) ts.
Proof.
  unfold build_remote_envelope_value. intros He Hf Hto [[_ Hid] _ Htask].
  destruct (resolve_own_domain _ _ _) as [d|] eqn:Hd; [|done].
  assert (Hfrom : principal_ok (mkPrincipal d identity)) by (split; [by eapply own_domain_valid|done]).
  change ("agent:" +:+ d +:+ "/" +:+ identity) with (Principal_display (mkPrincipal d identity)) in He.
  rewrite Principal_from_str_display in He by done.
  destruct (fresh_ts fresh) as [ts|] eqn:Hts; [|done].
  pose proof (fresh_ts_ok _ _ Hf Hts) as Hv. pose proof (fr_id_range _ Hf) as Hr.
  exists d, ts. cbv beta iota in He.
  assert (Htid : forall t id, sa_task args = Some t -> parse_task_id t = Ok id -> (id < 2 ^ 128)%N).
  { intros t id Ht Hp. destruct (Htask t Ht) as (id' & Hi & Hlt). unfold parse_task_id in Hp.
    rewrite Hi in Hp. by injection Hp as <-. }
  destruct (sa_new_task args) as [summary|], (sa_task args) as [t|], (sa_terminal args); try discriminate He.
  - destruct (remote_request_relayable (sf_id fresh) (mkPrincipal d identity) to ts Hr Hv Hfrom Hto summary)
      as [Hs Hrel]. rewrite Hs in He. injection He as <-. eexists. split_and!; by try exact Hrel.
  - destruct (parse_task_id t) as [id|] eqn:Ht; [|done].
    destruct (remote_deliver_relayable (sf_id fresh) (mkPrincipal d identity) to ts Hr Hv Hfrom Hto id
      (sa_body args) (Htid t id eq_refl Ht)) as [Hs Hrel].
    rewrite Hs in He. injection He as <-. eexists. split_and!; by try exact Hrel.
  - destruct (parse_task_id t) as [id|] eqn:Ht; [|done].
    destruct (remote_commit_relayable (sf_id fresh) (mkPrincipal d identity) to ts Hr Hv Hfrom Hto id
      (sa_body args) (Htid t id eq_refl Ht)) as [Hs Hrel].
    rewrite Hs in He. injection He as <-. eexists. split_and!; by try exact Hrel.
Qed.


(** *** The command's preparation *)
Lemma prepared env args fresh identity target e :
  prepare_send env args fresh = Ok (identity, target, e) ->
  exists remote, remote_of args = Ok remote /\ target_of args remote = Ok target /\
    build_envelope_value env args identity target remote fresh = Ok e.
Proof.
  unfold prepare_send. destruct (resolve_identity _ _ _ _ _) as [nm|]; [|done].
  repeat (case_match; [done|]). destruct (remote_of args) as [remote|]; [|done].
  destruct (target_of args remote) as [tg|] eqn:Ht; [|done].
  repeat (case_match; [done|]).
  destruct (build_envelope_value _ _ _ _ _ _) as [v|] eqn:Hb; [|done].
  intros [= <- <- <-]. by exists remote.
Qed.

Lemma remote_of_ok args p : remote_of args = Ok (Some p) -> principal_ok p.
Proof.
  unfold remote_of. destruct (sa_to args) as [raw|]; [|done].
  destruct (Principal_from_str raw) as [q|] eqn:Hq; [|by case_match].
  intros [= <-]. by apply Principal_from_str_sound in Hq as [_ ?].
Qed.

End envelopes.

(** *** A task nobody can read *)
Section mistyped.
Context `{WL : WireLib} {WLaws : WireLaws} `{CL : CryptoLib}.

Lemma causality_text_bad task :
  MessageId_from_str task = None ->
  is_ok (d_causality (json_obj [("rel", VString "delivers"); ("ref", VString task)])) = false.
Proof.
  intros Ht. assert (Hm : exists e, d_message_id (VString task) = Err e).
  { unfold d_message_id. cbn [d_string]. rewrite Ht. eauto. }
  destruct Hm as [e Hm].
  change (json_obj _) with (VObject [("ref", VString task); ("rel", VString "delivers")]).
  unfold d_causality, struct_fields. cbn -[fault]. unfold fault at 1. by rewrite Hm.
Qed.

Lemma local_prepared env args fresh identity target e :
  prepare_send env args fresh = Ok (identity, target, e) -> remote_of args = Ok None ->
  principal_ok (on_bus identity) ->
  value_wf e = true /\ is_self_authored e (Some identity) = true.
Proof.
  intros (remote & Hr & _ & Hb)%prepared Hrem Hfrom. rewrite Hrem in Hr. injection Hr as <-. simpl in Hb.
  apply local_value in Hb as (ts & event & details & _ & Hw & _ & _ & ->).
  split; [by apply local_fields_wf|].
  rewrite (author_check_is_principal_name _ (on_bus identity)); [apply String.eqb_refl|done|].
  unfold get_str, json_obj. cbn [get]. rewrite obj_get_fields. reflexivity.
Qed.

Lemma mistyped_undecodable env args fresh identity target e task line :
  prepare_send env args fresh = Ok (identity, target, e) -> remote_of args = Ok None ->
  sa_task args = Some task -> MessageId_from_str task = None ->
  canonicalize e = Ok line -> is_ok (AnyBusEnvelope_decode line) = false.
Proof.
  intros (remote & Hr & _ & Hb)%prepared Hrem Htask Hbad Hc. rewrite Hrem in Hr. injection Hr as <-.
  simpl in Hb. apply local_value in Hb as (ts & event & details & _ & Hw & _ & _ & ->).
  rewrite Htask in *.
  pose proof (local_fields_wf fresh ts identity target event details (Some task) Hw) as Hwf.
  pose proof (canonicalize_parse_strict _ _ (value_wf_json _ Hwf) Hc) as Hl.
  destruct (is_ok (AnyBusEnvelope_decode line)) eqn:Hd; [|done]. exfalso.
  destruct (any_bus_sound line _ Hl Hd) as (any & _ & Hany).
  assert (Hno : forall B (BS : BodySchema B) (x : UnsignedEnvelope B),
    ~ bus_accepted (foldr (fun f m => obj_insert f.1 f.2 m) []
        (local_fields fresh ts identity target event details (Some task))) B BS x).
  { intros B BS x (_ & _ & [Hreads _ _ _ _]). pose proof (wr_causality _ _ Hreads) as Hca.
    unfold optional in Hca. rewrite obj_get_fields in Hca.
    pose proof (causality_text_bad task Hbad) as Hb.
    change (result_map Some (d_causality (json_obj [("rel", VString "delivers"); ("ref", VString task)])) =
      Ok (ue_causality x)) in Hca.
    revert Hca Hb. generalize (d_causality (json_obj [("rel", VString "delivers"); ("ref", VString task)])).
    by intros []. }
  destruct any; by apply Hno in Hany.
Qed.

Lemma append_undecodable alive files to e line org :
  map_Forall (fun _ => whole) files -> value_wf e = true -> canonicalize e = Ok line ->
  is_ok (AnyBusEnvelope_decode line) = false ->
  let path := mailbox_path (target_mailbox to) in
  let files' := append_stamped (healthy alive) files to line org in
  file_log (default [] (files' !! path)) = file_log (default [] (files !! path)) /\
  exists record, record <> [] /\
    default [] (files' !! path) = default [] (files !! path) ++ record.
Proof.
  intros Hw Hwf Hc Hdec. cbv zeta. unfold append_stamped.
  destruct (stamp_line_ok e line org Hwf Hc) as (b & Hst & _). rewrite Hst.
  pose proof (stamped_no_newline e line org b Hwf Hc Hst) as Hn.
  rewrite healthy_append by done. set (path := mailbox_path (target_mailbox to)).
  assert (Hp : whole (default [] (files !! path))).
  { destruct (files !! path) eqn:E; simpl; [by eapply Hw|apply whole_nil]. }
  destruct (file_log_append _ b Hp Hn) as [_ Hlog]. rewrite lookup_insert_eq. simpl. split.
  - rewrite Hlog, (decode_stamped e line org b Hwf Hc Hst).
    destruct (AnyBusEnvelope_decode line); [done|]. by rewrite app_nil_r.
  - exists (b ++ [NEWLINE]). split; [by destruct b|done].
Qed.
End mistyped.


Definition plain_env : SendEnv :=
  mkSendEnv (fun _ => None) None (Some "/work") None true (Some "a.example") TfMissing.
Definition cli_fresh : SendFresh := mkSendFresh 9 (Ok "2026-01-01T00:00:00.123456789Z").

Lemma w_two_running : running w_two.
Proof.
  split; [exact w_two_Inv| |].
  - destruct (run_loop false w_boot boot_turns) as [w|w|] eqn:E.
    + unfold w_two. rewrite E.
      exact (bk_ids _ _ _ _ (books_run _ boot_turns w_boot w 0 0 (books_boot _ _ _ _ _) eq_refl E)).
    + exfalso. vm_compute in E. discriminate.
    + exfalso. vm_compute in E. discriminate.
  - intros p f Hf. assert (Hw : w_files w_two = ∅) by (vm_compute; reflexivity).
    rewrite Hw in Hf. by rewrite lookup_empty in Hf.
Qed.

Lemma cli_fresh_ok : fresh_ok cli_fresh.
Proof. split; [done|]. by intros ts [= <-]. Qed.


(** A reply to a mistyped task is lost: a local [--task] text is never parsed,
    so the command reports success for an envelope that no decoder accepts; the
    file grows by it, but the target's log, all any reader will ever see, stays
    what it was. *)
Theorem mistyped_task_is_lost `{WireLaws} `{CryptoLib} alive now wall debug env args fresh w identity
    target e task :
  running w -> fresh_ok fresh -> prepare_send env args fresh = Ok (identity, target, e) ->
  remote_of args = Ok None -> principal_ok (on_bus identity) ->
  sa_task args = Some task -> MessageId_from_str task = None ->
  (forall line, canonicalize e = Ok line -> (blen line <= MAX_FRAME_BYTES)%N) ->
  proxy_holder_alive (disk_env (healthy alive) w) (w_broker w) identity = true ->
  exists w' outcome,
    run_at_structured (H := process_socket (healthy alive) now wall) debug env args fresh w = (w', Ok outcome) /\
    mailbox_log w' (target_mailbox target) = mailbox_log w (target_mailbox target) /\
    exists record, record <> [] /\
      file_of w' (target_mailbox target) = file_of w (target_mailbox target) ++ record.
Proof.
  intros Hrun Hf Hp Hrem Hfrom Htask Hbad Hsize Halive.
  destruct (local_prepared env args fresh identity target e Hp Hrem Hfrom) as [Hwf Ha].
  assert (Hdec : forall line, canonicalize e = Ok line -> is_ok (AnyBusEnvelope_decode line) = false)
    by (intros line Hc; by eapply mistyped_undecodable).
  unfold run_at_structured. rewrite Hp. cbv beta iota.
  rewrite (connect_proxy alive now wall (healthy alive) w identity Hrun Halive). cbv beta iota.
  destruct (canonicalize_total e (value_wf_json _ Hwf)) as [line Hc].
  destruct (one_shot_send alive now wall w identity target e line) as (w2 & rows & Hreq & _ & Hfiles);
    [auto..|].
  cbn [sock_request process_socket]. rewrite Hreq. cbn [map_err]. cbv beta iota.
  eexists _, _. split; [reflexivity|]. unfold mailbox_log, file_of. rewrite Hfiles.
  exact (append_undecodable alive (w_files w) target e line _ (rn_disk _ Hrun) Hwf Hc (Hdec line Hc)).
Qed.

Definition typo_args : SendArgs :=
  mkSendArgs (Some "alice") None None (Some "my-task") false None false (Some "bob") None.
Definition typo_value : Value :=
  match prepare_send plain_env typo_args cli_fresh with Ok (_, _, e) => e | Err _ => VNull end.

Lemma mistyped_task_is_lost_witness :
  exists w' outcome,
    run_at_structured (H := process_socket (healthy (fun _ => true)) 0 wall0) (fun _ => "rows")
      plain_env typo_args cli_fresh w_two = (w', Ok outcome) /\
    mailbox_log w' (MbAgent "alice") = mailbox_log w_two (MbAgent "alice") /\
    exists record, record <> [] /\
      file_of w' (MbAgent "alice") = file_of w_two (MbAgent "alice") ++ record.
Proof.
  apply (mistyped_task_is_lost (fun _ => true) 0 wall0 (fun _ => "rows") plain_env typo_args cli_fresh
    w_two "bob" (TgtAgent "alice") typo_value "my-task" w_two_running cli_fresh_ok).
  - vm_compute. reflexivity.
  - vm_compute. reflexivity.
  - split; reflexivity.
  - reflexivity.
  - vm_compute. reflexivity.
  - intros line Hline. vm_compute in Hline. injection Hline as <-. vm_compute. discriminate.
  - vm_compute. reflexivity.
Qed.

(** ** Across two gateways *)

(** C14. A remote send is one hop from its recipient: what [famp send] builds for
    a domain-qualified principal, the gateway of the sender's own domain signs
    and posts, and the peer's gateway verifies and delivers to its bus exactly
    as it was built, provided the gateway's clock text is later than the
    envelope's, the signed body fits a request, and the peer welcomes it. *)
Theorem remote_send_is_relayed `{WireLaws} `{CryptoLaws} `{TimeLib} {W} `{!LocalBus W}
    env args fresh identity target to e d ts
    registry keyring peers url sk gfresh raw now guard (w w' : W) :
  prepare_send env args fresh = Ok (identity, target, e) ->
  remote_of args = Ok (Some to) -> fresh_ok fresh -> local_ok args identity target ->
  resolve_own_domain (sa_domain args) (en_own_domain env) (en_own_domain_file env) = Ok d ->
  fresh_ts fresh = Ok ts ->
  let from := mkPrincipal d identity in
  let expiry := strip_subseconds raw in
  fr_expiry gfresh = Ok raw -> peers !! to = Some url ->
  fr_nonce gfresh <> EmptyString -> is_canonical_utc_form ts = true ->
  is_canonical_utc_form expiry = true -> String.leb expiry ts = false ->
  (forall obj sg body, e = VObject obj ->
     sign_value sk (VObject (federated obj from to (verifying_key sk) (fr_nonce gfresh) expiry)) = Ok sg ->
     to_vec (VObject (posted obj from to (verifying_key sk) (fr_nonce gfresh) expiry sg)) = Ok body ->
     (blen body <= ONE_MIB)%N) ->
  (forall obj, e = VObject obj ->
     welcome registry keyring obj from to sk (fr_nonce gfresh) expiry ts now guard w w') ->
  exists signed guard',
    relay_one (HC := peer_gateway registry keyring (pr_authority to) now)
      peers d sk (verifying_key sk) gfresh e (guard, w) = (signed, (guard', w'), Ok tt).
Proof.
  cbv zeta. intros Hp Hrem Hf Hl Hd Hts Hraw Hu Hn Hct Hcx Hlt Hsize Hwel.
  destruct (prepared _ _ _ _ _ _ Hp) as (remote & Hr & _ & Hb).
  rewrite Hrem in Hr. injection Hr as <-. simpl in Hb. pose proof (remote_of_ok args to Hrem) as Hto.
  destruct (remote_value env args identity target to fresh e Hb Hf Hto Hl)
    as (d' & ts' & obj & Hd' & Hts' & -> & Hfrom & [Hwf Hsg Hfree [any Hany] Hgf Hgt _ Hgts]).
  rewrite Hd in Hd'. injection Hd' as <-. rewrite Hts in Hts'. injection Hts' as <-.
  destruct (canonicalize_total _ (value_wf_json _ Hwf)) as [line Hline].
  assert (Hout : outbound obj line (mkPrincipal d identity) to sk gfresh raw ts).
  { split; try done.
    - by rewrite (any_bus_complete line obj any) by (try (apply canonicalize_parse_strict; [by apply value_wf_json|]); done).
    - intros sg body. by apply Hsize. }
  destruct (outbound_posts (W := W) _ _ _ _ _ _ _ _ Hout) as (body & Hrl & Hbody & Hin).
  destruct (Hin _ _ _ _ _ _ (Hwel obj eq_refl)) as [guard' Hg].
  destruct (peer_delivers registry keyring peers url sk gfresh obj (mkPrincipal d identity) to body now
    guard guard' w w') as [signed Hsigned]; [done..|]. by exists signed, guard'.
Qed.

(** Alice asks bob of [b.example] for something. *)
Definition ask_args : SendArgs :=
  mkSendArgs (Some "agent:b.example/bob") None (Some "please") None false None false (Some "alice") None.
Definition ask_fresh : SendFresh := mkSendFresh 9 (Ok gw_now).
Definition ask_value : Value :=
  match prepare_send plain_env ask_args ask_fresh with Ok (_, _, e) => e | Err _ => VNull end.
Definition ask_reply : World * result BusReply GatewayError :=
  process_bus (healthy (fun _ => true)) 0 wall0 w_gw 1%N (Send (TgtAgent "bob") ask_value).

Lemma remote_send_is_relayed_witness :
  exists signed guard',
    relay_one (HC := peer_gateway (LocalBus0 := process_bus (healthy (fun _ => true)) 0 wall0)
        gw_registry gw_keyring "b.example" gw_now)
      {[demo_to := "https://b.example"]} "a.example" demo_key (verifying_key demo_key) link_fresh
      ask_value (guard_new 0, w_gw) = (signed, (guard', ask_reply.1), Ok tt).
Proof.
  assert (Hp : prepare_send plain_env ask_args ask_fresh = Ok ("alice", TgtAgent "bob", ask_value))
    by (vm_compute; reflexivity).
  assert (exists task rows, ask_reply.2 = Ok (SendOk task rows)) as (task & rows & Hr).
  { eexists _, _. vm_compute. reflexivity. }
  apply (remote_send_is_relayed (LocalBus0 := process_bus (healthy (fun _ => true)) 0 wall0)
    plain_env ask_args ask_fresh "alice" (TgtAgent "bob") demo_to ask_value "a.example" gw_now
    gw_registry gw_keyring {[demo_to := "https://b.example"]} "https://b.example" demo_key link_fresh
    "2026-01-01T00:05:00.123Z" gw_now (guard_new 0) w_gw ask_reply.1 Hp).
  - vm_compute. reflexivity.
  - split; [reflexivity|]. intros ts [= <-]. vm_compute. reflexivity.
  - split; [split; reflexivity|split; reflexivity|]. intros t Ht. discriminate Ht.
  - vm_compute. reflexivity.
  - vm_compute. reflexivity.
  - reflexivity.
  - apply lookup_singleton_eq.
  - discriminate.
  - vm_compute. reflexivity.
  - vm_compute. reflexivity.
  - vm_compute. reflexivity.
  - intros obj sg body He. vm_compute in He. injection He as <-. intros Hs Hb. vm_compute in Hs. injection Hs as <-.
    vm_compute in Hb. injection Hb as <-. vm_compute. discriminate.
  - intros obj He. split.
    + vm_compute. reflexivity.
    + vm_compute. reflexivity.
    + exists 1%N, task, rows. split; [vm_compute; reflexivity|].
      rewrite <- He, <- Hr. unfold send_recv, ask_reply. by destruct (process_bus _ _ _ _ _ _).
Defined.
