(* ===== verification/Pairing.v ===== *)
(** * Pairing: codes, invites and the redemption route

    [crates/famp/src/pairing/{mod,wordlist,invite}.rs],
    [crates/famp-gateway/src/pairing_ingress.rs] and
    [crates/famp/src/cli/pair/{mod,invite,revoke,status,redeem}.rs].  The word
    list (a vendored data file), hex text and the clock arithmetic behind an
    invite's window are parameters; the store's JSON image is not modelled, a
    stored file is the store it holds. *)

From Stdlib Require Import Strings.Byte Ascii.
From stdpp Require Import gmap pretty strings list.
From S2P Require Import Prelude Json Proto WireInstance Crypto Principal Core Derive Body Envelope Clock.
From S2P Require Import Keyring.

(** ** Errors and wire statements: [mod.rs] *)
Inductive PairingError :=
| PaCodeMalformed (reason : string)
| PaNoPendingInvite | PaStoreBusy | PaIo
| PaCrypto (e : CryptoError)
| PaWire (reason : string)
| PaExpired | PaAlreadyRedeemed | PaAttemptsExhausted | PaWrongCode
| PaGatewayUnreachable (url : string)
| PaSameMachineRefusal
| PaUnknownInvite (id : string).

Definition reject_reason_to_pairing_error (reason : string) : PairingError :=
  if String.eqb reason "expired" then PaExpired
  else if String.eqb reason "already_redeemed" then PaAlreadyRedeemed
  else if String.eqb reason "attempts_exhausted" then PaAttemptsExhausted
  else if String.eqb reason "own_domain_refused" then PaSameMachineRefusal
  else PaWrongCode.

Record RedemptionRequest := mkRedemptionRequest {
  rq_code : string; rq_principal : string; rq_pubkey_b64url : string; rq_nonce : string }.
Record RedemptionResponse := mkRedemptionResponse {
  rp_invite_id : string; rp_inviter_principal : string; rp_inviter_pubkey_b64url : string;
  rp_redeemer_key_id : string; rp_at : string }.
Record Signed (T : Type) := mkSignedStatement { sd_statement : T; sd_sig : string }.
Arguments mkSignedStatement {T}. Arguments sd_statement {T}. Arguments sd_sig {T}.

(** The derived [Serialize] of a statement. *)
Class Statement (T : Type) := statement_value : T -> Value.
#[export] Instance redemption_request_statement : Statement RedemptionRequest := fun r =>
  json_obj [("code", VString (rq_code r)); ("principal", VString (rq_principal r));
            ("pubkey_b64url", VString (rq_pubkey_b64url r)); ("nonce", VString (rq_nonce r))].
#[export] Instance redemption_response_statement : Statement RedemptionResponse := fun r =>
  json_obj [("invite_id", VString (rp_invite_id r));
            ("inviter_principal", VString (rp_inviter_principal r));
            ("inviter_pubkey_b64url", VString (rp_inviter_pubkey_b64url r));
            ("redeemer_key_id", VString (rp_redeemer_key_id r)); ("at", VString (rp_at r))].

(** The derived [Serialize] of [Signed<T>]. *)
Definition signed_statement_value {T} `{Statement T} (s : Signed T) : Value :=
  json_obj [("statement", statement_value (sd_statement s)); ("sig", VString (sd_sig s))].

Definition request_specs_pair : field_specs :=
  [("code", fault d_string); ("principal", fault d_string);
   ("pubkey_b64url", fault d_string); ("nonce", fault d_string)].
Definition d_redemption_request : decoder RedemptionRequest := fun v =>
  try m := struct_fields request_specs_pair v in
  try code := required d_string m "code" in
  try principal := required d_string m "principal" in
  try pubkey := required d_string m "pubkey_b64url" in
  try nonce := required d_string m "nonce" in
  Ok (mkRedemptionRequest code principal pubkey nonce).
Definition signed_specs : field_specs :=
  [("statement", fault d_redemption_request); ("sig", fault d_string)].
Definition d_signed_request : decoder (Signed RedemptionRequest) := fun v =>
  try m := struct_fields signed_specs v in
  try statement := required d_redemption_request m "statement" in
  try sig := required d_string m "sig" in
  Ok (mkSignedStatement statement sig).

Section signed.
Context `{WL : WireLib} `{CL : CryptoLib} {T : Type} `{ST : !Statement T}.

Definition signed_new (statement : T) (sk : FampSigningKey) : result (Signed T) PairingError :=
  trying sig := sign_value sk (statement_value statement) catch e => Err (PaCrypto e) in
  Ok (mkSignedStatement statement (sig_to_b64url sig)).

Definition signed_verify (s : Signed T) (vk : TrustedVerifyingKey) : result unit PairingError :=
  letok sig := sig_from_b64url (sd_sig s)
    orelse Err (PaWire "malformed signature encoding") in
  map_err (fun _ => PaWire "signature verification failed")
    (verify_value vk (statement_value (sd_statement s)) sig).
End signed.

(** ** Codes: [wordlist.rs] *)
Definition CODE_WORD_COUNT : nat := 5%nat.

(** [str::to_lowercase] as far as the word list can see it: ASCII capitals, and
    U+212A (the Kelvin sign), the only other character whose lower case is
    ASCII; every other character keeps a token out of the list either way. *)
Definition ascii_lower (c : ascii) : ascii :=
  let n := N_of_ascii c in
  if ((65 <=? n) && (n <=? 90))%N then ascii_of_N (n + 32) else c.
Fixpoint to_lowercase (s : string) : string :=
  match s with
  | EmptyString => EmptyString
  | String a r =>
      match r with
      | String b (String c r') =>
          if ((N_of_ascii a =? 226) && (N_of_ascii b =? 132) && (N_of_ascii c =? 170))%N
          then String "k" (to_lowercase r') else String (ascii_lower a) (to_lowercase r)
      | _ => String (ascii_lower a) (to_lowercase r)
      end
  end.

(** [hex::decode] and [hex::encode], and the vendored list. *)
Class PairLib := {
  hex_decode : string -> option bytes;
  hex_encode : bytes -> string;
  wordlist : list string;
  (** [now] plus 24 hours in the canonical form; [None] when [now] does not parse. *)
  add_24h : string -> option string }.
Class PairLaws `{PL : PairLib} : Prop := {
  hex_roundtrip b : hex_decode (hex_encode b) = Some b;
  (** The list is 2048 ASCII words, lower case. *)
  wordlist_lower w : w ∈ wordlist ->
    w <> EmptyString /\ string_forall (ascii_between "a"%char "z"%char) w = true }.

Section codes.
Context `{PL : PairLib}.

Definition parse_code (raw : string) : result string PairingError :=
  let tokens := split_whitespace (to_lowercase raw) in
  if negb (length tokens =? CODE_WORD_COUNT)%nat
  then Err (PaCodeMalformed ("expected exactly 5 words, got " +:+ pretty (N.of_nat (length tokens)))) else
  match List.find (fun tok => negb (existsb (String.eqb tok) wordlist)) tokens with
  | Some tok => Err (PaCodeMalformed ("'" +:+ tok +:+ "' is not in the pairing word list"))
  | None => Ok (String.concat " " tokens)
  end.

(** The words an RNG picked. *)
Definition draw_code (picks : list nat) : string :=
  String.concat " " (map (fun i => nth i wordlist EmptyString) picks).

Definition code_digest `{CryptoLib} (code : string) : bytes :=
  sha256_digest (String.list_byte_of_string code).

(** XOR-accumulate over two 32-byte arrays. *)
Definition digests_equal (a b : bytes) : bool :=
  (foldl (fun diff '(x, y) => N.lor diff (N.lxor (Byte.to_N x) (Byte.to_N y))) 0 (zip a b) =? 0)%N.

Definition digest_from_hex (s : string) : option bytes :=
  b ← hex_decode s; if (length b =? 32)%nat then Some b else None.
End codes.

(** ** The invite store: [invite.rs] *)
Inductive InviteState :=
| Pending
| Redeemed (by_ key_id pubkey_b64url at_ : string)
| Pinned (at_ : string)
| Revoked (at_ : string).

Record InviteRecord := mkInvite {
  iv_id : string; iv_principal : string; iv_code_digest : string; iv_created_at : string;
  iv_expires_at : string; iv_attempts : N; iv_state : InviteState }.
Abbreviation InviteStore := (list InviteRecord).

Definition MAX_ATTEMPTS : N := 5%N.

Definition with_state (st : InviteState) (r : InviteRecord) : InviteRecord :=
  mkInvite (iv_id r) (iv_principal r) (iv_code_digest r) (iv_created_at r) (iv_expires_at r)
    (iv_attempts r) st.
Definition with_attempts (n : N) (r : InviteRecord) : InviteRecord :=
  mkInvite (iv_id r) (iv_principal r) (iv_code_digest r) (iv_created_at r) (iv_expires_at r) n
    (iv_state r).

Definition is_pending (r : InviteRecord) : bool :=
  match iv_state r with Pending => true | _ => false end.
Definition is_revoked (r : InviteRecord) : bool :=
  match iv_state r with Revoked _ => true | _ => false end.

(** [now >= expires_at] on strings. *)
Definition is_expired (now : string) (r : InviteRecord) : bool := String.leb (iv_expires_at r) now.

Inductive RedemptionDecision :=
| Accept_ (id : string) | WrongCode | Expired | AlreadyRedeemed | AttemptsExhausted | NoPendingInvite.

Section decide.
Context `{PL : PairLib}.

Definition digest_matches (digest : bytes) (r : InviteRecord) : bool :=
  match digest_from_hex (iv_code_digest r) with
  | Some stored => digests_equal digest stored
  | None => false
  end.

(** The scan visits every record and keeps the last match. *)
Definition last_match (digest : bytes) (live : list InviteRecord) : option InviteRecord :=
  foldl (fun matched r => if digest_matches digest r then Some r else matched) None live.

Definition decide_redemption (store : InviteStore) (digest : bytes) (now : string) :
    RedemptionDecision :=
  let live := List.filter (fun r => negb (is_revoked r)) store in
  if bool_decide (live = []) then NoPendingInvite else
  match last_match digest live with
  | Some r =>
      match iv_state r with
      | Redeemed _ _ _ _ | Pinned _ => AlreadyRedeemed
      | Revoked _ => NoPendingInvite (* unreachable: filtered out above *)
      | Pending =>
          if is_expired now r then Expired
          else if (MAX_ATTEMPTS <=? iv_attempts r)%N then AttemptsExhausted
          else Accept_ (iv_id r)
      end
  | None =>
      let live_pending := List.filter is_pending live in
      if bool_decide (live_pending = []) then NoPendingInvite
      else if forallb (is_expired now) live_pending then Expired
      else if forallb (fun r => (MAX_ATTEMPTS <=? iv_attempts r)%N)
                (List.filter (fun r => negb (is_expired now r)) live_pending) then AttemptsExhausted
      else WrongCode
  end.
End decide.

(** [attempts] is a [u32]. *)
Definition burn_attempt (store : InviteStore) (now : string) : InviteStore :=
  map (fun r => if is_pending r && negb (is_expired now r)
                then with_attempts ((iv_attempts r + 1) mod 4294967296)%N r else r) store.

(** [iter_mut().find(|r| r.id == id)]: the first record with that id. *)
Fixpoint find_invite (id : string) (store : InviteStore) : option InviteRecord :=
  match store with
  | [] => None
  | r :: rest => if String.eqb (iv_id r) id then Some r else find_invite id rest
  end.
Fixpoint update_invite (id : string) (f : InviteRecord -> InviteRecord) (store : InviteStore) :
    InviteStore :=
  match store with
  | [] => []
  | r :: rest => if String.eqb (iv_id r) id then f r :: rest else r :: update_invite id f rest
  end.

Definition consume (store : InviteStore) (id by_ kid pubkey_b64url now : string) :
    InviteStore * result unit PairingError :=
  letsome r := find_invite id store orelse (store, Err (PaUnknownInvite id)) in
  if negb (is_pending r) then (store, Err PaAlreadyRedeemed) else
  (update_invite id (with_state (Redeemed by_ kid pubkey_b64url now)) store, Ok tt).

Definition revoke_invite (store : InviteStore) (id now : string) :
    InviteStore * result unit PairingError :=
  letsome _ := find_invite id store orelse (store, Err (PaUnknownInvite id)) in
  (update_invite id (with_state (Revoked now)) store, Ok tt).

Definition revoke_all_pending (store : InviteStore) (now : string) : InviteStore * nat :=
  (map (fun r => if is_pending r then with_state (Revoked now) r else r) store,
   length (List.filter is_pending store)).

(** ** Files

    [None] is a store file that does not exist or is empty.  An operation's
    system calls answer through [PairIo]: whether the store can be read and
    parsed, the lock taken within its retries, the replacement written, and the
    gateway's signing key. *)
Record PairIo := mkPairIo {
  pio_readable : bool; pio_lock : bool; pio_writable : bool; pio_key : option FampSigningKey }.

Definition load_store (io : PairIo) (file : option InviteStore) : result InviteStore PairingError :=
  if pio_readable io then Ok (default [] file) else Err PaIo.

(** [save_atomic]: the rename happens or it does not. *)
Definition save_atomic (io : PairIo) (store : InviteStore) (file : option InviteStore) :
    option InviteStore * result unit PairingError :=
  if pio_writable io then (Some store, Ok tt) else (file, Err PaIo).

Definition acquire (io : PairIo) : result unit PairingError :=
  if pio_lock io then Ok tt else Err PaStoreBusy.

(** ** The redemption route: [pairing_ingress.rs] *)
Definition reject_status (reason : string) : N :=
  if existsb (String.eqb reason) ["malformed_code"; "invalid_signature"] then 400%N
  else if String.eqb reason "own_domain_refused" then 403%N
  else if existsb (String.eqb reason) ["no_pending_invite"; "code_mismatch"; "expired"] then 404%N
  else if String.eqb reason "already_redeemed" then 409%N
  else if String.eqb reason "attempts_exhausted" then 429%N
  else 500%N.

Abbreviation RedemptionReject := string (only parsing).

(** Between reading the store and taking its lock. *)
Inductive RedeemNext :=
| Answered (reason : RedemptionReject)
| ThenBurn
| ThenConsume (request : RedemptionRequest) (vk : TrustedVerifyingKey) (digest : bytes) (first_id : string).

Section route.
Context `{WL : WireLib} `{CL : CryptoLib} `{PL : PairLib}.

(** Steps 1 to 3, and the signature check of step 6: no lock, no write.  The
    derived reader refuses a repeated key and every key but its own, at both
    levels, so reading the text into the structs is reading it strictly into a
    value first. *)
Definition begin_redemption (own_domain : string) (io : PairIo) (file : option InviteStore)
    (body : bytes) (now : string) : RedeemNext :=
  letok value := from_slice_strict body orelse Answered "malformed_code" in
  letok signed := d_signed_request value orelse Answered "malformed_code" in
  let request := sd_statement signed in
  letok code := parse_code (rq_code request) orelse Answered "malformed_code" in
  letok principal := Principal_from_str (rq_principal request) orelse Answered "malformed_code" in
  letok vk := vk_from_b64url (rq_pubkey_b64url request) orelse Answered "malformed_code" in
  if String.eqb (pr_authority principal) own_domain then Answered "own_domain_refused" else
  letok store := load_store io file orelse Answered "no_pending_invite" in
  let digest := code_digest code in
  match decide_redemption store digest now with
  | NoPendingInvite => Answered "no_pending_invite"
  | Expired => Answered "expired"
  | AlreadyRedeemed => Answered "already_redeemed"
  | AttemptsExhausted => Answered "attempts_exhausted"
  | WrongCode => ThenBurn
  | Accept_ first_id =>
      letok _ := signed_verify signed vk orelse Answered "invalid_signature" in
      ThenConsume request vk digest first_id
  end.

(** Step 4, under the lock. *)
Definition burn_and_reject_wrong_code (io : PairIo) (file : option InviteStore) (now : string) :
    option InviteStore * RedemptionReject :=
  letok _ := acquire io orelse (file, "no_pending_invite") in
  letok store := load_store io file orelse (file, "no_pending_invite") in
  let '(file, r) := save_atomic io (burn_attempt store now) file in
  letok _ := r orelse (file, "internal_error") in
  (file, "code_mismatch").

(** Step 6, under the lock; the answer is built after the store is saved. *)
Definition accept_and_consume (io : PairIo) (file : option InviteStore)
    (request : RedemptionRequest) (vk : TrustedVerifyingKey) (digest : bytes) (now : string) :
    option InviteStore * result (Signed RedemptionResponse) RedemptionReject :=
  let redeemer_key_id := key_id vk in
  letok _ := acquire io orelse (file, Err "no_pending_invite") in
  letok store := load_store io file orelse (file, Err "no_pending_invite") in
  match decide_redemption store digest now with
  | AlreadyRedeemed => (file, Err "already_redeemed")
  | Expired => (file, Err "expired")
  | AttemptsExhausted => (file, Err "attempts_exhausted")
  | WrongCode | NoPendingInvite => (file, Err "no_pending_invite")
  | Accept_ invite_id =>
      letsome r := find_invite invite_id store orelse (file, Err "no_pending_invite") in
      let inviter_principal := iv_principal r in
      let '(store, consumed) :=
        consume store invite_id (rq_principal request) redeemer_key_id (rq_pubkey_b64url request) now in
      letok _ := consumed orelse (file, Err "internal_error") in
      let '(file, saved) := save_atomic io store file in
      letok _ := saved orelse (file, Err "internal_error") in
      letsome sk := pio_key io orelse (file, Err "internal_error") in
      let response := mkRedemptionResponse invite_id inviter_principal
        (vk_to_b64url (verifying_key sk)) redeemer_key_id now in
      letok signed := signed_new response sk orelse (file, Err "internal_error") in
      (file, Ok signed)
  end.

Definition finish_redemption (io : PairIo) (file : option InviteStore) (next : RedeemNext)
    (now : string) : option InviteStore * result (Signed RedemptionResponse) RedemptionReject :=
  match next with
  | Answered reason => (file, Err reason)
  | ThenBurn => let '(file, reason) := burn_and_reject_wrong_code io file now in (file, Err reason)
  | ThenConsume request vk digest _ => accept_and_consume io file request vk digest now
  end.

(** One request with nobody in between. *)
Definition ingest_redemption_at (own_domain : string) (io : PairIo) (file : option InviteStore)
    (body : bytes) (now : string) :
    option InviteStore * result (Signed RedemptionResponse) RedemptionReject :=
  finish_redemption io file (begin_redemption own_domain io file body now) now.
End route.

(** ** The inviter's commands: [cli/pair/{invite,revoke,mod,status}.rs] *)
Inductive PairCliError := CliExit (code : N) | CliPairing (e : PairingError) | CliKeyring (e : KeyringError)
| CliPrincipal (e : ParsePrincipalError) | CliTimestamp | CliIo.

Section commands.
Context `{WL : WireLib} `{CL : CryptoLib} `{PL : PairLib}.

(** [famp pair invite]; [picks] is what the random generator drew and [id] a
    fresh UUID's text.  The answer is the code at the end of the artifact. *)
Definition pair_invite (io : PairIo) (file : option InviteStore) (as_principal : string)
    (confirm_installed : bool) (picks : list nat) (id now : string) :
    option InviteStore * result string PairCliError :=
  if negb confirm_installed then (file, Err (CliExit 2)) else
  trying principal := Principal_from_str as_principal catch e => (file, Err (CliPrincipal e)) in
  let code := draw_code picks in
  letsome expires_at := add_24h now orelse (file, Err CliTimestamp) in
  let record := mkInvite id (Principal_display principal) (hex_encode (code_digest code)) now
    expires_at 0 Pending in
  trying _ := acquire io catch e => (file, Err (CliPairing e)) in
  trying store := load_store io file catch e => (file, Err (CliPairing e)) in
  let '(file, saved) := save_atomic io (store ++ [record]) file in
  trying _ := saved catch e => (file, Err (CliPairing e)) in
  (file, Ok code).

(** [famp pair revoke --id] and [--all-pending]. *)
Definition pair_revoke (io : PairIo) (file : option InviteStore) (id : option string) (now : string) :
    option InviteStore * result nat PairCliError :=
  trying _ := acquire io catch e => (file, Err (CliPairing e)) in
  trying store := load_store io file catch e => (file, Err (CliPairing e)) in
  match id with
  | Some id =>
      match revoke_invite store id now with
      | (store, Ok _) =>
          let '(file, saved) := save_atomic io store file in
          trying _ := saved catch e => (file, Err (CliPairing e)) in (file, Ok 1%nat)
      | (_, Err (PaUnknownInvite _)) => (file, Err (CliExit 1))
      | (_, Err e) => (file, Err (CliPairing e))
      end
  | None =>
      let '(store, count) := revoke_all_pending store now in
      let '(file, saved) := save_atomic io store file in
      trying _ := saved catch e => (file, Err (CliPairing e)) in (file, Ok count)
  end.

(** [rotate_to_with_validation]: the keyring file is replaced only by a text
    that reloads with the principal active.  [writable] is the temporary file's
    fate. *)
Definition rotate_to_with_validation (writable : bool) (kfile : option string) (p : Principal)
    (vk : TrustedVerifyingKey) (now : string) (confirmed : bool) :
    option string * result bool PairCliError :=
  trying keyring := match kfile with Some text => load_from_file text | None => Ok ∅ end
    catch e => (kfile, Err (CliKeyring e)) in
  match rotate_to keyring p vk now None confirmed with
  | (_, Err e) => (kfile, Err (CliKeyring e))
  | (keyring, Ok _) =>
      if negb writable then (kfile, Err CliIo) else
      let text := save_to_file keyring in
      trying reloaded := load_from_file text catch e => (kfile, Err (CliKeyring e)) in
      match active_key reloaded p now with
      | LkActive _ => (Some text, Ok true)
      | _ => (kfile, Ok false)
      end
  end.

(** What [famp pair status] does, in order: the identity line it shows and the
    keyring it writes. *)
Inductive PairEvent := Observed (by_ key_id : string) | KeyringReplaced (text : string).

Inductive PinOutcome := PinPinned | PinFailed.

(** [shown] and [reported] tell whether the writes before and after the pin
    reached the terminal. *)
Definition pin_redeemed_record (writable shown reported : bool) (kfile : option string)
    (r : InviteRecord) (by_ kid pubkey_b64url now : string) (confirm : bool) :
    option string * InviteRecord * list PairEvent * result PinOutcome PairCliError :=
  if negb shown then (kfile, r, [], Err CliIo) else
  let seen := Observed by_ kid in
  letok p := Principal_from_str by_
    orelse (kfile, r, [seen], if reported then Ok PinFailed else Err CliIo) in
  letok vk := vk_from_b64url pubkey_b64url
    orelse (kfile, r, [seen], if reported then Ok PinFailed else Err CliIo) in
  match rotate_to_with_validation writable kfile p vk now confirm with
  | (kfile, Err e) => (kfile, r, [seen], Err e)
  | (kfile, Ok false) => (kfile, r, [seen], if reported then Ok PinFailed else Err CliIo)
  | (kfile, Ok true) =>
      (kfile, with_state (Pinned now) r, [seen; KeyringReplaced (default EmptyString kfile)],
       if reported then Ok PinPinned else Err CliIo)
  end.

(** The loop over the records; [tty] answers for the terminal and the keyring
    file, by record. *)
Fixpoint status_loop (tty : nat -> bool * bool * bool) (kfile : option string)
    (store : InviteStore) (now : string) (confirm : bool) :
    option string * InviteStore * list PairEvent * result (bool * bool * bool) PairCliError :=
  match store with
  | [] => (kfile, [], [], Ok (false, false, false))
  | r :: rest =>
      match iv_state r with
      | Redeemed by_ kid pk _ =>
          let '(writable, shown, reported) := tty O in
          let '(kfile, r, ev, o) :=
            pin_redeemed_record writable shown reported kfile r by_ kid pk now confirm in
          trying o := o catch e => (kfile, r :: rest, ev, Err e) in
          let '(kfile, rest, ev', res) := status_loop (fun i => tty (S i)) kfile rest now confirm in
          (kfile, r :: rest, ev ++ ev',
           result_map (fun '(any, failed, _) =>
             match o with PinPinned => (true, failed, true) | PinFailed => (any, true, true) end) res)
      | _ =>
          let '(kfile, rest, ev, res) := status_loop (fun i => tty (S i)) kfile rest now confirm in
          (kfile, r :: rest, ev, res)
      end
  end.

Definition pair_status (io : PairIo) (tty : nat -> bool * bool * bool) (file : option InviteStore)
    (kfile : option string) (now : string) (confirm : bool) :
    option InviteStore * option string * list PairEvent * result bool PairCliError :=
  trying _ := acquire io catch e => (file, kfile, [], Err (CliPairing e)) in
  trying store := load_store io file catch e => (file, kfile, [], Err (CliPairing e)) in
  let '(kfile, store, ev, res) := status_loop tty kfile store now confirm in
  trying (any_pinned, pin_failed, seen) := res catch e => (file, kfile, ev, Err e) in
  let '(file, saved) := if any_pinned : bool then save_atomic io store file else (file, Ok tt) in
  trying _ := saved catch e => (file, kfile, ev, Err (CliPairing e)) in
  if pin_failed : bool then (file, kfile, ev, Err (CliExit 1)) else (file, kfile, ev, Ok seen).

(** ** The redeemer: [cli/pair/redeem.rs] *)
Definition resolve_as_principal (as_identity own_domain : string) : result Principal PairCliError :=
  match Principal_from_str as_identity with
  | Ok full =>
      if String.eqb (pr_authority full) own_domain then Ok full else Err (CliExit 1)
  | Err _ => map_err CliPrincipal (Principal_from_str ("agent:" +:+ own_domain +:+ "/" +:+ as_identity))
  end.

Definition redemption_request (line as_identity own_domain nonce : string) (sk : FampSigningKey) :
    result (Signed RedemptionRequest) PairCliError :=
  try code := map_err CliPairing (parse_code line) in
  try own := resolve_as_principal as_identity own_domain in
  map_err CliPairing (signed_new (mkRedemptionRequest code (Principal_display own)
    (vk_to_b64url (verifying_key sk)) nonce) sk).

(** What the redeemer does with a successful answer. *)
Definition accept_response (writable : bool) (kfile : option string)
    (signed : Signed RedemptionResponse) (now : string) (confirm : bool) :
    option string * result Principal PairCliError :=
  let response := sd_statement signed in
  letok vk := vk_from_b64url (rp_inviter_pubkey_b64url response) orelse (kfile, Err (CliExit 1)) in
  trying _ := signed_verify signed vk catch e => (kfile, Err (CliPairing e)) in
  trying p := Principal_from_str (rp_inviter_principal response) catch e => (kfile, Err (CliPrincipal e)) in
  match rotate_to_with_validation writable kfile p vk now confirm with
  | (kfile, Err e) => (kfile, Err e)
  | (kfile, Ok false) => (kfile, Err (CliExit 1))
  | (kfile, Ok true) => (kfile, Ok p)
  end.
End commands.

(** ** The store under several processes

    The gateway's requests and the inviter's commands share the store file; what
    holds the lock runs alone, and a request is in flight between its unlocked
    read and its locked part. *)
Record PairWorld := mkPairWorld {
  pw_file : option InviteStore; pw_keyring : option string;
  pw_flights : gmap N (RedeemNext * string) }.

Definition stored (w : PairWorld) : InviteStore := default [] (pw_file w).

Inductive PairStep :=
| PsBegin (request : N) (io : PairIo) (body : bytes) (now : string)
| PsFinish (request : N) (io : PairIo)
| PsInvite (io : PairIo) (as_principal : string) (confirm : bool) (picks : list nat) (id now : string)
| PsRevoke (io : PairIo) (id : option string) (now : string)
| PsStatus (io : PairIo) (tty : nat -> bool * bool * bool) (now : string) (confirm : bool).

Section world.
Context `{WL : WireLib} `{CL : CryptoLib} `{PL : PairLib}.

Definition pair_step (own_domain : string) (w : PairWorld) (s : PairStep) :
    PairWorld * option (result (Signed RedemptionResponse) string) :=
  match s with
  | PsBegin request io body now =>
      let next := begin_redemption own_domain io (pw_file w) body now in
      (mkPairWorld (pw_file w) (pw_keyring w) (<[request := (next, now)]> (pw_flights w)), None)
  | PsFinish request io =>
      letsome (next, now) := pw_flights w !! request orelse (w, None) in
      let '(file, answer) := finish_redemption io (pw_file w) next now in
      (mkPairWorld file (pw_keyring w) (delete request (pw_flights w)), Some answer)
  | PsInvite io as_principal confirm picks id now =>
      let '(file, _) := pair_invite io (pw_file w) as_principal confirm picks id now in
      (mkPairWorld file (pw_keyring w) (pw_flights w), None)
  | PsRevoke io id now =>
      let '(file, _) := pair_revoke io (pw_file w) id now in
      (mkPairWorld file (pw_keyring w) (pw_flights w), None)
  | PsStatus io tty now confirm =>
      let '(file, kfile, _, _) := pair_status io tty (pw_file w) (pw_keyring w) now confirm in
      (mkPairWorld file kfile (pw_flights w), None)
  end.
End world.

(** ** A concrete instance, to show that the laws can hold *)
#[export] Instance toy_pair : PairLib := {|
  hex_decode s := Some (String.list_byte_of_string s);
  hex_encode := String.string_of_list_byte;
  wordlist := ["abandon"; "ability"; "able"; "about"; "above"; "absent"; "absorb"];
  add_24h now := if is_canonical_utc now then Some "2026-08-09T00:00:00Z" else None
|}.

#[export] Instance toy_pair_laws : PairLaws.
Proof.
  split; simpl.
  - intros b. by rewrite String.list_byte_of_string_of_list_byte.
  - intros w Hw. repeat (apply elem_of_cons in Hw as [->|Hw]; [by split|]). by apply elem_of_nil in Hw.
Qed.
