(* ===== verification/PairPin.v ===== *)
(** * Pairing codes, and pins that take effect or change nothing

    [parse_code] and [draw_code] of [crates/famp/src/pairing/wordlist.rs];
    [rotate_to_with_validation] of [crates/famp/src/cli/pair/mod.rs]: the file is
    replaced only by a text that loads back with the key active. *)

From Stdlib Require Import Strings.Byte Ascii.
From stdpp Require Import gmap pretty strings list.
From S2P Require Import Prelude Json Proto WireInstance Crypto Principal Core Derive Body Envelope.
From S2P Require Import Clock Keyring KeyringProps KeyringFile Pairing.

(** ** Codes *)
Section codes.
Context `{PL : PairLib} `{PLW : !PairLaws}.

Definition word (w : string) : Prop := w <> EmptyString /\ string_forall (ascii_between "a"%char "z"%char) w = true.

Lemma word_field w : word w -> field w.
Proof.
  intros [Hn H]. split; [done|]. revert H. apply string_forall_impl. intros c.
  unfold ascii_between, plain. simpl. lia.
Qed.

Lemma split_whitespace_concat ws : Forall field ws -> split_whitespace (String.concat " " ws) = ws.
Proof.
  unfold split_whitespace. induction 1 as [|w ws [Hne Hp] Hws IH]; [done|].
  assert (Hflush : forall l, flush w l = w :: l).
  { intros l. unfold flush. by rewrite (proj2 (String.eqb_neq w EmptyString) Hne). }
  destruct ws as [|v ws].
  - simpl. rewrite <- (str_app_nil w) at 1. rewrite split_ws_field by done. simpl. apply Hflush.
  - change (String.concat " " (w :: v :: ws)) with (w +:+ String " " (String.concat " " (v :: ws))).
    rewrite split_ws_field by done. simpl split_ws at 1. rewrite Hflush. f_equal. apply IH.
Qed.

Lemma lower_id s :
  string_forall (fun c => ascii_between "a"%char "z"%char c || Ascii.eqb c " "%char) s = true ->
  to_lowercase s = s.
Proof.
  induction s as [|c s IH]; [done|]. intros [Hc Hs]%andb_true_iff. specialize (IH Hs).
  assert (N_of_ascii c = 32 \/ 97 <= N_of_ascii c <= 122)%N as Hr.
  { apply orb_true_iff in Hc as [Hc | ->%Ascii.eqb_eq]; [right|by left].
    unfold ascii_between in Hc. simpl in Hc. lia. }
  assert (ascii_lower c = c) as Hl.
  { unfold ascii_lower. replace ((65 <=? N_of_ascii c) && (N_of_ascii c <=? 90))%N with false by lia. done. }
  cbn [to_lowercase]. destruct s as [|b [|d s]]; rewrite Hl, ?IH; [done|done|].
  replace (N_of_ascii c =? 226)%N with false by lia. done.
Qed.

Lemma concat_lower ws :
  Forall word ws ->
  string_forall (fun c => ascii_between "a"%char "z"%char c || Ascii.eqb c " "%char)
    (String.concat " " ws) = true.
Proof.
  assert (Hw : forall w, word w -> string_forall (fun c => ascii_between "a"%char "z"%char c || Ascii.eqb c " "%char) w = true).
  { intros w [_ H]. revert H. apply string_forall_impl. intros c ->. done. }
  induction 1 as [|w ws Hword Hws IH]; [done|]. destruct ws as [|v ws]; [simpl; by apply Hw|].
  change (String.concat " " (w :: v :: ws)) with (w +:+ String " " (String.concat " " (v :: ws))).
  rewrite string_forall_app. apply andb_true_iff. split; [by apply Hw|]. exact IH.
Qed.

Lemma parse_code_words ws :
  Forall (fun w => w ∈ wordlist) ws -> length ws = CODE_WORD_COUNT ->
  parse_code (String.concat " " ws) = Ok (String.concat " " ws).
Proof.
  intros Hin Hl. assert (Forall word ws) as Hw.
  { eapply Forall_impl; [exact Hin|]. intros w Hw. by apply wordlist_lower. }
  unfold parse_code. rewrite lower_id by (by apply concat_lower).
  rewrite split_whitespace_concat by (eapply Forall_impl; [exact Hw|apply word_field]).
  rewrite Hl. simpl negb. cbv iota.
  destruct (List.find _ ws) as [w|] eqn:Hf; [|done]. exfalso.
  apply List.find_some in Hf as [Hf Hn]. apply list_elem_of_In in Hf.
  rewrite Forall_forall in Hin. apply Hin in Hf. apply negb_true_iff in Hn.
  assert (existsb (String.eqb w) wordlist = true) as E; [|congruence].
  apply existsb_exists. exists w. split; [by apply list_elem_of_In|apply String.eqb_refl].
Qed.

Lemma parse_code_sound raw code :
  parse_code raw = Ok code ->
  exists ws, Forall (fun w => w ∈ wordlist) ws /\ length ws = CODE_WORD_COUNT /\ code = String.concat " " ws.
Proof.
  unfold parse_code. set (ws := split_whitespace _).
  destruct (Nat.eqb_spec (length ws) CODE_WORD_COUNT) as [Hl|]; [|done]. simpl negb. cbv iota.
  destruct (List.find _ ws) as [w|] eqn:Hf; [done|]. intros [= <-]. exists ws. split_and!; try done.
  apply Forall_forall. intros w Hw. apply list_elem_of_In in Hw.
  pose proof (List.find_none _ _ Hf w Hw) as Hn. apply negb_false_iff, existsb_exists in Hn as (v & Hv & He).
  apply String.eqb_eq in He as ->. by apply list_elem_of_In.
Qed.

Lemma word_index w : w ∈ wordlist -> exists i, (i < length wordlist)%nat /\ nth i wordlist EmptyString = w.
Proof.
  intros [i Hi]%list_elem_of_lookup. exists i. split; [by eapply lookup_lt_Some|].
  rewrite nth_lookup. by rewrite Hi.
Qed.

(** Codes are canonical.  A drawn code (five indices into the word list)
    parses to itself; whatever text parses, through any capitals and spacing,
    parses to a code that could have been drawn, and parsing that again changes
    nothing, so inviter and redeemer digest the same bytes. *)
Theorem pairing_code_canonical raw code picks :
  (length picks = CODE_WORD_COUNT -> Forall (fun i => (i < length wordlist)%nat) picks ->
   parse_code (draw_code picks) = Ok (draw_code picks)) /\
  (parse_code raw = Ok code ->
   parse_code code = Ok code /\
   exists picks, length picks = CODE_WORD_COUNT /\
     Forall (fun i => (i < length wordlist)%nat) picks /\ code = draw_code picks).
Proof.
  split.
  - intros Hl Hp. apply parse_code_words; [|by rewrite length_map].
    apply Forall_forall. intros w Hw. apply list_elem_of_In, in_map_iff in Hw as (i & <- & Hi).
    apply list_elem_of_In, nth_In. rewrite Forall_forall in Hp. apply Hp. by apply list_elem_of_In.
  - intros (ws & Hin & Hl & ->)%parse_code_sound. split; [by apply parse_code_words|].
    assert (exists picks, Forall (fun i => (i < length wordlist)%nat) picks /\
      map (fun i => nth i wordlist EmptyString) picks = ws) as (ps & Hps & Hm).
    { clear Hl. induction Hin as [|w ws Hw _ (ps & Hps & Hm)]; [by exists []|].
      destruct (word_index w Hw) as (i & Hi & Hn). exists (i :: ps). split; [by constructor|].
      simpl. by rewrite Hn, Hm. }
    exists ps. split_and!; [|done|by rewrite <- Hm]. by rewrite <- Hl, <- Hm, length_map.
Qed.
End codes.

Lemma pairing_code_canonical_witness :
  parse_code "ABILITY  able about" = Err (PaCodeMalformed "expected exactly 5 words, got 3") /\
  parse_code (draw_code [0; 1; 2; 3; 4]%nat) = Ok (draw_code [0; 1; 2; 3; 4]%nat).
Proof.
  split; [reflexivity|].
  apply (proj1 (pairing_code_canonical EmptyString EmptyString [0; 1; 2; 3; 4]%nat)); [reflexivity|].
  repeat constructor; vm_compute; lia.
Qed.

Section pin.
Context `{CL : CryptoLib} `{CLW : !CryptoLaws}.

(** ** What a loaded file holds *)
Definition key_ok (vk : TrustedVerifyingKey) : Prop :=
  length (as_bytes vk) = 32%nat /\ vk_from_bytes (as_bytes vk) = Ok vk.

Lemma vk_from_b64url_ok s vk : vk_from_b64url s = Ok vk -> key_ok vk.
Proof.
  unfold vk_from_b64url. destruct (b64url_decode s) as [b|]; [|done].
  destruct (Nat.eqb_spec (length b) 32) as [Hl|]; [|done]. intros H.
  assert (vk = mkVerifyingKey b) as -> by (unfold vk_from_bytes in H; by repeat case_match; simplify_eq).
  by split.
Qed.

Definition entries_storable (k : Keyring) : Prop :=
  forall p e, e ∈ entries k p -> principal_ok p /\ entry_storable e.

Lemma parse_line_storable raw n p e :
  parse_line raw n = Ok (p, e) -> principal_ok p /\ entry_storable e.
Proof.
  intros H. pose proof (parse_line_canonical raw n p e H) as Hc.
  assert (principal_ok p /\ key_ok (ke_key e)) as (Hp & Hl & Hk); [|done].
  revert H. unfold parse_line, map_err. intros H. repeat case_match; simplify_eq; simpl.
  all: match goal with
    | Hp : Principal_from_str _ = Ok ?x, Hv : vk_from_b64url _ = Ok ?y |- _ =>
        apply Principal_from_str_sound in Hp as [_ Hp]; apply vk_from_b64url_ok in Hv
    end; done.
Qed.

Lemma load_lines_storable n lines k seen k' :
  entries_storable k -> load_lines n lines k seen = Ok k' -> entries_storable k'.
Proof.
  revert n k seen. induction lines as [|line lines IH]; intros n k seen Hk; simpl; [by intros [= <-]|].
  case_match; [by apply IH|].
  destruct (parse_line line n) as [[p e]|] eqn:Ep; [|done].
  case_match; [done|]. case_match; [by case_match|]. apply IH.
  intros q f. rewrite entries_insert. case_decide as E; [subst q|apply Hk].
  intros [Hf | ->%list_elem_of_singleton]%elem_of_app; [by apply Hk|by eapply parse_line_storable].
Qed.

Lemma load_from_file_ok text k : load_from_file text = Ok k -> keyring_ok k /\ entries_storable k.
Proof.
  intros H. split.
  - eapply load_lines_ok; [|exact H]. intros p l. by rewrite lookup_empty.
  - eapply load_lines_storable; [|exact H]. intros p e He. unfold entries in He.
    rewrite lookup_empty in He. by apply elem_of_nil in He.
Qed.

(** ** Reading back what was written *)

(** Loading the lines of storable entries can only refuse or add them all. *)
Lemma load_lines_adds L n k seen k' :
  (forall p e, (p, e) ∈ L -> principal_ok p /\ entry_storable e) ->
  load_lines n (map (fun pe => entry_line pe.1 pe.2) L) k seen = Ok k' -> k' = foldl add k L.
Proof.
  revert n k seen. induction L as [|[p e] L IH]; intros n k seen Hok; [by intros [= <-]|].
  destruct (Hok p e ltac:(left)) as [Hp He]. cbn [map load_lines fst snd].
  assert (Htrim : String.eqb (trim_start (entry_line p e)) EmptyString ||
    String.prefix "#" (trim_start (entry_line p e)) = false).
  { unfold entry_line, Principal_display. by destruct (is_legacy_shaped e). }
  rewrite Htrim, (parse_entry_line n p e Hp He). case_match; [done|]. case_match; [by case_match|].
  apply IH. intros q f Hin. apply Hok. by right.
Qed.

Lemma load_saved k k' :
  no_empty k -> entries_storable k -> load_from_file (save_to_file k) = Ok k' ->
  k' = sort_by entry_key <$> k.
Proof.
  intros Hne He. unfold load_from_file. rewrite save_to_file_lines, file_lines_unlines.
  2:{ apply Forall_forall. intros l Hl. apply list_elem_of_In, in_map_iff in Hl as ([p e] & <- & Hin).
      apply list_elem_of_In, elem_of_flat, He in Hin as [Hp Hs]. simpl.
      split; (apply printable_no; [done|done|by apply entry_line_printable]). }
  intros H. apply load_lines_adds in H as ->; [|intros p e Hin%elem_of_flat; by apply He].
  apply map_eq. intros p. rewrite foldl_add_lookup by (intros q l; by rewrite lookup_empty).
  rewrite flat_of_principal, lookup_fmap. unfold entries. rewrite lookup_empty. simpl.
  destruct (k !! p) as [l|] eqn:E; simpl; [|done].
  pose proof (Hne p l E) as Hn. pose proof (sort_by_perm entry_key l) as Hp.
  destruct (sort_by entry_key l); [|done]. by apply Permutation_nil_l in Hp.
Qed.

Lemma entries_sorted k p : entries (sort_by entry_key <$> k) p ≡ₚ entries k p.
Proof. unfold entries. rewrite lookup_fmap. destruct (k !! p); simpl; [apply sort_by_perm|done]. Qed.

(** ** Rotation *)
Lemma active_key_entry k p now key :
  active_key k p now = LkActive key -> exists e, e ∈ entries k p /\ ke_state e = KActive /\ ke_key e = key.
Proof.
  unfold active_key, entries. intros H. destruct (is_canonical_utc now); [|done]. simpl in H.
  destruct (k !! p) as [l|]; [|done]. simpl. destruct l as [|x l]; [done|].
  destruct (find_entry (in_state KActive) (x :: l)) as [e|] eqn:E; [|by repeat case_match].
  apply find_entry_some in E as [He Hs%in_state_true]. exists e. by repeat case_match; simplify_eq.
Qed.

(** After an accepted rotation the principal's active keys are the new key, the
    other principals are untouched, and without confirmation nobody's key was
    replaced. *)
Lemma rotate_ok k p vk now c k' out :
  keyring_ok k -> rotate_to k p vk now None c = (k', Ok out) ->
  keyring_ok k' /\
  (forall e, e ∈ entries k' p -> ke_state e = KActive -> as_bytes (ke_key e) = as_bytes vk) /\
  (forall q, q <> p -> entries k' q = entries k q) /\
  (forall e, e ∈ entries k' p -> e ∈ entries k p \/ ke_key e = vk \/
     exists e0, e0 ∈ entries k p /\ ke_key e = ke_key e0) /\
  (c = false -> forall e, e ∈ entries k p -> ke_state e = KActive -> as_bytes (ke_key e) = as_bytes vk).
Proof.
  intros Hok H. assert (keyring_ok k') as Hok'.
  { change k' with (k', Ok out : result RotationOutcome KeyringError).1. rewrite <- H.
    apply keyring_ok_split in Hok as [H1 H2]. apply keyring_ok_split. split.
    - pose proof (keyring_apply_no_empty k (OpRotate p vk now None c) H1) as Hn. simpl in Hn.
      rewrite H in Hn |- *. exact Hn.
    - intros q. eapply change_ok; [apply rotate_change|apply H2]. }
  split; [done|]. pose proof (proj2 (proj1 (keyring_ok_split k) Hok) p) as [Hle _].
  unfold rotate_to in H. destruct (is_canonical_utc now); [|done]. simpl in H.
  destruct (has_revoked (entries k p) vk); [done|].
  destruct (position (in_state KActive) (entries k p)) as [[i old]|] eqn:Ep.
  - apply position_split in Ep as (l1 & l2 & El & -> & Ho & _). apply in_state_true in Ho.
    rewrite El, actives_app, actives_cons, (proj2 (in_state_true _ _) Ho) in Hle.
    assert (Hz : forall x, x ∈ l1 ++ l2 -> ke_state x <> KActive)
      by (apply actives_zero; rewrite actives_app; lia).
    assert (Hone : forall x, x ∈ entries k p -> ke_state x = KActive -> x = old).
    { intros x Hx Hs. rewrite El in Hx. apply elem_of_app in Hx as [Hx|[Hx|Hx]%elem_of_cons]; [|done|];
      exfalso; eapply Hz; try done; apply elem_of_app; auto. }
    destruct (bool_decide _) eqn:Eb.
    + apply bool_decide_eq_true in Eb. injection H as <- _.
      split_and!; [|done|by left|].
      * intros e He Hs. by rewrite (Hone e He Hs).
      * intros _ e He Hs. by rewrite (Hone e He Hs).
    + destruct c; [|done]. injection H as <- _. split_and!; [| | |done].
      * intros e. rewrite entries_insert, decide_True by done. rewrite El, insert_at_split.
        intros [[He|[ -> |He]%elem_of_cons]%elem_of_app | ->%list_elem_of_singleton]%elem_of_app Hs; try done;
        exfalso; eapply Hz; try done; apply elem_of_app; auto.
      * intros q Hq. by rewrite entries_insert, decide_False.
      * intros e. rewrite entries_insert, decide_True by done. rewrite El, insert_at_split.
        intros [[He|[ -> |He]%elem_of_cons]%elem_of_app | ->%list_elem_of_singleton]%elem_of_app.
        -- left. apply elem_of_app. by left.
        -- right. right. exists old. split; [|done]. apply elem_of_app. right. left.
        -- left. apply elem_of_app. right. by right.
        -- right. by left.
  - injection H as <- _. pose proof (position_none _ _ Ep) as Hno.
    assert (Hz : forall x, x ∈ entries k p -> ke_state x <> KActive).
    { intros x Hx Hs%in_state_true. by rewrite Hno in Hs. }
    split_and!.
    + intros e. rewrite entries_insert, decide_True by done.
      intros [He | ->%list_elem_of_singleton]%elem_of_app Hs; [by apply Hz in Hs|done].
    + intros q Hq. by rewrite entries_insert, decide_False.
    + intros e. rewrite entries_insert, decide_True by done.
      intros [He | ->%list_elem_of_singleton]%elem_of_app; [by left|right; by left].
    + intros _ e He Hs. by apply Hz in Hs.
Qed.

(** ** The validated pin *)
Definition keyring_of (kfile : option string) : result Keyring KeyringError :=
  match kfile with Some text => load_from_file text | None => Ok ∅ end.

Lemma keyring_of_ok kfile k : keyring_of kfile = Ok k -> keyring_ok k /\ entries_storable k.
Proof.
  destruct kfile as [text|]; simpl; [apply load_from_file_ok|]. intros [= <-]. split.
  - intros p l. by rewrite lookup_empty.
  - intros p e He. unfold entries in He. rewrite lookup_empty in He. by apply elem_of_nil in He.
Qed.

Lemma rotate_storable k p vk now c k' out :
  keyring_ok k -> entries_storable k -> principal_ok p -> key_ok vk ->
  rotate_to k p vk now None c = (k', Ok out) -> entries_storable k'.
Proof.
  intros Hok Hs Hp [Hl Hv] H.
  destruct (rotate_ok _ _ _ _ _ _ _ Hok H) as (Hok' & _ & Hoth & Hfrom & _).
  intros q e He. destruct (decide (q = p)) as [->|Hq]; [|rewrite Hoth in He by done; by apply Hs].
  split; [done|]. assert (entry_canonical e) as Hc.
  { apply keyring_ok_split in Hok' as [_ Hq]. destruct (Hq p) as [_ Hall].
    rewrite Forall_forall in Hall. by apply Hall. }
  destruct (Hfrom e He) as [He0 | [Hk | (e0 & He0 & Hk)]].
  - by destruct (Hs p e He0).
  - unfold entry_storable. by rewrite Hk.
  - apply Hs in He0 as (_ & Hl0 & Hv0 & _). unfold entry_storable. by rewrite Hk.
Qed.

(** A validated pin takes effect or changes nothing: when pinning answers
    success, the new keyring file loads, the pinned principal's usable key at
    that instant is the pinned key, every other principal keeps its entries, and
    without confirmation no different active key was displaced; in every other
    case, refusal or failure, the file on disk is the one that was there. *)
Theorem pin_is_validated writable kfile p vk now confirmed kfile' res :
  principal_ok p -> key_ok vk ->
  rotate_to_with_validation writable kfile p vk now confirmed = (kfile', res) ->
  match res with
  | Ok true => exists k text k', keyring_of kfile = Ok k /\ kfile' = Some text /\
      load_from_file text = Ok k' /\ active_key k' p now = LkActive vk /\
      (forall q, q <> p -> entries k' q ≡ₚ entries k q) /\
      (confirmed = false -> forall e, e ∈ entries k p -> ke_state e = KActive ->
         as_bytes (ke_key e) = as_bytes vk)
  | _ => kfile' = kfile
  end.
Proof.
  intros Hp Hvk. unfold rotate_to_with_validation. fold (keyring_of kfile).
  destruct (keyring_of kfile) as [k|] eqn:Hk; [|by intros [= <- <-]].
  destruct (keyring_of_ok _ _ Hk) as [Hok Hst].
  destruct (rotate_to k p vk now None confirmed) as [k1 [out|]] eqn:Hr; [|by intros [= <- <-]].
  pose proof (rotate_storable _ _ _ _ _ _ _ Hok Hst Hp Hvk Hr) as Hst1.
  destruct (rotate_ok _ _ _ _ _ _ _ Hok Hr) as (Hok1 & Hact & Hoth & _ & Hconf).
  destruct (negb writable); [by intros [= <- <-]|].
  destruct (load_from_file (save_to_file k1)) as [k2|] eqn:Hl; [|by intros [= <- <-]].
  destruct (active_key k2 p now) as [key| | | | |] eqn:Ha; try by intros [= <- <-].
  intros [= <- <-]. apply keyring_ok_split in Hok1 as [Hne _].
  pose proof (load_saved _ _ Hne Hst1 Hl) as ->. exists k, (save_to_file k1), (sort_by entry_key <$> k1).
  split_and!; try done.
  - rewrite Ha. f_equal. apply active_key_entry in Ha as (e & He & Hs & <-).
    rewrite entries_sorted in He. apply Hact in He; [|done].
    destruct (ke_key e), vk. simpl in He. by subst.
  - intros q Hq. by rewrite entries_sorted, Hoth.
Qed.
End pin.

Lemma pin_is_validated_witness :
  exists text k', load_from_file text = Ok k' /\
    active_key k' demo_peer (demo_now "5") = LkActive (demo_key x05).
Proof.
  destruct (rotate_to_with_validation true None demo_peer (demo_key x05) (demo_now "5") false)
    as [kf res] eqn:E.
  assert (res = Ok true) as Hres
    by (change res with (kf, res).2; rewrite <- E; vm_compute; reflexivity).
  pose proof (pin_is_validated true None demo_peer (demo_key x05) (demo_now "5") false kf res
    ltac:(by apply (Principal_from_str_sound (Principal_display demo_peer) demo_peer); vm_compute)
    ltac:(by split; vm_compute) E) as H.
  rewrite Hres in H. destruct H as (k & text & k' & _ & _ & Hl & Ha & _). exists text, k'. exact (conj Hl Ha).
Qed.
