(* ===== verification/PairingProps.v ===== *)
(** * Pairing is single-use, bounded and authenticated

    Over any interleaving of redemption requests with the inviter's commands:
    invites move along their lifecycle, each is redeemed at most once, only with
    its code, within its window and its attempt budget, by a key whose holder
    signed the request; and an honest redemption completes on both sides. *)

From Stdlib Require Import Strings.Byte Ascii.
From stdpp Require Import gmap pretty strings list.
From S2P Require Import Prelude Json WireInstance Crypto Principal Core Derive Body Envelope.
From S2P Require Import Clock Keyring KeyringProps KeyringFile Pairing PairPin.

(** ** Constant-time comparison *)
Lemma foldl_lor_zero l acc :
  foldl (fun diff '(x, y) => N.lor diff (N.lxor (Byte.to_N x) (Byte.to_N y))) acc l = 0%N <->
  acc = 0%N /\ Forall (fun p => p.1 = p.2) l.
Proof.
  revert acc. induction l as [|[x y] l IH]; intros acc; simpl; [rewrite Forall_nil; tauto|].
  rewrite IH, N.lor_eq_0_iff, N.lxor_eq_0_iff, Forall_cons. simpl.
  assert (Byte.to_N x = Byte.to_N y <-> x = y) as ->; [|tauto].
  split; [|by intros ->]. intros H. apply (f_equal Byte.of_N) in H.
  rewrite !Byte.of_to_N in H. by injection H.
Qed.

(** The XOR-accumulating comparison is equality on digests. *)
Lemma digests_equal_iff a b :
  length a = length b -> digests_equal a b = true <-> a = b.
Proof.
  intros Hl. unfold digests_equal. rewrite N.eqb_eq, foldl_lor_zero. split.
  - intros [_ H]. revert b Hl H. induction a as [|x a IH]; intros [|y b] Hl H; try done.
    simpl in H. apply Forall_cons in H as [Hxy H]. simpl in Hxy. subst y. f_equal.
    apply IH; [|done]. by injection Hl.
  - intros <-. split; [done|]. clear Hl. induction a; simpl; by constructor.
Qed.

(** ** The lifecycle *)
Inductive state_step : InviteState -> InviteState -> Prop :=
| st_stay st : state_step st st
| st_redeem b k p t : state_step Pending (Redeemed b k p t)
| st_pin b k p t t' : state_step (Redeemed b k p t) (Pinned t')
| st_revoke st t : state_step st (Revoked t).

(** One step of one invite, when wrong guesses were answered at times [ts]. *)
Record record_step (ts : list string) (r r' : InviteRecord) : Prop := {
  rs_id : iv_id r' = iv_id r;
  rs_principal_ : iv_principal r' = iv_principal r;
  rs_digest : iv_code_digest r' = iv_code_digest r;
  rs_created : iv_created_at r' = iv_created_at r;
  rs_expires : iv_expires_at r' = iv_expires_at r;
  rs_state : state_step (iv_state r) (iv_state r');
  rs_attempts : iv_attempts r' =
    if is_pending r && existsb (fun t => negb (is_expired t r)) ts
    then ((iv_attempts r + 1) mod 4294967296)%N else iv_attempts r }.

Definition store_step (ts : list string) : InviteStore -> InviteStore -> Prop :=
  Forall2 (record_step ts).

#[export] Instance record_step_refl : Reflexive (record_step []).
Proof. intros r. split; try done; [constructor|]. by rewrite andb_false_r. Qed.

Lemma store_step_map ts f s :
  (forall r, record_step ts r (f r)) -> store_step ts s (map f s).
Proof. intros Hf. unfold store_step. induction s; simpl; constructor; auto. Qed.
#[export] Instance store_step_refl : Reflexive (store_step []).
Proof. intros s. unfold store_step. induction s; by constructor. Qed.

Lemma record_step_state st r : state_step (iv_state r) st -> record_step [] r (with_state st r).
Proof. split; try done. by rewrite andb_false_r. Qed.

Lemma update_invite_step id f s r :
  find_invite id s = Some r -> record_step [] r (f r) -> store_step [] s (update_invite id f s).
Proof.
  intros Hf Hr. unfold store_step. induction s as [|x s IH]; simpl in *; [done|].
  destruct (String.eqb (iv_id x) id).
  - injection Hf as ->. constructor; [done|]. change (store_step [] s s). reflexivity.
  - constructor; [done|]. by apply IH.
Qed.

Lemma burn_step s now : store_step [now] s (burn_attempt s now).
Proof.
  apply store_step_map. intros r. split; simpl; rewrite ?orb_false_r; case_match; try done; constructor.
Qed.

Lemma consume_step s id b k p now s' r :
  consume s id b k p now = (s', r) -> store_step [] s s'.
Proof.
  unfold consume. destruct (find_invite id s) as [iv|] eqn:E; [|by intros [= <- _]].
  unfold is_pending. destruct (iv_state iv) eqn:Es; simpl; try by intros [= <- _].
  intros [= <- _]. eapply update_invite_step; [done|]. apply record_step_state. rewrite Es. constructor.
Qed.

Lemma revoke_invite_step s id now s' r : revoke_invite s id now = (s', r) -> store_step [] s s'.
Proof.
  unfold revoke_invite. destruct (find_invite id s) as [iv|] eqn:E; [|by intros [= <- _]].
  intros [= <- _]. eapply update_invite_step; [done|]. apply record_step_state. constructor.
Qed.

Lemma revoke_all_step s now : store_step [] s (revoke_all_pending s now).1.
Proof.
  apply store_step_map. intros r. case_match; [|done]. apply record_step_state. constructor.
Qed.

Section steps.
Context `{WL : WireLib} `{CL : CryptoLib} `{PL : PairLib}.

Lemma pin_record_step writable shown reported kfile r b k p t now confirm kfile' r' ev o :
  iv_state r = Redeemed b k p t ->
  pin_redeemed_record writable shown reported kfile r b k p now confirm = (kfile', r', ev, o) ->
  record_step [] r r'.
Proof.
  intros Hr. unfold pin_redeemed_record. intros H. repeat case_match; simplify_eq; try done.
  all: apply record_step_state; rewrite Hr; constructor.
Qed.

Lemma status_loop_step tty kfile s now confirm kfile' s' ev res :
  status_loop tty kfile s now confirm = (kfile', s', ev, res) -> Forall2 (record_step []) s s'.
Proof.
  revert tty kfile kfile' s' ev res. induction s as [|r s IH]; intros tty kfile kfile' s' ev res; simpl.
  { intros [= _ <- _ _]. constructor. }
  assert (Hrefl : Forall2 (record_step []) s s) by (change (store_step [] s s); reflexivity).
  destruct (iv_state r) as [|b k p t| |] eqn:Er.
  2: { destruct (tty O) as [[writable shown] reported].
    destruct (pin_redeemed_record _ _ _ _ _ _ _ _ _ _) as [[[kf r'] ev1] o] eqn:Hp.
    pose proof (pin_record_step _ _ _ _ _ _ _ _ _ _ _ _ _ _ _ Er Hp) as Hr.
    destruct o as [o|e]; [|intros [= _ <- _ _]; by constructor].
    destruct (status_loop _ kf s now confirm) as [[[kf2 s2] ev2] res2] eqn:Hl.
    intros [= _ <- _ _]. constructor; [done|]. by eapply IH. }
  all: destruct (status_loop _ kfile s now confirm) as [[[kf2 s2] ev2] res2] eqn:Hl;
    intros [= _ <- _ _]; constructor; [done|]; by eapply IH.
Qed.

(** What a file operation can do to the stored invites. *)
Definition file_step (ts : list string) (f f' : option InviteStore) : Prop :=
  store_step ts (default [] f) (default [] f').

Lemma save_step io s f f' r :
  store_step [] (default [] f) s -> save_atomic io s f = (f', r) -> file_step [] f f'.
Proof.
  intros Hs. unfold save_atomic. case_match; intros [= <- _]; unfold file_step; [exact Hs|reflexivity].
Qed.
Lemma load_store_ok io f s : load_store io f = Ok s -> s = default [] f.
Proof. unfold load_store. case_match; [by intros [= <-]|done]. Qed.

Ltac same_file := intros [= <- <-]; unfold file_step; reflexivity.

(** A wrong guess is charged exactly when it is answered as one. *)
Lemma burn_file_step io f now f' r :
  burn_and_reject_wrong_code io f now = (f', r) ->
  file_step (if String.eqb r "code_mismatch" then [now] else []) f f'.
Proof.
  unfold burn_and_reject_wrong_code. destruct (acquire io); [|same_file].
  destruct (load_store io f) as [s|] eqn:Hl; [|same_file]. apply load_store_ok in Hl as ->.
  unfold save_atomic. destruct (pio_writable io); [|same_file].
  intros [= <- <-]. simpl. apply burn_step.
Qed.

Lemma consume_file_step io f req vk d now f' r :
  accept_and_consume io f req vk d now = (f', r) -> file_step [] f f'.
Proof.
  unfold accept_and_consume. destruct (acquire io); [|same_file].
  destruct (load_store io f) as [s|] eqn:Hl; [|same_file]. apply load_store_ok in Hl as ->.
  destruct (decide_redemption _ d now) as [id| | | | |]; try same_file.
  destruct (find_invite id _) as [iv|]; [|same_file].
  destruct (consume _ id _ _ _ now) as [s1 c] eqn:Hc. apply consume_step in Hc.
  destruct c as [[]|]; [|same_file].
  destruct (save_atomic io s1 f) as [f1 r1] eqn:Hs. apply (save_step io s1 f f1 r1 Hc) in Hs.
  intros H. assert (f' = f1) as ->; [|done]. repeat case_match; by simplify_eq.
Qed.

(** An invitation adds at most one record, pending and under the id it drew. *)
Lemma invite_news io f p c picks id now f' r :
  pair_invite io f p c picks id now = (f', r) ->
  f' = f \/ exists rec, iv_id rec = id /\ iv_state rec = Pending /\ iv_attempts rec = 0%N /\
    f' = Some (default [] f ++ [rec]).
Proof.
  unfold pair_invite. destruct (negb c); [intros [= <- _]; by left|].
  destruct (Principal_from_str p) as [pr|]; [|intros [= <- _]; by left].
  destruct (add_24h now) as [ex|]; [|intros [= <- _]; by left].
  destruct (acquire io); [|intros [= <- _]; by left].
  destruct (load_store io f) as [s|] eqn:Hl; [|intros [= <- _]; by left]. apply load_store_ok in Hl as ->.
  unfold save_atomic. destruct (pio_writable io); [|intros [= <- _]; by left].
  intros [= <- _]. right. eexists. split_and!; [| | |reflexivity]; done.
Qed.
Lemma revoke_file_step io f id now f' r : pair_revoke io f id now = (f', r) -> file_step [] f f'.
Proof.
  unfold pair_revoke. destruct (acquire io); [|same_file].
  destruct (load_store io f) as [s|] eqn:Hl; [|same_file]. apply load_store_ok in Hl as ->.
  destruct id as [id|].
  - destruct (revoke_invite _ id now) as [s1 c] eqn:Hr. apply revoke_invite_step in Hr.
    destruct c as [[]|e]; [|destruct e; same_file].
    destruct (save_atomic io s1 f) as [f1 r1] eqn:Hs. apply (save_step io s1 f f1 r1 Hr) in Hs.
    intros H. assert (f' = f1) as ->; [|done]. destruct r1; by injection H.
  - pose proof (revoke_all_step (default [] f) now) as Hr.
    destruct (revoke_all_pending _ now) as [s1 n].
    destruct (save_atomic io s1 f) as [f1 r1] eqn:Hs. apply (save_step io s1 f f1 r1 Hr) in Hs.
    intros H. assert (f' = f1) as ->; [|done]. destruct r1; by injection H.
Qed.

Lemma status_file_step io tty f kf now c f' kf' ev r :
  pair_status io tty f kf now c = (f', kf', ev, r) -> file_step [] f f'.
Proof.
  unfold pair_status. destruct (acquire io); [|intros [= <- _ _ _]; unfold file_step; reflexivity].
  destruct (load_store io f) as [s|] eqn:Hl; [|intros [= <- _ _ _]; unfold file_step; reflexivity].
  apply load_store_ok in Hl as ->.
  destruct (status_loop tty kf _ now c) as [[[k1 s1] ev1] res] eqn:Hs.
  apply status_loop_step in Hs.
  destruct res as [[[any failed] seen]|e]; [|intros [= <- _ _ _]; unfold file_step; reflexivity].
  destruct any; simpl.
  - destruct (save_atomic io s1 f) as [f1 r1] eqn:Hsv. apply (save_step io s1 f f1 r1 Hs) in Hsv.
    intros H. assert (f' = f1) as ->; [|done]. repeat case_match; by simplify_eq.
  - destruct failed; intros [= <- _ _ _]; unfold file_step; reflexivity.
Qed.

Lemma consume_no_mismatch io f req vk d now f' reason :
  accept_and_consume io f req vk d now = (f', Err reason) -> reason <> "code_mismatch".
Proof. unfold accept_and_consume. intros H. by repeat case_match; simplify_eq. Qed.

Lemma begin_no_mismatch own io f body now reason :
  begin_redemption own io f body now = Answered reason -> reason <> "code_mismatch".
Proof. unfold begin_redemption. intros H. by repeat case_match; simplify_eq. Qed.

(** The times at which wrong guesses were charged by an answer. *)
Definition charges (now : string) (a : result (Signed RedemptionResponse) string) : list string :=
  match a with Err r => if String.eqb r "code_mismatch" then [now] else [] | Ok _ => [] end.

Lemma finish_file_step io f next now f' a :
  (forall reason, next = Answered reason -> reason <> "code_mismatch") ->
  finish_redemption io f next now = (f', a) -> file_step (charges now a) f f'.
Proof.
  destruct next as [reason| |req vk d id]; simpl; intros Hn.
  - intros [= <- <-]. simpl. rewrite (proj2 (String.eqb_neq _ _) (Hn _ eq_refl)).
    unfold file_step. reflexivity.
  - destruct (burn_and_reject_wrong_code io f now) as [f1 r1] eqn:H. intros [= <- <-].
    by eapply burn_file_step.
  - intros H. assert (charges now a = []) as ->.
    { destruct a as [|r]; [done|]. simpl. apply consume_no_mismatch in H.
      by rewrite (proj2 (String.eqb_neq _ _) H). }
    by eapply consume_file_step.
Qed.

(** Requests in flight never carry the answer only the burn gives. *)
Definition flights_ok (w : PairWorld) : Prop :=
  forall rid reason now, pw_flights w !! rid = Some (Answered reason, now) -> reason <> "code_mismatch".

(** What a step charged. *)
Definition step_charges (w : PairWorld) (s : PairStep)
    (a : option (result (Signed RedemptionResponse) string)) : list string :=
  match s, a with
  | PsFinish rid _, Some a =>
      match pw_flights w !! rid with Some (_, now) => charges now a | None => [] end
  | _, _ => []
  end.

(** The invites a step added, by the step. *)
Definition news_ok (s : PairStep) (news : InviteStore) : Prop :=
  news = [] \/ exists io p c picks id now r,
    s = PsInvite io p c picks id now /\ news = [r] /\ iv_id r = id /\
    iv_state r = Pending /\ iv_attempts r = 0%N.

Lemma pair_step_store own w s w' a :
  flights_ok w -> pair_step own w s = (w', a) ->
  flights_ok w' /\ exists olds news, stored w' = olds ++ news /\
    store_step (step_charges w s a) (stored w) olds /\ news_ok s news.
Proof.
  intros Hw. assert (Hold : forall olds ts, stored w' = olds -> store_step ts (stored w) olds ->
    exists olds news, stored w' = olds ++ news /\ store_step ts (stored w) olds /\ news_ok s news).
  { intros olds ts <- H. exists (stored w'), []. rewrite app_nil_r. split_and!; [done|done|by left]. }
  destruct s as [rid io body now|rid io|io p c picks id now|io id now|io tty now c]; simpl.
  - intros [= <- <-]. split; [|eapply Hold; [done|reflexivity]]. intros q reason t. simpl. intros Hq.
    destruct (decide (rid = q)) as [->|Hne].
    + rewrite lookup_insert_eq in Hq. injection Hq as Hq _. by eapply begin_no_mismatch.
    + rewrite lookup_insert_ne in Hq by done. by eapply Hw.
  - destruct (pw_flights w !! rid) as [[next now]|] eqn:Hf.
    2: { intros [= <- <-]. split; [done|]. eapply Hold; [done|reflexivity]. }
    destruct (finish_redemption io (pw_file w) next now) as [f b] eqn:H. intros [= <- <-]. split.
    + intros q reason t. simpl. intros [_ Hq]%lookup_delete_Some. by eapply Hw.
    + eapply Hold; [done|]. eapply finish_file_step; [|exact H]. intros reason ->. by eapply Hw.
  - destruct (pair_invite _ _ _ _ _ _ _) as [f b] eqn:H. intros [= <- <-]. split; [exact Hw|].
    apply invite_news in H as [-> | (r & Hid & Hst & Hat & ->)].
    + eapply Hold; [done|reflexivity].
    + exists (stored w), [r]. split_and!; [done|reflexivity|]. right. by eexists _, _, _, _, _, _, r.
  - destruct (pair_revoke _ _ _ _) as [f b] eqn:H. intros [= <- <-]. split; [exact Hw|].
    eapply Hold; [done|]. by eapply revoke_file_step.
  - destruct (pair_status _ _ _ _ _ _) as [[[f k] ev] b] eqn:H. intros [= <- <-]. split; [exact Hw|].
    eapply Hold; [done|]. by eapply status_file_step.
Qed.
End steps.

(** ** Runs *)
Section runs.
Context `{WL : WireLib} `{CL : CryptoLib} `{PL : PairLib} (own : string).

Definition accepted_ids (a : option (result (Signed RedemptionResponse) string)) : list string :=
  match a with Some (Ok signed) => [rp_invite_id (sd_statement signed)] | _ => [] end.

(** Invites get ids no earlier invite had (they are UUIDs); [B] remembers how
    many wrong guesses had been charged when each was created. *)
Definition fresh_id (w : PairWorld) (s : PairStep) : Prop :=
  match s with
  | PsInvite _ _ _ _ id _ => id ∉ map iv_id (stored w)
  | _ => True
  end.

Definition births (w w' : PairWorld) (n : nat) (B : gmap string nat) : gmap string nat :=
  foldl (fun B r => <[iv_id r := n]> B) B (drop (length (stored w)) (stored w')).

(** Runs from an empty store: redeemed ids and the times of charged wrong
    guesses, newest first. *)
Inductive pair_run : PairWorld -> list string -> list string -> gmap string nat -> Prop :=
| pr_start kfile : pair_run (mkPairWorld None kfile ∅) [] [] ∅
| pr_step w A H B s w' a :
    pair_run w A H B -> fresh_id w s -> pair_step own w s = (w', a) ->
    pair_run w' (accepted_ids a ++ A) (step_charges w s a ++ H) (births w w' (length H) B).

(** Wrong guesses charged since an invite was created, within its window. *)
Definition guesses_against (r : InviteRecord) (H : list string) (B : gmap string nat) : nat :=
  length (List.filter (fun t => negb (is_expired t r))
    (take (length H - default 0%nat (B !! iv_id r)) H)).

Record run_inv (w : PairWorld) (A H : list string) (B : gmap string nat) : Prop := {
  ri_flights : flights_ok w;
  ri_ids : NoDup (map iv_id (stored w));
  ri_born r : r ∈ stored w -> exists n, B !! iv_id r = Some n /\ (n <= length H)%nat;
  ri_once : NoDup A;
  ri_spent id : id ∈ A -> exists r, r ∈ stored w /\ iv_id r = id /\ iv_state r <> Pending;
  ri_attempts r : r ∈ stored w -> iv_state r = Pending ->
    iv_attempts r = (N.of_nat (guesses_against r H B) mod 4294967296)%N }.

Lemma find_invite_elem id s r : find_invite id s = Some r -> r ∈ s /\ iv_id r = id.
Proof.
  induction s as [|x s IH]; simpl; [done|]. destruct (String.eqb_spec (iv_id x) id) as [He|].
  - intros [= ->]. split; [left|done].
  - intros H. destruct (IH H). split; [by right|done].
Qed.

Lemma NoDup_ids_eq (s : InviteStore) r r' :
  NoDup (map iv_id s) -> r ∈ s -> r' ∈ s -> iv_id r = iv_id r' -> r = r'.
Proof.
  intros Hnd Hr Hr' He. induction s as [|x s IH]; [by apply elem_of_nil in Hr|].
  simpl in Hnd. apply NoDup_cons in Hnd as [Hx Hnd].
  apply elem_of_cons in Hr as [->|Hr], Hr' as [->|Hr']; try done.
  - exfalso. apply Hx. rewrite He. by apply list_elem_of_fmap_2.
  - exfalso. apply Hx. rewrite <- He. by apply list_elem_of_fmap_2.
  - by apply IH.
Qed.

Lemma NoDup_update s f r :
  NoDup (map iv_id s) -> r ∈ s -> f r ∈ update_invite (iv_id r) f s.
Proof.
  intros Hnd Hr. induction s as [|x s IH]; [by apply elem_of_nil in Hr|]. simpl in *.
  apply NoDup_cons in Hnd as [Hx Hnd]. destruct (String.eqb_spec (iv_id x) (iv_id r)) as [He|He].
  - apply elem_of_cons in Hr as [->|Hr]; [left|]. exfalso. apply Hx. rewrite He. by apply list_elem_of_fmap_2.
  - apply elem_of_cons in Hr as [->|Hr]; [done|]. right. by apply IH.
Qed.

(** What an accepted decision rests on. *)
Lemma last_match_sound d live acc r :
  foldl (fun matched r => if digest_matches d r then Some r else matched) acc live = Some r ->
  acc = Some r \/ r ∈ live /\ digest_matches d r = true.
Proof.
  revert acc. induction live as [|x live IH]; intros acc; simpl; [by left|]. intros H.
  apply IH in H as [H|[H1 H2]]; [|right; split; [by right|done]].
  destruct (digest_matches d x) eqn:E; [|by left]. injection H as ->. right. split; [left|done].
Qed.

Record open_for (d : bytes) (now : string) (r : InviteRecord) : Prop := {
  of_pending : iv_state r = Pending;
  of_digest : digest_matches d r = true;
  of_window : is_expired now r = false;
  of_attempts : (iv_attempts r < MAX_ATTEMPTS)%N }.

Lemma decide_accept s d now id :
  decide_redemption s d now = Accept_ id -> exists r, r ∈ s /\ iv_id r = id /\ open_for d now r.
Proof.
  unfold decide_redemption. case_bool_decide; [done|].
  destruct (last_match d _) as [r|] eqn:Hm; [|by repeat case_match].
  destruct (iv_state r) eqn:Hs; try done. destruct (is_expired now r) eqn:Hx; [done|].
  destruct (MAX_ATTEMPTS <=? iv_attempts r)%N eqn:Ha; [done|]. intros [= <-].
  apply last_match_sound in Hm as [|[Hin Hd]]; [done|].
  apply list_elem_of_In, filter_In in Hin as [Hin%list_elem_of_In _].
  exists r. split_and!; try done. split; try done. lia.
Qed.

Lemma accept_sound io f req vk d now f' signed :
  NoDup (map iv_id (default [] f)) ->
  accept_and_consume io f req vk d now = (f', Ok signed) ->
  exists r sk, r ∈ default [] f /\ open_for d now r /\
    pio_key io = Some sk /\
    signed_new (mkRedemptionResponse (iv_id r) (iv_principal r)
      (vk_to_b64url (verifying_key sk)) (key_id vk) now) sk = Ok signed /\
    f' = Some (update_invite (iv_id r)
      (with_state (Redeemed (rq_principal req) (key_id vk) (rq_pubkey_b64url req) now)) (default [] f)).
Proof.
  intros Hnd. unfold accept_and_consume. destruct (acquire io); [|done].
  destruct (load_store io f) as [s|] eqn:Hl; [|done]. apply load_store_ok in Hl as ->.
  destruct (decide_redemption _ d now) as [id| | | | |] eqn:Hdec; try done.
  apply decide_accept in Hdec as (r & Hr & <- & Ho).
  destruct (find_invite _ _) as [r0|] eqn:Hf; [|done].
  apply find_invite_elem in Hf as Hf'. destruct Hf' as [Hr0 Hid].
  assert (r0 = r) as -> by (by eapply NoDup_ids_eq).
  unfold consume. rewrite Hf. unfold is_pending. rewrite (of_pending _ _ _ Ho). simpl negb. cbv iota.
  unfold save_atomic. destruct (pio_writable io); [|done].
  destruct (pio_key io) as [sk|] eqn:Hk; [|done].
  destruct (signed_new _ sk) as [sg|] eqn:Hs; [|done]. intros [= <- <-].
  exists r, sk. by split_and!.
Qed.

Lemma step_accept w s w' signed :
  NoDup (map iv_id (stored w)) -> pair_step own w s = (w', Some (Ok signed)) ->
  exists rid io req vk d id now r sk,
    s = PsFinish rid io /\ pw_flights w !! rid = Some (ThenConsume req vk d id, now) /\
    r ∈ stored w /\ open_for d now r /\ pio_key io = Some sk /\
    signed_new (mkRedemptionResponse (iv_id r) (iv_principal r)
      (vk_to_b64url (verifying_key sk)) (key_id vk) now) sk = Ok signed /\
    stored w' = update_invite (iv_id r)
      (with_state (Redeemed (rq_principal req) (key_id vk) (rq_pubkey_b64url req) now)) (stored w).
Proof.
  intros Hnd. destruct s as [rid io body now|rid io|io p c picks id now|io id now|io tty now c]; simpl.
  - done.
  - destruct (pw_flights w !! rid) as [[next now]|] eqn:Hf; [|done].
    destruct (finish_redemption io (pw_file w) next now) as [f b] eqn:H. intros [= <- ->].
    destruct next as [reason| |req vk d id]; simpl in H; [done| |].
    { by destruct (burn_and_reject_wrong_code io (pw_file w) now). }
    apply accept_sound in H as (r & sk & Hr & Ho & Hk & Hs & ->); [|done].
    by exists rid, io, req, vk, d, id, now, r, sk.
  - by destruct (pair_invite _ _ _ _ _ _ _).
  - by destruct (pair_revoke _ _ _ _).
  - by destruct (pair_status _ _ _ _ _ _) as [[[? ?] ?] ?].
Qed.
(** *** The invariant of a run *)
Lemma store_step_ids ts s s' : store_step ts s s' -> map iv_id s' = map iv_id s.
Proof. induction 1 as [|r r' s s' Hr _ IH]; simpl; [done|]. by rewrite (rs_id _ _ _ Hr), IH. Qed.

Lemma store_step_bwd ts s s' r' :
  store_step ts s s' -> r' ∈ s' -> exists r, r ∈ s /\ record_step ts r r'.
Proof.
  intros H [i Hi]%list_elem_of_lookup. destruct (Forall2_lookup_r _ _ _ _ _ H Hi) as (r & Hr & ?).
  exists r. split; [by eapply list_elem_of_lookup_2|done].
Qed.
Lemma store_step_fwd ts s s' r :
  store_step ts s s' -> r ∈ s -> exists r', r' ∈ s' /\ record_step ts r r'.
Proof.
  intros H [i Hi]%list_elem_of_lookup. destruct (Forall2_lookup_l _ _ _ _ _ H Hi) as (r' & Hr & ?).
  exists r'. split; [by eapply list_elem_of_lookup_2|done].
Qed.

Lemma charges_length w s a : (length (step_charges w s a) <= 1)%nat.
Proof.
  unfold step_charges, charges. repeat (case_match; simpl; try lia).
Qed.

Lemma births_news w w' n B olds news :
  stored w' = olds ++ news -> length olds = length (stored w) ->
  births w w' n B = foldl (fun B r => <[iv_id r := n]> B) B news.
Proof. intros H1 H2. unfold births. by rewrite H1, drop_app_length'. Qed.

Lemma state_step_not_pending st st' : state_step st st' -> st <> Pending -> st' <> Pending.
Proof. by inversion 1. Qed.
Lemma state_step_pending st : state_step st Pending -> st = Pending.
Proof. by inversion 1. Qed.

(** A charge counts against the invites whose window it falls in. *)
Lemma guesses_step ts r r' H B B' n :
  (length ts <= 1)%nat -> record_step ts r r' -> iv_state r = Pending ->
  B !! iv_id r = Some n -> B' !! iv_id r = Some n -> (n <= length H)%nat ->
  iv_attempts r = (N.of_nat (guesses_against r H B) mod 4294967296)%N ->
  iv_attempts r' = (N.of_nat (guesses_against r' (ts ++ H) B') mod 4294967296)%N.
Proof.
  intros Hts [Hid _ _ _ Hex _ Hat] Hp HB HB' Hn Hold. rewrite Hat. unfold is_pending.
  rewrite Hp. simpl. unfold guesses_against in *. rewrite Hid, HB'. rewrite HB in Hold. simpl in *.
  assert (forall t, is_expired t r' = is_expired t r) as Hx by (intros t; unfold is_expired; by rewrite Hex).
  rewrite (filter_ext _ (fun t => negb (is_expired t r))) by (intros t; by rewrite Hx).
  destruct ts as [|t [|]]; simpl in *; [done| |lia].
  rewrite orb_false_r, Nat.sub_succ_l by done. simpl. destruct (negb (is_expired t r)); [|done].
  rewrite Hold. simpl length. rewrite Nat2N.inj_succ, N.Div0.add_mod_idemp_l. f_equal. lia.
Qed.

Lemma run_inv_same ts acc w w' A H B :
  run_inv w A H B -> flights_ok w' -> store_step ts (stored w) (stored w') -> (length ts <= 1)%nat ->
  (acc = [] \/ exists r r', acc = [iv_id r] /\ r ∈ stored w /\ iv_state r = Pending /\
     r' ∈ stored w' /\ iv_id r' = iv_id r /\ iv_state r' <> Pending) ->
  run_inv w' (acc ++ A) (ts ++ H) B.
Proof.
  intros [_ Hids Hborn Honce Hspent Hatt] Hfl' Hold Hts Hacc. split; try done.
  - by rewrite (store_step_ids _ _ _ Hold).
  - intros r' Hr'. destruct (store_step_bwd _ _ _ _ Hold Hr') as (r & Hr & Hrr).
    destruct (Hborn r Hr) as (n & Hn & Hle). rewrite (rs_id _ _ _ Hrr). exists n.
    rewrite length_app. split; [done|lia].
  - destruct Hacc as [-> | (r & r' & -> & Hr & Hp & _)]; [done|]. apply NoDup_cons. split; [|done].
    intros HA. destruct (Hspent _ HA) as (r1 & Hr1 & Hi1 & Hn1). apply Hn1.
    by rewrite (NoDup_ids_eq (stored w) r1 r).
  - intros i [Hi|Hi]%elem_of_app.
    + destruct Hacc as [-> | (r & r' & -> & _ & _ & Hr' & Hi' & Hn)]; [by apply elem_of_nil in Hi|].
      apply list_elem_of_singleton in Hi as ->. by exists r'.
    + destruct (Hspent i Hi) as (r & Hr & Hir & Hn).
      destruct (store_step_fwd _ _ _ _ Hold Hr) as (r' & Hr' & Hrr). exists r'.
      split_and!; [done|by rewrite (rs_id _ _ _ Hrr)|].
      eapply state_step_not_pending; [apply Hrr|done].
  - intros r' Hr' Hp. destruct (store_step_bwd _ _ _ _ Hold Hr') as (r & Hr & Hrr).
    destruct (Hborn r Hr) as (n & Hn & Hle).
    assert (iv_state r = Pending) as Hpr
      by (pose proof (rs_state _ _ _ Hrr) as Hs; rewrite Hp in Hs; by apply state_step_pending).
    eapply guesses_step; try done. by apply Hatt.
Qed.

Lemma run_inv_born w w' A H B r0 :
  run_inv w A H B -> flights_ok w' -> iv_id r0 ∉ map iv_id (stored w) ->
  iv_attempts r0 = 0%N -> stored w' = stored w ++ [r0] ->
  run_inv w' A H (<[iv_id r0 := length H]> B).
Proof.
  intros [_ Hids Hborn Honce Hspent Hatt] Hfl' Hfresh H0 Hw'.
  assert (Hne : forall r, r ∈ stored w -> iv_id r0 <> iv_id r).
  { intros r Hr He. apply Hfresh. rewrite He. by apply list_elem_of_fmap_2. }
  split; rewrite ?Hw'; try done.
  - rewrite map_app. apply NoDup_app. split_and!; [done| |apply NoDup_singleton].
    simpl. by intros x Hx ->%list_elem_of_singleton.
  - intros r [Hr | ->%list_elem_of_singleton]%elem_of_app.
    + rewrite lookup_insert_ne by by apply Hne. by apply Hborn.
    + rewrite lookup_insert_eq. by eexists.
  - intros i Hi. destruct (Hspent i Hi) as (r & Hr & ?). exists r. split; [apply elem_of_app; by left|done].
  - intros r [Hr | ->%list_elem_of_singleton]%elem_of_app Hp; unfold guesses_against.
    + rewrite lookup_insert_ne by by apply Hne. by apply Hatt.
    + rewrite lookup_insert_eq. simpl. by rewrite Nat.sub_diag, H0.
Qed.

Lemma run_inv_step w A H B s w' a :
  run_inv w A H B -> fresh_id w s -> pair_step own w s = (w', a) ->
  run_inv w' (accepted_ids a ++ A) (step_charges w s a ++ H) (births w w' (length H) B).
Proof.
  intros Hinv Hfresh Hstep. pose proof (ri_ids _ _ _ _ Hinv) as Hids.
  destruct (pair_step_store own w s w' a (ri_flights _ _ _ _ Hinv) Hstep)
    as (Hfl' & olds & news & Hw' & Hold & Hnews).
  assert (length olds = length (stored w)) as Hlen by (symmetry; by eapply Forall2_length).
  rewrite (births_news w w' (length H) B olds news Hw' Hlen).
  destruct Hnews as [-> | (io & p & c & picks & id & now & r0 & -> & -> & <- & Hp0 & Ha0)].
  - rewrite app_nil_r in Hw'. subst olds. apply (run_inv_same _ _ w); try done; [apply charges_length|].
    destruct a as [[signed|]|]; try by left. right. pose proof Hstep as Hacc.
    apply step_accept in Hacc as (rid & io & req & vk & d & id & now & r & sk & _ & _ & Hr & Ho & _ & Hsg & ->);
      [|done].
    eexists r, (with_state _ r). split_and!; [|done|apply Ho|by apply NoDup_update|done|done].
    unfold signed_new in Hsg. destruct (sign_value sk _); [|done]. by injection Hsg as <-.
  - assert (a = None) as -> by (simpl in Hstep; by destruct (pair_invite _ _ _ _ _ _ _); simplify_eq).
    simpl in *. set (w1 := mkPairWorld (Some olds) (pw_keyring w') (pw_flights w')).
    apply (run_inv_born w1); try done; [|change (stored w1) with olds; by rewrite (store_step_ids _ _ _ Hold)].
    apply (run_inv_same [] [] w); try done; [simpl; lia|by left].
Qed.

Lemma run_invariant w A H B : pair_run w A H B -> run_inv w A H B.
Proof.
  induction 1 as [kfile|w A H B s w' a _ IH Hf Hs]; [|by apply run_inv_step].
  split; simpl; try done.
  - constructor.
  - intros r Hr. by apply elem_of_nil in Hr.
  - constructor.
  - intros id Hid. by apply elem_of_nil in Hid.
  - intros r Hr. by apply elem_of_nil in Hr.
Qed.

(** ** What a redemption needs *)
Definition flights_known (w : PairWorld) : Prop :=
  forall rid next now, pw_flights w !! rid = Some (next, now) ->
    exists io f body, begin_redemption own io f body now = next.

Lemma flights_known_step w s w' a :
  flights_known w -> pair_step own w s = (w', a) -> flights_known w'.
Proof.
  intros Hw. destruct s as [rid io body now|rid io|io p c picks id now|io id now|io tty now c]; simpl.
  - intros [= <- _] q next t. simpl. intros [[<- [= <- <-]]|[_ Hq]]%lookup_insert_Some; [|by eapply Hw].
    by exists io, (pw_file w), body.
  - destruct (pw_flights w !! rid) as [[next now]|] eqn:Hf; [|by intros [= <- _]].
    destruct (finish_redemption io (pw_file w) next now) as [f b]. intros [= <- _] q nx t. simpl.
    intros [_ Hq]%lookup_delete_Some. by eapply Hw.
  - destruct (pair_invite _ _ _ _ _ _ _) as [f b]. by intros [= <- _].
  - destruct (pair_revoke _ _ _ _) as [f b]. by intros [= <- _].
  - destruct (pair_status _ _ _ _ _ _) as [[[f k] ev] b]. by intros [= <- _].
Qed.

Lemma run_flights_known w A H B : pair_run w A H B -> flights_known w.
Proof.
  induction 1 as [kfile|w A H B s w' a _ IH _ Hs]; [|by eapply flights_known_step].
  intros rid next now Hr. simpl in Hr. by rewrite lookup_empty in Hr.
Qed.

(** What a request that reached the locked part had to be. *)
Record proven (body : bytes) (req : RedemptionRequest) (vk : TrustedVerifyingKey) (d : bytes) : Prop := {
  pv_body : exists v sig, from_slice_strict body = Ok v /\
    d_signed_request v = Ok (mkSignedStatement req sig) /\
    exists s, sig_from_b64url sig = Ok s /\ verify_value vk (statement_value req) s = Ok tt;
  pv_code : exists code, parse_code (rq_code req) = Ok code /\ d = code_digest code;
  pv_principal : exists p, Principal_from_str (rq_principal req) = Ok p /\ pr_authority p <> own;
  pv_key : vk_from_b64url (rq_pubkey_b64url req) = Ok vk }.

Lemma begin_proven io f body now req vk d id :
  begin_redemption own io f body now = ThenConsume req vk d id -> proven body req vk d.
Proof.
  unfold begin_redemption. destruct (from_slice_strict body) as [v|] eqn:Hv; [|done].
  destruct (d_signed_request v) as [[rq sig]|] eqn:Hd; [|done]. simpl.
  destruct (parse_code (rq_code rq)) as [code|] eqn:Hc; [|done].
  destruct (Principal_from_str (rq_principal rq)) as [p|] eqn:Hp; [|done].
  destruct (vk_from_b64url (rq_pubkey_b64url rq)) as [k|] eqn:Hk; [|done].
  destruct (String.eqb_spec (pr_authority p) own) as [|Ho]; [done|].
  destruct (load_store io f) as [s|]; [|done].
  destruct (decide_redemption s (code_digest code) now) as [i| | | | |]; try done.
  unfold signed_verify. simpl. destruct (sig_from_b64url sig) as [sg|] eqn:Hsg; [|done].
  destruct (verify_value k (statement_value rq) sg) as [[]|] eqn:Hver; [|done].
  simpl. intros [= <- <- <- <-]. split; [|by exists code|by exists p|done].
  exists v, sig. split_and!; [done|done|]. by exists sg.
Qed.

Lemma digest_matches_exact `{CLW : !CryptoLaws} code r :
  digest_matches (code_digest code) r = true <-> digest_from_hex (iv_code_digest r) = Some (code_digest code).
Proof.
  unfold digest_matches, digest_from_hex. destruct (hex_decode (iv_code_digest r)) as [b|]; simpl; [|done].
  destruct (Nat.eqb_spec (length b) 32) as [Hl|]; [|done].
  rewrite digests_equal_iff by (unfold code_digest; by rewrite sha256_length). split; congruence.
Qed.

(** Single use.  Over any interleaving of redemption requests (each read
    unlocked, then finished under the lock against the store of that moment)
    with invitations, revocations and status runs: no invite is answered with an
    acceptance twice, every accepted invite has left the pending state for good,
    and a step moves each stored invite only forward, changing neither its id,
    its principal, its code nor its window. *)
Theorem invite_redeemed_once w A H B s w' a :
  pair_run w A H B -> fresh_id w s -> pair_step own w s = (w', a) ->
  NoDup (accepted_ids a ++ A) /\
  (forall id, id ∈ accepted_ids a ++ A ->
     exists r, r ∈ stored w' /\ iv_id r = id /\ iv_state r <> Pending) /\
  exists olds news, stored w' = olds ++ news /\
    Forall2 (fun r r' => iv_id r' = iv_id r /\ iv_principal r' = iv_principal r /\
      iv_code_digest r' = iv_code_digest r /\ iv_expires_at r' = iv_expires_at r /\
      state_step (iv_state r) (iv_state r')) (stored w) olds.
Proof.
  intros Hrun Hf Hs. pose proof (run_invariant _ _ _ _ Hrun) as Hinv.
  pose proof (run_inv_step _ _ _ _ _ _ _ Hinv Hf Hs) as Hinv'.
  split; [apply Hinv'|]. split; [apply Hinv'|].
  destruct (pair_step_store own w s w' a (ri_flights _ _ _ _ Hinv) Hs)
    as (_ & olds & news & Hw' & Hold & _).
  exists olds, news. split; [done|]. eapply Forall2_impl; [exact Hold|]. by intros r r' [].
Qed.

(** C24. An acceptance is earned.  Over any such interleaving, a request the
    gateway accepts carried, in its own body, the code of one pending invite
    inside its window, against which fewer than five wrong guesses had been
    charged in that window since it was created; it named a principal outside
    the gateway's domain and a key that signed exactly that request.  The answer
    names that invite, its inviter and the gateway's own key, is signed by it,
    and the store records exactly the presented principal and key. *)
Theorem acceptance_is_earned `{CLW : !CryptoLaws} w A H B s w' signed :
  pair_run w A H B -> (N.of_nat (length H) < 4294967296)%N ->
  pair_step own w s = (w', Some (Ok signed)) ->
  exists rid io body req vk code now r sk,
    s = PsFinish rid io /\ proven body req vk (code_digest code) /\
    r ∈ stored w /\ iv_state r = Pending /\
    digest_from_hex (iv_code_digest r) = Some (code_digest code) /\
    is_expired now r = false /\ (guesses_against r H B < 5)%nat /\
    pio_key io = Some sk /\
    signed_new (mkRedemptionResponse (iv_id r) (iv_principal r)
      (vk_to_b64url (verifying_key sk)) (key_id vk) now) sk = Ok signed /\
    stored w' = update_invite (iv_id r)
      (with_state (Redeemed (rq_principal req) (key_id vk) (rq_pubkey_b64url req) now)) (stored w).
Proof.
  intros Hrun HH Hs. pose proof (run_invariant _ _ _ _ Hrun) as Hinv.
  destruct (step_accept _ _ _ _ (ri_ids _ _ _ _ Hinv) Hs)
    as (rid & io & req & vk & d & id & now & r & sk & -> & Hfl & Hr & [Hp Hd Hx Ha] & Hk & Hsg & Hw').
  destruct (run_flights_known _ _ _ _ Hrun _ _ _ Hfl) as (io0 & f & body & Hb).
  apply begin_proven in Hb as Hpv. destruct (pv_code _ _ _ _ Hpv) as (code & _ & ->).
  exists rid, io, body, req, vk, code, now, r, sk.
  split_and!; try done; [by apply digest_matches_exact|].
  rewrite (ri_attempts _ _ _ _ Hinv r Hr Hp) in Ha. unfold MAX_ATTEMPTS in Ha.
  assert (guesses_against r H B <= length H)%nat as Hle.
  { unfold guesses_against. etransitivity; [apply List.filter_length_le|]. rewrite length_take. lia. }
  rewrite N.mod_small in Ha by lia. lia.
Qed.
End runs.
