(* ===== verification/TaskDir.v ===== *)
(** * The task directory

    [crates/famp-taskdir]: one TOML file per task, [<task_id>.toml].  The
    directory is a map from file names to contents; the TOML printer and parser
    ([toml]) are the class [TomlLib]; what the operating system answers is an
    argument. *)

From Stdlib Require Import Strings.Byte Ascii.
From stdpp Require Import gmap strings list fin_maps.
From S2P Require Import Prelude Json WireInstance.

(** ** [record.rs] *)
Record TaskRecord := mkTaskRecord {
  tk_task_id : string; tk_state : string; tk_peer : string; tk_opened_at : string;
  tk_last_send_at : option string; tk_last_recv_at : option string; tk_terminal : bool }.

Definition new_requested (task_id peer now_rfc3339 : string) : TaskRecord :=
  mkTaskRecord task_id "REQUESTED" peer now_rfc3339 None None false.
Definition new_committed (task_id peer now_rfc3339 : string) : TaskRecord :=
  mkTaskRecord task_id "COMMITTED" peer now_rfc3339 None None false.

(** [str::from_utf8], [toml::from_str] and [toml::to_string] on records. *)
Class TomlLib := {
  is_utf8 : bytes -> bool;
  toml_parse : bytes -> option TaskRecord;
  toml_print : TaskRecord -> option bytes }.
Class TomlLaws `{TomlLib} : Prop := {
  toml_roundtrip r b : toml_print r = Some b -> is_utf8 b = true /\ toml_parse b = Some r }.

(** ** [error.rs] *)
Inductive TaskDirError :=
| TdIo (path : string) | TdTomlParse (path : string) | TdTomlSerialize (task_id : string)
| TdNotFound (task_id : string) | TdAlreadyExists (task_id : string)
| TdInvalidUuid (value : string) | TdTaskIdChanged (original next : string).
Inductive TryUpdateError (E : Type) := TuClosure (e : E) | TuStore (e : TaskDirError).
Arguments TuClosure {E} e.
Arguments TuStore {E} e.

(** ** [store.rs] *)
Abbreviation TaskFiles := (gmap string bytes) (only parsing).

(** Reads that fail otherwise than by absence, writes that fail (the temporary
    file is renamed into place only when complete), permissions that cannot be
    set on the file already renamed, listing that fails. *)
Record TaskIo := mkTaskIo {
  ti_read_fails : string -> bool; ti_write_fails : string -> bool;
  ti_chmod_fails : string -> bool; ti_list_fails : bool }.
Definition task_io_ok : TaskIo := mkTaskIo (fun _ => false) (fun _ => false) (fun _ => false) false.

Section store.
Context `{WL : WireLib} `{TL : TomlLib} (io : TaskIo).

Definition path_for (task_id : string) : result string TaskDirError :=
  match uuid_parse_str task_id with
  | Some _ => Ok (task_id +:+ ".toml")
  | None => Err (TdInvalidUuid task_id)
  end.

Definition write_atomic_file (files : TaskFiles) (path : string) (body : bytes) :
    TaskFiles * result unit TaskDirError :=
  if ti_write_fails io path then (files, Err (TdIo path)) else
  (<[path := body]> files, if ti_chmod_fails io path then Err (TdIo path) else Ok tt).

(** Serializing and replacing one record. *)
Definition persist (files : TaskFiles) (path : string) (record : TaskRecord) :
    TaskFiles * result unit TaskDirError :=
  letsome body := toml_print record orelse (files, Err (TdTomlSerialize (tk_task_id record))) in
  write_atomic_file files path body.

Definition task_create (files : TaskFiles) (record : TaskRecord) :
    TaskFiles * result unit TaskDirError :=
  trying path := path_for (tk_task_id record) catch e => (files, Err e) in
  if is_some (files !! path) then (files, Err (TdAlreadyExists (tk_task_id record)))
  else persist files path record.

Definition task_read (files : TaskFiles) (task_id : string) : result TaskRecord TaskDirError :=
  try path := path_for task_id in
  if ti_read_fails io path then Err (TdIo path) else
  letsome b := files !! path orelse Err (TdNotFound task_id) in
  if negb (is_utf8 b) then Err (TdIo path) else
  letsome r := toml_parse b orelse Err (TdTomlParse path) in
  Ok r.

(** [update] is [try_update] with a closure that cannot fail. *)
Definition task_try_update {E} (files : TaskFiles) (task_id : string)
    (mutate : TaskRecord -> result TaskRecord E) : TaskFiles * result TaskRecord (TryUpdateError E) :=
  trying current := task_read files task_id catch e => (files, Err (TuStore e)) in
  trying next := mutate current catch e => (files, Err (TuClosure e)) in
  if negb (String.eqb (tk_task_id next) task_id)
  then (files, Err (TuStore (TdTaskIdChanged task_id (tk_task_id next)))) else
  trying path := path_for task_id catch e => (files, Err (TuStore e)) in
  let '(files, written) := persist files path next in
  (files, match written with Ok _ => Ok next | Err e => Err (TuStore e) end).

Definition task_update (files : TaskFiles) (task_id : string) (mutate : TaskRecord -> TaskRecord) :
    TaskFiles * result TaskRecord TaskDirError :=
  trying current := task_read files task_id catch e => (files, Err e) in
  let next := mutate current in
  if negb (String.eqb (tk_task_id next) task_id)
  then (files, Err (TdTaskIdChanged task_id (tk_task_id next))) else
  trying path := path_for task_id catch e => (files, Err e) in
  let '(files, written) := persist files path next in
  (files, match written with Ok _ => Ok next | Err e => Err e end).

(** [Path::extension] is ["toml"]: something before the last dot. *)
Fixpoint strip_suffix (suffix s : string) : option string :=
  if String.eqb s suffix then Some EmptyString else
  match s with String c rest => String c <$> strip_suffix suffix rest | EmptyString => None end.
Definition has_toml_extension (file_name : string) : bool :=
  match strip_suffix ".toml" file_name with
  | Some stem => negb (String.eqb stem EmptyString)
  | None => false
  end.

Definition listed (entry : string * bytes) : option TaskRecord :=
  let (file_name, b) := entry in
  if has_toml_extension file_name && negb (ti_read_fails io file_name) && is_utf8 b
  then toml_parse b else None.

(** The order is the directory's. *)
Definition task_list (files : TaskFiles) : result (list TaskRecord) TaskDirError :=
  if ti_list_fails io then Err (TdIo EmptyString) else Ok (omap listed (map_to_list files)).
End store.

(** ** The task directory keeps one record per task

    Every file holds the record it is named after, so listing and reading
    agree; failures change nothing; success changes one file. *)

(** ** File names *)
Lemma strip_suffix_app suffix s : strip_suffix suffix (s +:+ suffix) = Some s.
Proof.
  induction s as [|c s IH].
  - change (EmptyString +:+ suffix) with suffix.
    destruct suffix; simpl; [done|]. by rewrite Ascii.eqb_refl, String.eqb_refl.
  - change (String c s +:+ suffix) with (String c (s +:+ suffix)). cbn [strip_suffix].
    destruct (String.eqb_spec (String c (s +:+ suffix)) suffix) as [He|_]; [|by rewrite IH].
    exfalso. apply (f_equal String.length) in He. revert He. clear. simpl.
    assert (Hl : String.length (s +:+ suffix) = (String.length s + String.length suffix)%nat)
      by (induction s as [|? s IH]; [done|]; simpl; f_equal; exact IH).
    lia.
Qed.

Lemma app_suffix_inj (suffix a b : string) : a +:+ suffix = b +:+ suffix -> a = b.
Proof.
  intros H. apply (f_equal (strip_suffix suffix)) in H. rewrite !strip_suffix_app in H. by injection H.
Qed.

Lemma toml_extension task_id :
  task_id <> EmptyString -> has_toml_extension (task_id +:+ ".toml") = true.
Proof.
  intros H. unfold has_toml_extension. rewrite strip_suffix_app.
  by rewrite (proj2 (String.eqb_neq _ _) H).
Qed.

Section props.
Context `{WL : WireLib} `{TL : TomlLib} {TLaws : TomlLaws}.

Lemma path_for_Ok task_id path :
  path_for task_id = Ok path <-> is_Some (uuid_parse_str task_id) /\ path = task_id +:+ ".toml".
Proof.
  unfold path_for. destruct (uuid_parse_str task_id) eqn:E; split.
  - intros [= <-]. eauto.
  - by intros [_ ->].
  - done.
  - by intros [[? ?] _].
Qed.

Lemma path_for_inj a b path : path_for a = Ok path -> path_for b = Ok path -> a = b.
Proof. rewrite !path_for_Ok. intros [_ ->] [_ H]. by eapply app_suffix_inj. Qed.

(** ** One write *)

(** What an operation does to the directory: nothing, or one record's file. *)
Definition writes (files files' : TaskFiles) (r : TaskRecord) : Prop :=
  exists path b, path_for (tk_task_id r) = Ok path /\ toml_print r = Some b /\
    files' = <[path := b]> files.

(** The directory after a reported failure: as it was, or, where only setting
    the permissions of the new file failed, with the record written. *)
Definition failed_write (io : TaskIo) (files files' : TaskFiles) (r : TaskRecord) : Prop :=
  files' = files \/ (ti_chmod_fails io (tk_task_id r +:+ ".toml") = true /\ writes files files' r).

Lemma persist_cases io files path r files' res :
  path_for (tk_task_id r) = Ok path -> persist io files path r = (files', res) ->
  match res with Ok _ => writes files files' r | Err _ => failed_write io files files' r end.
Proof.
  intros Hp. pose proof Hp as [_ Hpath]%path_for_Ok. unfold persist, write_atomic_file, failed_write.
  destruct (toml_print r) as [b|] eqn:Hb; [|intros [= <- <-]; by left].
  destruct (ti_write_fails io path); [intros [= <- <-]; by left|].
  assert (Hw : writes files (<[path := b]> files) r) by (exists path, b; by rewrite Hb).
  destruct (ti_chmod_fails io path) eqn:Hc; intros [= <- <-]; [|done].
  right. by rewrite <- Hpath.
Qed.

Lemma create_cases io files r files' res :
  task_create io files r = (files', res) ->
  match res with
  | Ok _ => writes files files' r /\ forall path, path_for (tk_task_id r) = Ok path -> files !! path = None
  | Err _ => failed_write io files files' r
  end.
Proof.
  unfold task_create. destruct (path_for (tk_task_id r)) as [path|] eqn:Hp; [|intros [= <- <-]; by left].
  destruct (files !! path) eqn:Hf; simpl; [intros [= <- <-]; by left|].
  intros E%(persist_cases _ _ _ _ _ _ Hp). destruct res; [|done]. split; [done|]. by intros p [= <-].
Qed.

Lemma try_update_cases {E} io files task_id (mutate : TaskRecord -> result TaskRecord E) files' res :
  task_try_update io files task_id mutate = (files', res) ->
  match res with
  | Ok next => writes files files' next /\ tk_task_id next = task_id /\
      exists current, task_read io files task_id = Ok current /\ mutate current = Ok next
  | Err _ => files' = files \/
      exists current next, task_read io files task_id = Ok current /\ mutate current = Ok next /\
        tk_task_id next = task_id /\ failed_write io files files' next
  end.
Proof.
  unfold task_try_update.
  destruct (task_read io files task_id) as [current|]; [|intros [= <- <-]; by left].
  destruct (mutate current) as [next|] eqn:Hm; [|intros [= <- <-]; by left].
  destruct (String.eqb_spec (tk_task_id next) task_id) as [Hid|]; simpl; [|intros [= <- <-]; by left].
  destruct (path_for task_id) as [path|] eqn:Hp; [|intros [= <- <-]; by left].
  rewrite <- Hid in Hp. destruct (persist io files path next) as [files1 written] eqn:Ep.
  apply (persist_cases _ _ _ _ _ _ Hp) in Ep. destruct written; intros [= <- <-].
  - split; [done|]. split; [done|]. by exists current.
  - right. by exists current, next.
Qed.

Lemma update_is_try io files task_id mutate :
  let r := task_try_update (E := Empty_set) io files task_id (fun x => Ok (mutate x)) in
  task_update io files task_id mutate =
    (r.1, match r.2 with Ok x => Ok x | Err (TuStore e) => Err e
                       | Err (TuClosure e) => match e with end end).
Proof.
  unfold task_update, task_try_update. destruct (task_read io files task_id) as [c|]; [|done]. simpl.
  case_match; [done|]. destruct (path_for task_id); [|done]. simpl.
  by destruct (persist _ _ _ _) as [f [|]].
Qed.

(** A record just written reads back, and the others as before. *)
Lemma read_written io files files' r task_id :
  writes files files' r -> ti_read_fails io (tk_task_id r +:+ ".toml") = false ->
  task_read io files' task_id =
    if String.eqb task_id (tk_task_id r) then Ok r else task_read io files task_id.
Proof.
  intros (path & b & Hp & Hb & ->) Hio. pose proof Hp as [Hu Hpath]%path_for_Ok.
  destruct (String.eqb_spec task_id (tk_task_id r)) as [->|Hne]; unfold task_read.
  - rewrite Hp. cbv beta iota. rewrite Hpath at 1. rewrite Hio, lookup_insert_eq. cbv beta iota.
    destruct (toml_roundtrip r b Hb) as [-> ->]. done.
  - destruct (path_for task_id) as [path'|] eqn:Hp'; [|done].
    rewrite lookup_insert_ne; [done|]. intros <-. by apply Hne, (path_for_inj _ _ path).
Qed.

(** ** The invariant *)
Inductive TaskOp :=
| OpCreate (r : TaskRecord)
| OpUpdate (task_id : string) (mutate : TaskRecord -> TaskRecord)
| OpTryUpdate (task_id : string) (mutate : TaskRecord -> result TaskRecord string).

Definition task_op (files : TaskFiles) (iop : TaskIo * TaskOp) : TaskFiles :=
  match iop.2 with
  | OpCreate r => (task_create iop.1 files r).1
  | OpUpdate task_id mutate => (task_update iop.1 files task_id mutate).1
  | OpTryUpdate task_id mutate => (task_try_update iop.1 files task_id mutate).1
  end.

(** Every file is the text of the record it is named after. *)
Definition keyed (files : TaskFiles) : Prop :=
  forall path b, files !! path = Some b ->
    exists r, path_for (tk_task_id r) = Ok path /\ toml_print r = Some b.

Lemma writes_keyed files files' r : keyed files -> writes files files' r -> keyed files'.
Proof.
  intros Hk (path & b & Hp & Hb & ->) p b' [[<- <-]|[Hne Hl]]%lookup_insert_Some; [eauto|by apply Hk].
Qed.

Lemma failed_write_keyed io files files' r : keyed files -> failed_write io files files' r -> keyed files'.
Proof. intros Hk [->|[_ Hw]]; [done|]. by eapply writes_keyed. Qed.
Lemma try_update_keyed {E} io files task_id (mutate : TaskRecord -> result TaskRecord E) :
  keyed files -> keyed (task_try_update io files task_id mutate).1.
Proof.
  intros Hk. destruct (task_try_update io files task_id mutate) as [files' res] eqn:E'.
  apply try_update_cases in E'. destruct res as [next|].
  - destruct E' as [Hw _]. by eapply writes_keyed.
  - destruct E' as [->|(c & n & _ & _ & _ & Hf)]; [done|]. by eapply failed_write_keyed.
Qed.

Lemma task_op_keyed files iop : keyed files -> keyed (task_op files iop).
Proof.
  intros Hk. destruct iop as [io [r|id f|id f]]; unfold task_op; cbn [fst snd].
  - destruct (task_create io files r) as [files' res] eqn:E. apply create_cases in E.
    destruct res; [|by eapply failed_write_keyed]. destruct E as [Hw _]. by eapply writes_keyed.
  - rewrite update_is_try. by apply try_update_keyed.
  - by apply try_update_keyed.
Qed.

Lemma task_ops_keyed ops : keyed (foldl task_op ∅ ops).
Proof.
  assert (H : forall files, keyed files -> keyed (foldl task_op files ops)).
  { induction ops as [|op ops IH]; intros files Hk; [done|]. by apply IH, task_op_keyed. }
  apply H. intros p b. by rewrite lookup_empty.
Qed.

Hypothesis uuid_nonempty : uuid_parse_str EmptyString = None.

Lemma listed_keyed files path b r :
  keyed files -> files !! path = Some b -> listed task_io_ok (path, b) = Some r <->
  path_for (tk_task_id r) = Ok path /\ toml_print r = Some b.
Proof.
  intros Hk Hl. destruct (Hk path b Hl) as (r0 & Hp0 & Hb0).
  destruct (toml_roundtrip r0 b Hb0) as [Hu Hparse].
  assert (He : has_toml_extension path = true).
  { apply path_for_Ok in Hp0 as [Hs ->]. apply toml_extension. intros H. rewrite H, uuid_nonempty in Hs.
    by destruct Hs. }
  unfold listed. rewrite He, Hu, Hparse. simpl. split; [by intros [= <-]|].
  intros [_ Hb]. destruct (toml_roundtrip r b Hb) as [_ Hr]. congruence.
Qed.

Lemma read_keyed files task_id r :
  keyed files -> task_read task_io_ok files task_id = Ok r ->
  exists path b, files !! path = Some b /\ path_for task_id = Ok path /\ tk_task_id r = task_id /\
    toml_print r = Some b.
Proof.
  intros Hk. unfold task_read. destruct (path_for task_id) as [path|] eqn:Hp; [|done]. simpl.
  destruct (files !! path) as [b|] eqn:Hl; [|done]. destruct (Hk path b Hl) as (r0 & Hp0 & Hb0).
  destruct (toml_roundtrip r0 b Hb0) as [-> ->]. simpl. intros [= <-].
  exists path, b. split_and!; try done. by apply (path_for_inj _ _ path).
Qed.
End props.

(** Listing and reading agree: after any operations, whatever fails, the listing
    of the directory has every task at most once, and exactly the records that
    reading their own id returns. *)
Theorem task_listing_is_reading `{WireLib} `{TomlLaws} ops l :
  uuid_parse_str EmptyString = None ->
  let files := foldl task_op ∅ ops in
  task_list task_io_ok files = Ok l ->
  NoDup (map tk_task_id l) /\
  forall r, r ∈ l <-> task_read task_io_ok files (tk_task_id r) = Ok r.
Proof.
  intros Hne. cbv zeta. pose proof (task_ops_keyed ops) as Hk. revert Hk.
  generalize (foldl task_op ∅ ops) as files. intros files Hk. unfold task_list. simpl. intros [= <-].
  assert (Hin : forall r, r ∈ omap (listed task_io_ok) (map_to_list files) <->
    exists path b, files !! path = Some b /\ path_for (tk_task_id r) = Ok path /\ toml_print r = Some b).
  { intros r. rewrite list_elem_of_omap. split.
    - intros ([path b] & Hl%elem_of_map_to_list & Hr). apply (listed_keyed Hne files) in Hr; eauto.
    - intros (path & b & Hl & Hp & Hb). exists (path, b). split; [by apply elem_of_map_to_list|].
      by apply (listed_keyed Hne files). }
  split.
  - assert (Hfst : NoDup (map fst (map_to_list files))) by apply NoDup_fst_map_to_list.
    assert (Hall : Forall (fun pb => files !! pb.1 = Some pb.2) (map_to_list files)).
    { apply Forall_forall. intros [p b]. apply elem_of_map_to_list. }
    clear Hin. induction (map_to_list files) as [|[p b] rest IH]; [constructor|].
    apply Forall_cons in Hall as [Hl Hall]. apply NoDup_cons in Hfst as [Hni Hfst].
    cbn [omap list_omap]. destruct (listed task_io_ok (p, b)) as [r|] eqn:Hr; [|by apply IH].
    constructor; [|by apply IH]. intros (r' & Heq & Hin')%list_elem_of_fmap.
    apply list_elem_of_omap in Hin' as ([p' b'] & Hin' & Hr').
    pose proof (proj1 (Forall_forall _ _) Hall _ Hin') as Hl'. simpl in Hl'.
    apply (listed_keyed Hne files) in Hr as [Hp _], Hr' as [Hp' _]; [|done..].
    rewrite Heq, Hp' in Hp. injection Hp as ->. apply Hni, list_elem_of_fmap. by exists (p, b').
  - intros r. rewrite Hin. split.
    + intros (path & b & Hl & Hp & Hb). unfold task_read. rewrite Hp. simpl. rewrite Hl.
      by destruct (toml_roundtrip r b Hb) as [-> ->].
    + intros (path & b & Hl & Hp & _ & Hb)%read_keyed; [|done]. by exists path, b.
Qed.

(** The store's successes are local and its failures atomic: whatever the
    operating system answers, an operation that succeeds wrote one record, kept
    its id, for a creation over nothing, for an update from the record on disk;
    one that reports an error left the directory as it was, except that a
    failure to set the new file's permissions is reported with the record
    already written; and a written record is what reading its id then returns
    while every other id reads as before. *)
Theorem task_store_is_atomic `{WireLib} `{TomlLaws} {E} io files files' :
  (forall r res, task_create io files r = (files', res) ->
     match res with
     | Ok _ => writes files files' r /\ (forall p, path_for (tk_task_id r) = Ok p -> files !! p = None)
     | Err _ => failed_write io files files' r end) /\
  (forall id (mutate : TaskRecord -> result TaskRecord E) res,
     task_try_update io files id mutate = (files', res) ->
     match res with
     | Ok next => writes files files' next /\ tk_task_id next = id /\
         exists current, task_read io files id = Ok current /\ mutate current = Ok next
     | Err _ => files' = files \/
         exists current next, task_read io files id = Ok current /\ mutate current = Ok next /\
           tk_task_id next = id /\ failed_write io files files' next end) /\
  (forall r id, writes files files' r -> ti_read_fails io (tk_task_id r +:+ ".toml") = false ->
     task_read io files' id = if String.eqb id (tk_task_id r) then Ok r else task_read io files id).
Proof.
  split_and!.
  - intros r res. apply create_cases.
  - intros id mutate res. apply try_update_cases.
  - intros r id. apply read_written.
Qed.

(** ** A directory with one task *)
#[export] Instance task_record_eq_dec : EqDecision TaskRecord.
Proof. solve_decision. Defined.

Definition demo_task : TaskRecord := new_requested (uuid_to_string 5) "alice" "2026-01-01T00:00:00Z".
Definition demo_task_committed : TaskRecord :=
  new_committed (uuid_to_string 5) "alice" "2026-01-01T00:00:00Z".

(** A printer for the two. *)
#[export] Instance toy_toml : TomlLib := {|
  is_utf8 _ := true;
  toml_parse b := if bool_decide (b = [x01]) then Some demo_task
                  else if bool_decide (b = [x02]) then Some demo_task_committed else None;
  toml_print r := if decide (r = demo_task) then Some [x01]
                  else if decide (r = demo_task_committed) then Some [x02] else None |}.
#[export] Instance toy_toml_laws : TomlLaws.
Proof.
  split. intros r b. simpl. case_decide as H1; [intros [= <-]; by subst|].
  case_decide as H2; [intros [= <-]; by subst|done].
Qed.

Definition demo_ops : list (TaskIo * TaskOp) :=
  [(task_io_ok, OpCreate demo_task); (task_io_ok, OpCreate demo_task);
   (mkTaskIo (fun _ => false) (fun _ => true) (fun _ => false) false, OpUpdate (uuid_to_string 5) (fun _ => demo_task_committed));
   (task_io_ok, OpUpdate (uuid_to_string 5) (fun _ => demo_task_committed))].

Lemma task_listing_is_reading_witness :
  task_list task_io_ok (foldl task_op ∅ demo_ops) = Ok [demo_task_committed] /\
  NoDup (map tk_task_id [demo_task_committed]) /\
  forall r, r ∈ [demo_task_committed] <->
    task_read task_io_ok (foldl task_op ∅ demo_ops) (tk_task_id r) = Ok r.
Proof.
  assert (Hl : task_list task_io_ok (foldl task_op ∅ demo_ops) = Ok [demo_task_committed])
    by (vm_compute; reflexivity).
  split; [exact Hl|]. apply (task_listing_is_reading demo_ops [demo_task_committed]); [|exact Hl].
  vm_compute. reflexivity.
Qed.
