(* ===== verification/Inspect.v ===== *)
(** * The inspector

    [crates/famp-inspect-server] (the handlers of [famp.inspect.*]),
    [crates/famp-inspect-proto] (their replies) and the snapshot the broker
    builds for them ([build_inspect_ctx_blocking] and below in
    [crates/famp/src/cli/broker/mod.rs]).  The task records come from
    [TaskDir.v]; wall-clock seconds, the process id and the socket path are
    arguments. *)

From Stdlib Require Import Strings.Byte Ascii.
From stdpp Require Import gmap strings list fin_maps sorting pretty.
From S2P Require Import Prelude Json Proto Mailbox Origin Crypto Fsm Core Derive Body Envelope.
From S2P Require Import BrokerState Executor InboxReader Clock TaskDir.

(** [hex::encode]. *)
Class HexLib := { hex_text : bytes -> string }.

(** ** [sort_by] and [sort_by_key]: stable *)
Fixpoint sorted_insert {A} (le : A -> A -> bool) (x : A) (l : list A) : list A :=
  match l with
  | [] => [x]
  | y :: rest => if le x y then x :: l else y :: sorted_insert le x rest
  end.
Definition stable_sort {A} (le : A -> A -> bool) (l : list A) : list A :=
  foldr (sorted_insert le) [] l.
Definition sort_by_key {A} (key : A -> N) : list A -> list A :=
  stable_sort (fun a b => (key a <=? key b)%N).

(** ** Replies: [famp-inspect-proto] *)
Record BrokerInfoReply := mkBrokerInfo {
  bi_pid : N; bi_socket_path : string; bi_started_at : N; bi_build_version : string }.
Record IdentityRow := mkIdentityRow {
  ir_name : string; ir_listen_mode : bool; ir_cwd : option string; ir_registered_at : N;
  ir_last_activity : N; ir_mailbox_unread : N; ir_mailbox_total : N; ir_last_sender : string;
  ir_last_received_at : option N }.
Record TaskRow := mkTaskRow {
  tr_task_id : string; tr_state : string; tr_peer : string; tr_opened_at : N;
  tr_last_send_at : option N; tr_last_recv_at : option N; tr_terminal : bool;
  tr_envelope_count : N; tr_last_transition_age : N; tr_orphan : bool }.
Record TaskEnvelopeSummary := mkSummary {
  sm_envelope_id : string; sm_sender : string; sm_recipient : string; sm_fsm_transition : string;
  sm_timestamp : string; sm_sig_verified : bool }.
Record TaskEnvelopeFull := mkFull {
  fu_envelope_id : string; fu_bytes : option string; fu_reason : option string }.
Record MessageRow := mkMessageRow {
  mr_sender : string; mr_recipient : string; mr_task_id : string; mr_class : string;
  mr_state : string; mr_timestamp : string; mr_body_bytes : N; mr_body_sha256_prefix : string }.
Record WaiterRow := mkWaiterRow {
  wr_name : string; wr_mailbox : string; wr_cursor : N; wr_deadline_ms : N }.

Inductive InspectTasksReply :=
| TaskList (rows : list TaskRow)
| TaskDetail (task_id : string) (envelopes : list TaskEnvelopeSummary)
| TaskDetailFull (task_id : string) (envelopes : list TaskEnvelopeFull)
| TasksBudgetExceeded (elapsed_ms : N).

(** ** The context the broker fills in *)
Record MailboxMeta := mkMeta {
  mm_unread : N; mm_total : N; mm_last_sender : option string; mm_last_received_at : option N }.
Definition MailboxMeta_default : MailboxMeta := mkMeta 0 0 None None.

(** [BTreeMap<String, _>] is a [gmap] read in key order. *)
Record BrokerCtx := mkCtx {
  cx_pid : N; cx_socket_path : string; cx_build_version : string;
  cx_mailbox_metadata : gmap string MailboxMeta;
  cx_task_data : option (list TaskRecord);
  cx_message_data : option (gmap string (list Value)) }.

Definition string_values {A} (m : gmap string A) : list A :=
  omap (fun k => m !! k) (bs_iter (dom m)).

(** ** [parse.rs] *)
Definition to_epoch_seconds (t : SystemTime) : N := (t / 1000000000)%N.

Section inspect.
Context `{WL : WireLib} `{TL : TimeLib} `{CL : CryptoLib} `{HL : HexLib}.

Definition parse_rfc3339_to_epoch (s : string) : option N :=
  t ← rfc3339_parse s;
  let seconds := (t / NANOS)%Z in
  if (0 <=? seconds)%Z then Some (Z.to_N seconds) else None.

Definition parse_class (env : Value) : option MessageClass :=
  v ← get env "class"; match d_class v with Ok c => Some c | Err _ => None end.
Definition parse_terminal_status (env : Value) : option TerminalStatus :=
  v ← get env "terminal_status"; match d_terminal_status v with Ok c => Some c | Err _ => None end.

Definition state_label (s : TaskState) : string :=
  match s with
  | Requested => "REQUESTED" | Committed => "COMMITTED" | Completed => "COMPLETED"
  | Failed => "FAILED" | Cancelled => "CANCELLED"
  end.

Record FsmFold := mkFold { ff_fsm : TaskFsm; ff_saw_fsm_class : bool }.
Definition FsmFold_new : FsmFold := mkFold TaskFsm_new false.

Definition fold_apply (self : FsmFold) (env : Value) : FsmFold * string :=
  match parse_class env with
  | None | Some AuditLog => (self, "UNKNOWN")
  | Some Request => (mkFold (ff_fsm self) true, state_label (fsm_state (ff_fsm self)))
  | Some Ack =>
      (self, if ff_saw_fsm_class self then state_label (fsm_state (ff_fsm self)) else "UNKNOWN")
  | Some class =>
      let fsm := (fsm_step (ff_fsm self) (mkInput class (parse_terminal_status env))).1 in
      (mkFold fsm true, state_label (fsm_state fsm))
  end.

Definition final_label (self : FsmFold) : string :=
  if ff_saw_fsm_class self then state_label (fsm_state (ff_fsm self)) else "UNKNOWN".

(** The labels an ordered list of envelopes is shown with. *)
Fixpoint fold_labels (self : FsmFold) (envs : list Value) : list string :=
  match envs with
  | [] => []
  | env :: rest => let '(self, label) := fold_apply self env in label :: fold_labels self rest
  end.
Definition fold_all (self : FsmFold) (envs : list Value) : FsmFold :=
  foldl (fun f env => (fold_apply f env).1) self envs.

Definition derive_fsm_state (env : Value) : string :=
  match parse_class env with
  | None | Some AuditLog => "UNKNOWN"
  | Some Request => "REQUESTED"
  | Some Commit => "COMMITTED"
  | Some Deliver =>
      match parse_terminal_status env with
      | Some TsCompleted => "COMPLETED"
      | Some TsFailed => "FAILED"
      | Some TsCancelled => "UNKNOWN"
      | None => "COMMITTED"
      end
  | Some Control => "CANCELLED"
  | Some Ack => "UNKNOWN"
  end.

Definition text_field (env : Value) (k : string) : string := default EmptyString (get_str env k).
Definition env_epoch (env : Value) : option N := get_str env "ts" ≫= parse_rfc3339_to_epoch.
Definition ts_key (env : Value) : N := default 0%N (env_epoch env).

(** ** [tasks.rs] *)
Definition is_orphan_task_id (task_id : string) : bool :=
  if String.eqb task_id EmptyString then true
  else match uuid_parse_str task_id with Some u => (u =? 0)%N | None => true end.

Definition summary_row (env : Value) (label : string) : TaskEnvelopeSummary :=
  mkSummary (text_field env "id") (text_field env "from") (text_field env "to") label
    (text_field env "ts") true.
Definition full_row (env : Value) : TaskEnvelopeFull :=
  mkFull (text_field env "id")
    (match canonicalize env with Ok b => Some (String.string_of_list_byte b) | Err _ => None end) None.

Definition inspect_tasks_by_id (all_envs : list Value) (id_str : string) (full : bool) :
    InspectTasksReply :=
  let envelopes_for_task := sort_by_key ts_key
    (List.filter (fun env => bool_decide (view_task_id env = Some id_str)) all_envs) in
  if full then TaskDetailFull id_str (map full_row envelopes_for_task)
  else TaskDetail id_str
    (zip_with summary_row envelopes_for_task (fold_labels FsmFold_new envelopes_for_task)).

Definition max_of (l : list N) : N := foldr N.max 0%N l.
Definition count_for (task_id : string) (all_envs : list Value) : list Value :=
  List.filter (fun env => bool_decide (view_task_id env = Some task_id)) all_envs.

(** [by_task]'s keys in order, less those with a record. *)
Definition mailbox_only_ids (records : list TaskRecord) (all_envs : list Value) : list string :=
  bs_iter (list_to_set (omap view_task_id all_envs) ∖ list_to_set (map tk_task_id records)).

Definition record_row (now : N) (all_envs : list Value) (record : TaskRecord) : TaskRow :=
  let opened_at := default 0%N (parse_rfc3339_to_epoch (tk_opened_at record)) in
  let last_send_at := tk_last_send_at record ≫= parse_rfc3339_to_epoch in
  let last_recv_at := tk_last_recv_at record ≫= parse_rfc3339_to_epoch in
  let last_transition :=
    max_of (opened_at :: option_list last_send_at ++ option_list last_recv_at) in
  mkTaskRow (tk_task_id record) (tk_state record) (tk_peer record) opened_at last_send_at
    last_recv_at (tk_terminal record) (N.of_nat (length (count_for (tk_task_id record) all_envs)))
    (now - last_transition)%N (is_orphan_task_id (tk_task_id record)).

Definition mailbox_row (now : N) (all_envs : list Value) (task_id : string) : TaskRow :=
  let envelopes := sort_by_key ts_key (count_for task_id all_envs) in
  let last_transition := max_of (omap env_epoch envelopes) in
  let first := default VNull (head envelopes) in
  let peer := match get first "to" with Some v => Some v | None => get first "from" end in
  mkTaskRow task_id (final_label (fold_all FsmFold_new envelopes))
    (default EmptyString (peer ≫= as_str)) last_transition None (Some last_transition) false
    (N.of_nat (length envelopes)) (now - last_transition)%N (is_orphan_task_id task_id).

(** Orphans first, then by age. *)
Definition task_row_le (a b : TaskRow) : bool :=
  match tr_orphan a, tr_orphan b with
  | true, false => true
  | false, true => false
  | _, _ => (tr_last_transition_age a <=? tr_last_transition_age b)%N
  end.

Definition all_envelopes (ctx : BrokerCtx) : list Value :=
  match cx_message_data ctx with Some m => concat (string_values m) | None => [] end.

Definition inspect_tasks (ctx : BrokerCtx) (now : N) (id : option N) (full : bool) :
    InspectTasksReply :=
  letsome records := cx_task_data ctx orelse TaskList [] in
  let all_envs := all_envelopes ctx in
  match id with
  | Some uuid => inspect_tasks_by_id all_envs (uuid_to_string uuid) full
  | None =>
      TaskList (stable_sort task_row_le
        (map (record_row now all_envs) records ++
         map (mailbox_row now all_envs) (mailbox_only_ids records all_envs)))
  end.

(** ** [messages.rs] *)
Definition message_row (env : Value) : MessageRow :=
  let body_value := default VNull (get env "body") in
  let body_bytes := match canonicalize body_value with Ok b => b | Err _ => [] end in
  mkMessageRow (text_field env "from") (text_field env "to") (default EmptyString (view_task_id env))
    (text_field env "class") (derive_fsm_state env) (text_field env "ts") (blen body_bytes)
    (hex_text (take 6 (sha256_digest body_bytes))).

Definition inspect_messages (ctx : BrokerCtx) (to : option string) (tail : option N) :
    list MessageRow :=
  letsome snapshot := cx_message_data ctx orelse [] in
  let entries := match to with
                 | None => concat (string_values snapshot)
                 | Some nm => default [] (snapshot !! nm)
                 end in
  let entries := sort_by_key ts_key entries in
  let start := (N.of_nat (length entries) - default 50 tail)%N in
  map message_row (drop (N.to_nat start) entries).

(** ** [identities.rs], [broker.rs], [waiters.rs] *)
Definition identity_row (metadata : gmap string MailboxMeta) (c : ClientStateView) : IdentityRow :=
  let meta := default MailboxMeta_default (metadata !! cv_name c) in
  mkIdentityRow (cv_name c) (cv_listen_mode c) (cv_cwd c) (to_epoch_seconds (cv_registered_at c))
    (to_epoch_seconds (cv_last_activity c)) (mm_unread meta) (mm_total meta)
    (default "(none)" (mm_last_sender meta)) (mm_last_received_at meta).
Definition inspect_identities (state : BrokerStateView) (ctx : BrokerCtx) : list IdentityRow :=
  map (identity_row (cx_mailbox_metadata ctx)) (vw_clients state).

Definition inspect_broker (state : BrokerStateView) (ctx : BrokerCtx) : BrokerInfoReply :=
  mkBrokerInfo (cx_pid ctx) (cx_socket_path ctx) (to_epoch_seconds (vw_started_at state))
    (cx_build_version ctx).

Definition inspect_waiters (state : BrokerStateView) : list WaiterRow :=
  map (fun w => mkWaiterRow (wv_name w) (wv_mailbox w) (wv_cursor w) (wv_deadline_ms w))
    (vw_waiters state).

(** ** The snapshot: [cli/broker/mod.rs] *)
Definition read_all_unwrapped (file : FileRead) : list Value :=
  match read_all file with Ok entries => map (fun v => (split_stamped v).2) entries | Err _ => [] end.

Definition read_mailbox_meta_for (io : Io) (w : World) (name : string) : MailboxMeta :=
  let cursor_offset := default 0%N
    (w_cursors w !! ("." +:+ name +:+ ".cursor") ≫= fun s => parse_u64 (trim_end_lf s)) in
  let file := file_read io w (name +:+ ".jsonl") in
  match read_all file with
  | Err _ => MailboxMeta_default
  | Ok entries =>
      let unread := match read_from file cursor_offset with
                    | Ok l => N.of_nat (length l) | Err _ => 0%N end in
      let last_entry := (fun v => (split_stamped v).2) <$> last entries in
      mkMeta unread (N.of_nat (length entries)) (last_entry ≫= fun v => get_str v "from")
        (last_entry ≫= env_epoch)
  end.

(** A directory entry [#name.jsonl] names a channel mailbox. *)
Definition channel_of_file (file_name : string) : option string :=
  channel ← strip_suffix ".jsonl" file_name;
  if String.prefix "#" channel then Some channel else None.

Definition read_message_snapshot (io : Io) (w : World) (v : BrokerStateView) :
    gmap string (list Value) :=
  let entries name := read_all_unwrapped (file_read io w (name +:+ ".jsonl")) in
  let agents := map cv_name (vw_clients v) in
  let channels := omap channel_of_file (map fst (map_to_list (w_files w))) in
  list_to_map (map (fun name => (name, entries name)) (agents ++ channels)).

Definition wants_tasks (kind : InspectKind) : bool :=
  match kind with InspectTasks _ _ => true | _ => false end.
Definition wants_messages (kind : InspectKind) : bool :=
  match kind with InspectTasks _ _ | InspectMessages _ _ => true | _ => false end.

Definition build_inspect_ctx_blocking (io : Io) (w : World) (tasks : option (list TaskRecord))
    (v : BrokerStateView) (pid : N) (sock version : string) (kind : InspectKind) : BrokerCtx :=
  mkCtx pid sock version
    (list_to_map (map (fun c => (cv_name c, read_mailbox_meta_for io w (cv_name c))) (vw_clients v)))
    (if wants_tasks kind then tasks else None)
    (if wants_messages kind then Some (read_message_snapshot io w v) else None).

(** ** [dispatch]: the replies' serde images *)
Definition v_u64 (n : N) : Value := VNumber (PosInt n).
Definition v_null_or {A} (f : A -> Value) (o : option A) : Value :=
  match o with Some a => f a | None => VNull end.
Definition kind_obj (kind : string) (fields : list (string * Value)) : Value :=
  json_obj (("kind", VString kind) :: fields).
Definition v_rows {A} (row : A -> Value) (rows : list A) : list (string * Value) :=
  [("rows", VArray (map row rows))].

Definition identity_row_to_value (r : IdentityRow) : Value :=
  json_obj [("name", VString (ir_name r)); ("listen_mode", VBool (ir_listen_mode r));
    ("cwd", v_null_or VString (ir_cwd r)); ("registered_at_unix_seconds", v_u64 (ir_registered_at r));
    ("last_activity_unix_seconds", v_u64 (ir_last_activity r));
    ("mailbox_unread", v_u64 (ir_mailbox_unread r)); ("mailbox_total", v_u64 (ir_mailbox_total r));
    ("last_sender", VString (ir_last_sender r));
    ("last_received_at_unix_seconds", v_null_or v_u64 (ir_last_received_at r))].
Definition task_row_to_value (r : TaskRow) : Value :=
  json_obj ([("task_id", VString (tr_task_id r)); ("state", VString (tr_state r));
    ("peer", VString (tr_peer r)); ("opened_at_unix_seconds", v_u64 (tr_opened_at r))] ++
    field_opt "last_send_at_unix_seconds" v_u64 (tr_last_send_at r) ++
    field_opt "last_recv_at_unix_seconds" v_u64 (tr_last_recv_at r) ++
    [("terminal", VBool (tr_terminal r)); ("envelope_count", v_u64 (tr_envelope_count r));
     ("last_transition_age_seconds", v_u64 (tr_last_transition_age r)); ("orphan", VBool (tr_orphan r))]).
Definition summary_to_value (s : TaskEnvelopeSummary) : Value :=
  json_obj [("envelope_id", VString (sm_envelope_id s)); ("sender", VString (sm_sender s));
    ("recipient", VString (sm_recipient s)); ("fsm_transition", VString (sm_fsm_transition s));
    ("timestamp", VString (sm_timestamp s)); ("sig_verified", VBool (sm_sig_verified s))].
Definition full_to_value (f : TaskEnvelopeFull) : Value :=
  json_obj ([("envelope_id", VString (fu_envelope_id f))] ++
    field_opt "bytes" VString (fu_bytes f) ++ field_opt "reason" VString (fu_reason f)).
Definition message_row_to_value (m : MessageRow) : Value :=
  json_obj [("sender", VString (mr_sender m)); ("recipient", VString (mr_recipient m));
    ("task_id", VString (mr_task_id m)); ("class", VString (mr_class m)); ("state", VString (mr_state m));
    ("timestamp", VString (mr_timestamp m)); ("body_bytes", v_u64 (mr_body_bytes m));
    ("body_sha256_prefix", VString (mr_body_sha256_prefix m))].
Definition waiter_row_to_value (r : WaiterRow) : Value :=
  json_obj [("name", VString (wr_name r)); ("mailbox", VString (wr_mailbox r));
    ("cursor", v_u64 (wr_cursor r)); ("deadline_ms", v_u64 (wr_deadline_ms r))].

Definition tasks_reply_to_value (r : InspectTasksReply) : Value :=
  match r with
  | TaskList rows => kind_obj "list" (v_rows task_row_to_value rows)
  | TaskDetail task_id envelopes =>
      kind_obj "detail" [("task_id", VString task_id);
                         ("envelopes", VArray (map summary_to_value envelopes))]
  | TaskDetailFull task_id envelopes =>
      kind_obj "detail_full" [("task_id", VString task_id);
                              ("envelopes", VArray (map full_to_value envelopes))]
  | TasksBudgetExceeded elapsed_ms => kind_obj "budget_exceeded" [("elapsed_ms", v_u64 elapsed_ms)]
  end.

Definition inspect_dispatch (state : BrokerStateView) (ctx : BrokerCtx) (now : N) (kind : InspectKind) :
    Value :=
  match kind with
  | InspectBroker =>
      let b := inspect_broker state ctx in
      kind_obj "info" [("pid", v_u64 (bi_pid b)); ("socket_path", VString (bi_socket_path b));
        ("started_at_unix_seconds", v_u64 (bi_started_at b));
        ("build_version", VString (bi_build_version b))]
  | InspectIdentities => kind_obj "list" (v_rows identity_row_to_value (inspect_identities state ctx))
  | InspectTasks id full => tasks_reply_to_value (inspect_tasks ctx now id full)
  | InspectMessages to tail =>
      kind_obj "list" (v_rows message_row_to_value (inspect_messages ctx to tail))
  | InspectWaiters => kind_obj "list" (v_rows waiter_row_to_value (inspect_waiters state))
  end.

(** [walk_taskdir]. *)
Definition walk_taskdir `{TomlLib} (tio : TaskIo) (dir_opens : bool) (files : TaskFiles) :
    option (list TaskRecord) :=
  if dir_opens then Some (match task_list tio files with Ok l => l | Err _ => [] end) else None.

(** What the permit holder's task computes for the connection it answers. *)
Definition inspect_payload `{TomlLib} (io : Io) (tio : TaskIo) (dir_opens : bool) (files : TaskFiles)
    (w : World) (v : BrokerStateView) (pid now : N) (sock version : string) (kind : InspectKind) : Value :=
  inspect_dispatch v
    (build_inspect_ctx_blocking io w (walk_taskdir tio dir_opens files) v pid sock version kind) now kind.
End inspect.
