(* ===== verification/InspectProps.v ===== *)
(** * What the inspector shows

    Task states are the engine's, every envelope of a task is counted on one
    row, message rows carry no body, unread counts are the records behind the
    cursor. *)

From Stdlib Require Import Strings.Byte Ascii.
From stdpp Require Import gmap strings list fin_maps sorting pretty.
From S2P Require Import Prelude Json Proto Mailbox Origin WireInstance Crypto Fsm Core Derive Body.
From S2P Require Import Envelope BrokerState Scenario Executor Delivery InboxReader Clock NonceTable.
From S2P Require Import TaskDir Inspect.

(** ** Stable sorting *)
Section stable.
Context {A : Type} (le : A -> A -> bool).

Lemma sorted_insert_perm x l : sorted_insert le x l ≡ₚ x :: l.
Proof.
  induction l as [|y l IH]; simpl; [done|]. destruct (le x y); [done|].
  rewrite IH. apply Permutation_swap.
Qed.
Lemma stable_sort_perm l : stable_sort le l ≡ₚ l.
Proof. induction l as [|x l IH]; simpl; [done|]. by rewrite sorted_insert_perm, IH. Qed.

Hypothesis total : forall a b, le a b = false -> le b a = true.
Hypothesis trans : forall a b c, le a b = true -> le b c = true -> le a c = true.
Let R a b := le a b = true.

Lemma sorted_insert_sorted x l : StronglySorted R l -> StronglySorted R (sorted_insert le x l).
Proof.
  induction 1 as [|y l Hs IH Hy]; simpl; [by repeat constructor|].
  destruct (le x y) eqn:E.
  - constructor; [by constructor|]. constructor; [done|].
    eapply Forall_impl; [exact Hy|]. intros z. by apply trans.
  - constructor; [done|]. rewrite sorted_insert_perm. constructor; [by apply total|done].
Qed.
Lemma stable_sort_sorted l : StronglySorted R (stable_sort le l).
Proof. induction l as [|x l IH]; simpl; [constructor|]. by apply sorted_insert_sorted. Qed.
End stable.

(** Elements with one key keep their order. *)
Lemma sort_by_key_stable {A} (key : A -> N) k l :
  List.filter (fun a => (key a =? k)%N) (sort_by_key key l) = List.filter (fun a => (key a =? k)%N) l.
Proof.
  induction l as [|x l IH]; [done|]. simpl. rewrite <- IH. clear IH. unfold sort_by_key.
  set (s := stable_sort _ l). clearbody s. induction s as [|y s IH]; simpl; [done|].
  destruct (N.leb_spec (key x) (key y)) as [Hle|Hlt]; simpl; [done|]. rewrite IH.
  destruct (N.eqb_spec (key x) k), (N.eqb_spec (key y) k); try done. lia.
Qed.

Definition by_key {A} (key : A -> N) (a b : A) : Prop := (key a <=? key b)%N = true.

(** [l'] is [l] in ascending order of [key], ties in the order of [l]. *)
Record stably_sorted {A} (key : A -> N) (l l' : list A) : Prop := {
  ss_perm : l' ≡ₚ l;
  ss_sorted : StronglySorted (by_key key) l';
  ss_stable k : List.filter (fun a => (key a =? k)%N) l' = List.filter (fun a => (key a =? k)%N) l }.

Lemma sort_by_key_ok {A} (key : A -> N) l : stably_sorted key l (sort_by_key key l).
Proof.
  split; [apply stable_sort_perm| |intros k; apply (sort_by_key_stable key k l)].
  apply stable_sort_sorted; intros a b; rewrite ?N.leb_le, ?N.leb_gt; [lia|].
  intros c. rewrite !N.leb_le. lia.
Qed.

(** ** Task states *)
Section tasks.
Context `{WL : WireLib} `{TL : TimeLib} `{CL : CryptoLib} `{HL : HexLib}.










(** ** The list of tasks *)
Definition row_ids (rows : list TaskRow) : list string := map tr_task_id rows.

Lemma mailbox_only_spec records envs id :
  id ∈ mailbox_only_ids records envs <->
  (exists env, env ∈ envs /\ view_task_id env = Some id) /\ id ∉ map tk_task_id records.
Proof.
  unfold mailbox_only_ids. rewrite elem_of_bs_iter, elem_of_difference, !elem_of_list_to_set.
  by rewrite list_elem_of_omap.
Qed.

Lemma list_row_ids now envs records :
  row_ids (map (record_row now envs) records ++
           map (mailbox_row now envs) (mailbox_only_ids records envs)) =
  map tk_task_id records ++ mailbox_only_ids records envs.
Proof. unfold row_ids. by rewrite map_app, !map_map, map_id. Qed.

Lemma list_row_counts now envs records :
  Forall (fun row => tr_envelope_count row = N.of_nat (length (count_for (tr_task_id row) envs)))
    (map (record_row now envs) records ++
     map (mailbox_row now envs) (mailbox_only_ids records envs)).
Proof.
  apply Forall_app; split; apply Forall_map, Forall_true; intros r; [done|].
  cbn [tr_envelope_count tr_task_id mailbox_row]. f_equal.
  apply Permutation_length. apply (ss_perm _ _ _ (sort_by_key_ok ts_key _)).
Qed.

Lemma count_for_cons id env envs :
  length (count_for id (env :: envs)) =
  ((if bool_decide (view_task_id env = Some id) then 1 else 0) + length (count_for id envs))%nat.
Proof. unfold count_for. simpl. by case_bool_decide. Qed.

Definition hits (o : option string) (ids : list string) : nat :=
  sum_list (map (fun id => if bool_decide (o = Some id) then 1 else 0)%nat ids).

Lemma hits_none o ids : (forall id, id ∈ ids -> o <> Some id) -> hits o ids = 0%nat.
Proof.
  unfold hits. induction ids as [|i ids IH]; intros H; [done|]. simpl.
  rewrite bool_decide_eq_false_2 by (apply H; constructor).
  apply IH. intros id Hi. apply H. by constructor.
Qed.
Lemma hits_once t ids : NoDup ids -> t ∈ ids -> hits (Some t) ids = 1%nat.
Proof.
  induction 1 as [|i ids Hi Hnd IH]; [by intros ?%not_elem_of_nil|]. intros Ht.
  unfold hits. simpl. fold (hits (Some t) ids). destruct (decide (t = i)) as [->|Hne].
  - rewrite bool_decide_eq_true_2 by done. rewrite hits_none; [done|]. by intros id Hid [= ->].
  - rewrite bool_decide_eq_false_2 by congruence. apply IH. by apply elem_of_cons in Ht as [].
Qed.

(** Distinct ids that cover every named task share the envelopes out. *)
Lemma counts_share_out ids envs :
  NoDup ids -> (forall env id, env ∈ envs -> view_task_id env = Some id -> id ∈ ids) ->
  sum_list (map (fun id => length (count_for id envs)) ids) = length (omap view_task_id envs).
Proof.
  intros Hnd. induction envs as [|env envs IH]; intros Hc.
  - clear. induction ids; [done|]. exact IHids.
  - assert (Hs : forall l, sum_list (map (fun id => length (count_for id (env :: envs))) l) =
      (hits (view_task_id env) l + sum_list (map (fun id => length (count_for id envs)) l))%nat).
    { unfold hits. induction l as [|i l IHl]; [done|]. cbn [map sum_list_with Datatypes.id].
      rewrite count_for_cons, IHl. lia. }
    rewrite Hs, IH by (intros e i He; apply Hc; by constructor).
    cbn [omap list_omap]. destruct (view_task_id env) as [t|] eqn:Ht.
    + rewrite hits_once; [done|done|]. apply (Hc env t); [constructor|done].
    + by rewrite hits_none.
Qed.

Lemma task_row_le_total a b : task_row_le a b = false -> task_row_le b a = true.
Proof.
  unfold task_row_le. destruct (tr_orphan a), (tr_orphan b); rewrite ?N.leb_gt, ?N.leb_le; try done; lia.
Qed.
Lemma task_row_le_trans a b c :
  task_row_le a b = true -> task_row_le b c = true -> task_row_le a c = true.
Proof.
  unfold task_row_le.
  destruct (tr_orphan a), (tr_orphan b), (tr_orphan c); rewrite ?N.leb_le; try done; lia.
Qed.




(** [famp inspect tasks]: the rows name exactly the tasks that have a record or
    an envelope, those without a record once each; a row counts the envelopes
    of its task, so that distinct records leave every envelope that names a
    task counted on one row, exactly once; orphans come first and
    then the recently active. *)
Theorem task_list_accounts_for_envelopes ctx now records full :
  cx_task_data ctx = Some records ->
  NoDup (map tk_task_id records) ->
  exists rows,
    inspect_tasks ctx now None full = TaskList rows /\
    StronglySorted (fun a b => task_row_le a b = true) rows /\
    NoDup (row_ids rows) /\
    (forall id, id ∈ row_ids rows <->
       id ∈ map tk_task_id records \/
       exists env, env ∈ all_envelopes ctx /\ view_task_id env = Some id) /\
    (forall row, row ∈ rows ->
       tr_envelope_count row = N.of_nat (length (count_for (tr_task_id row) (all_envelopes ctx)))) /\
    sum_list (map (fun row => N.to_nat (tr_envelope_count row)) rows) =
      length (omap view_task_id (all_envelopes ctx)).
Proof.
  intros Hr Hnd. unfold inspect_tasks. rewrite Hr.
  set (envs := all_envelopes ctx). set (l := map (record_row now envs) records ++ _).
  pose proof (stable_sort_perm task_row_le l) as Hp. set (rows := stable_sort task_row_le l) in *.
  assert (Hids : row_ids rows ≡ₚ map tk_task_id records ++ mailbox_only_ids records envs).
  { unfold row_ids. rewrite Hp. by rewrite <- (list_row_ids now). }
  assert (Hmem : forall id, id ∈ row_ids rows <-> id ∈ map tk_task_id records \/
       exists env, env ∈ envs /\ view_task_id env = Some id).
  { intros id. rewrite Hids, elem_of_app, mailbox_only_spec.
    destruct (decide (id ∈ map tk_task_id records)); tauto. }
  assert (Hnd' : NoDup (row_ids rows)).
  { rewrite Hids. apply NoDup_app. split_and!; [done| |apply bs_iter_NoDup].
    intros id Hi. rewrite mailbox_only_spec. tauto. }
  assert (Hc : Forall (fun row => tr_envelope_count row =
      N.of_nat (length (count_for (tr_task_id row) envs))) rows).
  { rewrite Hp. apply list_row_counts. }
  exists rows. split_and!; try done.
  - apply stable_sort_sorted; [apply task_row_le_total|apply task_row_le_trans].
  - by rewrite <- Forall_forall.
  - rewrite <- (counts_share_out (row_ids rows)); [|done|].
    + unfold row_ids. rewrite map_map. f_equal. apply map_ext_Forall.
      eapply Forall_impl; [exact Hc|]. simpl. intros row ->. apply Nat2N.id.
    + intros env id He Hv. apply Hmem. right. eauto.
Qed.

(** ** Bodies stay hidden *)

(** Two envelopes that differ in their bodies only, and there agree on the
    task named, on the canonical length and on the digest's first bytes. *)
Record same_but_body (env env' : Value) : Prop := {
  sb_fields k : k <> "body" -> get env k = get env' k;
  sb_task : view_task_id env = view_task_id env';
  sb_length : mr_body_bytes (message_row env) = mr_body_bytes (message_row env');
  sb_digest : mr_body_sha256_prefix (message_row env) = mr_body_sha256_prefix (message_row env') }.

Record bodies_differ (ctx ctx' : BrokerCtx) : Prop := {
  bd_pid : cx_pid ctx = cx_pid ctx';
  bd_sock : cx_socket_path ctx = cx_socket_path ctx';
  bd_version : cx_build_version ctx = cx_build_version ctx';
  bd_meta : cx_mailbox_metadata ctx = cx_mailbox_metadata ctx';
  bd_tasks : cx_task_data ctx = cx_task_data ctx';
  bd_messages : option_Forall2
    (fun m m' => dom m = dom m' /\ forall k, option_Forall2 (Forall2 same_but_body) (m !! k) (m' !! k))
    (cx_message_data ctx) (cx_message_data ctx') }.

Section same.
Context {env env' : Value} (S : same_but_body env env').

Lemma same_str k : k <> "body" -> get_str env k = get_str env' k.
Proof. intros H. unfold get_str. by rewrite (sb_fields _ _ S k H). Qed.
Lemma same_text k : k <> "body" -> text_field env k = text_field env' k.
Proof. intros H. unfold text_field. by rewrite (same_str k H). Qed.
Lemma same_class : parse_class env = parse_class env'.
Proof. unfold parse_class. by rewrite (sb_fields _ _ S "class") by done. Qed.
Lemma same_terminal : parse_terminal_status env = parse_terminal_status env'.
Proof. unfold parse_terminal_status. by rewrite (sb_fields _ _ S "terminal_status") by done. Qed.
Lemma same_epoch : env_epoch env = env_epoch env'.
Proof. unfold env_epoch. by rewrite (same_str "ts") by done. Qed.
Lemma same_key : ts_key env = ts_key env'.
Proof. unfold ts_key. by rewrite same_epoch. Qed.
Lemma same_message_row : message_row env = message_row env'.
Proof.
  pose proof (sb_length _ _ S) as Hl. pose proof (sb_digest _ _ S) as Hd.
  unfold message_row, derive_fsm_state in *. simpl in Hl, Hd.
  rewrite !(same_text _) by done. by rewrite (sb_task _ _ S), same_class, same_terminal, Hl, Hd.
Qed.
Lemma same_summary label : summary_row env label = summary_row env' label.
Proof. unfold summary_row. by rewrite !(same_text _) by done. Qed.
Lemma same_apply f : fold_apply f env = fold_apply f env'.
Proof. unfold fold_apply. by rewrite same_class, same_terminal. Qed.
End same.

Lemma filter_Forall2 {A} (R : A -> A -> Prop) (p : A -> bool) l l' :
  (forall a b, R a b -> p a = p b) -> Forall2 R l l' -> Forall2 R (List.filter p l) (List.filter p l').
Proof.
  intros H. induction 1 as [|a b l l' Hab Hl IH]; simpl; [constructor|].
  rewrite (H a b Hab). destruct (p b); [by constructor|done].
Qed.
Lemma sort_by_key_Forall2 {A} (R : A -> A -> Prop) (key : A -> N) l l' :
  (forall a b, R a b -> key a = key b) -> Forall2 R l l' ->
  Forall2 R (sort_by_key key l) (sort_by_key key l').
Proof.
  intros H. unfold sort_by_key. induction 1 as [|a b l l' Hab Hl IH]; simpl; [constructor|].
  induction IH as [|x y s s' Hxy Hs IH]; simpl; [by repeat constructor|].
  rewrite (H _ _ Hab), (H _ _ Hxy). destruct (key b <=? key y)%N; by repeat constructor.
Qed.

Notation alike := (Forall2 same_but_body).

Lemma alike_map {B} (f : Value -> B) l l' :
  (forall a b, same_but_body a b -> f a = f b) -> alike l l' -> map f l = map f l'.
Proof. intros H. induction 1 as [|a b l l' Hab Hl IH]; simpl; [done|]. by rewrite (H a b Hab), IH. Qed.
Lemma alike_omap {B} (f : Value -> option B) l l' :
  (forall a b, same_but_body a b -> f a = f b) -> alike l l' -> omap f l = omap f l'.
Proof. intros H. induction 1 as [|a b l l' Hab Hl IH]; [done|].
  cbn [omap list_omap]. by rewrite (H a b Hab), <- IH. Qed.
Lemma alike_sorted l l' : alike l l' -> alike (sort_by_key ts_key l) (sort_by_key ts_key l').
Proof. apply sort_by_key_Forall2. intros a b. apply same_key. Qed.
Lemma alike_count id l l' : alike l l' -> alike (count_for id l) (count_for id l').
Proof. apply filter_Forall2. intros a b Hab. by rewrite (sb_task _ _ Hab). Qed.
Lemma alike_fold f l l' : alike l l' -> fold_all f l = fold_all f l'.
Proof.
  intros H. revert f. unfold fold_all.
  induction H as [|a b l l' Hab Hl IH]; intros f; simpl; [done|]. by rewrite (same_apply Hab), IH.
Qed.
Lemma alike_summaries f l l' :
  alike l l' -> zip_with summary_row l (fold_labels f l) = zip_with summary_row l' (fold_labels f l').
Proof.
  intros H. revert f. induction H as [|a b l l' Hab Hl IH]; intros f; simpl; [done|].
  rewrite (same_apply Hab). destruct (fold_apply f b) as [f' label]. by rewrite (same_summary Hab), IH.
Qed.

Lemma alike_record_row now l l' r : alike l l' -> record_row now l r = record_row now l' r.
Proof. intros H. unfold record_row. by rewrite (Forall2_length _ _ _ (alike_count _ _ _ H)). Qed.
Lemma alike_mailbox_row now l l' id : alike l l' -> mailbox_row now l id = mailbox_row now l' id.
Proof.
  intros H%(alike_count id)%alike_sorted. unfold mailbox_row.
  rewrite (alike_fold _ _ _ H), (Forall2_length _ _ _ H), (alike_omap env_epoch _ _ (fun a b => same_epoch) H).
  f_equal. destruct H as [|a b ? ? Hab]; [done|]. simpl.
  by rewrite (sb_fields _ _ Hab "to"), (sb_fields _ _ Hab "from").
Qed.

Lemma string_values_Forall2 {A} (R : A -> A -> Prop) (m m' : gmap string A) :
  dom m = dom m' -> (forall k, option_Forall2 R (m !! k) (m' !! k)) ->
  Forall2 R (string_values m) (string_values m').
Proof.
  intros Hd H. unfold string_values. rewrite Hd. induction (bs_iter (dom m')) as [|k ks IH]; [constructor|].
  cbn [omap list_omap]. specialize (H k). inversion H; [by constructor|done].
Qed.
Lemma alike_concat l l' : Forall2 alike l l' -> alike (concat l) (concat l').
Proof. induction 1; simpl; [constructor|]. by apply Forall2_app. Qed.
Lemma alike_all ctx ctx' : bodies_differ ctx ctx' -> alike (all_envelopes ctx) (all_envelopes ctx').
Proof.
  intros H. unfold all_envelopes. destruct (bd_messages _ _ H) as [m m' [Hd Hm]|]; [|constructor].
  by apply alike_concat, string_values_Forall2.
Qed.

Lemma alike_tasks ctx ctx' now id full :
  bodies_differ ctx ctx' -> (id = None \/ full = false) ->
  inspect_tasks ctx now id full = inspect_tasks ctx' now id full.
Proof.
  intros H Hk. pose proof (alike_all _ _ H) as Ha. unfold inspect_tasks. rewrite (bd_tasks _ _ H).
  destruct (cx_task_data ctx') as [records|]; [|done]. destruct id as [uuid|].
  - destruct Hk as [?| ->]; [done|]. unfold inspect_tasks_by_id. f_equal.
    apply alike_summaries, alike_sorted. exact (alike_count _ _ _ Ha).
  - do 2 f_equal. f_equal; [apply map_ext; intros r; by apply alike_record_row|].
    unfold mailbox_only_ids. rewrite (alike_omap view_task_id _ _ sb_task Ha).
    apply map_ext. intros t. by apply alike_mailbox_row.
Qed.

Lemma alike_messages ctx ctx' to tail :
  bodies_differ ctx ctx' -> inspect_messages ctx to tail = inspect_messages ctx' to tail.
Proof.
  intros H. unfold inspect_messages. destruct (bd_messages _ _ H) as [m m' [Hd Hm]|]; [|done].
  set (e := match to with Some _ => default [] (m !! _) | None => _ end).
  set (e' := match to with Some _ => default [] (m' !! _) | None => _ end).
  assert (He : alike e e').
  { unfold e, e'. destruct to as [nm|]; [|by apply alike_concat, string_values_Forall2].
    destruct (Hm nm); [done|constructor]. }
  apply alike_sorted in He. rewrite (Forall2_length _ _ _ He).
  apply alike_map; [apply @same_message_row|]. by apply Forall2_drop.
Qed.

(** C19. Short of asking for a task's full envelopes, no inspection shows a body:
    of the envelopes in the mailboxes, a reply depends only on their other
    members, on the task each names, on the length of each body's canonical
    form and on the first bytes of its digest. *)
Theorem inspection_hides_bodies state ctx ctx' now kind :
  bodies_differ ctx ctx' ->
  (forall uuid, kind <> InspectTasks (Some uuid) true) ->
  inspect_dispatch state ctx now kind = inspect_dispatch state ctx' now kind.
Proof.
  intros H Hk. destruct kind as [| |id full|to tail|]; unfold inspect_dispatch.
  - unfold inspect_broker. by rewrite (bd_pid _ _ H), (bd_sock _ _ H), (bd_version _ _ H).
  - unfold inspect_identities. by rewrite (bd_meta _ _ H).
  - f_equal. apply alike_tasks; [done|]. destruct id as [u|]; [|by left].
    destruct full; [by destruct (Hk u)|by right].
  - by rewrite (alike_messages _ _ to tail H).
  - done.
Qed.
End tasks.

(** ** A task in two mailboxes *)
#[export] Instance toy_hex : HexLib := {| hex_text := String.string_of_list_byte |}.

Definition demo_id : string := uuid_to_string 5.
Definition demo_env (cls ts : string) (extra : list (string * Value)) (body : Value) : Value :=
  json_obj ([("class", VString cls); ("from", VString "a"); ("to", VString "b"); ("ts", VString ts);
             ("causality", json_obj [("ref", VString demo_id)])] ++ extra ++ [("body", body)]).
Definition demo_boxes (secret : string) : gmap string (list Value) :=
  <["a" := [demo_env "commit" "1Z" [] (VString secret)]]>
  (<["b" := [demo_env "deliver" "2Z" [("terminal_status", VString "completed")] VNull;
             demo_env "request" "0Z" [] VNull;
             demo_env "ack" "3Z" [] VNull]]> ∅).
Definition demo_ctx (secret : string) (records : list TaskRecord) : BrokerCtx :=
  mkCtx 1 "bus.sock" "0" ∅ (Some records) (Some (demo_boxes secret)).

Lemma demo_env_body secret :
  demo_env "commit" "1Z" [] (VString secret) =
  VObject [("body", VString secret); ("causality", json_obj [("ref", VString demo_id)]);
           ("class", VString "commit"); ("from", VString "a"); ("to", VString "b");
           ("ts", VString "1Z")].
Proof. reflexivity. Qed.


Lemma task_list_accounts_for_envelopes_witness :
  let ctx := demo_ctx "x" [demo_task] in
  NoDup (map tk_task_id [demo_task]) /\
  exists rows,
    inspect_tasks ctx 0 None false = TaskList rows /\
    StronglySorted (fun a b => task_row_le a b = true) rows /\
    NoDup (row_ids rows) /\
    (forall id, id ∈ row_ids rows <->
       id ∈ map tk_task_id [demo_task] \/
       exists env, env ∈ all_envelopes ctx /\ view_task_id env = Some id) /\
    (forall row, row ∈ rows ->
       tr_envelope_count row = N.of_nat (length (count_for (tr_task_id row) (all_envelopes ctx)))) /\
    sum_list (map (fun row => N.to_nat (tr_envelope_count row)) rows) =
      length (omap view_task_id (all_envelopes ctx)).
Proof.
  intros ctx. assert (Hnd : NoDup (map tk_task_id [demo_task])) by apply NoDup_singleton.
  split; [exact Hnd|].
  apply (task_list_accounts_for_envelopes ctx 0 [demo_task] false); [reflexivity|exact Hnd].
Qed.

Lemma inspection_hides_bodies_witness :
  let view := mkView 0 [] [] in
  demo_boxes "secret" <> demo_boxes "hidden" /\
  inspect_dispatch view (demo_ctx "secret" []) 9 (InspectMessages (Some "a") None) =
  inspect_dispatch view (demo_ctx "hidden" []) 9 (InspectMessages (Some "a") None).
Proof.
  intros view. split.
  { intros H. apply (f_equal (fun m => m !! "a")) in H. vm_compute in H. discriminate. }
  apply (inspection_hides_bodies view); [|done].
  split; [done..|]. simpl. constructor. split; [vm_compute; reflexivity|]. intros k.
  unfold demo_boxes. destruct (decide (k = "a")) as [->|Ha].
  - rewrite !lookup_insert_eq. constructor. constructor; [|constructor].
    split; [|vm_compute; reflexivity..]. intros k Hk. rewrite !demo_env_body. simpl.
    by rewrite (proj2 (String.eqb_neq _ _) Hk).
  - rewrite !lookup_insert_ne by done. destruct (decide (k = "b")) as [->|Hb].
    + rewrite !lookup_insert_eq. constructor. by repeat (constructor; [by split|]).
    + rewrite !lookup_insert_ne, lookup_empty by done. constructor.
Defined.
