(* ===== verification/Receive.v ===== *)
(** * The receiving clients

    [crates/famp/src/cli/{inbox/list,inbox/ack,await_cmd/mod,wait_reply}.rs], the
    tail of [register.rs] and the MCP tools [inbox], [await_], [channel_log] and
    [verify] of [cli/mcp/tools]: one exchange with the broker or one read of the
    mailbox files each, and the JSON they show.  The [i]-th body a call renders
    uses the [i]-th fresh UUID of the argument [fresh]. *)

From Stdlib Require Import Strings.Byte Ascii.
From stdpp Require Import gmap pretty strings list.
From S2P Require Import Prelude Json Proto Mailbox Origin Crypto Fsm Core Derive Body Envelope.
From S2P Require Import BrokerState Handle Executor InboxReader Clock TaskDir Inspect Client ClientSend Render.

(** The bus directory as a client sees it: a mailbox file read, a cursor file's
    text, and [execute_advance_cursor] with whether it succeeded. *)
Class BusDir (W : Type) := {
  dir_file : W -> string -> FileRead;
  dir_cursor : W -> string -> option string;
  dir_advance : W -> string -> N -> W * bool }.

#[export] Instance process_dir (io : Io) : BusDir World := {|
  dir_file w path := file_read io w path;
  dir_cursor w name := w_cursors w !! ("." +:+ name +:+ ".cursor");
  dir_advance w name offset :=
    (with_cursors (execute_advance_cursor io (w_cursors w) name offset) w,
     io_cursor_ok io ("." +:+ name +:+ ".cursor")) |}.

Definition resolve (env : SendEnv) (as_flag : option string) : result string CliError :=
  resolve_identity (en_canon env) as_flag (en_identity env) (en_cwd env) (en_wires env).

Section receive.
Context `{WL : WireLib}.

(** ** Rendering a batch *)
Definition listed_line (simple : string) (s : StampedEnvelope) : Value :=
  json_obj [("origin", VString (origin_name (st_origin s)));
            ("envelope", rendered_envelope simple (st_origin s) (st_envelope s))].

Definition render_stamped (simple : string) (s : StampedEnvelope) : Value :=
  match rendered_envelope simple (st_origin s) (st_envelope s) with
  | VObject obj => VObject (obj_insert "origin" (VString (origin_name (st_origin s))) obj)
  | v => v
  end.
Definition render_stamped_envelopes (fresh : nat -> string) (l : list StampedEnvelope) : list Value :=
  imap (fun i s => render_stamped (fresh i) s) l.

(** ** [famp inbox list] and [famp inbox ack] *)
Record ListArgs := mkListArgs {
  la_since : option N; la_include_terminal : bool; la_act_as : option string }.
Record ListOutcome := mkListOutcome { lo_envelopes : list StampedEnvelope; lo_next_offset : N }.

Definition list_connect_error (identity : string) (e : BusClientError) : CliError :=
  match e with BcHelloFailed NotRegistered _ => ClNotRegisteredHint identity | _ => ClBrokerUnreachable end.

Definition list_outcome (identity : string) (reply : BusReply) : result ListOutcome CliError :=
  match reply with
  | InboxOk envelopes next_offset => Ok (mkListOutcome envelopes next_offset)
  | ReplyErr NotRegistered _ => Err (ClNotRegisteredHint identity)
  | ReplyErr kind message => Err (ClBusError kind message)
  | other => Err (ClUnexpected (variant_name other))
  end.

Definition inbox_list {W} `{BusSocket W} (env : SendEnv) (args : ListArgs) (w : W) :
    W * result ListOutcome CliError :=
  trying identity := resolve env (la_act_as args) catch e => (w, Err e) in
  let '(w, bus) := connect w (Some identity) in
  trying conn := bus catch e => (w, Err (list_connect_error identity e)) in
  let '(w, reply) := sock_request w conn (Inbox (la_since args) (Some (la_include_terminal args))) in
  let w := sock_shutdown w conn in
  trying reply := reply catch _ => (w, Err ClBrokerUnreachable) in
  (w, list_outcome identity reply).

(** The lines on stdout. *)
Definition inbox_lines (fresh : nat -> string) (o : ListOutcome) : list Value :=
  imap (fun i s => listed_line (fresh i) s) (lo_envelopes o) ++
  [json_obj [("next_offset", v_u64 (lo_next_offset o))]].

Definition inbox_ack {W} `{BusDir W} (env : SendEnv) (offset : N) (act_as : option string) (w : W) :
    W * result N CliError :=
  trying identity := resolve env act_as catch e => (w, Err e) in
  let '(w, ok) := dir_advance w identity offset in
  (w, if ok then Ok offset else Err ClIo).

(** ** [famp await] *)
Record AwaitArgs := mkAwaitArgs { aw_timeout_ms : N; aw_task : option N; aw_act_as : option string }.
Record AwaitOutcome := mkAwaitOutcome {
  ao_envelopes : list Value; ao_mailbox : option MailboxName; ao_next_offset : option N;
  ao_timed_out : bool; ao_diagnostic : option string; ao_aborted : bool }.

Definition arrived (fresh : nat -> string) (l : list StampedEnvelope) (mb : MailboxName)
    (next : option N) : AwaitOutcome :=
  mkAwaitOutcome (render_stamped_envelopes fresh l) (Some mb) next false None false.
Definition timed_out (diagnostic : string) : AwaitOutcome :=
  mkAwaitOutcome [] None None true (Some diagnostic) false.

(** [exe] is the text of the running executable's path. *)
Definition mixed_binary_hint (exe detail : string) : string :=
  detail +:+ ". This can happen when a client from one FAMP build talks to a broker from another build. Current client: "
  +:+ exe +:+ ". Run `famp inspect broker` to see the broker pid/build/socket, then restart the broker if needed.".

(** The detail text of [CliError::BusClient] is the error itself here. *)
Definition await_connect_error (exe identity : string) (e : BusClientError) : CliError :=
  match e with
  | BcHelloFailed NotRegistered _ => ClNotRegisteredHint identity
  | BcHelloFailed BrokerProtoMismatch message =>
      ClBusError BrokerProtoMismatch (mixed_binary_hint exe message)
  | BcHelloFailed kind message => ClBusError kind message
  | BcIo true => ClBrokerUnreachable
  | e => ClBusClient e
  end.

Definition causality_ref (env : Value) : option string :=
  match get env "causality" with Some c => get_str c "ref" | None => None end.

Definition is_reply_for_task (envelope : Value) (task : N) : bool :=
  if bool_decide (get_str envelope "class" = Some "request") then false else
  match causality_ref envelope ≫= uuid_parse_str with Some candidate => (candidate =? task)%N | None => false end.

Definition whole_inbox : BusMessage := Inbox (Some 0%N) (Some true).

Definition inbox_has_reply_for_task {W} `{BusSocket W} (w : W) (conn : ClientId) (task : N) :
    W * result bool CliError :=
  let '(w, reply) := sock_request w conn whole_inbox in
  (w, match reply with
      | Ok (InboxOk envelopes _) => Ok (existsb (fun s => is_reply_for_task (st_envelope s) task) envelopes)
      | Ok (ReplyErr kind message) => Err (ClBusError kind message)
      | Ok other => Err (ClUnexpected (variant_name other))
      | Err e => Err (ClBusClient e)
      end).

Definition await_hint (identity : string) : string :=
  "Run `famp inbox list --as " +:+ identity +:+ " --include-terminal` to inspect already-delivered messages, or use `famp wait-reply --as "
  +:+ identity +:+ " --task <task_id>` for reply waits that check the inbox before blocking.".

Definition timeout_diagnostic {W} `{BusSocket W} (w : W) (conn : ClientId) (identity : string)
    (task : option N) : W * string :=
  let hint := await_hint identity in
  match task with
  | None => (w, "await timed out waiting for a new message. " +:+ hint)
  | Some task =>
      let base := "await timed out waiting for new messages on task " +:+ uuid_to_string task in
      let '(w, found) := inbox_has_reply_for_task w conn task in
      (w, match found with
          | Ok true => base +:+ "; a matching reply is already present in the inbox but was not new past the await cursor. " +:+ hint
          | _ => base +:+ ". " +:+ hint
          end)
  end.

Definition await_failure (identity : string) (reply : BusReply) : CliError :=
  match reply with
  | ReplyErr NotRegistered _ => ClNotRegisteredHint identity
  | ReplyErr kind message => ClBusError kind message
  | other => ClUnexpected (variant_name other)
  end.

(** Without the cancellation descriptor. *)
Definition await_run {W} `{BusSocket W} (exe : string) (fresh : nat -> string) (env : SendEnv)
    (args : AwaitArgs) (w : W) : W * result AwaitOutcome CliError :=
  trying identity := resolve env (aw_act_as args) catch e => (w, Err e) in
  let '(w, bus) := connect w (Some identity) in
  trying conn := bus catch e => (w, Err (await_connect_error exe identity e)) in
  let '(w, reply) := sock_request w conn (Await (N.min (aw_timeout_ms args) u64_max) (aw_task args)) in
  trying reply := reply catch e => (sock_shutdown w conn, Err (ClBusClient e)) in
  match reply with
  | AwaitOk envelopes mailbox next_offset =>
      (sock_shutdown w conn, Ok (arrived fresh envelopes mailbox (Some next_offset)))
  | AwaitTimeout =>
      let '(w, diagnostic) := timeout_diagnostic w conn identity (aw_task args) in
      (sock_shutdown w conn, Ok (timed_out diagnostic))
  | other => (sock_shutdown w conn, Err (await_failure identity other))
  end.

(** The line on stdout; an aborted wait exits with status 3 besides. *)
Definition write_outcome (o : AwaitOutcome) : Value :=
  if ao_aborted o then json_obj [("aborted", VBool true)]
  else if ao_timed_out o then
    json_obj ([("timeout", VBool true)] ++ field_opt "diagnostic" VString (ao_diagnostic o))
  else
    let mailbox_value :=
      match ao_mailbox o with
      | Some (MbChannel name) => json_obj [("kind", VString "channel"); ("name", VString name)]
      | Some (MbAgent name) => json_obj [("kind", VString "agent"); ("name", VString name)]
      | None => VNull
      end in
    let summary_origin := default VNull (head (ao_envelopes o) ≫= fun env => get env "origin") in
    json_obj [("mailbox", mailbox_value); ("envelopes", VArray (ao_envelopes o));
              ("next_offset", v_null_or v_u64 (ao_next_offset o)); ("origin", summary_origin)].

(** ** [famp wait-reply] *)
Definition wait_reply {W} `{BusSocket W} (exe : string) (fresh : nat -> string) (env : SendEnv)
    (task timeout_ms : N) (act_as : option string) (w : W) : W * result AwaitOutcome CliError :=
  trying identity := resolve env act_as catch e => (w, Err e) in
  let '(w, bus) := connect w (Some identity) in
  trying conn := bus catch e => (w, Err (await_connect_error exe identity e)) in
  let '(w, reply) := sock_request w conn whole_inbox in
  trying reply := reply catch e => (sock_shutdown w conn, Err (ClBusClient e)) in
  match reply with
  | InboxOk envelopes _ =>
      match List.find (fun s => is_reply_for_task (st_envelope s) task) envelopes with
      | Some stamped =>
          (sock_shutdown w conn, Ok (arrived fresh [stamped] (MbAgent identity) None))
      | None =>
          let '(w, reply) := sock_request w conn (Await (N.min timeout_ms u64_max) (Some task)) in
          let w := sock_shutdown w conn in
          trying reply := reply catch e => (w, Err (ClBusClient e)) in
          match reply with
          | AwaitOk envelopes mailbox next_offset =>
              (w, Ok (arrived fresh envelopes mailbox (Some next_offset)))
          | AwaitTimeout =>
              (w, Ok (timed_out ("wait-reply timed out for task " +:+ uuid_to_string task +:+
                 " after checking the existing inbox, including terminal messages")))
          | other => (w, Err (await_failure identity other))
          end
      end
  | other => (sock_shutdown w conn, Err (await_failure identity other))
  end.

(** ** [famp register --tail] *)
Definition TAIL_BODY_TRUNCATE : nat := 80.

(** [s.chars().take(n)] on UTF-8 text: a character starts at every byte that
    continues no other. *)
Definition utf8_continuation (c : ascii) : bool :=
  let b := N_of_ascii c in ((128 <=? b) && (b <? 192))%N.
Fixpoint take_chars (n : nat) (s : string) : string :=
  match s with
  | EmptyString => EmptyString
  | String c rest =>
      if utf8_continuation c then String c (take_chars n rest)
      else match n with O => EmptyString | S n => String c (take_chars n rest) end
  end.

Definition BACKSLASH : ascii := "092"%char.
Definition DQUOTE : ascii := "034"%char.
Definition chr (c : ascii) : string := String c EmptyString.

(** The four replacements one after the other. *)
Definition truncate_for_tail (s : string) : string :=
  let s := take_chars TAIL_BODY_TRUNCATE s in
  let s := str_replace (chr BACKSLASH) (chr BACKSLASH +:+ chr BACKSLASH) s in
  let s := str_replace (chr DQUOTE) (chr BACKSLASH +:+ chr DQUOTE) s in
  let s := str_replace (chr LF) (chr BACKSLASH +:+ "n") s in
  str_replace (chr "013"%char) (chr BACKSLASH +:+ "r") s.

(** [now] is the clock's text. *)
Definition tail_line (simple now : string) (s : StampedEnvelope) : string :=
  let envelope := st_envelope s in
  let from := default "?" (get_str envelope "from") in
  let to := match get envelope "to" with Some t => body_text t | None => "?" end in
  let task := default "-" (get_str envelope "task") in
  let body_raw := match get envelope "body" with Some b => body_text b | None => EmptyString end in
  let body := truncate_for_tail (render_body_text simple (st_origin s) body_raw) in
  "< " +:+ now +:+ " from=" +:+ from +:+ " to=" +:+ to +:+ " task=" +:+ task +:+ " body=" +:+
  chr DQUOTE +:+ body +:+ chr DQUOTE.

(** The texts of errors ([detail]) are the caller's. *)
Definition map_bus_client_err (detail : BusClientError -> string) (e : BusClientError) : CliError :=
  match e with
  | BcHelloFailed kind message => ClBusError kind message
  | BcFrame => ClBusError Internal ("frame codec error: " +:+ detail e)
  | BcDecode => ClBusError EnvelopeInvalid ("decode error: " +:+ detail e)
  | BcUnexpectedReply msg => ClBusError Internal ("unexpected reply: " +:+ msg)
  | BcIo _ | BcBrokerDidNotStart | BcProtocolMismatch _ => ClBusClient e
  end.

Inductive TailEnd := TailDisconnected | TailError (e : CliError).

(** One turn of [tail_loop] on its cursor: the lines printed, then the next
    cursor or the loop's end. *)
Definition tail_poll {W} `{BusSocket W} `{BusDir W} (detail : BusClientError -> string)
    (fresh : nat -> string) (now : string) (w : W) (conn : ClientId) (identity : string) (cursor : N) : W * list string * (N + TailEnd) :=
  let '(w, reply) := sock_request w conn (Inbox (Some cursor) None) in
  match reply with
  | Ok (InboxOk envelopes next_offset) =>
      let lines := imap (fun i s => tail_line (fresh i) now s) envelopes in
      if (cursor <? next_offset)%N
      then ((dir_advance w identity next_offset).1, lines, inl next_offset)
      else (w, lines, inl cursor)
  | Ok (ReplyErr kind message) => (w, [], inr (TailError (ClBusError kind message)))
  | Ok other => (w, [], inr (TailError (ClBusError Internal
      ("unexpected broker reply on Inbox: " +:+ variant_name other))))
  | Err (BcIo _) => (w, [], inr TailDisconnected)
  | Err e => (w, [], inr (TailError (map_bus_client_err detail e)))
  end.

(** The session of [famp register --tail] once its [Register] is answered, for
    [polls] turns: the backlog, then the polls from offset zero. *)
Fixpoint tail_loop {W} `{BusSocket W} `{BusDir W} (detail : BusClientError -> string)
    (fresh : nat -> nat -> string) (now : nat -> string) (polls : nat) (w : W) (conn : ClientId) (identity : string) (cursor : N) : W * list string :=
  match polls with
  | O => (w, [])
  | S polls =>
      let '(w, lines, next) := tail_poll detail (fresh polls) (now polls) w conn identity cursor in
      match next with
      | inl cursor =>
          let '(w, rest) := tail_loop detail fresh now polls w conn identity cursor in (w, lines ++ rest)
      | inr _ => (w, lines)
      end
  end.

Definition tail_session {W} `{BusSocket W} `{BusDir W} (detail : BusClientError -> string)
    (fresh : nat -> nat -> string) (now : nat -> string) (polls : nat) (w : W) (conn : ClientId) (identity : string) (drained : list StampedEnvelope) :
    W * list string :=
  let backlog := imap (fun i s => tail_line (fresh polls i) (now polls) s) drained in
  let '(w, lines) := tail_loop detail fresh now polls w conn identity 0 in
  (w, backlog ++ lines).

(** ** [famp join], [leave], [whoami] and [sessions] *)
Definition proxy_exchange {W A} `{BusSocket W} (identity : string) (msg : BusMessage)
    (answer : BusReply -> option A) (w : W) : W * result A CliError :=
  let '(w, bus) := connect w (Some identity) in
  trying conn := bus catch e => (w, Err (connect_error identity e)) in
  let '(w, reply) := sock_request w conn msg in
  let w := sock_shutdown w conn in
  trying reply := reply catch e => (w, Err (ClBusClient e)) in
  (w, match answer reply with
      | Some a => Ok a
      | None => Err (await_failure identity reply)
      end).

Record JoinOutcome := mkJoinOutcome {
  jo_channel : string; jo_members : list MemberInfo; jo_drained : list StampedEnvelope }.

Definition join_run {W} `{BusSocket W} (env : SendEnv) (channel : string) (role act_as : option string)
    (w : W) : W * result JoinOutcome CliError :=
  trying identity := resolve env act_as catch e => (w, Err e) in
  trying channel := normalize_channel channel catch e => (w, Err e) in
  proxy_exchange identity (Join channel role)
    (fun r => match r with JoinOk c members drained => Some (mkJoinOutcome c members drained) | _ => None end) w.

Definition leave_run {W} `{BusSocket W} (env : SendEnv) (channel : string) (act_as : option string)
    (w : W) : W * result string CliError :=
  trying identity := resolve env act_as catch e => (w, Err e) in
  trying channel := normalize_channel channel catch e => (w, Err e) in
  proxy_exchange identity (Leave channel) (fun r => match r with LeaveOk c => Some c | _ => None end) w.

Definition whoami_run {W} `{BusSocket W} (env : SendEnv) (act_as : option string) (w : W) :
    W * result (option string * list string) CliError :=
  trying identity := resolve env act_as catch e => (w, Err e) in
  proxy_exchange identity Whoami
    (fun r => match r with WhoamiOk active joined => Some (active, joined) | _ => None end) w.

(** [--me] binds to an identity and keeps its row; otherwise the connection is
    an unbound observer. *)
Definition sessions_run {W} `{BusSocket W} (env : SendEnv) (me : bool) (act_as : option string) (w : W) :
    W * result (list SessionRow) CliError :=
  let rows r := match r with SessionsOk rows => Some rows | _ => None end in
  if me then
    trying identity := resolve env act_as catch e => (w, Err e) in
    let '(w, found) := proxy_exchange identity Sessions rows w in
    (w, result_map (List.filter (fun r => String.eqb (sr_name r) identity)) found)
  else
    let '(w, bus) := connect w None in
    trying conn := bus catch e =>
      (w, Err (match e with BcIo _ | BcBrokerDidNotStart => ClBrokerUnreachable | e => ClBusClient e end)) in
    let '(w, reply) := sock_request w conn Sessions in
    let w := sock_shutdown w conn in
    trying reply := reply catch e => (w, Err (ClBusClient e)) in
    (w, match rows reply with Some l => Ok l | None => Err (await_failure EmptyString reply) end).
End receive.
