(* ===== verification/McpTools.v ===== *)
(** * The MCP tools

    [crates/famp/src/cli/mcp/session.rs] (the session's state), [error_kind.rs],
    and the tools of [cli/mcp/tools]: each takes the call's arguments, the
    session and the world behind the sockets and returns the new ones with its
    result.  What a tool reads of its host (process ids, clock, random ids,
    error texts) is [McpHost]. *)

From Stdlib Require Import Strings.Byte Ascii.
From stdpp Require Import gmap pretty strings list.
From S2P Require Import Prelude Json Proto Mailbox Origin Serde Crypto Fsm Core Derive Body Envelope.
From S2P Require Import BrokerState Handle Executor InboxReader Clock TaskDir Inspect Client ClientSend.
From S2P Require Import Render Receive.

(** ** Session and errors *)
Record LastSend := mkLastSend {
  ls_task_id : string; ls_thread_task_id : option string; ls_to_peer : option string;
  ls_to_channel : option string; ls_ts : string }.
Record SessionState := mkSession {
  ms_bus : option ClientId; ms_active_identity : option string; ms_last_send : option LastSend;
  ms_inbox_offset : option N; ms_listen_mode : option bool }.
Definition session_new : SessionState := mkSession None None None None None.

Definition set_bus (b : option ClientId) (s : SessionState) : SessionState :=
  mkSession b (ms_active_identity s) (ms_last_send s) (ms_inbox_offset s) (ms_listen_mode s).
Definition set_last_send (l : LastSend) (s : SessionState) : SessionState :=
  mkSession (ms_bus s) (ms_active_identity s) (Some l) (ms_inbox_offset s) (ms_listen_mode s).
Definition set_inbox_offset (o : option N) (s : SessionState) : SessionState :=
  mkSession (ms_bus s) (ms_active_identity s) (ms_last_send s) o (ms_listen_mode s).
Definition set_listen_mode (o : option bool) (s : SessionState) : SessionState :=
  mkSession (ms_bus s) (ms_active_identity s) (ms_last_send s) (ms_inbox_offset s) o.

Record ToolError := mkToolError { te_kind : BusErrorKind; te_message : string }.
Definition not_registered : ToolError :=
  mkToolError NotRegistered "session is not registered; call famp_register first".
Definition bad {A} (message : string) : result A ToolError := Err (mkToolError EnvelopeInvalid message).

Definition bus_error_to_jsonrpc (kind : BusErrorKind) : Z * string :=
  match kind with
  | NotRegistered => (-32100, "not_registered") | NameTaken => (-32101, "name_taken")
  | ChannelNameInvalid => (-32102, "channel_name_invalid") | NotJoined => (-32103, "not_joined")
  | EnvelopeInvalid => (-32104, "envelope_invalid") | EnvelopeTooLarge => (-32105, "envelope_too_large")
  | TaskNotFound => (-32106, "task_not_found") | BrokerProtoMismatch => (-32107, "broker_proto_mismatch")
  | BrokerUnreachable => (-32108, "broker_unreachable") | Internal => (-32109, "internal")
  end%Z.

Record McpHost := mkHost {
  mh_env : SendEnv; mh_pid : N; mh_parent_pid : N; mh_cwd : option string;
  mh_is_socket : string -> bool;            (* [symlink_metadata(..).is_socket()] *)
  mh_exe : string; mh_fresh : SendFresh; mh_now : string;
  mh_render : nat -> string;                (* the fresh UUIDs of the nonces *)
  mh_rows : list Delivered -> string;       (* [Debug] of the delivered rows *)
  mh_cli_text : CliError -> string;         (* [Display] *)
  mh_bus_text : BusClientError -> string    (* [bus_err_detail] and [Debug] *) }.

Definition tool_error_of (host : McpHost) (e : CliError) : ToolError :=
  match e with
  | ClBusError kind message => mkToolError kind message
  | ClNotRegisteredHint _ => not_registered
  | ClBrokerUnreachable => mkToolError BrokerUnreachable "broker unreachable"
  | other => mkToolError Internal (mh_cli_text host other)
  end.

(** ** Arguments *)
Definition as_bool (v : Value) : option bool := match v with VBool b => Some b | _ => None end.
Definition as_u64 (n : Number) : option N := match n with PosInt n => Some n | _ => None end.

Definition identity_char (c : ascii) : bool :=
  is_digit c || is_lower c || ascii_between "A"%char "Z"%char c ||
  Ascii.eqb c "."%char || Ascii.eqb c "_"%char || Ascii.eqb c "-"%char.

(** [what] is "identity" or "peer". *)
Definition validate_name `{WireLib} (what name : string) : result unit ToolError :=
  if String.eqb name EmptyString then bad (what +:+ " name must not be empty")
  else if (64 <? String.length name)%nat
  then bad (what +:+ " name length " +:+ pretty (N.of_nat (String.length name)) +:+ " exceeds 64 bytes")
  else if negb (string_forall identity_char name)
  then bad ("invalid " +:+ what +:+ " name " +:+ str_debug name +:+ ": must match [A-Za-z0-9._-]+")
  else Ok tt.

Definition CC_SOCKS_DIR : string := "/tmp/cc-socks".
Definition wake_addr_for_pid (host : McpHost) : option string :=
  let sock := CC_SOCKS_DIR +:+ "/" +:+ pretty (mh_parent_pid host) +:+ ".sock" in
  if mh_is_socket host sock then Some ("uds:" +:+ sock) else None.

Section tools.
Context `{WL : WireLib} `{CL : CryptoLib} `{TL : TimeLib} `{HL : HexLib}.
Context {W : Type} `{BS : BusSocket W} `{BD : BusDir W} (host : McpHost).

(** A tool's outcome: the session, the world, the result. *)
Definition Outcome : Type := SessionState * W * result Value ToolError.

(** [ensure_bus]. *)
Definition ensure_bus (s : SessionState) (w : W) : SessionState * W * result ClientId ToolError :=
  match ms_bus s with
  | Some conn => (s, w, Ok conn)
  | None =>
      let '(w, bus) := connect w None in
      match bus with
      | Ok conn => (set_bus (Some conn) s, w, Ok conn)
      | Err e => (s, w, Err (mkToolError BrokerUnreachable (mh_bus_text host e)))
      end
  end.

Definition round_trip_failed (e : BusClientError) : ToolError :=
  mkToolError BrokerUnreachable ("broker round-trip failed: " +:+ mh_bus_text host e).

(** ** [register.rs] *)
Definition rebind_rejection (active : option string) (requested : string) (rebind : bool) : bool :=
  match active with
  | Some prev => negb (String.eqb prev requested) && negb rebind
  | None => false
  end.
Definition rebind_message (prev requested : string) : string :=
  "this MCP session is already bound to " +:+ str_debug prev +:+ "; registering as " +:+ str_debug requested +:+
  " would rebind it. If you genuinely intend to take this window over and move its binding from " +:+
  str_debug prev +:+ " to " +:+ str_debug requested +:+
  ", pass rebind: true. (If you are a subagent: this MCP session is PROCESS-WIDE for the entire window, including every subagent that window spawns, since subagent MCP calls arrive on the parent window's famp mcp process — so registering here would silently hijack the parent window's identity. Subagents must NOT call famp_register.)".

Inductive WakeAddrOutcome := WaStored | WaNotStored | WaPoisoned (detail : string).
Definition classify_set_wake_addr (sent : option string) (reply : result BusReply BusClientError) :
    WakeAddrOutcome :=
  match reply with
  | Err e => WaPoisoned (mh_bus_text host e)
  | Ok (SetWakeAddrOk echoed) => if bool_decide (echoed = sent) then WaStored else WaNotStored
  | Ok _ => WaNotStored
  end.
Definition record_wake_addr (w : W) (conn : ClientId) : W * WakeAddrOutcome :=
  let wake_addr := wake_addr_for_pid host in
  let '(w, reply) := sock_request w conn (SetWakeAddr wake_addr) in
  (w, classify_set_wake_addr wake_addr reply).

Definition readiness_warning : string :=
  "listen mode requires an installed and loaded host Stop hook; for Codex run `famp inspect wake --identity <name>` to verify end-to-end readiness".
Definition readiness (listen : bool) : list (string * Value) :=
  if listen then [("listen_mode", VBool true); ("wake_readiness", VString "unknown");
                  ("warning", VString readiness_warning)] else [].
Definition register_ok_body (active : string) (drained : list StampedEnvelope) (peers : list string)
    (listen : bool) : Value :=
  json_obj ([("active", VString active); ("drained", v_u64 (N.of_nat (length drained)));
             ("peers", VArray (map VString peers))] ++ readiness listen).

Definition register_round_trip_error (e : BusClientError) : ToolError :=
  mkToolError BrokerUnreachable ("broker round-trip failed: " +:+ mh_bus_text host e +:+
    ". The bus connection has been discarded (it may be dead or frame-desynced) and will be reopened on the next call; call famp_register again with the same identity — re-register is idempotent and your mailbox is durable, so nothing queued is lost.").
Definition poisoned_connection_error (detail : string) : ToolError :=
  mkToolError BrokerUnreachable
    ("registration reached the broker, but the bus connection failed immediately afterwards and cannot be reused ("
     +:+ detail +:+ "). The connection has been discarded; call famp_register again with the same identity — re-register is idempotent and your mailbox is durable, so nothing queued is lost.").

Definition register_name (input : Value) : option string :=
  match get_str input "identity" with Some n => Some n | None => get_str input "name" end.
Definition strict_bool (input : Value) (field : string) : result bool ToolError :=
  match get input field with
  | None | Some VNull => Ok false
  | Some (VBool b) => Ok b
  | Some _ => bad ("field " +:+ field +:+ " must be a boolean")
  end.

Definition bind_session (active : string) (listen : bool) (s : SessionState) : SessionState :=
  mkSession (ms_bus s) (Some active) (ms_last_send s) None (Some listen).

Definition register_call (input : Value) (s : SessionState) (w : W) : Outcome :=
  match register_name input with
  | None => (s, w, bad "missing required field: identity (string)")
  | Some name =>
  trying _ := validate_name "identity" name catch e => (s, w, Err e) in
  let listen := default true (get input "listen" ≫= as_bool) in
  trying rebind := strict_bool input "rebind" catch e => (s, w, Err e) in
  let '(s, w, bus) := ensure_bus s w in
  trying conn := bus catch e => (s, w, Err e) in
  if rebind_rejection (ms_active_identity s) name rebind
  then (s, w, bad (rebind_message (default EmptyString (ms_active_identity s)) name)) else
  let '(w, round_trip) :=
    sock_request w conn (Register name (mh_pid host) (mh_cwd host) listen (Some Local)) in
  match round_trip with
  | Err e => (set_bus None s, sock_shutdown w conn, Err (register_round_trip_error e))
  | Ok reply =>
      let '(w, wake) := match reply with
                        | RegisterOk _ _ _ => record_wake_addr w conn
                        | _ => (w, WaStored) end in
      match wake with
      | WaPoisoned detail => (set_bus None s, sock_shutdown w conn, Err (poisoned_connection_error detail))
      | _ =>
          match reply with
          | RegisterOk active drained peers =>
              (bind_session active listen s, w, Ok (register_ok_body active drained peers listen))
          | ReplyErr kind message => (s, w, Err (mkToolError kind message))
          | other => (s, w, Err (mkToolError Internal ("unexpected reply to Register: " +:+ variant_name other)))
          end
      end
  end
  end.

(** ** Tools over the session's own connection *)
Definition over_bus (msg : BusMessage) (answer : SessionState -> BusReply -> SessionState * result Value ToolError)
    (s : SessionState) (w : W) : Outcome :=
  let '(s, w, bus) := ensure_bus s w in
  trying conn := bus catch e => (s, w, Err e) in
  let '(w, reply) := sock_request w conn msg in
  match reply with
  | Err e => (s, w, Err (round_trip_failed e))
  | Ok (ReplyErr kind message) => (s, w, Err (mkToolError kind message))
  | Ok reply => let '(s, r) := answer s reply in (s, w, r)
  end.

Definition set_listen_call (input : Value) (s : SessionState) (w : W) : Outcome :=
  match get input "listen" ≫= as_bool with
  | None => (s, w, bad "missing required field: listen (boolean)")
  | Some listen =>
      over_bus (SetListen listen) (fun s reply =>
        match reply with
        | SetListenOk listen_mode =>
            (set_listen_mode (Some listen_mode) s,
             Ok (json_obj (("listen_mode", VBool listen_mode) :: readiness listen_mode)))
        | other => (s, Err (mkToolError Internal ("unexpected reply to SetListen: " +:+ variant_name other)))
        end) s w
  end.

Definition last_send_to_value (l : LastSend) : Value :=
  json_obj ([("task_id", VString (ls_task_id l))] ++
    field_opt "thread_task_id" VString (ls_thread_task_id l) ++
    field_opt "to_peer" VString (ls_to_peer l) ++
    field_opt "to_channel" VString (ls_to_channel l) ++ [("ts", VString (ls_ts l))]).

Definition whoami_call (s : SessionState) (w : W) : Outcome :=
  over_bus Whoami (fun s reply =>
    match reply with
    | WhoamiOk active joined =>
        (s, Ok (json_obj ([("active", v_null_or VString active); ("joined", VArray (map VString joined))] ++
                          field_opt "last_send" last_send_to_value (ms_last_send s))))
    | other => (s, Err (mkToolError Internal ("unexpected reply to Whoami: " +:+ variant_name other)))
    end) s w.

Definition peers_call (s : SessionState) (w : W) : Outcome :=
  over_bus Sessions (fun s reply =>
    match reply with
    | SessionsOk rows => (s, Ok (json_obj [("online", VArray (map (fun r => VString (sr_name r)) rows))]))
    | other => (s, Err (mkToolError Internal ("unexpected reply to Sessions: " +:+ variant_name other)))
    end) s w.

(** ** Tools over a connection of their own *)
Definition as_cli (s : SessionState) {A} (r : W * result A CliError) (ok : A -> Value) : Outcome :=
  let '(w, r) := r in
  (s, w, match r with Ok a => Ok (ok a) | Err e => Err (tool_error_of host e) end).

Definition join_call (input : Value) (s : SessionState) (w : W) : Outcome :=
  match get_str input "channel" with
  | None => (s, w, bad "missing required field: channel (string)")
  | Some channel =>
      as_cli s (join_run (mh_env host) channel (get_str input "role") (ms_active_identity s) w)
        (fun o => json_obj [("channel", VString (jo_channel o));
                            ("members", VArray (map member_to_value (jo_members o)));
                            ("drained", v_u64 (N.of_nat (length (jo_drained o))))])
  end.
Definition leave_call (input : Value) (s : SessionState) (w : W) : Outcome :=
  match get_str input "channel" with
  | None => (s, w, bad "missing required field: channel (string)")
  | Some channel =>
      as_cli s (leave_run (mh_env host) channel (ms_active_identity s) w)
        (fun c => json_obj [("channel", VString c)])
  end.

(** *** [send.rs] *)
Definition PING_TEXT : string := "New FAMP message — call famp_inbox to read it.".
Definition wake_ping (target_addr : string) : Value :=
  json_obj [("to", VString target_addr); ("text", VString PING_TEXT);
    ("instruction", VString ("The recipient is a listening Claude Code session. Call the SendMessage tool with to="
      +:+ target_addr +:+ " and exactly the text in this object's `text` field, verbatim and unmodified, to wake it now. This is best-effort and is not the delivery path: skipping it costs only latency, delaying the recipient until its next Stop-hook wake or famp_inbox read."))].

Definition delivered_row_to_value (r : DeliveredRow) : Value :=
  json_obj ([("to_kind", VString (dr_to_kind r)); ("to_name", VString (dr_to_name r));
             ("ok", VBool (dr_ok r)); ("woken", VBool (dr_woken r))] ++
            field_opt "wake_addr" VString (dr_wake_addr r)).

Definition mode_of (mode : string) (title body task_id : option string) (expect_reply : bool) :
    result (option string * option string * bool) ToolError :=
  let text := match title with Some t => Some t | None => body end in
  if String.eqb mode "open" || String.eqb mode "new_task"
  then Ok (Some (default EmptyString text), None, false)
  else if String.eqb mode "reply" then Ok (None, task_id, negb expect_reply)
  else if String.eqb mode "yield" then Ok (Some (default "YIELD" text), None, false)
  else if String.eqb mode "deliver" then Ok (None, task_id, false)
  else if String.eqb mode "terminal" || String.eqb mode "deliver_terminal" then Ok (None, task_id, true)
  else bad ("invalid mode " +:+ str_debug mode +:+ ": expected open | reply | yield | new_task | deliver | terminal").

(** Unlike [strict_bool], [more_coming] rejects null. *)
Definition parse_more_coming (input : Value) : result bool ToolError :=
  match get input "more_coming" with
  | None => Ok false
  | Some (VBool b) => Ok b
  | Some _ => bad "field more_coming must be a boolean"
  end.

Definition parse_send_input (input : Value) : result SendArgs ToolError :=
  letsome mode := get_str input "mode" orelse bad "missing required field: mode (string)" in
  let peer := get_str input "peer" in
  let channel := get_str input "channel" in
  if negb (is_some peer) && negb (is_some channel)
  then bad "exactly one of peer or channel is required" else
  try more_coming := parse_more_coming input in
  try expect_reply := strict_bool input "expect_reply" in
  try shape := mode_of mode (get_str input "title") (get_str input "body") (get_str input "task_id") expect_reply in
  let '(new_task, task, terminal) := shape in
  Ok (mkSendArgs peer channel new_task task terminal (get_str input "body") more_coming None None).

Definition with_act_as (act_as : option string) (a : SendArgs) : SendArgs :=
  mkSendArgs (sa_to a) (sa_channel a) (sa_new_task a) (sa_task a) (sa_terminal a) (sa_body a)
    (sa_more_coming a) act_as (sa_domain a).

Definition send_body (out : SendOutcome) : Value :=
  let rows := so_delivered_rows out in
  json_obj ([("task_id", VString (so_task_id out)); ("delivered", VString (so_delivered out));
             ("delivered_rows", VArray (map delivered_row_to_value rows));
             ("woken", VBool (existsb dr_woken rows))] ++
            field_opt "thread_task_id" VString (so_thread_task_id out) ++
            match omap dr_wake_addr rows with [addr] => [("wake_ping", wake_ping addr)] | _ => [] end).

Definition send_call (input : Value) (s : SessionState) (w : W) : Outcome :=
  trying args := parse_send_input input catch e => (s, w, Err e) in
  let args := with_act_as (ms_active_identity s) args in
  let '(w, sent) := run_at_structured (mh_rows host) (mh_env host) args (mh_fresh host) w in
  match sent with
  | Ok out =>
      (set_last_send (mkLastSend (so_task_id out) (sa_task args) (sa_to args) (sa_channel args) (mh_now host)) s,
       w, Ok (send_body out))
  | Err (ClSendArgsInvalid reason) => (s, w, bad reason)
  | Err e => (s, w, Err (tool_error_of host e))
  end.

(** *** [await_.rs] *)
Definition parse_timeout_seconds (input : Value) : result N ToolError :=
  match get input "timeout_seconds" with
  | None | Some VNull => Ok 30%N
  | Some (VNumber n) =>
      letsome secs := as_u64 n orelse bad "field timeout_seconds must be a non-negative integer" in Ok secs
  | Some _ => bad "field timeout_seconds must be a non-negative integer"
  end.
Definition parse_task (input : Value) : result (option N) ToolError :=
  match get input "task_id" with
  | None | Some VNull => Ok None
  | Some (VString t) =>
      letsome u := uuid_parse_str t orelse bad ("field task_id is not a valid UUID: " +:+ str_debug t) in
      Ok (Some u)
  | Some _ => bad "field task_id must be a UUID string"
  end.

Definition await_body (o : AwaitOutcome) : Value :=
  let timeout := [("timeout", VBool true)] in
  if ao_timed_out o then json_obj (timeout ++ field_opt "diagnostic" VString (ao_diagnostic o)) else
  match ao_mailbox o, ao_next_offset o with
  | Some mailbox, Some next_offset =>
      json_obj [("envelopes", VArray (ao_envelopes o)); ("mailbox", mailbox_to_value mailbox);
                ("next_offset", v_u64 next_offset)]
  | _, _ => json_obj timeout
  end.

Definition await_call (input : Value) (s : SessionState) (w : W) : Outcome :=
  trying secs := parse_timeout_seconds input catch e => (s, w, Err e) in
  trying task := parse_task input catch e => (s, w, Err e) in
  as_cli s (await_run (mh_exe host) (mh_render host) (mh_env host)
              (mkAwaitArgs (secs * 1000) task (ms_active_identity s)) w) await_body.

(** *** [inbox.rs] *)
Definition read_disk_cursor (w : W) (name : string) : N :=
  default 0%N (dir_cursor w name ≫= fun s => parse_u64 (trim_end_lf s)).

(** A number that is no [u64] is no offset at all. *)
Definition parse_since (input : Value) (remembered : option N) : result (option N) ToolError :=
  match get input "since" with
  | None | Some VNull => Ok remembered
  | Some (VNumber n) => Ok (as_u64 n)
  | Some _ => bad "field since must be a non-negative integer"
  end.

Definition inbox_entry (simple : string) (stamped : StampedEnvelope) : Value :=
  let env := st_envelope stamped in
  let task_id := match causality_ref env with Some t => Some t | None => get_str env "id" end in
  let event := match get env "body" with Some b => get_str b "event" | None => None end in
  let thread_state := if bool_decide (event = Some "famp.send.deliver_terminal") then "CLOSED" else "OPEN" in
  json_obj [("task_id", v_null_or VString task_id); ("thread_state", VString thread_state);
            ("origin", VString (origin_name (st_origin stamped)));
            ("envelope", rendered_envelope simple (st_origin stamped) env)].

Definition inbox_call (input : Value) (s : SessionState) (w : W) : Outcome :=
  trying since := parse_since input (ms_inbox_offset s) catch e => (s, w, Err e) in
  trying include_terminal := strict_bool input "include_terminal" catch e => (s, w, Err e) in
  let identity := ms_active_identity s in
  let '(w, listed) := inbox_list (mh_env host) (mkListArgs since include_terminal identity) w in
  match listed with
  | Err e => (s, w, Err (tool_error_of host e))
  | Ok out =>
      let target := lo_next_offset out in
      let w := match identity with
               | Some name => if (target =? read_disk_cursor w name)%N then w
                              else (dir_advance w name target).1
               | None => w
               end in
      (set_inbox_offset (Some target) s, w,
       Ok (json_obj [("entries", VArray (imap (fun i e => inbox_entry (mh_render host i) e) (lo_envelopes out)));
                     ("next_offset", v_u64 target)]))
  end.

(** ** Recovery tools: they read files, not the session *)

(** *** [channel_log.rs] *)
Definition DEFAULT_LIMIT : N := 50.

Definition optional_u64 (input : Value) (field : string) : result (option N) ToolError :=
  let refused := bad ("field " +:+ field +:+ " must be a non-negative integer") in
  match get input field with
  | None | Some VNull => Ok None
  | Some (VNumber n) => letsome u := as_u64 n orelse refused in Ok (Some u)
  | Some _ => refused
  end.

Definition read_channel_mailbox (channel : string) (file : FileRead) (since limit : N) :
    result Value ToolError :=
  letok entries := read_from file since
    orelse Err (mkToolError Internal ("cannot read channel mailbox " +:+ channel)) in
  let taken := take (N.to_nat limit) entries in
  Ok (json_obj
    [("channel", VString channel);
     ("envelopes", VArray (imap (fun i e =>
        let (origin, inner) := split_stamped e.1 in
        listed_line (mh_render host i) (mkStamped origin inner)) taken));
     ("next_offset", v_u64 (default since (snd <$> last taken)))]).

Definition channel_log_call (input : Value) (w : W) : result Value ToolError :=
  letsome channel_raw := get_str input "channel" orelse bad "missing required field: channel (string)" in
  try channel := map_err (fun e => mkToolError EnvelopeInvalid (mh_cli_text host e)) (normalize_channel channel_raw) in
  try since := optional_u64 input "since" in
  try limit := optional_u64 input "limit" in
  read_channel_mailbox channel (dir_file w (channel +:+ ".jsonl"))
    (default 0%N since) (default DEFAULT_LIMIT limit).

(** *** [verify.rs] *)
Definition envelope_matches (task_id : string) (envelope_id : option string) (env : Value) : bool :=
  let id := get_str env "id" in
  let thread_hit := bool_decide (causality_ref env = Some task_id) || bool_decide (id = Some task_id) in
  thread_hit && match envelope_id with Some want => bool_decide (id = Some want) | None => true end.

(** [listing] is what enumerating the mailbox directory returns. *)
Definition verify_candidates (listing : result (list string) ToolError) (peer channel : option string) :
    result (list string) ToolError :=
  match peer, channel with
  | Some name, _ => Ok [name +:+ ".jsonl"]
  | None, Some name => Ok [name +:+ ".jsonl"]
  | None, None => listing
  end.

Definition verify_reply (task_id : string) (found : option Value) : Value :=
  json_obj ([("delivered", VBool (is_some found)); ("task_id", VString task_id)] ++
            field_opt "row" (fun env => message_row_to_value (message_row env)) found).

Fixpoint scan_files (w : W) (task_id : string) (envelope_id : option string) (candidates : list string) :
    result Value ToolError :=
  match candidates with
  | [] => Ok (verify_reply task_id None)
  | path :: rest =>
      match dir_file w path with
      | FileMissing => scan_files w task_id envelope_id rest
      | file =>
          match read_all file with
          | Err _ => Err (mkToolError Internal ("cannot read mailbox " +:+ path))
          | Ok entries =>
              match List.find (envelope_matches task_id envelope_id)
                      (map (fun line => (split_stamped line).2) entries) with
              | Some env => Ok (verify_reply task_id (Some env))
              | None => scan_files w task_id envelope_id rest
              end
          end
      end
  end.

Definition check_peer (peer : option string) : result unit ToolError :=
  match peer with Some name => validate_name "peer" name | None => Ok tt end.
Definition check_channel (channel : option string) : result (option string) ToolError :=
  match channel with
  | Some name => result_map Some
      (map_err (fun e => mkToolError EnvelopeInvalid (mh_cli_text host e)) (normalize_channel name))
  | None => Ok None
  end.

Definition verify_call (listing : result (list string) ToolError) (input : Value) (w : W) :
    result Value ToolError :=
  letsome task_id := get_str input "task_id" orelse bad "missing required field: task_id (string)" in
  if String.eqb task_id EmptyString then bad "task_id must not be empty" else
  let peer := get_str input "peer" in
  let channel := get_str input "channel" in
  if is_some peer && is_some channel then bad "peer and channel are mutually exclusive" else
  try _ := check_peer peer in
  try channel := check_channel channel in
  try candidates := verify_candidates listing peer channel in
  scan_files w task_id (get_str input "envelope_id") candidates.
End tools.
