(* ===== verification/McpServer.v ===== *)
(** * The MCP server

    [crates/famp/src/cli/mcp/server.rs]: the gate in front of the tools, the
    JSON-RPC answers and the loop over the lines of standard input. *)

From Stdlib Require Import Strings.Byte Ascii.
From stdpp Require Import gmap pretty strings list.
From S2P Require Import Prelude Json Proto Mailbox Origin Serde Crypto Fsm Core Derive Body Envelope.
From S2P Require Import BrokerState Handle Executor InboxReader Clock TaskDir Inspect Client ClientSend.
From S2P Require Import Render Receive McpTools.

Definition PROTOCOL_VERSION : string := "2024-11-05".
Definition SERVER_NAME : string := "famp-mcp".

Section server.
Context `{WL : WireLib} `{CL : CryptoLib} `{TL : TimeLib} `{HL : HexLib}.
Context {W : Type} `{BS : BusSocket W} `{BD : BusDir W}.

(** What the server is started with, and reads anew for every request: the
    host, the mailbox directory's listing, the inspector's answer. *)
Record McpEnv := mkMcpEnv {
  me_host : McpHost; me_listing : W -> result (list string) ToolError;
  me_waiters : W -> result Value ToolError; me_descriptors : Value; me_version : string }.

(** Tools that work before a session is bound. *)
Definition free_pass (e : McpEnv) (name : string) (input : Value) (s : SessionState) (w : W) :
    option (Outcome (W := W)) :=
  if String.eqb name "famp_register" then Some (register_call (me_host e) input s w)
  else if String.eqb name "famp_whoami" then Some (whoami_call (me_host e) s w)
  else if String.eqb name "famp_verify" then Some (s, w, verify_call (me_host e) (me_listing e w) input w)
  else if String.eqb name "famp_channel_log" then Some (s, w, channel_log_call (me_host e) input w)
  else if String.eqb name "famp_inspect_waiters" then Some (s, w, me_waiters e w)
  else None.

Definition bound_tool (e : McpEnv) (name : string) (input : Value) (s : SessionState) (w : W) :
    Outcome (W := W) :=
  if String.eqb name "famp_send" then send_call (me_host e) input s w
  else if String.eqb name "famp_await" then await_call (me_host e) input s w
  else if String.eqb name "famp_inbox" then inbox_call (me_host e) input s w
  else if String.eqb name "famp_peers" then peers_call (me_host e) s w
  else if String.eqb name "famp_join" then join_call (me_host e) input s w
  else if String.eqb name "famp_leave" then leave_call (me_host e) input s w
  else if String.eqb name "famp_set_listen" then set_listen_call (me_host e) input s w
  else (s, w, Err (mkToolError Internal ("unknown tool: " +:+ name))).

Definition dispatch_tool (e : McpEnv) (name : string) (input : Value) (s : SessionState) (w : W) :
    Outcome (W := W) :=
  match free_pass e name input s w with
  | Some outcome => outcome
  | None =>
      if is_some (ms_active_identity s) then bound_tool e name input s w
      else (s, w, Err not_registered)
  end.

(** ** JSON-RPC *)
Definition v_int (z : Z) : Value := VNumber (if (z <? 0)%Z then NegInt z else PosInt (Z.to_N z)).

Definition ok_response (id result : Value) : Value :=
  json_obj [("jsonrpc", VString "2.0"); ("id", id); ("result", result)].
Definition error_response (id : Value) (code : Z) (message : string) (data : Value) : Value :=
  json_obj [("jsonrpc", VString "2.0"); ("id", id);
    ("error", json_obj [("code", v_int code); ("message", VString message); ("data", data)])].

Definition register_hint : Value :=
  json_obj [("hint", VString "Call famp_register with an identity name first. Use famp_whoami to inspect current binding.")].
Definition bus_error_response (id : Value) (e : ToolError) : Value :=
  let (code, kind_str) := bus_error_to_jsonrpc (te_kind e) in
  let details := if bool_decide (te_kind e = NotRegistered) then register_hint else json_obj [] in
  error_response id code (te_message e) (json_obj [("famp_error_kind", VString kind_str); ("details", details)]).

Definition tool_result (value : Value) : Value :=
  json_obj [("content", VArray [json_obj [("type", VString "text"); ("text", VString (value_text value))]]);
            ("isError", VBool false)].

Definition initialize_result (e : McpEnv) : Value :=
  json_obj [("protocolVersion", VString PROTOCOL_VERSION); ("capabilities", json_obj [("tools", json_obj [])]);
    ("serverInfo", json_obj [("name", VString SERVER_NAME); ("version", VString (me_version e))])].

Definition call_arguments (msg : Value) : string * Value :=
  let params := default VNull (get msg "params") in
  (default EmptyString (get_str params "name"), default (VObject []) (get params "arguments")).

(** The answer to one message, computed also for a notification. *)
Definition answer (e : McpEnv) (msg : Value) (s : SessionState) (w : W) :
    SessionState * W * option Value :=
  let id := default VNull (get msg "id") in
  let method := default EmptyString (get_str msg "method") in
  if String.eqb method "initialize" then (s, w, Some (ok_response id (initialize_result e)))
  else if String.eqb method "notifications/initialized" || String.eqb method "notifications/cancelled"
  then (s, w, None)
  else if String.eqb method "tools/list"
  then (s, w, Some (ok_response id (json_obj [("tools", me_descriptors e)])))
  else if String.eqb method "tools/call" then
    let (name, input) := call_arguments msg in
    let '(s, w, r) := dispatch_tool e name input s w in
    (s, w, Some (match r with
                 | Ok value => ok_response id (tool_result value)
                 | Err err => bus_error_response id err
                 end))
  else if String.eqb method "ping" then (s, w, Some (ok_response id (json_obj [])))
  else (s, w, Some (error_response id (-32601) "Method not found" (json_obj [("method", VString method)]))).

Definition is_notification (msg : Value) : bool := negb (is_some (get msg "id")).

Definition handle_message (e : McpEnv) (msg : Value) (s : SessionState) (w : W) :
    SessionState * W * option Value :=
  let '(s, w, response) := answer e msg s w in
  (s, w, if is_notification msg then None else response).

(** ** The loop *)
Definition preview (line : string) : string :=
  if (String.length line <=? 120)%nat then line else take_chars 120 line +:+ "…".

Definition parse_error (line source : string) : Value :=
  error_response VNull (-32700) "Parse error"
    (json_obj [("parse_error", VString source); ("line_preview", VString (preview line))]).

Definition run_line (e : McpEnv) (line : string) (s : SessionState) (w : W) :
    SessionState * W * option Value :=
  let trimmed := trim line in
  if String.eqb trimmed EmptyString then (s, w, None) else
  match from_slice (String.list_byte_of_string trimmed) with
  | Ok msg => handle_message e msg s w
  | Err source => (s, w, Some (parse_error trimmed source))
  end.

(** The lines until end of file, each with what the server is given then. *)
Fixpoint run_server (input : list (McpEnv * string)) (s : SessionState) (w : W) :
    SessionState * W * list Value :=
  match input with
  | [] => (s, w, [])
  | (e, line) :: rest =>
      let '(s, w, response) := run_line e line s w in
      let '(s, w, out) := run_server rest s w in
      (s, w, option_list response ++ out)
  end.
End server.
