(* ===== verification/McpProps.v ===== *)
(** * What the MCP server shows

    Every line is answered as JSON-RPC asks, the session's identity moves only
    by an explicit rebind, and what a dead connection does to a session. *)

From Stdlib Require Import Strings.Byte Ascii.
From stdpp Require Import gmap pretty strings list.
From S2P Require Import Prelude Json Proto Mailbox Origin WireInstance Serde Codec Crypto Principal.
From S2P Require Import Fsm Core Derive Body Envelope EnvelopeProps DrainWalk BrokerState Awaiting.
From S2P Require Import Handle BrokerInv Scenario Executor BrokerProps SessionProps Lifecycle Delivery.
From S2P Require Import Process InboxReader Clock Ingress IngressProps TaskDir Inspect Client ClientSend.
From S2P Require Import ClientSendProps InspectProps Render Receive McpTools McpServer ReceiveProps.

(** ** Requests and responses *)
Section answers.
Context `{WL : WireLib} `{CL : CryptoLib} `{TL : TimeLib} `{HL : HexLib}.
Context {W : Type} `{BS : BusSocket W} `{BD : BusDir W}.

(** The id a line's response must carry, if the line must be answered: blank
    lines, messages without an id and the two notifications are not. *)
Definition owed (line : string) : option Value :=
  if String.eqb (trim line) EmptyString then None else
  match from_slice (String.list_byte_of_string (trim line)) with
  | Err _ => Some VNull
  | Ok msg =>
      id ← get msg "id";
      let method := default EmptyString (get_str msg "method") in
      if String.eqb method "notifications/initialized" || String.eqb method "notifications/cancelled"
      then None else Some id
  end.

(** A response to [id]: a result or an error, never both. *)
Record response_to (id v : Value) : Prop := {
  rs_version : get v "jsonrpc" = Some (VString "2.0");
  rs_id : get v "id" = Some id;
  rs_one : is_some (get v "result") = negb (is_some (get v "error")) }.

Lemma ok_responds id r : response_to id (ok_response id r).
Proof. by split. Qed.
Lemma error_responds id code msg data : response_to id (error_response id code msg data).
Proof. by split. Qed.
Lemma bus_error_responds id e : response_to id (bus_error_response id e).
Proof. unfold bus_error_response. destruct (bus_error_to_jsonrpc _). apply error_responds. Qed.
Hint Resolve ok_responds error_responds bus_error_responds : core.

Lemma answer_responds e msg s w id :
  get msg "id" = Some id ->
  let method := default EmptyString (get_str msg "method") in
  match (answer e msg s w).2 with
  | Some v => String.eqb method "notifications/initialized" || String.eqb method "notifications/cancelled" = false
              /\ response_to id v
  | None => String.eqb method "notifications/initialized" || String.eqb method "notifications/cancelled" = true
  end.
Proof.
  intros Hid method. unfold answer. rewrite Hid. cbn [default]. fold method.
  destruct (String.eqb_spec method "initialize") as [->|_]; [by split|].
  destruct (_ || _) eqn:En; [done|].
  destruct (String.eqb method "tools/list"); [by split|].
  destruct (String.eqb method "tools/call"); [|destruct (String.eqb method "ping"); by split].
  destruct (call_arguments msg) as [name input].
  destruct (dispatch_tool e name input s w) as [[s' w'] [r|r]]; by split.
Qed.

Lemma run_line_owed e line s w :
  match (run_line e line s w).2, owed line with
  | Some v, Some id => response_to id v
  | None, None => True
  | _, _ => False
  end.
Proof.
  unfold run_line, owed. destruct (String.eqb _ _); [done|].
  destruct (from_slice _) as [msg|source]; [|by apply error_responds].
  unfold handle_message, is_notification.
  pose proof (answer_responds e msg s w) as Ha. destruct (answer e msg s w) as [[s' w'] r]. cbn [snd] in *.
  destruct (get msg "id") as [id|]; [|done]. cbn [is_some negb mbind option_bind].
  specialize (Ha id eq_refl). cbv zeta in Ha. destruct r as [v|].
  - destruct Ha as [-> Hr]. exact Hr.
  - by rewrite Ha.
Qed.
End answers.

(** The server answers exactly what JSON-RPC asks, in order: over any lines on
    standard input, whatever the tools do, the responses written are one for
    each line that owes one, in the order of the lines, each with that
    request's id (null for a line that is no JSON) and with either a result or
    an error; blank lines, messages without an id and the two notifications get
    none. *)
Theorem run_server_answers `{WireLib} `{CryptoLib} `{TimeLib} `{HexLib} {W} `{BusSocket W} `{BusDir W}
    input s w :
  Forall2 response_to (omap owed (map snd input)) (run_server input s w).2.
Proof.
  revert s w. induction input as [|[e line] input IH]; intros s w; [constructor|].
  cbn [run_server map snd]. pose proof (run_line_owed e line s w) as Hl.
  destruct (run_line e line s w) as [[s1 w1] r]. cbn [snd] in Hl.
  specialize (IH s1 w1). destruct (run_server input s1 w1) as [[s2 w2] out].
  cbn [omap list_omap snd] in *. destruct r as [v|], (owed line) as [id|]; try done.
  by constructor.
Qed.

(** ** The binding of a session *)

(** A broker confirms a registration under the name it was asked for. *)
Class EchoesName (W : Type) `{BS : BusSocket W} : Prop :=
  register_echoes w conn nm p cw listen org w' active drained peers :
    sock_request w conn (Register nm p cw listen org) = (w', Ok (RegisterOk active drained peers)) ->
    active = nm.

Section echoes.
Context `{WL : WireLib}.

(** A register request is answered first, and by nothing but cursor moves after. *)
Lemma register_answer env b client nm p cw listen org now wall :
  exists b' r, (forall active drained peers, r = RegisterOk active drained peers -> active = nm) /\
    exists rest, handle env b (Wire client (Register nm p cw listen org)) now wall = Some (b', Reply client r :: rest) /\
      Forall (fun o => exists mb n, o = AdvanceCursor mb n) rest.
Proof.
  assert (Herr : forall kind msg active drained peers,
    ReplyErr kind msg = RegisterOk active drained peers -> active = nm) by done.
  assert (Hone : forall b' r, (forall active drained peers, r = RegisterOk active drained peers -> active = nm) ->
    exists b'' r', (forall active drained peers, r' = RegisterOk active drained peers -> active = nm) /\
    exists rest, Some (b' : BrokerState, [Reply client r]) = Some (b'', Reply client r' :: rest) /\
      Forall (fun o => exists mb n, o = AdvanceCursor mb n) rest).
  { intros b' r Hr. exists b', r. split; [done|]. by exists []. }
  cbn [handle]. unfold handle_wire. cbn [is_hello negb andb].
  destruct (negb _); [by apply Hone|]. cbn [dispatch]. unfold register.
  repeat match goal with
  | |- context [if ?x then _ else _] => destruct x; [by apply Hone|]
  end.
  destruct (drain_from _ _ _) as [d|]; [|by apply Hone].
  destruct (encode_frame _); [|by apply Hone].
  destruct (clients _ !! client); [|by apply Hone].
  eexists _, _. split; [|eexists; split; [reflexivity|by repeat econstructor]].
  by intros ? ? ? [= ->].
Qed.

Lemma cursors_sent io now rest w :
  Forall (fun o => exists mb n, o = AdvanceCursor mb n) rest ->
  w_sent (execute_outs io now rest w) = w_sent w.
Proof.
  intros Hr. revert w. induction Hr as [|o rest (mb & n & ->) _ IH]; intros w; [done|].
  change (execute_outs io now (?o :: rest) w) with (execute_outs io now rest (execute_out io now w o)).
  by rewrite IH.
Qed.

#[export] Instance process_echoes io now wall :
  EchoesName World (BS := process_socket io now wall).
Proof.
  intros w conn nm p cw listen org w' active drained peers. cbn [sock_request process_socket].
  unfold process_bus. cbn [step]. unfold call_broker.
  destruct (register_answer (disk_env io w) (w_broker w) conn nm p cw listen org now wall)
    as (b & r & Hr & rest & -> & Hrest).
  set (w1 := execute_outs _ _ _ _).
  assert (Hs : w_sent w1 = w_sent w \/ w_sent w1 = w_sent w ++ [(conn, r)]).
  { unfold w1. change (execute_outs io now (?o :: rest) ?v) with (execute_outs io now rest (execute_out io now v o)).
    rewrite cursors_sent by done. simpl. unfold deliver. case_bool_decide; [by right|by left]. }
  destruct Hs as [Hs|Hs].
  - by rewrite Hs, drop_all.
  - rewrite Hs. pose proof (first_reply_own conn (w_sent w) [] r ltac:(constructor)) as Hf.
    cbn [app] in Hf. rewrite Hf. cbn [map_err].
    intros [= _ ->]. by eapply Hr.
Qed.
End echoes.

Section binding.
Context `{WL : WireLib} `{CL : CryptoLib} `{TL : TimeLib} `{HL : HexLib}.
Context {W : Type} `{BS : BusSocket W} `{BD : BusDir W}.

(** The registration a line asks for. *)
Definition asked_registration (line : string) : option Value :=
  match from_slice (String.list_byte_of_string (trim line)) with
  | Err _ => None
  | Ok msg =>
      if bool_decide (get_str msg "method" = Some "tools/call") then
        let (name, input) := call_arguments msg in
        if String.eqb name "famp_register" then Some input else None
      else None
  end.

(** A call that may move the binding of a session from [active] to [nm]. *)
Definition may_bind (active : option string) (nm : string) (input : Value) : Prop :=
  register_name input = Some nm /\ validate_name "identity" nm = Ok () /\
  (active = None \/ strict_bool input "rebind" = Ok true).

Definition keeps (s : SessionState) (o : SessionState * W * result Value ToolError) : Prop :=
  ms_active_identity o.1.1 = ms_active_identity s.

Lemma ensure_bus_keeps host s w : ms_active_identity (ensure_bus host s w).1.1 = ms_active_identity s.
Proof. unfold ensure_bus. destruct (ms_bus s); [done|]. by destruct (connect w None) as [? []]. Qed.

Lemma over_bus_keeps host msg ans s w :
  (forall s reply, ms_active_identity (ans s reply).1 = ms_active_identity s) ->
  keeps s (over_bus host msg ans s w).
Proof.
  intros Ha. unfold keeps, over_bus. pose proof (ensure_bus_keeps host s w) as Hk.
  destruct (ensure_bus host s w) as [[s1 w1] [conn|e]]; [|done]. cbn [fst snd] in *.
  destruct (sock_request w1 conn msg) as [w2 [reply|e]]; [|done].
  destruct reply; try done;
    match goal with |- context [ans s1 ?r] =>
      pose proof (Ha s1 r) as Hs; destruct (ans s1 r) as [s2 r2]; cbn [fst snd] in *; congruence end.
Qed.

Lemma as_cli_keeps host s {A} (r : W * result A CliError) ok : keeps s (as_cli host s r ok).
Proof. by destruct r. Qed.

Lemma send_keeps host input s w : keeps s (send_call host input s w).
Proof.
  unfold keeps, send_call. destruct (parse_send_input input); [|done].
  destruct (run_at_structured _ _ _ _ _) as [? [|[]]]; done.
Qed.

Lemma await_keeps host input s w : keeps s (await_call host input s w).
Proof.
  unfold await_call. destruct (parse_timeout_seconds input); [|done].
  destruct (parse_task input); [|done]. apply as_cli_keeps.
Qed.

Lemma inbox_keeps host input s w : keeps s (inbox_call host input s w).
Proof.
  unfold keeps, inbox_call. destruct (parse_since _ _); [|done]. destruct (strict_bool _ _); [|done].
  by destruct (inbox_list _ _ _) as [? []].
Qed.

Lemma bound_tool_keeps e name input s w : keeps s (bound_tool e name input s w).
Proof.
  unfold bound_tool.
  repeat match goal with |- keeps _ (if ?x then _ else _) => destruct x end.
  - apply send_keeps.
  - apply await_keeps.
  - apply inbox_keeps.
  - apply over_bus_keeps. by intros ? [].
  - unfold join_call. destruct (get_str _ _); [apply as_cli_keeps|done].
  - unfold leave_call. destruct (get_str _ _); [apply as_cli_keeps|done].
  - unfold set_listen_call. destruct (_ ≫= _); [|done]. apply over_bus_keeps. by intros ? [].
  - done.
Qed.

Lemma rebind_checked active nm rebind :
  rebind_rejection active nm rebind = false -> active <> Some nm -> active = None \/ rebind = true.
Proof.
  unfold rebind_rejection. destruct active as [prev|]; [|by left]. intros Hr Hne. right.
  destruct (String.eqb_spec prev nm) as [->|_]; [done|]. by destruct rebind.
Qed.

Lemma register_binds `{!EchoesName W} host input s w :
  keeps s (register_call host input s w) \/
  exists nm, ms_active_identity (register_call host input s w).1.1 = Some nm /\
    may_bind (ms_active_identity s) nm input.
Proof.
  unfold keeps, register_call.
  destruct (register_name input) as [nm|] eqn:Hn; [|by left].
  destruct (validate_name "identity" nm) as [[]|] eqn:Hv; [|by left].
  destruct (strict_bool input "rebind") as [rebind|] eqn:Hb; [|by left].
  pose proof (ensure_bus_keeps host s w) as Hk.
  destruct (ensure_bus host s w) as [[s1 w1] [conn|e]]; [|by left]. cbn [fst snd] in *.
  destruct (rebind_rejection _ _ _) eqn:Hr; [by left|].
  destruct (sock_request _ _ _) as [w2 [reply|e]] eqn:Hq; [|by left].
  destruct reply; try (by left).
  apply register_echoes in Hq as ->.
  destruct (record_wake_addr host w2 conn) as [w3 []]; try (by left); cbn [fst snd bind_session ms_active_identity].
  all: rewrite Hk in Hr; destruct (decide (ms_active_identity s = Some nm)) as [->|Hne]; [by left|right].
  all: exists nm; split; [done|]; split; [done|split; [done|]].
  all: destruct (rebind_checked _ _ _ Hr Hne) as [?|Hrb]; [by left|right; by rewrite Hb, Hrb].
Qed.

Lemma dispatch_binds `{!EchoesName W} e name input s w :
  keeps s (dispatch_tool e name input s w) \/
  name = "famp_register" /\
  exists nm, ms_active_identity (dispatch_tool e name input s w).1.1 = Some nm /\
    may_bind (ms_active_identity s) nm input.
Proof.
  unfold dispatch_tool, free_pass.
  destruct (String.eqb_spec name "famp_register") as [->|_].
  { destruct (register_binds (me_host e) input s w) as [H|H]; [by left|by right]. }
  left. destruct (String.eqb name "famp_whoami").
  { unfold whoami_call. apply over_bus_keeps. by intros ? []. }
  repeat match goal with |- context [String.eqb name ?x] => destruct (String.eqb name x); [done|] end.
  destruct (is_some _); [apply bound_tool_keeps|done].
Qed.

Lemma run_line_binds `{!EchoesName W} e line s w :
  ms_active_identity (run_line e line s w).1.1 = ms_active_identity s \/
  exists nm input, ms_active_identity (run_line e line s w).1.1 = Some nm /\
    asked_registration line = Some input /\ may_bind (ms_active_identity s) nm input.
Proof.
  unfold run_line, asked_registration. destruct (String.eqb _ _); [by left|].
  destruct (from_slice _) as [msg|source]; [|by left]. unfold handle_message.
  enough (H : ms_active_identity (answer e msg s w).1.1 = ms_active_identity s \/
    exists nm input, ms_active_identity (answer e msg s w).1.1 = Some nm /\
      (if bool_decide (get_str msg "method" = Some "tools/call") then
        let (name, input) := call_arguments msg in
        if String.eqb name "famp_register" then Some input else None
       else None) = Some input /\ may_bind (ms_active_identity s) nm input).
  { by destruct (answer e msg s w) as [[s1 w1] r]. }
  unfold answer. destruct (get_str msg "method") as [method|] eqn:Hm; [|by left].
  change (default EmptyString (Some method)) with method.
  destruct (String.eqb method "initialize"); [by left|].
  destruct (_ || _); [by left|]. destruct (String.eqb method "tools/list"); [by left|].
  destruct (String.eqb_spec method "tools/call") as [->|_]; [|destruct (String.eqb method "ping"); by left].
  rewrite bool_decide_true by done. destruct (call_arguments msg) as [name input].
  pose proof (dispatch_binds e name input s w) as Hd. unfold keeps in Hd.
  destruct (dispatch_tool e name input s w) as [[s1 w1] r]. cbn [fst snd] in *.
  destruct Hd as [Hd|(-> & nm & Hnm & Hmay)]; [by left|right].
  exists nm, input. split; [done|]. by rewrite String.eqb_refl.
Qed.
End binding.

(** C15. A session's identity moves only on purpose: over any lines on standard
    input and any behaviour of the bus that confirms registrations under the
    name asked for, the identity the session ends with is the one it started
    with, or one of the lines is a famp_register call for exactly that (valid)
    name, from a session that was unbound or with an explicit [rebind: true];
    in particular a bound session never becomes unbound, and without
    [rebind: true] keeps its name whatever else is called. *)
Theorem mcp_identity_needs_rebind `{WireLib} `{CryptoLib} `{TimeLib} `{HexLib} {W} `{BS : BusSocket W}
    `{BD : BusDir W} `{!EchoesName W} input s w :
  let s' := (run_server input s w).1.1 in
  ms_active_identity s' = ms_active_identity s \/
  exists nm e line args, ms_active_identity s' = Some nm /\ (e, line) ∈ input /\
    asked_registration line = Some args /\ may_bind (ms_active_identity s) nm args.
Proof.
  cbv zeta. revert s w. induction input as [|[e line] input IH]; intros s w; [by left|].
  cbn [run_server]. pose proof (run_line_binds e line s w) as Hl.
  destruct (run_line e line s w) as [[s1 w1] r]. cbn [fst snd] in Hl.
  specialize (IH s1 w1). destruct (run_server input s1 w1) as [[s2 w2] out]. cbn [fst snd] in *.
  destruct IH as [IH|(nm & e' & line' & args & Hnm & Hin & Hask & Hr & Hv & Hmay)].
  - rewrite IH. destruct Hl as [Hl|(nm & args & Hnm & Hask & Hmay)]; [by left|right].
    exists nm, e, line, args. split; [done|]. split; [constructor|done].
  - right. exists nm, e', line', args. split; [done|]. split; [by constructor|]. split; [done|].
    split; [done|]. split; [done|]. destruct Hmay as [Hu|Hrb]; [|by right]. left.
    destruct Hl as [Hl|(nm' & args' & Hnm' & _)]; congruence.
Qed.

(** A window registers as carol, then something in it tries to register as dave. *)
Definition register_line (nm : string) : string :=
  match canonicalize (json_obj [("id", VString "1"); ("method", VString "tools/call");
    ("params", json_obj [("name", VString "famp_register");
      ("arguments", json_obj [("identity", VString nm)])])]) with
  | Ok b => String.string_of_list_byte b
  | Err _ => EmptyString
  end.
Definition window_env : McpEnv (W := World) :=
  mkMcpEnv window_host (fun _ => Ok []) (fun _ => Ok VNull) VNull "1".
Definition window_lines : list (McpEnv (W := World) * string) :=
  [(window_env, register_line "carol"); (window_env, register_line "dave")].
Definition window_run : SessionState * World * list Value :=
  let io := healthy (fun _ => true) in
  run_server (BS := process_socket io 0 wall0) (BD := process_dir io) window_lines session_new w_boot.

Lemma mcp_identity_needs_rebind_witness :
  ms_active_identity window_run.1.1 = Some "carol" /\
  exists e line args, (e, line) ∈ window_lines /\ asked_registration line = Some args /\
    may_bind None "carol" args.
Proof.
  pose proof (mcp_identity_needs_rebind
    (BS := process_socket (healthy (fun _ => true)) 0 wall0) (BD := process_dir (healthy (fun _ => true)))
    window_lines session_new w_boot) as H. cbv zeta in H. fold window_run in H.
  assert (Hc : ms_active_identity window_run.1.1 = Some "carol") by (vm_compute; reflexivity).
  split; [exact Hc|]. rewrite Hc in H. destruct H as [H|(nm & e & line & args & Hnm & Hin & Hask & Hmay)].
  - discriminate H.
  - injection Hnm as <-. exists e, line, args. split; [exact Hin|]. split; [exact Hask|exact Hmay].
Defined.

(** ** A dead connection *)
(** Every request on the connection fails and changes nothing. *)
Definition dead {W} `{BusSocket W} (w : W) (conn : ClientId) : Prop :=
  forall msg, exists e, sock_request w conn msg = (w, Err e).

(** Only famp_register gets a session off a dead connection: while the cached
    connection is dead, famp_whoami, famp_peers and famp_set_listen fail with
    the session unchanged, so the next call fails alike; an idempotent (or
    rebinding) famp_register fails too, but discards the connection, so the
    session then has an identity and no connection and the next call opens a
    new one. *)
Theorem dead_connection_needs_register `{WireLib} `{CryptoLib} `{TimeLib} `{HexLib} {W} `{BusSocket W}
    `{BusDir W} e input s w conn nm :
  ms_bus s = Some conn -> ms_active_identity s = Some nm -> dead w conn ->
  (forall name, name ∈ ["famp_whoami"; "famp_peers"; "famp_set_listen"] ->
     exists err, dispatch_tool e name input s w = (s, w, Err err)) /\
  (forall requested rebind, register_name input = Some requested ->
     validate_name "identity" requested = Ok () -> strict_bool input "rebind" = Ok rebind ->
     rebind_rejection (Some nm) requested rebind = false ->
     exists err, dispatch_tool e "famp_register" input s w = (set_bus None s, sock_shutdown w conn, Err err) /\
       te_kind err = BrokerUnreachable).
Proof.
  intros Hbus Hid Hdead.
  assert (Hover : forall msg ans, exists err, over_bus (me_host e) msg ans s w = (s, w, Err err)).
  { intros msg ans. unfold over_bus, ensure_bus. rewrite Hbus. destruct (Hdead msg) as [er ->]. eauto. }
  split.
  - intros name Hname. unfold dispatch_tool, free_pass, bound_tool. rewrite Hid.
    repeat (apply elem_of_cons in Hname as [->|Hname]); [apply Hover..| |by apply elem_of_nil in Hname].
    cbn [String.eqb Ascii.eqb Bool.eqb is_some]. unfold set_listen_call.
    destruct (get input "listen" ≫= as_bool); [apply Hover|by eexists].
  - intros requested rebind Hn Hv Hb Hr. unfold dispatch_tool, free_pass. cbn [String.eqb Ascii.eqb Bool.eqb].
    unfold register_call, ensure_bus. rewrite Hn, Hv, Hb, Hbus, Hid, Hr.
    match goal with |- context [sock_request w conn ?m] => destruct (Hdead m) as [er ->] end.
    by eexists.
Qed.

(** A machine on which the broker is gone. *)
#[local] Instance gone_socket : BusSocket unit := {|
  sock_open w := (w, Err (BcIo true));
  sock_request w _ _ := (w, Err (BcIo false));
  sock_shutdown w _ := w |}.
#[local] Instance gone_dir : BusDir unit := {|
  dir_file _ _ := FileMissing; dir_cursor _ _ := None; dir_advance w _ _ := (w, false) |}.

Lemma dead_connection_needs_register_witness :
  let e := mkMcpEnv window_host (fun _ : unit => Ok []) (fun _ => Ok VNull) VNull "1" in
  let s := mkSession (Some 4%N) (Some "alice") None None (Some true) in
  let input := json_obj [("identity", VString "alice")] in
  (exists err, dispatch_tool e "famp_whoami" input s tt = (s, tt, Err err)) /\
  exists err, dispatch_tool e "famp_register" input s tt = (set_bus None s, tt, Err err) /\
    te_kind err = BrokerUnreachable.
Proof.
  intros e s input.
  destruct (dead_connection_needs_register e input s tt 4%N "alice") as [Hthree Hreg].
  - reflexivity.
  - reflexivity.
  - intros msg. exists (BcIo false). reflexivity.
  - split; [apply Hthree; set_solver|]. apply (Hreg "alice" false); reflexivity.
Qed.
