(* ===== verification/Peer.v ===== *)
(** * The peer commands

    [crates/famp/src/cli/peer/{identity,export,import,rotate,retire,revoke,
    import_revocation}.rs] and the blobs of [famp-keyring/src/{revocation,
    peer_flag}.rs]: how the gateway's signing key is made, how public keys travel
    between machines, and what each command does to the keyring file.  The
    answers of the operating system are [PeerIo]; the texts of [Generic] errors
    are the errors they print. *)

From Stdlib Require Import Strings.Byte Ascii.
From stdpp Require Import gmap strings list pretty.
From S2P Require Import Prelude Json Proto WireInstance Principal Crypto Fsm Core Derive Keyring Client.

(** ** The files under [$FAMP_HOME] *)

(** How writing a file ends: done, refused before it is touched, or broken off
    after so many bytes of the new text. *)
Inductive SaveFate := SaveDone | SaveRefused | SaveTorn (n : nat).
Definition save_text (fate : SaveFate) (old : option string) (text : string) : option string * bool :=
  match fate with
  | SaveDone => (Some text, true)
  | SaveRefused => (old, false)
  | SaveTorn n => (Some (String.substring 0 n text), false)
  end.

Record PeerHome := mkPeerHome {
  ho_keyring : option string;      (* gateway/peers.keyring *)
  ho_identity : option string;     (* gateway/identity.ed25519 *)
  ho_own_domain_env : option string; ho_own_domain_file : TextFile }.

Record PeerIo := mkPeerIo {
  po_keyring_readable : bool; po_mkdir : bool; po_keyring_save : SaveFate;
  po_identity_readable : bool; po_identity_mkdir : bool; po_identity_save : SaveFate;
  po_generated : FampSigningKey;   (* what the OS entropy gives *)
  po_emit_save : SaveFate; po_stdout : bool }.

Definition with_keyring (t : option string) (h : PeerHome) : PeerHome :=
  mkPeerHome t (ho_identity h) (ho_own_domain_env h) (ho_own_domain_file h).
Definition with_identity (t : option string) (h : PeerHome) : PeerHome :=
  mkPeerHome (ho_keyring h) t (ho_own_domain_env h) (ho_own_domain_file h).

Inductive PeerError :=
| PeMalformed (reason : string)
| PeIo
| PeUnreadable | PeUnsaved
| PeGeneric (e : KeyringError)
| PeCorruptIdentity (e : CryptoError)
| PeKeyConflict (p : Principal)
| PeNotPinned (p : Principal)
| PeKeyChanged (p : Principal) (previous_key_id new_key_id : string)   (* exit code 2 *)
| PeKeyRevoked (p : Principal) (id : string)
| PeNoSuchKey (p : Principal) (id : string)
| PeCannotRetire (p : Principal) (id state : string)
| PeRevocationRejected (principal : string) (e : KeyringError)
| PeOwnDomain (e : CliError).

Section peer.
Context `{CL : CryptoLib} `{WL : WireLib}.

(** ** Keys as text: [keys.rs] *)
Definition CryptoError_display (e : CryptoError) : string :=
  match e with
  | InvalidKeyEncoding => "invalid key encoding"
  | InvalidSignatureEncoding => "invalid signature encoding"
  | WeakKey => "weak public key rejected at ingress"
  | Canonicalization e => "canonicalization failure: " +:+ e
  | VerificationFailed => "signature verification failed"
  end.
Definition sk_from_b64url (input : string) : result FampSigningKey CryptoError :=
  letsome v := b64url_decode input orelse Err InvalidKeyEncoding in
  if (length v =? 32)%nat then Ok (mkSigningKey v) else Err InvalidKeyEncoding.
Definition sk_to_b64url (sk : FampSigningKey) : string := b64url_encode (sk_seed sk).

(** ** [identity.rs] *)
Definition load_or_generate (io : PeerIo) (home : PeerHome) : PeerHome * result FampSigningKey PeerError :=
  match ho_identity home with
  | Some text =>
      if negb (po_identity_readable io) then (home, Err PeIo) else
      (home, map_err PeCorruptIdentity (sk_from_b64url (trim text)))
  | None =>
      let key := po_generated io in
      if negb (po_identity_mkdir io) then (home, Err PeIo) else
      let (text, ok) := save_text (po_identity_save io) None (sk_to_b64url key) in
      (with_identity text home, if ok then Ok key else Err PeIo)
  end.

(** ** [export.rs] *)
Definition home_own_domain (home : PeerHome) : result string CliError :=
  resolve_own_domain None (ho_own_domain_env home) (ho_own_domain_file home).

Definition resolve_export_principal (home : PeerHome) (as_principal : string) : result Principal PeerError :=
  match Principal_from_str as_principal with
  | Ok principal =>
      match home_own_domain home with
      | Ok configured =>
          if String.eqb (pr_authority principal) configured then Ok principal
          else Err (PeMalformed ("--as principal authority '" +:+ pr_authority principal +:+
            "' does not match the configured own-domain '" +:+ configured +:+
            "' — pin-label authority and the future envelope `from` authority must be the same value"))
      | Err ClOwnDomainNotSet => Ok principal
      | Err e => Err (PeOwnDomain e)
      end
  | Err PMissingScheme =>
      trying own_domain := home_own_domain home catch e => Err (PeOwnDomain e) in
      map_err (fun e => PeMalformed ("invalid --as name '" +:+ as_principal +:+ "': " +:+
        ParsePrincipalError_display e))
        (Principal_from_str ("agent:" +:+ own_domain +:+ "/" +:+ as_principal))
  | Err e => Err (PeMalformed ("invalid --as principal '" +:+ as_principal +:+ "': " +:+
      ParsePrincipalError_display e))
  end.

Definition format_export_line (p : Principal) (vk : TrustedVerifyingKey) : string :=
  Principal_display p +:+ " " +:+ vk_to_b64url vk +:+ " " +:+ key_id vk +:+ String LF EmptyString.

Definition export_run (io : PeerIo) (as_principal : string) (home : PeerHome) :
    PeerHome * result string PeerError :=
  trying principal := resolve_export_principal home as_principal catch e => (home, Err e) in
  let (home, sk) := load_or_generate io home in
  (home, try sk := sk in
         if po_stdout io then Ok (format_export_line principal (verifying_key sk)) else Err PeIo).

(** ** [import.rs]

    The third field, the fingerprint, only decides a warning. *)
Definition parse_export_line (line : string) : result (Principal * TrustedVerifyingKey) PeerError :=
  match split_whitespace line with
  | [] => Err (PeMalformed "missing principal")
  | [_] => Err (PeMalformed "missing pubkey")
  | principal_str :: pubkey_str :: _ =>
      trying principal := Principal_from_str principal_str
        catch e => Err (PeMalformed ("invalid principal '" +:+ principal_str +:+ "': " +:+
          ParsePrincipalError_display e)) in
      trying vk := vk_from_b64url pubkey_str
        catch e => Err (PeMalformed ("invalid pubkey encoding: " +:+ CryptoError_display e)) in
      Ok (principal, vk)
  end.

Definition load_keyring (io : PeerIo) (home : PeerHome) : result Keyring PeerError :=
  match ho_keyring home with
  | None => Err PeUnreadable
  | Some text => if po_keyring_readable io then map_err PeGeneric (load_from_file text) else Err PeUnreadable
  end.

(** Truncating the file and writing it entry by entry. *)
Definition save_keyring (io : PeerIo) (k : Keyring) (home : PeerHome) : PeerHome * result unit PeerError :=
  let (text, ok) := save_text (po_keyring_save io) (ho_keyring home) (save_to_file k) in
  (with_keyring text home, if ok then Ok tt else Err PeUnsaved).

Definition pin_error (e : KeyringError) : PeerError :=
  match e with KKeyConflict p => PeKeyConflict p | other => PeGeneric other end.

Definition import_run (io : PeerIo) (blob : string) (home : PeerHome) : PeerHome * result unit PeerError :=
  trying parsed := parse_export_line blob catch e => (home, Err e) in
  let (principal, vk) := parsed in
  trying keyring := (if is_some (ho_keyring home) then load_keyring io home else Ok ∅)
    catch e => (home, Err e) in
  match pin_tofu keyring principal vk with
  | (_, Err e) => (home, Err (pin_error e))
  | (keyring, Ok _) => if po_mkdir io then save_keyring io keyring home else (home, Err PeIo)
  end.

(** ** [rotate.rs] *)
Definition rotate_error (e : KeyringError) : PeerError :=
  match e with
  | KKeyChangeRequiresConfirmation p previous new => PeKeyChanged p previous new
  | KKeyRevoked p id => PeKeyRevoked p id
  | other => PeGeneric other
  end.

Definition rotate_run (io : PeerIo) (blob : string) (confirm : bool) (now : string) (home : PeerHome) :
    PeerHome * result unit PeerError :=
  trying parsed := parse_export_line blob catch e => (home, Err e) in
  let (principal, vk) := parsed in
  if negb (is_some (ho_keyring home)) then (home, Err (PeNotPinned principal)) else
  trying keyring := load_keyring io home catch e => (home, Err e) in
  if (length (entries keyring principal) =? 0)%nat then (home, Err (PeNotPinned principal)) else
  match rotate_to keyring principal vk now None confirm with
  | (_, Err e) => (home, Err (rotate_error e))
  | (keyring, Ok _) => if po_mkdir io then save_keyring io keyring home else (home, Err PeIo)
  end.

(** ** [retire.rs] *)
Definition retire_error (e : KeyringError) : PeerError :=
  match e with
  | KNoSuchKeyEntry p id => PeNoSuchKey p id
  | KCannotRetire p id state => PeCannotRetire p id state
  | other => PeGeneric other
  end.

Definition retire_run (io : PeerIo) (p : Principal) (id : string) (home : PeerHome) :
    PeerHome * result unit PeerError :=
  trying keyring := load_keyring io home catch e => (home, Err e) in
  match retire keyring p id with
  | (_, Err e) => (home, Err (retire_error e))
  | (keyring, Ok _) => save_keyring io keyring home
  end.

(** ** Revocation statements as text: [revocation.rs] *)
Definition signed_to_value (s : SignedRevocation) : Value :=
  json_obj [("statement", statement_to_value (sr_statement s)); ("sig", VString (sr_sig s))].
Definition to_blob (s : SignedRevocation) : result string KeyringError :=
  result_map String.string_of_list_byte (map_err KRevocationBlobMalformed (to_vec (signed_to_value s))).

Definition statement_specs : field_specs :=
  [("principal", fault d_string); ("revoked_key_id", fault d_string); ("revoked_at", fault d_string);
   ("reason", fault (d_option d_string))].
Definition d_statement : decoder RevocationStatement := fun v =>
  try m := struct_fields statement_specs v in
  try principal := required d_string m "principal" in
  try revoked_key_id := required d_string m "revoked_key_id" in
  try revoked_at := required d_string m "revoked_at" in
  try reason := optional d_string m "reason" in
  Ok (mkStatement principal revoked_key_id revoked_at reason).
Definition signed_revocation_specs : field_specs := [("statement", fault d_statement); ("sig", fault d_string)].
Definition d_signed_revocation : decoder SignedRevocation := fun v =>
  try m := struct_fields signed_revocation_specs v in
  try statement := required d_statement m "statement" in
  try sig := required d_string m "sig" in
  Ok (mkSignedRevocation statement sig).

(** A repeated field is refused, as by the strict parser. *)
Definition from_blob (s : string) : result SignedRevocation KeyringError :=
  trying v := from_slice_strict (String.list_byte_of_string s)
    catch e => Err (KRevocationBlobMalformed e) in
  map_err (fun e => KRevocationBlobMalformed (serde_text e)) (d_signed_revocation v).

(** ** [revoke.rs] *)
Definition revoke_error (e : KeyringError) : PeerError :=
  match e with KNoSuchKeyEntry p id => PeNoSuchKey p id | other => PeGeneric other end.

(** What writing the emitted statement leaves at the path asked for. *)
Definition emit_statement (io : PeerIo) (s : RevocationStatement) (old : option string) (home : PeerHome) :
    PeerHome * option string * result unit PeerError :=
  let (home, sk) := load_or_generate io home in
  trying sk := sk catch e => (home, old, Err e) in
  trying signed := statement_sign s sk catch e => (home, old, Err (PeGeneric e)) in
  trying blob := to_blob signed catch e => (home, old, Err (PeGeneric e)) in
  let (file, ok) := save_text (po_emit_save io) old blob in
  (home, file, if ok then Ok tt else Err PeIo).

(** [emit] is the content of the file to emit to, when one was asked for. *)
Definition revoke_run (io : PeerIo) (p : Principal) (id : string) (reason : option string) (now : string)
    (emit : option (option string)) (home : PeerHome) :
    PeerHome * option string * result unit PeerError :=
  let old := default None emit in
  trying keyring := load_keyring io home catch e => (home, old, Err e) in
  match revoke keyring p id now with
  | (_, Err e) => (home, old, Err (revoke_error e))
  | (keyring, Ok _) =>
      let (home, saved) := save_keyring io keyring home in
      trying _ := saved catch e => (home, old, Err e) in
      match emit with
      | None => (home, None, Ok tt)
      | Some old => emit_statement io (mkStatement (Principal_display p) id now reason) old home
      end
  end.

(** ** [import_revocation.rs] *)
Definition apply_error (statement : RevocationStatement) (e : KeyringError) : PeerError :=
  match e with
  | KRevocationSignerNotAuthorized p | KRevocationSignatureInvalid p =>
      PeRevocationRejected (Principal_display p) e
  | KRevocationBlobMalformed _ => PeRevocationRejected (rs_principal statement) e
  | other => PeGeneric other
  end.

Definition import_revocation_run (io : PeerIo) (blob now : string) (home : PeerHome) :
    PeerHome * result unit PeerError :=
  trying signed := from_blob blob catch e => (home, Err (PeRevocationRejected "<unparseable blob>" e)) in
  trying keyring := load_keyring io home catch e => (home, Err e) in
  match apply_signed_revocation keyring signed now with
  | (_, Err e) => (home, Err (apply_error (sr_statement signed) e))
  | (keyring, Ok _) => save_keyring io keyring home
  end.

(** ** The dispatcher: [mod.rs], with what each command prints or emits

    [retire] and [revoke] parse the principal they are given. *)
Inductive PeerCommand :=
| CmdExport (as_principal : string)
| CmdImport (blob : string)
| CmdRotate (blob : string) (confirm : bool) (now : string)
| CmdRetire (principal id : string)
| CmdRevoke (principal id : string) (reason : option string) (now : string) (emit : option (option string))
| CmdImportRevocation (blob now : string).

Definition parse_named (principal : string) : result Principal PeerError :=
  map_err (fun e => PeMalformed ("invalid principal '" +:+ principal +:+ "': " +:+
    ParsePrincipalError_display e)) (Principal_from_str principal).

Definition silent (r : PeerHome * result unit PeerError) : PeerHome * option string * result unit PeerError :=
  (r.1, None, r.2).

Definition peer_run (io : PeerIo) (cmd : PeerCommand) (home : PeerHome) :
    PeerHome * option string * result unit PeerError :=
  match cmd with
  | CmdExport as_principal =>
      match export_run io as_principal home with
      | (home, Ok line) => (home, Some line, Ok tt)
      | (home, Err e) => (home, None, Err e)
      end
  | CmdImport blob => silent (import_run io blob home)
  | CmdRotate blob confirm now => silent (rotate_run io blob confirm now home)
  | CmdRetire principal id =>
      trying p := parse_named principal catch e => (home, None, Err e) in silent (retire_run io p id home)
  | CmdRevoke principal id reason now emit =>
      trying p := parse_named principal catch e => (home, default None emit, Err e) in
      revoke_run io p id reason now emit home
  | CmdImportRevocation blob now => silent (import_revocation_run io blob now home)
  end.

(** ** [peer_flag.rs] *)
Definition parse_peer_flag (raw : string) : result (Principal * TrustedVerifyingKey) KeyringError :=
  letsome (principal_str, pubkey_str) := split_at_char "="%char raw
    orelse Err (KInvalidPeerFlag ("expected 'agent:auth/name=<pubkey>', got: " +:+ raw)) in
  trying principal := Principal_from_str principal_str
    catch e => Err (KInvalidPeerFlag ("invalid principal '" +:+ principal_str +:+ "': " +:+
      ParsePrincipalError_display e)) in
  trying key := vk_from_b64url pubkey_str catch e => Err (KCrypto e) in
  Ok (principal, key).
End peer.
