(* ===== verification/PeerProps.v ===== *)
(** * What the peer commands show

    A loaded keyring file holds no key twice, so a command's file can be read
    back; from there: an exported line is the key it names, and which commands
    move a pin. *)

From Stdlib Require Import Strings.Byte Ascii.
From stdpp Require Import gmap strings list pretty.
From S2P Require Import Prelude Json Proto WireInstance Principal Crypto Fsm Core Derive Keyring.
From S2P Require Import KeyringProps KeyringFile PairPin Client Render Peer.

(** ** What loading a keyring file establishes *)
Section loaded.
Context `{CL : CryptoLib} `{CLW : !CryptoLaws}.

Definition covered (k : Keyring) (seen : list (bytes * Principal)) : Prop :=
  forall p e, e ∈ entries k p -> exists q, (as_bytes (ke_key e), q) ∈ seen.
Definition keys_once (k : Keyring) : Prop :=
  (forall p, distinct_keys (entries k p)) /\
  (forall p q e f, p <> q -> e ∈ entries k p -> f ∈ entries k q -> as_bytes (ke_key e) <> as_bytes (ke_key f)).

Lemma unseen (b : bytes) (seen : list (bytes * Principal)) :
  find_map (fun '(b', q) => if bool_decide (b' = b) then Some q else None) seen = None ->
  forall q, (b, q) ∉ seen.
Proof.
  rewrite find_map_None. intros H q Hin. specialize (H _ Hin). simpl in H. by rewrite bool_decide_true in H.
Qed.

Lemma keys_once_add k p e :
  keys_once k -> (forall q f, f ∈ entries k q -> as_bytes (ke_key f) <> as_bytes (ke_key e)) ->
  keys_once (<[p := entries k p ++ [e]]> k).
Proof.
  intros [Hd Ha] Hnew. split.
  - intros q. rewrite entries_insert. case_decide as E; [subst q|apply Hd].
    unfold distinct_keys. rewrite map_app. apply NoDup_app. split; [apply Hd|].
    split; [|apply NoDup_singleton]. intros b Hb Hin.
    apply list_elem_of_In, in_map_iff in Hb as (f & <- & Hf%list_elem_of_In).
    apply list_elem_of_singleton in Hin. by apply (Hnew p f).
  - intros q r f g Hqr. rewrite !entries_insert. repeat case_decide; subst; try done.
    + intros [Hf | ->%list_elem_of_singleton]%elem_of_app Hg; [by apply (Ha q r)|].
      intros Heq. by apply (Hnew r g).
    + intros Hf [Hg | ->%list_elem_of_singleton]%elem_of_app; [by apply (Ha q r)|by apply (Hnew q)].
    + by apply Ha.
Qed.

Lemma load_lines_once n lines k seen k' :
  keys_once k -> covered k seen -> load_lines n lines k seen = Ok k' -> keys_once k'.
Proof.
  revert n k seen. induction lines as [|line lines IH]; intros n k seen Hk Hs; simpl; [by intros [= <-]|].
  case_match; [by apply IH|].
  destruct (parse_line line n) as [[p e]|]; [|done]. case_match; [done|].
  destruct (find_map _ _) eqn:Ef; [by case_match|]. pose proof (unseen _ _ Ef) as Hun. apply IH.
  - apply keys_once_add; [done|]. intros q f Hf Heq.
    destruct (Hs q f Hf) as [r Hr]. apply (Hun r). by rewrite <- Heq.
  - intros q f. rewrite entries_insert. case_decide as E.
    + intros [Hf | ->%list_elem_of_singleton]%elem_of_app; [|exists p; left].
      destruct (Hs p f Hf) as [r Hr]. exists r. by right.
    + intros Hf. destruct (Hs q f Hf) as [r Hr]. exists r. by right.
Qed.

Lemma keys_once_empty : keys_once ∅.
Proof.
  assert (forall p, entries (∅ : Keyring) p = []) as He by (intros p; unfold entries; by rewrite lookup_empty).
  split; [intros p; rewrite He; constructor|]. intros p q e f _ Hin. rewrite He in Hin. by apply elem_of_nil in Hin.
Qed.

Lemma storable_of k : keyring_ok k -> entries_storable k -> keys_once k -> storable k.
Proof. by intros Hok Hs [Hd Ha]. Qed.

Lemma loaded_storable text k : load_from_file text = Ok k -> storable k.
Proof.
  intros H. destruct (load_from_file_ok text k H) as [Hok Hs].
  apply storable_of; [done..|]. eapply load_lines_once; [apply keys_once_empty| |exact H].
  intros p e He. unfold entries in He. rewrite lookup_empty in He. by apply elem_of_nil in He.
Qed.

Lemma empty_storable : storable ∅.
Proof.
  destruct (keyring_of_ok None ∅ eq_refl) as [Hok Hs]. apply storable_of; [done..|apply keys_once_empty].
Qed.

(** A saved keyring with a key in two places never loads again. *)
Lemma unloadable k :
  no_empty k -> entries_storable k -> ~ keys_once k ->
  exists e, load_from_file (save_to_file k) = Err e.
Proof.
  intros Hne Hs Hno. destruct (load_from_file (save_to_file k)) as [k'|e] eqn:El; [|by exists e].
  exfalso. apply Hno. pose proof (loaded_storable _ _ El) as [_ _ Hd Ha].
  apply load_saved in El as ->; [|done..]. split.
  - intros p. specialize (Hd p). unfold distinct_keys in *. by rewrite entries_sorted in Hd.
  - intros p q e f Hpq He Hf. apply (Ha p q); [done|by rewrite entries_sorted..].
Qed.
End loaded.

(** ** Keys on the road *)
Section travel.
Context `{CL : CryptoLib} `{CLW : !CryptoLaws}.

Lemma substring_nonempty n s : s <> EmptyString -> String.substring 0 (S n) s <> EmptyString.
Proof. by destruct s. Qed.

Lemma key_id_field vk : field (key_id vk).
Proof.
  unfold key_id. destruct (b64_field (sha256_digest (as_bytes vk))) as [Hne Hp].
  { intros E. pose proof (sha256_length (as_bytes vk)) as Hl. by rewrite E in Hl. }
  split; [by apply substring_nonempty|by apply string_forall_substring].
Qed.

Lemma split_ws_final fs : Forall field fs -> fs <> [] ->
  split_whitespace (String.concat " " fs +:+ String LF EmptyString) = fs.
Proof.
  unfold split_whitespace. intros Hf. induction Hf as [|w ws [Hne Hp] Hws IH]; [done|]. intros _.
  assert (Hflush : forall l, flush w l = w :: l).
  { intros l. unfold flush. by rewrite (proj2 (String.eqb_neq w EmptyString) Hne). }
  destruct ws as [|v ws].
  - simpl String.concat. rewrite split_ws_field by done. simpl. apply Hflush.
  - replace (String.concat " " (w :: v :: ws) +:+ String LF EmptyString) with
      (w +:+ String " " (String.concat " " (v :: ws) +:+ String LF EmptyString))
      by (change (String.concat " " (w :: v :: ws)) with (w +:+ String " " (String.concat " " (v :: ws)));
          by rewrite str_app_assoc).
    rewrite split_ws_field by done. change (EmptyString +:+ w) with w. cbn [split_ws].
    change (ws_len (String " " ?t)) with 1%nat. cbv iota. rewrite Hflush. f_equal. by apply IH.
Qed.

Lemma export_line_fields p vk :
  format_export_line p vk =
  String.concat " " [Principal_display p; vk_to_b64url vk; key_id vk] +:+ String LF EmptyString.
Proof. unfold format_export_line. simpl. by rewrite !str_app_assoc. Qed.

(** An export line is read back as it was written. *)
Theorem export_line_roundtrip p vk :
  principal_ok p -> key_ok vk -> parse_export_line (format_export_line p vk) = Ok (p, vk).
Proof.
  intros Hp [Hl Hv]. unfold parse_export_line. rewrite export_line_fields, split_ws_final.
  - rewrite (Principal_from_str_display p Hp), vk_b64url_roundtrip by done. done.
  - constructor; [by apply principal_field|]. constructor; [|constructor; [apply key_id_field|constructor]].
    apply b64_field. intros E. by rewrite E in Hl.
  - done.
Qed.
End travel.

(** ** Which commands move a pin *)
Section pins.
Context `{CL : CryptoLib} `{CLW : !CryptoLaws} `{WL : WireLib}.

Definition speaks (k : Keyring) (q : Principal) (key : TrustedVerifyingKey) : Prop :=
  exists e, e ∈ entries k q /\ ke_state e = KActive /\ ke_key e = key.

Lemma get_entries (k : Keyring) q : keyring_get k q = ke_key <$> find_entry (in_state KActive) (entries k q).
Proof. unfold keyring_get, entries. by destruct (k !! q). Qed.

Lemma get_speaks k q key : keyring_ok k -> keyring_get k q = Some key <-> speaks k q key.
Proof.
  intros [_ Hok]%keyring_ok_split. specialize (Hok q) as [Hle _]. rewrite get_entries.
  pose proof (find_active (entries k q) Hle) as Hf.
  destruct (find_entry _ _) as [e|]; simpl.
  - destruct Hf as (Hin & Hs & Hone). split; [intros [= <-]; by exists e|].
    intros (x & Hx & Hxs & <-). by rewrite (Hone x Hx Hxs).
  - split; [done|]. intros (x & Hx & Hxs & _). by apply Hf in Hxs.
Qed.

Lemma get_sorted k q : keyring_ok k -> keyring_ok (sort_by entry_key <$> k) ->
  keyring_get (sort_by entry_key <$> k) q = keyring_get k q.
Proof.
  intros Hk Hs. apply option_eq. intros key. rewrite !get_speaks by done. unfold speaks.
  by setoid_rewrite entries_sorted.
Qed.

(** What an operation that keeps the keys leaves storable. *)
Lemma keys_kept_storable k k1 :
  keyring_ok k1 -> entries_storable k ->
  (forall q e, e ∈ entries k1 q -> exists e0, e0 ∈ entries k q /\ ke_key e = ke_key e0) ->
  entries_storable k1.
Proof.
  intros Hok Hs Hkept q e He. destruct (Hkept q e He) as (e0 & He0 & Hk).
  destruct (Hs q e0 He0) as (Hq & Hl & Hv & _). split; [done|]. unfold entry_storable. rewrite Hk.
  split; [done|]. split; [done|]. apply keyring_ok_split in Hok as [_ Hc]. destruct (Hc q) as [_ Hall].
  rewrite Forall_forall in Hall. by apply Hall.
Qed.

Lemma op_ok k op : keyring_ok k -> keyring_ok (keyring_apply k op).1.
Proof. apply (keyring_run_ok k [op]). Qed.

(** *** Pinning *)
Lemma pin_cases k p vk k1 :
  pin_tofu k p vk = (k1, Ok tt) ->
  k1 = k \/ (k1 = <[p := entries k p ++ [legacy vk]]> k /\ actives (entries k p) = 0%nat).
Proof.
  unfold pin_tofu. intros H. destruct (k !! p) as [l|] eqn:E.
  - assert (entries k p = l) as Hl by (unfold entries; by rewrite E).
    destruct (has_revoked l vk); [done|].
    destruct (find_entry (in_state KActive) l) as [a|] eqn:Ea; [case_match; simplify_eq; by left|].
    injection H as <-. right. split; [done|]. rewrite Hl. apply actives_zero. intros e He Hs.
    apply (find_entry_none _ _ Ea) in He. apply in_state_true in Hs. congruence.
  - injection H as <-. right. split; [done|]. unfold entries. by rewrite E.
Qed.

Lemma entries_pinned k p vk q e :
  e ∈ entries (<[p := entries k p ++ [legacy vk]]> k) q <->
  e ∈ entries k q \/ (q = p /\ e = legacy vk).
Proof.
  rewrite entries_insert. case_decide as E.
  - subst q. rewrite elem_of_app, list_elem_of_singleton. naive_solver.
  - naive_solver.
Qed.

Lemma pin_storable k p vk k1 :
  keyring_ok k -> entries_storable k -> principal_ok p -> key_ok vk ->
  pin_tofu k p vk = (k1, Ok tt) -> keyring_ok k1 /\ entries_storable k1.
Proof.
  intros Hok Hs Hp [Hl Hv] H.
  assert (Hok1 : keyring_ok k1) by (pose proof (op_ok k (OpPin p vk) Hok) as Ho; simpl in Ho; by rewrite H in Ho).
  split; [done|]. apply pin_cases in H as [->|[-> _]]; [done|].
  intros q e [He|[-> ->]]%entries_pinned; [by apply Hs|]. split; [done|]. split; [done|]. split; [done|].
  intros v Hin. repeat (apply elem_of_cons in Hin as [->|Hin]; [done|]). by apply elem_of_nil in Hin.
Qed.

Lemma pin_get k p vk k1 q :
  keyring_ok k -> pin_tofu k p vk = (k1, Ok tt) ->
  keyring_get k1 q = keyring_get k q \/
  (q = p /\ keyring_get k q = None /\ keyring_get k1 q = Some vk).
Proof.
  intros Hok H.
  assert (Hok1 : keyring_ok k1) by (pose proof (op_ok k (OpPin p vk) Hok) as Ho; simpl in Ho; by rewrite H in Ho).
  apply pin_cases in H as [->|[-> Hz]]; [by left|].
  destruct (decide (q = p)) as [->|Hq]; [right|left; by rewrite !get_entries, entries_insert, decide_False].
  split; [done|]. split.
  - destruct (keyring_get k p) as [key|] eqn:E; [|done]. apply get_speaks in E as (e & He & Hs & _); [|done].
    by apply (proj1 (actives_zero _) Hz) in He.
  - apply get_speaks; [done|]. exists (legacy vk). split; [|done]. apply entries_pinned. by right.
Qed.

(** *** Rotation *)
Lemma rotate_get k p vk now c k1 out q :
  keyring_ok k -> rotate_to k p vk now None c = (k1, Ok out) ->
  keyring_get k1 q = keyring_get k q \/
  (q = p /\ (c = true \/ keyring_get k q = None) /\
   exists vk', as_bytes vk' = as_bytes vk /\ keyring_get k1 q = Some vk').
Proof.
  intros Hok H. destruct (rotate_ok _ _ _ _ _ _ _ Hok H) as (Hok1 & Hact & Hoth & Hfrom & Hconf).
  destruct (decide (q = p)) as [->|Hq]; [|left; by rewrite !get_entries, Hoth].
  destruct (keyring_get k1 p) as [key|] eqn:E1.
  - pose proof (proj1 (get_speaks k1 p key Hok1) E1) as (e & He & Hs & Hk).
    assert (Hb : as_bytes key = as_bytes vk) by (rewrite <- Hk; by apply Hact).
    destruct (keyring_get k p) as [old|] eqn:E0; [|right; split; [done|]; split; [by right|by exists key]].
    destruct c; [right; split; [done|]; split; [by left|by exists key]|]. left.
    apply get_speaks in E0 as (e0 & He0 & Hs0 & Hk0); [|done]. f_equal.
    pose proof (Hconf eq_refl e0 He0 Hs0) as Hb0. rewrite Hk0 in Hb0.
    destruct key, old. simpl in *. congruence.
  - left. destruct (keyring_get k p) as [old|] eqn:E0; [|done]. exfalso.
    unfold rotate_to in H. destruct (is_canonical_utc now); [|done]. simpl in H.
    destruct (has_revoked _ _); [done|].
    destruct (position (in_state KActive) (entries k p)) as [[i o]|] eqn:Ep.
    + destruct (bool_decide _); [injection H as <- _; congruence|]. destruct c; [|done]. injection H as <- _.
      rewrite get_entries, entries_insert, decide_True in E1 by done.
      destruct (find_entry _ _) eqn:Ef; [done|].
      pose proof (find_entry_none _ _ Ef (mkEntry vk KActive None (Some now) None)) as Hn.
      discriminate Hn. apply elem_of_app. right. by left.
    + injection H as <- _. rewrite get_entries, entries_insert, decide_True in E1 by done.
      destruct (find_entry _ _) eqn:Ef; [done|].
      pose proof (find_entry_none _ _ Ef (mkEntry vk KActive None (Some now) None)) as Hn.
      discriminate Hn. apply elem_of_app. right. by left.
Qed.

(** *** Retirement and revocation *)
Lemma retire_entries k p id k1 :
  retire k p id = (k1, Ok tt) ->
  forall q, (forall e, e ∈ entries k1 q -> e ∈ entries k q) /\
            (forall e, e ∈ entries k q -> ke_state e = KActive -> e ∈ entries k1 q).
Proof.
  unfold retire. destruct (k !! p) as [l|] eqn:E; [|done].
  assert (entries k p = l) as Hl by (unfold entries; by rewrite E).
  destruct (position (has_key_id id) l) as [[i old]|] eqn:Ep; [|done].
  destruct (ke_state old) eqn:Es; [done| |done]. intros H q.
  apply position_split in Ep as (l1 & l2 & El & -> & _ & _). rewrite El, delete_at_split in H.
  assert (Hk1 : entries k1 q = if decide (p = q) then l1 ++ l2 else entries k q).
  { destruct (l1 ++ l2) as [|x l'] eqn:Ell; injection H as <-; [|apply entries_insert].
    case_decide as Eq; unfold entries; [subst; by rewrite lookup_delete_eq|by rewrite lookup_delete_ne]. }
  rewrite Hk1. case_decide as Eq; [subst q|by split]. rewrite Hl, El. split.
  - intros e [He|He]%elem_of_app; apply elem_of_app; [by left|right; by right].
  - intros e [He|[->|He]%elem_of_cons]%elem_of_app Hs; [|congruence|]; apply elem_of_app; auto.
Qed.

Lemma retire_get k p id k1 q :
  keyring_ok k -> retire k p id = (k1, Ok tt) -> keyring_get k1 q = keyring_get k q.
Proof.
  intros Hok H.
  assert (Hok1 : keyring_ok k1) by (pose proof (op_ok k (OpRetire p id) Hok) as Ho; simpl in Ho; by rewrite H in Ho).
  apply option_eq. intros key. rewrite !get_speaks by done. destruct (retire_entries _ _ _ _ H q) as [Hin Hact].
  split; intros (e & He & Hs & Hk); exists e; (split; [|done]); [by apply Hin|by apply Hact].
Qed.

Lemma revoke_entries k p id now k1 :
  revoke k p id now = (k1, Ok tt) ->
  k1 = k \/ exists l1 old l2, entries k p = l1 ++ old :: l2 /\ key_id (ke_key old) = id /\
    k1 = <[p := l1 ++ restate KRevoked now old :: l2]> k.
Proof.
  unfold revoke. destruct (is_canonical_utc now); [|done]. simpl.
  destruct (k !! p) as [l|] eqn:E; [|done].
  assert (entries k p = l) as Hl by (unfold entries; by rewrite E).
  destruct (position (has_key_id id) l) as [[i old]|] eqn:Ep; [|done].
  destruct (in_state KRevoked old); intros [= <-]; [by left|right].
  apply position_split in Ep as (l1 & l2 & El & -> & Hid & _). apply String.eqb_eq in Hid.
  exists l1, old, l2. split_and!; [congruence|done|]. by rewrite El, insert_at_split.
Qed.

Lemma revoke_get k p id now k1 q :
  keyring_ok k -> revoke k p id now = (k1, Ok tt) ->
  keyring_get k1 q = keyring_get k q \/
  (q = p /\ keyring_get k1 q = None /\ exists key, keyring_get k q = Some key /\ key_id key = id).
Proof.
  intros Hok H.
  assert (Hok1 : keyring_ok k1) by (pose proof (op_ok k (OpRevoke p id now) Hok) as Ho; simpl in Ho; by rewrite H in Ho).
  apply revoke_entries in H as [->|(l1 & old & l2 & El & Hid & ->)]; [by left|].
  destruct (decide (q = p)) as [->|Hq]; [|left; by rewrite !get_entries, entries_insert, decide_False].
  destruct (decide (ke_state old = KActive)) as [Hs|Hs].
  - right. split; [done|]. split.
    + destruct (keyring_get _ p) as [key|] eqn:E; [|done]. exfalso.
      apply get_speaks in E as (e & He & Hse & _); [|done].
      rewrite entries_insert, decide_True in He by done.
      apply keyring_ok_split in Hok as [_ Hok]. specialize (Hok p) as [Hle _].
      rewrite El, actives_app, actives_cons, (proj2 (in_state_true _ _) Hs) in Hle.
      assert (Hz : actives (l1 ++ l2) = 0%nat) by (rewrite actives_app; lia).
      apply (proj1 (actives_zero _) Hz e); [|done].
      apply elem_of_app in He as [He|[->|He]%elem_of_cons]; [|done|]; apply elem_of_app; auto.
    + exists (ke_key old). split; [|done]. apply get_speaks; [done|]. exists old. split; [|done].
      rewrite El. apply elem_of_app. right. left.
  - left. apply option_eq. intros key. rewrite !get_speaks by done. unfold speaks.
    rewrite entries_insert, decide_True, El by done. setoid_rewrite elem_of_app. setoid_rewrite elem_of_cons.
    split; intros (e & [He|[->|He]] & Hse & Hk); try done; exists e; auto.
Qed.

Lemma revoke_storable k p id now k1 :
  keyring_ok k -> entries_storable k -> revoke k p id now = (k1, Ok tt) ->
  keyring_ok k1 /\ entries_storable k1.
Proof.
  intros Hok Hs H.
  assert (Hok1 : keyring_ok k1) by (pose proof (op_ok k (OpRevoke p id now) Hok) as Ho; simpl in Ho; by rewrite H in Ho).
  split; [done|]. eapply keys_kept_storable; [done|done|].
  apply revoke_entries in H as [->|(l1 & old & l2 & El & _ & ->)]; [by eauto|].
  intros q e. rewrite entries_insert. case_decide as E; [subst q|by eauto]. rewrite El.
  intros [He|[->|He]%elem_of_cons]%elem_of_app.
  - exists e. split; [|done]. apply elem_of_app. by left.
  - exists old. split; [|done]. apply elem_of_app. right. left.
  - exists e. split; [|done]. apply elem_of_app. right. by right.
Qed.

(** *** From the file and back to it *)
Definition whole_save (io : PeerIo) : Prop := forall n, po_keyring_save io <> SaveTorn n.

(** A command's new keyring, as the file holds it afterwards: the file is the
    old one or loads, when it loads, as exactly the new keyring. *)
Lemma saved_get io k1 home home' r k' q :
  whole_save io -> keyring_ok k1 -> entries_storable k1 -> save_keyring io k1 home = (home', r) ->
  keyring_of (ho_keyring home') = Ok k' ->
  ho_keyring home' = ho_keyring home \/ keyring_get k' q = keyring_get k1 q.
Proof.
  intros Hw Hok Hs. unfold save_keyring, save_text. destruct (po_keyring_save io) as [| |n] eqn:Ef.
  - intros [= <- <-]. simpl. intros Hl. right. destruct (load_from_file_ok _ _ Hl) as [Hok' _].
    apply load_saved in Hl as ->; [by apply get_sorted|by apply keyring_ok_split in Hok as [? _]|done].
  - intros [= <- <-] _. by left.
  - by destruct (Hw n).
Qed.

Lemma loaded_of io home k0 k :
  load_keyring io home = Ok k0 -> keyring_of (ho_keyring home) = Ok k -> k0 = k.
Proof.
  unfold load_keyring, keyring_of. destruct (ho_keyring home) as [text|]; [|done].
  destruct (po_keyring_readable io); [|done]. destruct (load_from_file text); [|done]. simpl. congruence.
Qed.

Lemma parse_export_line_ok line p vk : parse_export_line line = Ok (p, vk) -> principal_ok p /\ key_ok vk.
Proof.
  unfold parse_export_line. destruct (split_whitespace line) as [|a [|b rest]]; [done..|].
  destruct (Principal_from_str a) as [p'|] eqn:Hp; [|done].
  destruct (vk_from_b64url b) as [vk'|] eqn:Hv; [|done]. intros [= -> ->].
  split; [by apply Principal_from_str_sound in Hp as [_ ?]|by eapply vk_from_b64url_ok].
Qed.

Lemma export_keyring io as_ home : ho_keyring (export_run io as_ home).1 = ho_keyring home.
Proof.
  unfold export_run. destruct (resolve_export_principal _ _); [|done].
  unfold load_or_generate, save_text. repeat case_match; by simplify_eq.
Qed.

Lemma emit_keyring io s old home : ho_keyring (emit_statement io s old home).1.1 = ho_keyring home.
Proof.
  unfold emit_statement, load_or_generate, save_text. repeat case_match; by simplify_eq.
Qed.

(** The moves of one principal's pin that a command may make. *)
Inductive moves (cmd : PeerCommand) (k : Keyring) (q : Principal) (before after : option TrustedVerifyingKey) : Prop :=
| mv_pin blob vk :
    cmd = CmdImport blob \/ (exists c now, cmd = CmdRotate blob c now) ->
    parse_export_line blob = Ok (q, vk) -> before = None -> after = Some vk -> moves cmd k q before after
| mv_rotate blob now vk :
    cmd = CmdRotate blob true now -> parse_export_line blob = Ok (q, vk) -> after = Some vk ->
    moves cmd k q before after
| mv_revoke named id reason now emit key :
    cmd = CmdRevoke named id reason now emit -> Principal_from_str named = Ok q ->
    before = Some key -> key_id key = id -> after = None -> moves cmd k q before after
| mv_signed blob now signed key signer sig :
    cmd = CmdImportRevocation blob now -> from_blob blob = Ok signed ->
    Principal_from_str (rs_principal (sr_statement signed)) = Ok q ->
    before = Some key -> key_id key = rs_revoked_key_id (sr_statement signed) ->
    signer ∈ entries k q -> ke_state signer <> KRevoked -> sig_from_b64url (sr_sig signed) = Ok sig ->
    vouches (ke_key signer) (statement_to_value (sr_statement signed)) sig -> after = None ->
    moves cmd k q before after.

Section commands.
Variables (io : PeerIo) (home : PeerHome) (k k' : Keyring) (q : Principal).
Hypothesis Hw : whole_save io.
Hypothesis Hk : keyring_of (ho_keyring home) = Ok k.

Let unmoved (home' : PeerHome) : Prop :=
  keyring_of (ho_keyring home') = Ok k' -> keyring_get k' q = keyring_get k q.

Lemma same_file home' : ho_keyring home' = ho_keyring home -> unmoved home'.
Proof. intros Hh Hk'. rewrite Hh, Hk in Hk'. by injection Hk' as ->. Qed.

Lemma saved_move cmd k1 home' r :
  keyring_ok k1 -> entries_storable k1 -> save_keyring io k1 home = (home', r) ->
  keyring_get k1 q = keyring_get k q \/ moves cmd k q (keyring_get k q) (keyring_get k1 q) ->
  keyring_of (ho_keyring home') = Ok k' ->
  keyring_get k' q = keyring_get k q \/ moves cmd k q (keyring_get k q) (keyring_get k' q).
Proof.
  intros Hok Hs Hsave Hm Hk'.
  destruct (saved_get io k1 home home' r k' q Hw Hok Hs Hsave Hk') as [Hsame| ->]; [|done].
  left. by apply (same_file home').
Qed.

Lemma import_moves blob :
  keyring_of (ho_keyring (import_run io blob home).1) = Ok k' ->
  keyring_get k' q = keyring_get k q \/ moves (CmdImport blob) k q (keyring_get k q) (keyring_get k' q).
Proof.
  destruct (keyring_of_ok _ _ Hk) as [Hok Hs]. unfold import_run.
  destruct (parse_export_line blob) as [[p vk]|] eqn:Hp; [|left; by apply (same_file home)].
  destruct (if is_some (ho_keyring home) then _ else _) as [k0|] eqn:Hl; [|left; by apply (same_file home)].
  assert (k0 = k) as ->.
  { destruct (ho_keyring home) eqn:Eh; [by eapply loaded_of; [exact Hl|rewrite Eh]|].
    simpl in Hl, Hk. congruence. }
  destruct (pin_tofu k p vk) as [k1 [[]|e]] eqn:Hpin; [|left; by apply (same_file home)].
  destruct (po_mkdir io); [|left; by apply (same_file home)].
  destruct (parse_export_line_ok _ _ _ Hp) as [Hpo Hvk].
  destruct (pin_storable _ _ _ _ Hok Hs Hpo Hvk Hpin) as [Hok1 Hs1].
  destruct (save_keyring io k1 home) as [home' r] eqn:Hsave. cbn [fst].
  eapply (saved_move _ k1); [done|done|exact Hsave|].
  destruct (pin_get _ _ _ _ q Hok Hpin) as [?|(-> & Hn & Ha)]; [by left|right].
  eapply mv_pin; [by left|exact Hp|done|done].
Qed.

Lemma rotate_moves blob c now :
  keyring_of (ho_keyring (rotate_run io blob c now home).1) = Ok k' ->
  keyring_get k' q = keyring_get k q \/ moves (CmdRotate blob c now) k q (keyring_get k q) (keyring_get k' q).
Proof.
  destruct (keyring_of_ok _ _ Hk) as [Hok Hs]. unfold rotate_run.
  destruct (parse_export_line blob) as [[p vk]|] eqn:Hp; [|left; by apply (same_file home)].
  destruct (negb _); [left; by apply (same_file home)|].
  destruct (load_keyring io home) as [k0|] eqn:Hl; [|left; by apply (same_file home)].
  assert (k0 = k) as -> by (by eapply loaded_of).
  destruct (_ =? 0)%nat; [left; by apply (same_file home)|].
  destruct (rotate_to k p vk now None c) as [k1 [out|e]] eqn:Hrot; [|left; by apply (same_file home)].
  destruct (po_mkdir io); [|left; by apply (same_file home)].
  destruct (parse_export_line_ok _ _ _ Hp) as [Hpo Hvk].
  pose proof (rotate_storable _ _ _ _ _ _ _ Hok Hs Hpo Hvk Hrot) as Hs1.
  destruct (rotate_ok _ _ _ _ _ _ _ Hok Hrot) as [Hok1 _].
  destruct (save_keyring io k1 home) as [home' r] eqn:Hsave. cbn [fst].
  eapply (saved_move _ k1); [done|done|exact Hsave|].
  destruct (rotate_get _ _ _ _ _ _ _ q Hok Hrot) as [?|(-> & Hc & vk' & Hb & Ha)]; [by left|right].
  assert (vk' = vk) as -> by (destruct vk', vk; simpl in Hb; by subst).
  destruct Hc as [->|Hn]; [by eapply mv_rotate|]. eapply mv_pin; [right; by do 2 eexists|exact Hp|done|done].
Qed.

Lemma retire_moves p id :
  keyring_of (ho_keyring (retire_run io p id home).1) = Ok k' -> keyring_get k' q = keyring_get k q.
Proof.
  destruct (keyring_of_ok _ _ Hk) as [Hok Hs]. unfold retire_run.
  destruct (load_keyring io home) as [k0|] eqn:Hl; [|by apply (same_file home)].
  assert (k0 = k) as -> by (by eapply loaded_of).
  destruct (retire k p id) as [k1 [[]|e]] eqn:Hret; [|by apply (same_file home)].
  assert (Hok1 : keyring_ok k1) by (pose proof (op_ok k (OpRetire p id) Hok) as Ho; simpl in Ho; by rewrite Hret in Ho).
  assert (Hs1 : entries_storable k1).
  { eapply keys_kept_storable; [done|done|]. intros r e He. exists e. split; [|done].
    by apply (proj1 (retire_entries _ _ _ _ Hret r)). }
  destruct (save_keyring io k1 home) as [home' r] eqn:Hsave. cbn [fst]. intros Hk'.
  destruct (saved_get io k1 home home' r k' q Hw Hok1 Hs1 Hsave Hk') as [Hsame| ->].
  - by apply (same_file home').
  - by eapply retire_get.
Qed.

Lemma revoke_moves named p id reason now emit :
  Principal_from_str named = Ok p ->
  keyring_of (ho_keyring (revoke_run io p id reason now emit home).1.1) = Ok k' ->
  keyring_get k' q = keyring_get k q \/
  moves (CmdRevoke named id reason now emit) k q (keyring_get k q) (keyring_get k' q).
Proof.
  intros Hp. destruct (keyring_of_ok _ _ Hk) as [Hok Hs]. unfold revoke_run.
  destruct (load_keyring io home) as [k0|] eqn:Hl; [|left; by apply (same_file home)].
  assert (k0 = k) as -> by (by eapply loaded_of).
  destruct (revoke k p id now) as [k1 [[]|e]] eqn:Hrev; [|left; by apply (same_file home)].
  destruct (revoke_storable _ _ _ _ _ Hok Hs Hrev) as [Hok1 Hs1].
  destruct (save_keyring io k1 home) as [home1 r] eqn:Hsave.
  assert (Hfile : forall home', ho_keyring home' = ho_keyring home1 ->
    keyring_of (ho_keyring home') = Ok k' -> keyring_get k' q = keyring_get k q \/
    moves (CmdRevoke named id reason now emit) k q (keyring_get k q) (keyring_get k' q)).
  { intros home' Hh Hk'. rewrite Hh in Hk'. eapply (saved_move _ k1); [done|done|exact Hsave| |exact Hk'].
    destruct (revoke_get _ _ _ _ _ q Hok Hrev) as [?|(-> & Hn & key & Hkey & Hid)]; [by left|right].
    by eapply mv_revoke. }
  destruct r as [[]|]; [|by apply Hfile].
  destruct emit as [old|]; [|by apply Hfile]. apply Hfile, emit_keyring.
Qed.

Lemma signed_moves blob now :
  keyring_of (ho_keyring (import_revocation_run io blob now home).1) = Ok k' ->
  keyring_get k' q = keyring_get k q \/
  moves (CmdImportRevocation blob now) k q (keyring_get k q) (keyring_get k' q).
Proof.
  destruct (keyring_of_ok _ _ Hk) as [Hok Hs]. unfold import_revocation_run.
  destruct (from_blob blob) as [signed|] eqn:Hb; [|left; by apply (same_file home)].
  destruct (load_keyring io home) as [k0|] eqn:Hl; [|left; by apply (same_file home)].
  assert (k0 = k) as -> by (by eapply loaded_of).
  destruct (apply_signed_revocation k signed now) as [k1 [[]|e]] eqn:Hap; [|left; by apply (same_file home)].
  destruct (signed_revocation_is_authorized _ _ _ _ Hap) as
    (p & signer & sig & Hp & Hrev & Hin & Hst & _ & Hsig & Hv).
  destruct (revoke_storable _ _ _ _ _ Hok Hs Hrev) as [Hok1 Hs1].
  destruct (save_keyring io k1 home) as [home' r] eqn:Hsave. cbn [fst].
  eapply (saved_move _ k1); [done|done|exact Hsave|].
  destruct (revoke_get _ _ _ _ _ q Hok Hrev) as [?|(-> & Hn & key & Hkey & Hid)]; [by left|right].
  by eapply mv_signed.
Qed.
End commands.
End pins.

(** C30. A pin moves only as commanded: whatever peer command is run and whatever
    the operating system fails, short of breaking off a write, if the keyring
    file loads before and after, the key each principal is pinned to is the same
    as before unless the command is an import or rotation of a blob for that
    principal, which then had no key, a confirmed rotation to exactly the blob's
    key, a local revocation of exactly that key, or a signed revocation of
    exactly that key vouched for by an unrevoked key of the principal. *)
Theorem pins_move_only_as_commanded `{CryptoLaws} `{WireLib} io cmd home k k' q :
  whole_save io -> keyring_of (ho_keyring home) = Ok k ->
  keyring_of (ho_keyring (peer_run io cmd home).1.1) = Ok k' ->
  keyring_get k' q = keyring_get k q \/ moves cmd k q (keyring_get k q) (keyring_get k' q).
Proof.
  intros Hw Hk. destruct cmd as [as_|blob|blob c now|named id|named id reason now emit|blob now]; cbn [peer_run].
  - pose proof (export_keyring io as_ home) as He. destruct (export_run io as_ home) as [home' [line|e]];
      simpl in *; intros Hk'; left; by apply (same_file home k k' q Hk home').
  - by apply import_moves.
  - by apply rotate_moves.
  - unfold parse_named, map_err. destruct (Principal_from_str named) as [p|]; [|left; by apply (same_file home k k' q Hk home)].
    intros Hk'. left. exact (retire_moves io home k k' q Hw Hk p id Hk').
  - unfold parse_named, map_err. destruct (Principal_from_str named) as [p|] eqn:Hp; [|left; by apply (same_file home k k' q Hk home)].
    by apply revoke_moves.
  - by apply signed_moves.
Qed.

(** A machine whose files can be read and written, with a keyring to import into. *)
Definition calm_io : PeerIo := mkPeerIo true true SaveDone true true SaveDone (mkSigningKey (replicate 32 x05)) SaveDone true.
Definition demo_home : PeerHome := mkPeerHome (Some (save_to_file demo_rotated)) None (Some "a.test") TfMissing.
Definition other_peer : Principal := mkPrincipal "c.test" "carol".
Definition other_blob : string := format_export_line other_peer (demo_key x03).

Lemma pins_move_only_as_commanded_witness :
  exists k', load_from_file (default EmptyString
      (ho_keyring (peer_run calm_io (CmdImport other_blob) demo_home).1.1)) = Ok k' /\
    keyring_get k' other_peer = Some (demo_key x03) /\
    moves (CmdImport other_blob) (sort_by entry_key <$> demo_rotated) other_peer None (Some (demo_key x03)).
Proof.
  assert (Hk : keyring_of (ho_keyring demo_home) = Ok (sort_by entry_key <$> demo_rotated))
    by exact (save_load demo_rotated demo_storable).
  destruct (load_from_file (default EmptyString
      (ho_keyring (peer_run calm_io (CmdImport other_blob) demo_home).1.1))) as [k'|] eqn:E.
  2:{ exfalso. vm_compute in E. discriminate E. }
  assert (Hk' : keyring_of (ho_keyring (peer_run calm_io (CmdImport other_blob) demo_home).1.1) = Ok k').
  { destruct (ho_keyring (peer_run calm_io (CmdImport other_blob) demo_home).1.1) as [t|] eqn:Et; [exact E|].
    exfalso. vm_compute in Et. discriminate Et. }
  assert (Hb : keyring_get (sort_by entry_key <$> demo_rotated) other_peer = None) by (vm_compute; reflexivity).
  assert (Ha : keyring_get k' other_peer = Some (demo_key x03)).
  { apply (f_equal (fun r => match r with Ok k => keyring_get k other_peer | Err _ => None end)) in E.
    vm_compute in E. symmetry. exact E. }
  pose proof (pins_move_only_as_commanded calm_io (CmdImport other_blob) demo_home _ k' other_peer
    ltac:(intros n; discriminate) Hk Hk') as H.
  rewrite Hb, Ha in H. exists k'. split; [reflexivity|]. split; [exact Ha|].
  destruct H as [H|H]; [discriminate H|exact H].
Defined.
