(* ===== verification/PeerTrust.v ===== *)
(** * Trust between machines, and what breaks it

    Two machines meet by [famp peer export] and [famp peer import], one tells the
    other of a lost key by [famp peer revoke --emit] and [famp peer
    import-revocation]; a shared key and a broken-off save are what their
    keyring files do not survive. *)

From Stdlib Require Import Strings.Byte Ascii.
From stdpp Require Import gmap strings list pretty.
From S2P Require Import Prelude Json Proto WireInstance Principal Crypto Fsm Core Derive Keyring.
From S2P Require Import KeyringProps KeyringFile PairPin Client Render Peer PeerProps.

(** ** Trust between two machines *)
Section bootstrap.
Context `{CL : CryptoLib} `{CLW : !CryptoLaws} `{WL : WireLib}.

Lemma plain_trim_start s : string_forall plain s = true -> trim_start s = s.
Proof.
  destruct s as [|c s]; [done|]. intros [Hc _]%andb_true_iff.
  unfold trim_start. cbn [trim_ws]. by rewrite plain_ws.
Qed.

Lemma plain_trim s : string_forall plain s = true -> trim s = s.
Proof.
  intros Hs. unfold trim. rewrite plain_trim_start by done. revert Hs.
  induction s as [|c s IH]; [done|]. intros Hp. cbn [trim_end]. rewrite plain_trim_start by done.
  simpl. f_equal. apply IH. by apply andb_true_iff in Hp as [_ ?].
Qed.

Lemma sk_text_roundtrip sk : length (sk_seed sk) = 32%nat -> sk_from_b64url (trim (sk_to_b64url sk)) = Ok sk.
Proof.
  intros Hl. unfold sk_to_b64url, sk_from_b64url. rewrite plain_trim.
  - rewrite b64url_roundtrip, Hl. by destruct sk.
  - apply b64_field. intros E. by rewrite E in Hl.
Qed.

Lemma exported_ok home as_ p : resolve_export_principal home as_ = Ok p -> principal_ok p.
Proof.
  unfold resolve_export_principal, map_err. intros H.
  repeat case_match; simplify_eq;
    match goal with Hp : Principal_from_str _ = Ok ?x |- principal_ok ?x =>
      by apply Principal_from_str_sound in Hp as [_ ?] end.
Qed.

(** The machine's key, once loaded or made, is the same at every later call. *)
Lemma identity_stable io home home' sk :
  length (sk_seed (po_generated io)) = 32%nat -> load_or_generate io home = (home', Ok sk) ->
  forall io', po_identity_readable io' = true -> load_or_generate io' home' = (home', Ok sk).
Proof.
  intros Hl. unfold load_or_generate at 1. destruct (ho_identity home) as [text|] eqn:Ei.
  - destruct (po_identity_readable io); [|done]. simpl. intros H io' Hr. injection H as <- Hs.
    unfold load_or_generate. by rewrite Ei, Hr, Hs.
  - destruct (po_identity_mkdir io); [|done]. simpl. unfold save_text.
    destruct (po_identity_save io); intros [= <- <-] io' Hr.
    unfold load_or_generate. cbn [with_identity ho_identity]. rewrite Hr. cbn [negb].
    by rewrite sk_text_roundtrip.
Qed.

(** Importing a fresh key for a fresh principal. *)
Lemma import_fresh io home k blob p vk :
  keyring_of (ho_keyring home) = Ok k -> parse_export_line blob = Ok (p, vk) -> entries k p = [] ->
  po_keyring_readable io = true -> po_mkdir io = true -> po_keyring_save io = SaveDone ->
  import_run io blob home =
    (with_keyring (Some (save_to_file (<[p := [legacy vk]]> k))) home, Ok tt).
Proof.
  intros Hk Hp He Hr Hm Hs. unfold import_run. rewrite Hp.
  assert ((if is_some (ho_keyring home) then load_keyring io home else Ok ∅) = Ok k) as ->.
  { unfold load_keyring. destruct (ho_keyring home) as [text|]; simpl in *; [|congruence]. by rewrite Hr, Hk. }
  assert (pin_tofu k p vk = (<[p := [legacy vk]]> k, Ok tt)) as ->.
  { unfold pin_tofu. rewrite He. destruct (k !! p) as [l|] eqn:E; [|done].
    assert (l = []) as -> by (unfold entries in He; by rewrite E in He). done. }
  unfold save_keyring, save_text. by rewrite Hm, Hs.
Qed.

Lemma with_keyring_of home t : keyring_of (ho_keyring (with_keyring t home)) = keyring_of t.
Proof. done. Qed.

Lemma loaded_of_file io home : po_keyring_readable io = true -> is_some (ho_keyring home) = true ->
  load_keyring io home = map_err PeGeneric (keyring_of (ho_keyring home)).
Proof. intros Hr. unfold load_keyring. destruct (ho_keyring home); [|done]. by rewrite Hr. Qed.

Lemma keyring_of_storable kfile k : keyring_of kfile = Ok k -> storable k.
Proof.
  destruct kfile as [text|]; simpl; [apply loaded_storable|]. intros [= <-]. apply empty_storable.
Qed.

Lemma fresh_storable k p vk :
  storable k -> principal_ok p -> key_ok vk -> entries k p = [] ->
  (forall q e, e ∈ entries k q -> as_bytes (ke_key e) <> as_bytes vk) ->
  storable (<[p := [legacy vk]]> k).
Proof.
  intros [Hok Hs Hd Ha] Hp Hvk He Hnew.
  assert (Hpin : pin_tofu k p vk = (<[p := [legacy vk]]> k, Ok tt)).
  { unfold pin_tofu. rewrite He. destruct (k !! p) as [l|] eqn:E; [|done].
    assert (l = []) as -> by (unfold entries in He; by rewrite E in He). done. }
  destruct (pin_storable _ _ _ _ Hok Hs Hp Hvk Hpin) as [Hok1 Hs1]. apply storable_of; [done..|].
  replace [legacy vk] with (entries k p ++ [legacy vk]) by (by rewrite He). by apply keys_once_add.
Qed.
End bootstrap.

(** C28. Trust is bootstrapped by carrying one line: what [famp peer export] prints
    on one machine names the resolved principal and the machine's one signing
    key, which every later load returns again; [famp peer import] of that line
    on another machine, where neither the principal nor the key is known, leaves
    a keyring file that loads, in which exactly that key is usable for that
    principal and every other principal is as before. *)
Theorem trust_bootstrap `{CryptoLaws} `{WireLib} ioA ioB as_ homeA homeA' line homeB k now :
  length (sk_seed (po_generated ioA)) = 32%nat ->
  export_run ioA as_ homeA = (homeA', Ok line) ->
  keyring_of (ho_keyring homeB) = Ok k ->
  po_keyring_readable ioB = true -> po_mkdir ioB = true -> po_keyring_save ioB = SaveDone ->
  is_canonical_utc now = true ->
  exists p sk, resolve_export_principal homeA as_ = Ok p /\
    (forall io, po_identity_readable io = true -> load_or_generate io homeA' = (homeA', Ok sk)) /\
    (key_ok (verifying_key sk) -> entries k p = [] ->
     (forall q e, e ∈ entries k q -> as_bytes (ke_key e) <> as_bytes (verifying_key sk)) ->
     exists homeB' k', import_run ioB line homeB = (homeB', Ok tt) /\ load_keyring ioB homeB' = Ok k' /\
       active_key k' p now = LkActive (verifying_key sk) /\
       forall q, q <> p -> entries k' q ≡ₚ entries k q).
Proof.
  intros Hseed Hexp Hk Hr Hm Hs Hnow. unfold export_run in Hexp.
  destruct (resolve_export_principal homeA as_) as [p|] eqn:Hres; [|done].
  pose proof (exported_ok _ _ _ Hres) as Hp.
  destruct (load_or_generate ioA homeA) as [h [sk|]] eqn:Hsk; [|done].
  destruct (po_stdout ioA); [|done]. injection Hexp as <- <-.
  exists p, sk. split; [done|]. split; [by eapply identity_stable|]. intros Hvk He Hnew.
  pose proof (fresh_storable _ _ _ (keyring_of_storable _ _ Hk) Hp Hvk He Hnew) as Hst.
  pose proof (save_load _ Hst) as Hload.
  eexists _, _. split; [eapply import_fresh; [exact Hk|by apply export_line_roundtrip|done..]|].
  split; [rewrite loaded_of_file, with_keyring_of by done; simpl; by rewrite Hload|]. split.
  - unfold active_key. rewrite Hnow, lookup_fmap, lookup_insert_eq. done.
  - intros q Hq. rewrite entries_sorted, entries_insert, decide_False by done. done.
Qed.

Definition sender_home : PeerHome := mkPeerHome None None (Some "c.test") TfMissing.

Lemma trust_bootstrap_witness :
  exists homeA' line homeB' k' sk,
    export_run calm_io "carol" sender_home = (homeA', Ok line) /\
    import_run calm_io line demo_home = (homeB', Ok tt) /\ load_keyring calm_io homeB' = Ok k' /\
    active_key k' other_peer (demo_now "5") = LkActive (verifying_key sk).
Proof.
  assert (Hk : keyring_of (ho_keyring demo_home) = Ok (sort_by entry_key <$> demo_rotated))
    by exact (save_load demo_rotated demo_storable).
  destruct (export_run calm_io "carol" sender_home) as [homeA' [line|]] eqn:Hexp.
  2:{ exfalso. vm_compute in Hexp. discriminate Hexp. }
  destruct (trust_bootstrap calm_io calm_io "carol" sender_home homeA' line demo_home _ (demo_now "5")
    eq_refl Hexp Hk eq_refl eq_refl eq_refl eq_refl) as (p & sk & Hp & Hsk & Himp).
  assert (Hpe : p = other_peer) by (vm_compute in Hp; injection Hp as <-; reflexivity). subst p.
  assert (Hs : sk = mkSigningKey (replicate 32 x05)).
  { specialize (Hsk calm_io eq_refl). vm_compute in Hexp. injection Hexp as <- _. vm_compute in Hsk.
    injection Hsk as <-. reflexivity. }
  subst sk. destruct Himp as (homeB' & k' & Hi & Hl & Ha & _).
  - split; vm_compute; reflexivity.
  - vm_compute. reflexivity.
  - intros q e He. destruct (decide (q = demo_peer)) as [->|Hq].
    + revert e He. apply Forall_forall. apply (bool_decide_unpack _). vm_compute. exact I.
    + exfalso. unfold entries in He. rewrite lookup_fmap in He.
      assert (demo_rotated !! q = None) as E.
      { destruct (demo_rotated !! q) as [l|] eqn:E; [|done]. exfalso. apply Hq.
        assert (dom demo_rotated = {[demo_peer]}) as Hdom by (apply (bool_decide_eq_true_1 _); vm_compute; reflexivity).
        apply elem_of_dom_2 in E. rewrite Hdom in E. by apply elem_of_singleton in E. }
      rewrite E in He. by apply elem_of_nil in He.
  - exists homeA', line, homeB', k', (mkSigningKey (replicate 32 x05)). split; [reflexivity|].
    split; [exact Hi|]. split; [exact Hl|exact Ha].
Defined.

(** ** A shared key breaks the file *)

(** Finding: importing a key that is already pinned to another principal, as
    two agents of one gateway have, reports success and leaves a keyring file
    that never loads again, so every later peer command that reads it fails and
    so does the gateway's start. *)
Theorem import_breaks_the_keyring `{CryptoLaws} `{WireLib} io home k blob p vk q e :
  keyring_of (ho_keyring home) = Ok k -> parse_export_line blob = Ok (p, vk) -> entries k p = [] ->
  e ∈ entries k q -> as_bytes (ke_key e) = as_bytes vk ->
  po_keyring_readable io = true -> po_mkdir io = true -> po_keyring_save io = SaveDone ->
  exists home', import_run io blob home = (home', Ok tt) /\
    (exists err, keyring_of (ho_keyring home') = Err err) /\
    forall io', exists err, load_keyring io' home' = Err err.
Proof.
  intros Hk Hp He Hin Hb Hr Hm Hs. eexists. split; [by eapply import_fresh|].
  destruct (keyring_of_storable _ _ Hk) as [Hok Hst _ _]. destruct (parse_export_line_ok _ _ _ Hp) as [Hpo Hvk].
  assert (Hpin : pin_tofu k p vk = (<[p := [legacy vk]]> k, Ok tt)).
  { unfold pin_tofu. rewrite He. destruct (k !! p) as [l|] eqn:E; [|done].
    assert (l = []) as -> by (unfold entries in He; by rewrite E in He). done. }
  destruct (pin_storable _ _ _ _ Hok Hst Hpo Hvk Hpin) as [Hok1 Hst1].
  assert (Hpq : p <> q) by (intros ->; rewrite He in Hin; by apply elem_of_nil in Hin).
  destruct (unloadable (<[p := [legacy vk]]> k)) as [err Herr].
  - by apply keyring_ok_split in Hok1 as [? _].
  - done.
  - intros [_ Ha]. apply (Ha p q (legacy vk) e Hpq); [| |done].
    + rewrite entries_insert, decide_True by done. left.
    + by rewrite entries_insert, decide_False.
  - split; [by exists err|]. intros io'. unfold load_keyring. cbn [with_keyring ho_keyring]. rewrite Herr.
    destruct (po_keyring_readable io'); by eexists.
Qed.

(** Bob shares alice's machine, hence her gateway's key. *)
Lemma import_breaks_the_keyring_witness :
  let blob := format_export_line other_peer (demo_key x02) in
  exists home', import_run calm_io blob demo_home = (home', Ok tt) /\
    (exists err, keyring_of (ho_keyring home') = Err err) /\
    forall io', exists err, load_keyring io' home' = Err err.
Proof.
  intros blob.
  apply (import_breaks_the_keyring calm_io demo_home (sort_by entry_key <$> demo_rotated) blob other_peer (demo_key x02)
    demo_peer (mkEntry (demo_key x02) KActive None (Some (demo_now "1")) None)).
  - exact (save_load demo_rotated demo_storable).
  - vm_compute. reflexivity.
  - vm_compute. reflexivity.
  - apply (bool_decide_unpack _). vm_compute. exact I.
  - reflexivity.
  - reflexivity.
  - reflexivity.
  - reflexivity.
Qed.

(** ** A revocation that crosses machines *)
Section crossing.
Context `{CL : CryptoLib} `{CLW : !CryptoLaws} `{WL : WireLib} `{WLW : !WireLaws}.

Lemma statement_decodes s : d_statement (statement_to_value s) = Ok s.
Proof.
  destruct s as [pr id at_ reason]. unfold d_statement, statement_to_value.
  edestruct (struct_fields_json statement_specs) as (m & -> & Hget).
  2: unfold required, optional; rewrite !Hget; by destruct reason.
  repeat constructor; by destruct reason.
Qed.

Lemma signed_decodes s : d_signed_revocation (signed_to_value s) = Ok s.
Proof.
  destruct s as [st sig]. unfold d_signed_revocation, signed_to_value.
  edestruct (struct_fields_json signed_revocation_specs) as (m & -> & Hget).
  2: unfold required; rewrite !Hget; cbn -[d_statement]; by rewrite statement_decodes.
  constructor; [|constructor; [done|constructor]]. cbn -[d_statement]. unfold fault. by rewrite statement_decodes.
Qed.

Lemma statement_wf s : json_wf (statement_to_value s) = true.
Proof. apply wf_at_json_obj; [done|]. destruct s as [? ? ? []]; by repeat constructor. Qed.

Lemma signed_wf s : json_wf (signed_to_value s) = true.
Proof. apply wf_at_json_obj; [done|]. constructor; [|by repeat constructor]. destruct s as [[? ? ? []] ?]; reflexivity. Qed.

(** A statement survives its text. *)
Lemma blob_roundtrip s blob : to_blob s = Ok blob -> from_blob blob = Ok s.
Proof.
  unfold to_blob, from_blob. destruct (to_vec (signed_to_value s)) as [b|] eqn:Hb; [|done]. intros [= <-].
  rewrite String.list_byte_of_string_of_list_byte, (to_vec_parse_strict _ _ (signed_wf s) Hb).
  by rewrite signed_decodes.
Qed.

Definition entry_bytes (e : KeyEntry) : bytes := as_bytes (ke_key e).

Lemma revoke_keys k p id now k1 q :
  revoke k p id now = (k1, Ok tt) -> map entry_bytes (entries k1 q) = map entry_bytes (entries k q).
Proof.
  intros [->|(l1 & old & l2 & El & _ & ->)]%revoke_entries; [done|].
  rewrite entries_insert. case_decide as E; [subst q|done]. by rewrite El, !map_app.
Qed.

Lemma keys_once_keys k k1 :
  (forall q, map entry_bytes (entries k1 q) = map entry_bytes (entries k q)) -> keys_once k -> keys_once k1.
Proof.
  intros Hm [Hd Ha]. split.
  - intros q. specialize (Hd q). unfold distinct_keys in *. change (fun e => as_bytes (ke_key e)) with entry_bytes in *.
    by rewrite Hm.
  - assert (Hin : forall q e, e ∈ entries k1 q -> exists e', e' ∈ entries k q /\ entry_bytes e' = entry_bytes e).
    { intros q e He. assert (entry_bytes e ∈ map entry_bytes (entries k q)) as Hb.
      { rewrite <- Hm. apply list_elem_of_In, in_map_iff. exists e. by rewrite <- list_elem_of_In. }
      apply list_elem_of_In, in_map_iff in Hb as (e' & Heq & He'%list_elem_of_In). by exists e'. }
    intros q r e f Hqr He Hf. apply Hin in He as (e' & He' & Ee), Hf as (f' & Hf' & Ef).
    unfold entry_bytes in Ee, Ef. rewrite <- Ee, <- Ef. by apply (Ha q r).
Qed.

Lemma revoke_ok k p key id now e :
  is_canonical_utc now = true -> e ∈ entries k p -> ke_key e = key -> key_id key = id ->
  exists k1, revoke k p id now = (k1, Ok tt).
Proof.
  intros Hn He Hk Hid. unfold revoke. rewrite Hn. simpl. unfold entries in He.
  destruct (k !! p) as [l|]; [|by apply elem_of_nil in He]. simpl in He.
  destruct (position (has_key_id id) l) as [[i old]|] eqn:Ep; [destruct (in_state KRevoked old); by eexists|].
  pose proof (position_none _ _ Ep e He) as Hf. unfold has_key_id in Hf. rewrite Hk, Hid, String.eqb_refl in Hf. done.
Qed.

(** The named key's own owner may revoke it. *)
Lemma self_revocation_applies k p sk s signed now :
  keyring_ok k -> keyring_get k p = Some (verifying_key sk) ->
  rs_principal s = Principal_display p -> principal_ok p ->
  rs_revoked_key_id s = key_id (verifying_key sk) -> is_canonical_utc (rs_revoked_at s) = true ->
  statement_sign s sk = Ok signed -> is_canonical_utc now = true ->
  apply_signed_revocation k signed now = revoke k p (rs_revoked_key_id s) (rs_revoked_at s).
Proof.
  intros Hok Hget Hpr Hp Hid Hat Hsign Hnow.
  apply get_speaks in Hget as (e & He & Hs & Hk); [|done].
  unfold statement_sign in Hsign. destruct (sign_value sk (statement_to_value s)) as [sig|] eqn:Hsig; [|done].
  injection Hsign as <-. unfold apply_signed_revocation. cbn [sr_statement sr_sig].
  rewrite Hnow, Hat, Hpr, (Principal_from_str_display p Hp). cbn [negb].
  destruct (length (entries k p) =? 0)%nat eqn:El.
  { apply Nat.eqb_eq, nil_length_inv in El. rewrite El in He. by apply elem_of_nil in He. }
  assert (Hhas : has_key_id (rs_revoked_key_id s) e = true).
  { unfold has_key_id. rewrite Hk, Hid. apply String.eqb_refl. }
  rewrite (proj2 (iter_any_true _ _)) by (by exists e). cbn [negb].
  assert (Hc : verifying_key sk ∈ authorized_signer_for k p (rs_revoked_key_id s)).
  { unfold authorized_signer_for. rewrite <- Hk. apply list_elem_of_In, in_map_iff. exists e. split; [done|].
    apply filter_In. split; [by apply list_elem_of_In|].
    rewrite (in_state_other KRevoked e), (proj2 (in_state_true KActive e) Hs) by congruence. done. }
  destruct (length (authorized_signer_for k p _) =? 0)%nat eqn:Ec.
  { apply Nat.eqb_eq, nil_length_inv in Ec. rewrite Ec in Hc. by apply elem_of_nil in Hc. }
  rewrite (sign_value_b64url _ _ _ Hsig).
  rewrite (proj2 (iter_any_true _ _)); [done|]. exists (verifying_key sk). split; [done|].
  by rewrite (sign_verify _ _ _ Hsig).
Qed.

Lemma revoked_forever k p sk now k1 :
  storable k -> keyring_get k p = Some (verifying_key sk) ->
  (forall e, e ∈ entries k p -> key_id (ke_key e) = key_id (verifying_key sk) -> ke_key e = verifying_key sk) ->
  revoke k p (key_id (verifying_key sk)) now = (k1, Ok tt) ->
  storable k1 /\ forall ops t, active_key (keyring_run (sort_by entry_key <$> k1) ops) p t <> LkActive (verifying_key sk).
Proof.
  intros [Hok Hs Hd Ha] Hget Honly Hrev. destruct (revoke_storable _ _ _ _ _ Hok Hs Hrev) as [Hok1 Hs1]. split.
  - apply storable_of; [done..|]. apply (keys_once_keys k); [by intros q; eapply revoke_keys|by split].
  - intros ops t. apply dead_not_active, keyring_run_dead.
    destruct (revoke_kills _ _ _ _ _ (Hd p) Hrev) as (key & Hid & Hdead).
    assert (key = verifying_key sk) as ->.
    { destruct Hdead as [(r & Hr & _ & Hrk) _].
      assert (Hb : entry_bytes r ∈ map entry_bytes (entries k p)).
      { rewrite <- (revoke_keys _ _ _ _ _ p Hrev). apply list_elem_of_In, in_map, list_elem_of_In, Hr. }
      apply list_elem_of_In, in_map_iff in Hb as (e & He & Hin%list_elem_of_In).
      assert (Hke : ke_key e = key).
      { unfold entry_bytes in He. rewrite Hrk in He. destruct (ke_key e), key. simpl in He. by subst. }
      rewrite <- Hke. apply Honly; [done|]. by rewrite Hke. }
    destruct Hdead as [(r & Hr & Hrs & Hrk) Hact]. split.
    + exists r. by rewrite entries_sorted.
    + intros e. rewrite entries_sorted. apply Hact.
Qed.
End crossing.

(** C29. A revocation crosses machines: the statement that [famp peer revoke --emit]
    writes on one machine, carried to a peer that has the machine's own key
    pinned for that principal and no other key of that fingerprint, is accepted
    there by [famp peer import-revocation]; the peer's file loads, and no later
    sequence of keyring operations makes the key usable for the principal
    again. *)
Theorem revocation_crosses_machines `{CryptoLaws} `{WireLaws} ioA p id reason now old homeA homeA' blob :
  length (sk_seed (po_generated ioA)) = 32%nat -> principal_ok p ->
  revoke_run ioA p id reason now (Some old) homeA = (homeA', Some blob, Ok tt) ->
  exists sk, (forall io, po_identity_readable io = true -> load_or_generate io homeA' = (homeA', Ok sk)) /\
    forall ioB homeB k nowB, id = key_id (verifying_key sk) ->
      po_keyring_readable ioB = true -> po_keyring_save ioB = SaveDone -> is_some (ho_keyring homeB) = true ->
      keyring_of (ho_keyring homeB) = Ok k -> keyring_get k p = Some (verifying_key sk) ->
      (forall e, e ∈ entries k p -> key_id (ke_key e) = id -> ke_key e = verifying_key sk) ->
      is_canonical_utc nowB = true ->
      exists homeB' k', import_revocation_run ioB blob nowB homeB = (homeB', Ok tt) /\
        load_keyring ioB homeB' = Ok k' /\
        forall ops t, active_key (keyring_run k' ops) p t <> LkActive (verifying_key sk).
Proof.
  intros Hseed Hp. unfold revoke_run. destruct (load_keyring ioA homeA) as [kA|]; [|done].
  destruct (revoke kA p id now) as [kA1 [[]|]] eqn:HrevA; [|done].
  assert (Hat : is_canonical_utc now = true) by (unfold revoke in HrevA; by destruct (is_canonical_utc now)).
  destruct (save_keyring ioA kA1 homeA) as [home1 [[]|]]; [|done]. unfold emit_statement.
  set (st := mkStatement (Principal_display p) id now reason).
  destruct (load_or_generate ioA home1) as [home2 [sk|]] eqn:Hsk; [|done].
  destruct (statement_sign st sk) as [signed|] eqn:Hsign; [|done].
  destruct (to_blob signed) as [text|] eqn:Hblob; [|done].
  unfold save_text. destruct (po_emit_save ioA); [|done..]. intros [= <- <-].
  exists sk. split; [by eapply identity_stable|].
  intros ioB homeB k nowB -> HrB HsB Hfile Hk Hget Honly HnowB.
  pose proof (keyring_of_storable _ _ Hk) as Hst. pose proof Hst as [Hok _ _ _].
  pose proof (proj1 (get_speaks _ _ _ Hok) Hget) as (e & He & _ & Hke).
  destruct (revoke_ok k p _ _ now e Hat He Hke eq_refl) as [k1 Hrev].
  destruct (revoked_forever k p sk now k1 Hst Hget Honly Hrev) as [Hst1 Hdead].
  assert (Hap : apply_signed_revocation k signed nowB = (k1, Ok tt)).
  { rewrite <- Hrev. exact (self_revocation_applies k p sk st signed nowB Hok Hget eq_refl Hp eq_refl Hat Hsign HnowB). }
  unfold import_revocation_run. rewrite (blob_roundtrip _ _ Hblob), loaded_of_file, Hk by done.
  cbn [map_err]. rewrite Hap. unfold save_keyring, save_text. rewrite HsB.
  eexists _, (sort_by entry_key <$> k1). split; [reflexivity|]. split; [|exact Hdead].
  rewrite loaded_of_file, with_keyring_of by done. simpl. by rewrite save_load.
Qed.

(** Carol's machine keeps its own key pinned, revokes it and tells alice's. *)
Definition own_home : PeerHome :=
  mkPeerHome (Some (save_to_file {[other_peer := [legacy (verifying_key (mkSigningKey (replicate 32 x05)))]]}))
    (Some (sk_to_b64url (mkSigningKey (replicate 32 x05)))) (Some "c.test") TfMissing.
Definition own_id : string := key_id (verifying_key (mkSigningKey (replicate 32 x05))).

Lemma revocation_crosses_machines_witness :
  exists homeA' blob homeB' k',
    revoke_run calm_io other_peer own_id (Some "lost laptop") (demo_now "3") (Some None) own_home =
      (homeA', Some blob, Ok tt) /\
    import_revocation_run calm_io blob (demo_now "4") own_home = (homeB', Ok tt) /\
    load_keyring calm_io homeB' = Ok k' /\
    forall ops t, active_key (keyring_run k' ops) other_peer t <>
      LkActive (verifying_key (mkSigningKey (replicate 32 x05))).
Proof.
  destruct (revoke_run calm_io other_peer own_id (Some "lost laptop") (demo_now "3") (Some None) own_home)
    as [[homeA' [blob|]] [[]|]] eqn:Hrev.
  2-4: exfalso; vm_compute in Hrev; discriminate Hrev.
  destruct (revocation_crosses_machines calm_io other_peer own_id (Some "lost laptop") (demo_now "3") None own_home
    homeA' blob eq_refl ltac:(split; reflexivity) Hrev) as (sk & Hsk & Himp).
  assert (Hs : sk = mkSigningKey (replicate 32 x05)).
  { specialize (Hsk calm_io eq_refl). apply (f_equal (fun r => r.1.1)) in Hrev. cbn [fst] in Hrev.
    rewrite <- Hrev in Hsk. apply (f_equal snd) in Hsk. vm_compute in Hsk. injection Hsk as <-. reflexivity. }
  subst sk.
  destruct (keyring_of (ho_keyring own_home)) as [k|] eqn:Hk; [|exfalso; vm_compute in Hk; discriminate Hk].
  assert (Hkv : k = {[other_peer := [legacy (verifying_key (mkSigningKey (replicate 32 x05)))]]}).
  { apply (f_equal (fun r => match r with Ok k => k | Err _ => ∅ end)) in Hk. rewrite <- Hk.
    apply (bool_decide_eq_true_1 (_ = _)). vm_compute. reflexivity. }
  destruct (Himp calm_io own_home k (demo_now "4")) as (homeB' & k' & Hi & Hl & Hd).
  - reflexivity.
  - reflexivity.
  - reflexivity.
  - reflexivity.
  - exact Hk.
  - rewrite Hkv. vm_compute. reflexivity.
  - intros e He _. rewrite Hkv in He. unfold entries in He. rewrite lookup_singleton_eq in He.
    apply list_elem_of_singleton in He as ->. reflexivity.
  - reflexivity.
  - exists homeA', blob, homeB', k'. split; [reflexivity|]. split; [exact Hi|]. split; [exact Hl|exact Hd].
Defined.

(** ** A save broken off *)
Definition tombstone_home : PeerHome :=
  mkPeerHome (Some (save_to_file (keyring_run {[other_peer := [legacy (demo_key x03)]]}
    [OpRevoke other_peer (key_id (demo_key x03)) (demo_now "1");
     OpPin demo_peer (demo_key x01); OpRotate demo_peer (demo_key x02) (demo_now "2") None true])))
    None None TfMissing.
(** The disk fills up after the first of the remaining lines. *)
Definition full_disk_io : PeerIo :=
  mkPeerIo true true (SaveTorn 153) true true SaveDone (mkSigningKey []) SaveDone true.

(** Finding: the keyring file is rewritten in place, so a save that breaks off
    between two lines (here a retirement of another principal's old key) leaves a
    file that loads without the tombstones after it, and the revoked key can be
    imported again. *)
Theorem torn_save_forgets_a_revocation :
  let revoked := format_export_line other_peer (demo_key x03) in
  let retired := peer_run full_disk_io (CmdRetire (Principal_display demo_peer) (key_id (demo_key x01))) tombstone_home in
  (peer_run calm_io (CmdImport revoked) tombstone_home).2 =
    Err (PeGeneric (KKeyRevoked other_peer (key_id (demo_key x03)))) /\
  retired.2 = Err PeUnsaved /\
  exists k, load_keyring calm_io (peer_run calm_io (CmdImport revoked) retired.1.1).1.1 = Ok k /\
    active_key k other_peer (demo_now "5") = LkActive (demo_key x03).
Proof.
  intros revoked retired. split; [vm_compute; reflexivity|]. split; [vm_compute; reflexivity|].
  destruct (load_keyring _ _) as [k|] eqn:E; [|exfalso; vm_compute in E; discriminate E].
  exists k. split; [reflexivity|].
  apply (f_equal (fun r => match r with Ok k => active_key k other_peer (demo_now "5") | Err _ => LkUnpinned end)) in E.
  vm_compute in E. symmetry. exact E.
Qed.
