(* ===== verification/PairFlow.v ===== *)
(** * An honest pairing completes

    The inviter's command, the redeemer's request, the gateway's route, the
    redeemer's pin and the inviter's confirmation, composed. *)

From Stdlib Require Import Strings.Byte Ascii.
From stdpp Require Import gmap pretty strings list.
From S2P Require Import Prelude Json Proto WireInstance Crypto Principal Core Derive Body Envelope.
From S2P Require Import Clock Keyring KeyringProps KeyringFile Pairing PairPin PairingProps PeerProps PeerTrust.

(** ** A first pin *)
Section first_pin.
Context `{CL : CryptoLib} `{CLW : !CryptoLaws}.

(** Neither the principal nor the key is known to the keyring. *)
Definition fresh_for (k : Keyring) (p : Principal) (vk : TrustedVerifyingKey) : Prop :=
  entries k p = [] /\ forall q e, e ∈ entries k q -> as_bytes (ke_key e) <> as_bytes vk.

Definition first_entry (vk : TrustedVerifyingKey) (now : string) : KeyEntry :=
  mkEntry vk KActive None (Some now) None.

Lemma rotate_first k p vk now (c : bool) :
  is_canonical_utc now = true -> entries k p = [] ->
  rotate_to k p vk now None c = (<[p := [first_entry vk now]]> k, Ok RtFirstPin).
Proof. intros Hn He. unfold rotate_to. by rewrite Hn, He. Qed.

Lemma first_storable k p vk now (c : bool) :
  storable k -> principal_ok p -> key_ok vk -> is_canonical_utc now = true -> fresh_for k p vk ->
  storable (<[p := [first_entry vk now]]> k).
Proof.
  intros [Hok Hs Hd Ha] Hp Hvk Hn [He Hnew].
  pose proof (rotate_first k p vk now c Hn He) as Hr.
  pose proof (rotate_storable _ _ _ _ _ _ _ Hok Hs Hp Hvk Hr) as Hs1.
  destruct (rotate_ok _ _ _ _ _ _ _ Hok Hr) as [Hok1 _]. apply storable_of; [done..|].
  replace [first_entry vk now] with (entries k p ++ [first_entry vk now]) by (by rewrite He).
  by apply keys_once_add.
Qed.

(** On a keyring file that loads and knows neither, the pin succeeds, and every
    other principal keeps its entries. *)
Lemma first_pin kfile k p vk now c :
  keyring_of kfile = Ok k -> principal_ok p -> key_ok vk -> is_canonical_utc now = true ->
  fresh_for k p vk ->
  exists text k', rotate_to_with_validation true kfile p vk now c = (Some text, Ok true) /\
    load_from_file text = Ok k' /\ active_key k' p now = LkActive vk /\
    forall q, q <> p -> entries k' q ≡ₚ entries k q.
Proof.
  intros Hf Hp Hk Hn Hfr.
  pose proof (save_load _ (first_storable k p vk now c (keyring_of_storable _ _ Hf) Hp Hk Hn Hfr)) as Hload.
  assert (Hact : active_key (sort_by entry_key <$> <[p := [first_entry vk now]]> k) p now = LkActive vk).
  { unfold active_key. rewrite Hn, lookup_fmap, lookup_insert_eq. done. }
  eexists _, _. split_and!; [|exact Hload|exact Hact|].
  - unfold rotate_to_with_validation. fold (keyring_of kfile). rewrite Hf, rotate_first by (done || apply Hfr).
    simpl negb. cbv iota. by rewrite Hload, Hact.
  - intros q Hq. by rewrite entries_sorted, entries_insert, decide_False by done.
Qed.
End first_pin.

(** ** The messages *)
Section flow.
Context `{WL : WireLib} `{WLW : !WireLaws} `{CL : CryptoLib} `{CLW : !CryptoLaws}
  `{PL : PairLib} `{PLW : !PairLaws}.

Lemma redemption_request_decodes r sig :
  d_signed_request (signed_statement_value (mkSignedStatement r sig)) = Ok (mkSignedStatement r sig).
Proof. by destruct r. Qed.

Lemma signed_new_ok {T} `{ST : !Statement T} (t : T) sk :
  json_wf (statement_value t) = true ->
  exists s, sign_value sk (statement_value t) = Ok s /\
    signed_new t sk = Ok (mkSignedStatement t (sig_to_b64url s)).
Proof.
  intros Hw. destruct (canonicalize_total _ Hw) as [b Hb]. unfold signed_new, sign_value. rewrite Hb.
  by eexists.
Qed.

Lemma signed_new_verify {T} `{ST : !Statement T} (t : T) sk s :
  signed_new t sk = Ok s -> sd_statement s = t /\ signed_verify s (verifying_key sk) = Ok tt.
Proof.
  unfold signed_new. destruct (sign_value sk (statement_value t)) as [sg|] eqn:E; [|done].
  intros [= <-]. split; [done|]. unfold signed_verify. simpl.
  by rewrite (sign_value_b64url _ _ _ E), (sign_verify _ _ _ E).
Qed.

Lemma find_invite_app id s r : id ∉ map iv_id s -> iv_id r = id -> find_invite id (s ++ [r]) = Some r.
Proof.
  intros Hs Hr. induction s as [|x s IH]; simpl; [by rewrite Hr, String.eqb_refl|].
  simpl in Hs. apply not_elem_of_cons in Hs as [Hne Hs].
  destruct (String.eqb_spec (iv_id x) id) as [He|]; [by rewrite He in Hne|]. by apply IH.
Qed.
Lemma update_invite_app id f s r :
  id ∉ map iv_id s -> iv_id r = id -> update_invite id f (s ++ [r]) = s ++ [f r].
Proof.
  intros Hs Hr. induction s as [|x s IH]; simpl; [by rewrite Hr, String.eqb_refl|].
  simpl in Hs. apply not_elem_of_cons in Hs as [Hne Hs].
  destruct (String.eqb_spec (iv_id x) id) as [He|]; [by rewrite He in Hne|]. by rewrite IH.
Qed.

(** The newest matching invite is the one the scan keeps. *)
Lemma decide_newest s r d now :
  open_for d now r -> decide_redemption (s ++ [r]) d now = Accept_ (iv_id r).
Proof.
  intros [Hp Hd Hx Ha]. unfold decide_redemption. rewrite List.filter_app. simpl.
  assert (is_revoked r = false) as Hr by (unfold is_revoked; by rewrite Hp). rewrite Hr. simpl.
  rewrite bool_decide_eq_false_2 by (by destruct (List.filter _ s)).
  unfold last_match. rewrite foldl_app. simpl. rewrite Hd, Hp, Hx.
  by rewrite (proj2 (N.leb_gt _ _)).
Qed.

(** ** The inviter's confirmation *)
Definition not_redeemed (r : InviteRecord) : Prop :=
  match iv_state r with Redeemed _ _ _ _ => False | _ => True end.
Definition attended : nat -> bool * bool * bool := fun _ => (true, true, true).

Lemma status_loop_last l r kf now c b kid pk t kf' r' ev :
  Forall not_redeemed l -> iv_state r = Redeemed b kid pk t ->
  pin_redeemed_record true true true kf r b kid pk now c = (kf', r', ev, Ok PinPinned) ->
  status_loop attended kf (l ++ [r]) now c = (kf', l ++ [r'], ev, Ok (true, false, true)).
Proof.
  intros Hl Hr Hpin. induction Hl as [|x l Hx Hl IH].
  - unfold attended. simpl. rewrite Hr. rewrite Hpin. simpl. by rewrite app_nil_r.
  - unfold not_redeemed in Hx. assert (status_loop attended kf ((x :: l) ++ [r]) now c =
      let '(kfile, rest, ev, res) := status_loop attended kf (l ++ [r]) now c in
      (kfile, x :: rest, ev, res)) as -> by (simpl; by destruct (iv_state x)).
    by rewrite IH.
Qed.

(** The redeemed key is shown before the keyring changes. *)
Lemma pin_record_first kfile k r p vk at_ now c :
  keyring_of kfile = Ok k -> fresh_for k p vk ->
  principal_ok p -> key_ok vk -> is_canonical_utc now = true ->
  iv_state r = Redeemed (Principal_display p) (key_id vk) (vk_to_b64url vk) at_ ->
  exists text k', pin_redeemed_record true true true kfile r (Principal_display p) (key_id vk)
      (vk_to_b64url vk) now c =
    (Some text, with_state (Pinned now) r,
     [Observed (Principal_display p) (key_id vk); KeyringReplaced text], Ok PinPinned) /\
    load_from_file text = Ok k' /\ active_key k' p now = LkActive vk /\
    forall q, q <> p -> entries k' q ≡ₚ entries k q.
Proof.
  intros Hf Hfr Hp Hk Hn Hr. destruct (first_pin kfile k p vk now c Hf Hp Hk Hn Hfr) as (text & k' & Hrot & Hl & Ha).
  exists text, k'. split; [|done]. unfold pin_redeemed_record. simpl.
  rewrite (Principal_from_str_display p Hp), vk_b64url_roundtrip by apply Hk. by rewrite Hrot.
Qed.

Definition io_good (io : PairIo) : Prop :=
  pio_readable io = true /\ pio_lock io = true /\ pio_writable io = true.

(** *** Each side *)
Lemma invite_succeeds io f p picks id t0 ex :
  io_good io -> principal_ok p -> add_24h t0 = Some ex ->
  pair_invite io f (Principal_display p) true picks id t0 =
    (Some (default [] f ++ [mkInvite id (Principal_display p) (hex_encode (code_digest (draw_code picks)))
       t0 ex 0 Pending]), Ok (draw_code picks)).
Proof.
  intros (Hr & Hl & Hw) Hp Hex. unfold pair_invite, acquire, load_store, save_atomic.
  by rewrite (Principal_from_str_display p Hp), Hex, Hr, Hl, Hw.
Qed.

Lemma own_digest code : digest_from_hex (hex_encode (code_digest code)) = Some (code_digest code).
Proof.
  unfold digest_from_hex. rewrite hex_roundtrip. simpl. unfold code_digest. by rewrite sha256_length.
Qed.

Lemma ingest_succeeds own io l r body sreq code p vk ski now :
  io_good io -> pio_key io = Some ski -> iv_id r ∉ map iv_id l ->
  iv_state r = Pending -> iv_code_digest r = hex_encode (code_digest code) ->
  is_expired now r = false -> iv_attempts r = 0%N ->
  from_slice_strict body = Ok (signed_statement_value sreq) -> parse_code (rq_code (sd_statement sreq)) = Ok code ->
  Principal_from_str (rq_principal (sd_statement sreq)) = Ok p -> pr_authority p <> own ->
  vk_from_b64url (rq_pubkey_b64url (sd_statement sreq)) = Ok vk -> signed_verify sreq vk = Ok tt ->
  exists answer,
    ingest_redemption_at own io (Some (l ++ [r])) body now =
      (Some (l ++ [with_state (Redeemed (rq_principal (sd_statement sreq)) (key_id vk)
         (rq_pubkey_b64url (sd_statement sreq)) now) r]), Ok answer) /\
    signed_new (mkRedemptionResponse (iv_id r) (iv_principal r)
      (vk_to_b64url (verifying_key ski)) (key_id vk) now) ski = Ok answer.
Proof.
  intros (Hr & Hl & Hw) Hk Hfresh Hp Hd Hx Ha Hb Hc Hpr Hown Hvk Hver.
  assert (Hdec : decide_redemption (l ++ [r]) (code_digest code) now = Accept_ (iv_id r)).
  { apply decide_newest. split; try done; [|by rewrite Ha].
    apply digest_matches_exact. rewrite Hd. apply own_digest. }
  unfold ingest_redemption_at, begin_redemption.
  rewrite Hb. destruct sreq as [req sig]. rewrite redemption_request_decodes. simpl in *.
  rewrite Hc, Hpr, Hvk, (proj2 (String.eqb_neq _ _) Hown). unfold load_store. rewrite Hr. simpl.
  rewrite Hdec, Hver. simpl. unfold accept_and_consume, acquire, load_store. rewrite Hr, Hl. simpl.
  rewrite Hdec. unfold consume. rewrite find_invite_app by done.
  assert (is_pending r = true) as -> by (unfold is_pending; by rewrite Hp).
  simpl negb. cbv iota. rewrite update_invite_app by done. unfold save_atomic. rewrite Hw, Hk.
  destruct (signed_new_ok (mkRedemptionResponse (iv_id r) (iv_principal r)
    (vk_to_b64url (verifying_key ski)) (key_id vk) now) ski) as (sg & _ & ->); [done|].
  by eexists.
Qed.

Lemma accept_succeeds kfile k t c ski answer p id kid at_ :
  keyring_of kfile = Ok k -> fresh_for k p (verifying_key ski) ->
  signed_new (mkRedemptionResponse id (Principal_display p) (vk_to_b64url (verifying_key ski)) kid at_) ski
    = Ok answer ->
  principal_ok p -> key_ok (verifying_key ski) -> is_canonical_utc t = true ->
  exists text k', accept_response true kfile answer t c = (Some text, Ok p) /\
    load_from_file text = Ok k' /\ active_key k' p t = LkActive (verifying_key ski) /\
    forall q, q <> p -> entries k' q ≡ₚ entries k q.
Proof.
  intros Hf Hfr (Hst & Hver)%signed_new_verify Hp Hk Ht.
  destruct (first_pin kfile k p (verifying_key ski) t c Hf Hp Hk Ht Hfr) as (text & k' & Hrot & Hl & Ha).
  exists text, k'. split; [|done]. unfold accept_response. rewrite Hst. simpl.
  rewrite vk_b64url_roundtrip by apply Hk. rewrite Hver, (Principal_from_str_display p Hp).
  by rewrite Hrot.
Qed.

Lemma resolve_ok as_identity own p : resolve_as_principal as_identity own = Ok p -> principal_ok p.
Proof.
  unfold resolve_as_principal, map_err. intros H.
  assert (exists s, Principal_from_str s = Ok p) as [s Hs].
  { repeat case_match; simplify_eq; eauto. }
  by apply Principal_from_str_sound in Hs as [_ ?].
Qed.

(** C23. An honest pairing completes.  When the inviter's command succeeds its
    code, typed in by the redeemer in any accepted spelling, gives a signed
    request; the gateway, asked within the window, accepts it and answers; the
    redeemer, on that answer, pins exactly the inviter's principal to the
    gateway's key; and the inviter's status run shows the redeemer's identity,
    then pins exactly that principal to the redeemer's key; every other
    principal of the two keyrings keeps its entries.  Both keyring files (or
    their absence) load, and neither side knows the other's principal or key
    yet ([fresh_for]); no earlier invite is redeemed and waiting to be pinned,
    and its other earlier invites do not matter; the store and the keyrings can
    be read and written, and the inviter's terminal can be written to. *)
Theorem pairing_completes own_i own_r f pi picks id t0 ex io line as_r pr nonce ski skr
    kfI kI kfR kR :
  io_good io -> pio_key io = Some ski ->
  key_ok (verifying_key ski) -> key_ok (verifying_key skr) ->
  principal_ok pi -> add_24h t0 = Some ex -> id ∉ map iv_id (default [] f) ->
  Forall not_redeemed (default [] f) ->
  parse_code line = Ok (draw_code picks) ->
  resolve_as_principal as_r own_r = Ok pr -> pr_authority pr <> own_i ->
  keyring_of kfR = Ok kR -> fresh_for kR pi (verifying_key ski) ->
  keyring_of kfI = Ok kI -> fresh_for kI pr (verifying_key skr) ->
  exists f1 sreq,
    pair_invite io f (Principal_display pi) true picks id t0 = (Some f1, Ok (draw_code picks)) /\
    redemption_request line as_r own_r nonce skr = Ok sreq /\
    forall body now, from_slice_strict body = Ok (signed_statement_value sreq) -> String.leb ex now = false ->
    exists f2 answer,
      ingest_redemption_at own_i io (Some f1) body now = (Some f2, Ok answer) /\
      forall t c, is_canonical_utc t = true ->
        (exists text k, accept_response true kfR answer t c = (Some text, Ok pi) /\
           load_from_file text = Ok k /\ active_key k pi t = LkActive (verifying_key ski) /\
           forall q, q <> pi -> entries k q ≡ₚ entries kR q) /\
        (exists text k f3,
           pair_status io attended (Some f2) kfI t c =
             (Some f3, Some text, [Observed (Principal_display pr) (key_id (verifying_key skr));
                KeyringReplaced text], Ok true) /\
           load_from_file text = Ok k /\ active_key k pr t = LkActive (verifying_key skr) /\
           forall q, q <> pr -> entries k q ≡ₚ entries kI q).
Proof.
  intros Hio Hk Hki Hkr Hpi Hex Hfresh Hnr Hline Hres Hdom HkR HfR HkI HfI.
  pose proof (resolve_ok _ _ _ Hres) as Hpr.
  set (rec := mkInvite id (Principal_display pi) (hex_encode (code_digest (draw_code picks))) t0 ex 0 Pending).
  set (req := mkRedemptionRequest (draw_code picks) (Principal_display pr)
    (vk_to_b64url (verifying_key skr)) nonce).
  destruct (signed_new_ok req skr) as (sg & _ & Hsn); [done|].
  pose proof (signed_new_verify _ _ _ Hsn) as [_ Hver].
  exists (default [] f ++ [rec]), (mkSignedStatement req (sig_to_b64url sg)). split_and!.
  { by apply invite_succeeds. }
  { unfold redemption_request. rewrite Hline, Hres. simpl. fold req. by rewrite Hsn. }
  intros body now Hbody Hwin.
  assert (parse_code (draw_code picks) = Ok (draw_code picks)) as Hcode.
  { destruct (parse_code_sound _ _ Hline) as (ws & Hin & Hl & ->). by apply parse_code_words. }
  destruct (ingest_succeeds own_i io (default [] f) rec body (mkSignedStatement req (sig_to_b64url sg))
    (draw_code picks) pr (verifying_key skr) ski now) as (answer & Hing & Hans); try done.
  { simpl. by apply Principal_from_str_display. }
  { simpl. apply vk_b64url_roundtrip; apply Hkr. }
  eexists _, answer. split; [exact Hing|]. intros t c Ht. split.
  { by eapply accept_succeeds. }
  match type of Hing with _ = (Some (_ ++ [?r]), _) =>
    destruct (pin_record_first kfI kI r pr (verifying_key skr) now t c HkI HfI Hpr Hkr Ht eq_refl)
      as (text & k & Hpin & Hl & Ha)
  end.
  exists text, k. eexists. split; [|done]. destruct Hio as (Hr & Hlk & Hw).
  unfold pair_status, acquire, load_store. rewrite Hlk, Hr. simpl.
  erewrite status_loop_last; [|exact Hnr|reflexivity|exact Hpin]. unfold save_atomic. by rewrite Hw.
Qed.
End flow.

(** ** A concrete pairing *)
Definition demo_inviter : Principal := mkPrincipal "a.test" "bob".
Definition demo_ski : FampSigningKey := mkSigningKey (replicate 32 x11).
Definition demo_skr : FampSigningKey := mkSigningKey (replicate 32 x22).
Definition demo_io : PairIo := mkPairIo true true true (Some demo_ski).
Definition demo_picks : list nat := [0; 1; 2; 3; 4]%nat.
Definition demo_id : string := "0198c0de-0000-7000-8000-000000000001".
Definition demo_spelling : string := "  Abandon ABILITY able about above ".
Definition demo_redemption : Signed RedemptionRequest :=
  match redemption_request demo_spelling "alice" "b.test" "n1" demo_skr with
  | Ok s => s
  | Err _ => mkSignedStatement (mkRedemptionRequest "" "" "" "") ""
  end.
Definition demo_body : bytes := 
  match to_vec (signed_statement_value demo_redemption) with Ok b => b | Err _ => [] end.

(** The redeemer's gateway has paired with somebody else before. *)
Definition redeemer_kfile : string := save_to_file demo_rotated.
Definition redeemer_keyring : Keyring := sort_by entry_key <$> demo_rotated.

Lemma redeemer_fresh : fresh_for redeemer_keyring demo_inviter (verifying_key demo_ski).
Proof.
  split; [vm_compute; reflexivity|]. intros q e He Heq.
  assert (Hp : entries redeemer_keyring q ≡ₚ entries demo_rotated q) by apply entries_sorted.
  rewrite Hp in He. unfold entries in He. destruct (demo_rotated !! q) as [l|] eqn:E; simpl in He.
  - apply elem_of_map_to_list in E. vm_compute in E. apply list_elem_of_singleton in E. injection E as _ ->.
    repeat (apply elem_of_cons in He as [->|He]; [vm_compute in Heq; discriminate|]). by apply elem_of_nil in He.
  - by apply elem_of_nil in He.
Qed.

Lemma pairing_completes_witness :
  exists f1, pair_invite demo_io None "agent:a.test/bob" true demo_picks demo_id (demo_now "8") =
    (Some f1, Ok (draw_code demo_picks)) /\
  exists f2 answer, ingest_redemption_at "a.test" demo_io (Some f1) demo_body (demo_now "8") =
    (Some f2, Ok answer) /\
  exists text k, accept_response true (Some redeemer_kfile) answer (demo_now "9") false = (Some text, Ok demo_inviter) /\
    load_from_file text = Ok k /\ active_key k demo_inviter (demo_now "9") = LkActive (verifying_key demo_ski) /\
    forall q, q <> demo_inviter -> entries k q ≡ₚ entries redeemer_keyring q.
Proof.
  destruct (pairing_completes "a.test" "b.test" None demo_inviter demo_picks demo_id (demo_now "8")
    "2026-08-09T00:00:00Z" demo_io demo_spelling "alice" (mkPrincipal "b.test" "alice") "n1"
    demo_ski demo_skr None ∅ (Some redeemer_kfile) redeemer_keyring) as (f1 & sreq & Hinv & Hreq & H).
  - done.
  - done.
  - by vm_compute.
  - by vm_compute.
  - by vm_compute.
  - done.
  - intros Hin. by apply elem_of_nil in Hin.
  - constructor.
  - vm_compute. reflexivity.
  - vm_compute. reflexivity.
  - done.
  - exact (save_load demo_rotated demo_storable).
  - exact redeemer_fresh.
  - reflexivity.
  - split; [reflexivity|]. intros q e He. unfold entries in He. rewrite lookup_empty in He.
    by apply elem_of_nil in He.
  - exists f1. split; [exact Hinv|].
    destruct (H demo_body (demo_now "8")) as (f2 & answer & Hing & Hpins).
    + assert (sreq = demo_redemption) as -> by (unfold demo_redemption; by rewrite Hreq).
      vm_compute. reflexivity.
    + reflexivity.
    + exists f2, answer. split; [exact Hing|]. exact (proj1 (Hpins (demo_now "9") false eq_refl)).
Defined.

Definition demo_invite_step : PairStep :=
  PsInvite demo_io "agent:a.test/bob" true demo_picks demo_id (demo_now "8").
Definition demo_begin : PairStep := PsBegin 1 demo_io demo_body (demo_now "8").
Definition demo_world (steps : list PairStep) : PairWorld :=
  foldl (fun w s => (pair_step "a.test" w s).1) (mkPairWorld None None ∅) steps.

Lemma demo_run :
  pair_run "a.test" (demo_world [demo_invite_step; demo_begin]) [] []
    (births (demo_world [demo_invite_step]) (demo_world [demo_invite_step; demo_begin]) 0
      (births (demo_world []) (demo_world [demo_invite_step]) 0 ∅)).
Proof.
  apply (pr_step "a.test" (demo_world [demo_invite_step]) [] [] _ demo_begin _ None); [|done|done].
  apply (pr_step "a.test" (demo_world []) [] [] _ demo_invite_step _ None).
  - constructor.
  - simpl. intros Hin. by apply elem_of_nil in Hin.
  - vm_compute. reflexivity.
Qed.

Lemma demo_accepts :
  match (pair_step "a.test" (demo_world [demo_invite_step; demo_begin]) (PsFinish 1 demo_io)).2 with
  | Some (Ok _) => true | _ => false
  end = true.
Proof. vm_compute. reflexivity. Qed.

Lemma invite_redeemed_once_witness :
  exists id w' a, pair_step "a.test" (demo_world [demo_invite_step; demo_begin]) (PsFinish 1 demo_io) = (w', a) /\
    accepted_ids a = [id] /\ exists r, r ∈ stored w' /\ iv_id r = id /\ iv_state r <> Pending.
Proof.
  pose proof demo_accepts as Hok.
  destruct (pair_step "a.test" (demo_world [demo_invite_step; demo_begin]) (PsFinish 1 demo_io))
    as [w' a] eqn:E. simpl in Hok. destruct a as [[signed|]|]; [|discriminate Hok|discriminate Hok].
  exists (rp_invite_id (sd_statement signed)), w', (Some (Ok signed)).
  split; [reflexivity|]. split; [reflexivity|].
  destruct (invite_redeemed_once "a.test" _ _ _ _ (PsFinish 1 demo_io) _ _ demo_run I E)
    as (_ & H & _). apply H. left.
Qed.

Lemma acceptance_is_earned_witness :
  exists r w' signed,
    pair_step "a.test" (demo_world [demo_invite_step; demo_begin]) (PsFinish 1 demo_io) = (w', Some (Ok signed)) /\
    r ∈ stored (demo_world [demo_invite_step; demo_begin]) /\ iv_state r = Pending /\
    is_expired (demo_now "8") r = false.
Proof.
  pose proof demo_accepts as Hok.
  destruct (pair_step "a.test" (demo_world [demo_invite_step; demo_begin]) (PsFinish 1 demo_io))
    as [w' a] eqn:E. simpl in Hok. destruct a as [[signed|]|]; [|discriminate Hok|discriminate Hok].
  destruct (acceptance_is_earned "a.test" _ _ _ _ _ _ _ demo_run eq_refl E)
    as (rid & io & body & req & vk & code & now & r & sk & _ & _ & Hr & Hp & _).
  exists r, w', signed. split; [reflexivity|]. split; [exact Hr|]. split; [exact Hp|].
  change (stored (demo_world [demo_invite_step; demo_begin])) with
    [mkInvite demo_id "agent:a.test/bob" (hex_encode (code_digest (draw_code demo_picks)))
       (demo_now "8") "2026-08-09T00:00:00Z" 0 Pending] in Hr.
  apply list_elem_of_singleton in Hr as ->. reflexivity.
Defined.
