(* ===== verification/GatewayStart.v ===== *)
(** * The gateway's start

    [crates/famp-gateway/src/main.rs] up to the point where it prints that it is
    ready: the argument parser, the route map, the files it loads and the
    stand-ins it registers.  The [url] crate and socket addresses are
    [StartLib]; the local bus is [BusSocket]. *)

From Stdlib Require Import Strings.Byte Ascii Lia.
From stdpp Require Import gmap strings list pretty.
From S2P Require Import Prelude Json Proto WireInstance Crypto Principal Fsm Core Derive Envelope.
From S2P Require Import Origin BrokerState Executor Keyring KeyringFile Ingress Transport Client Peer.

(** [Url::parse], printed back, and [SocketAddr::from_str]. *)
Class StartLib := { url_parse : string -> result string string; addr_parse : string -> result string string }.

(** ** The command line *)
Record GatewayArgs := mkGatewayArgs {
  ga_sock : option string; ga_names : list string;
  ga_listen : option string; ga_tls_cert : option string; ga_tls_key : option string;
  ga_peers : list (string * string); ga_backs : list Principal;
  ga_trust_cert : option string; ga_relay_fetch : option string; ga_pairing_store : option string }.
Definition no_args : GatewayArgs := mkGatewayArgs None [] None None None [] [] None None None.

Definition set_sock v a := mkGatewayArgs (Some v) (ga_names a) (ga_listen a) (ga_tls_cert a) (ga_tls_key a)
  (ga_peers a) (ga_backs a) (ga_trust_cert a) (ga_relay_fetch a) (ga_pairing_store a).
Definition add_name v a := mkGatewayArgs (ga_sock a) (ga_names a ++ [v]) (ga_listen a) (ga_tls_cert a) (ga_tls_key a)
  (ga_peers a) (ga_backs a) (ga_trust_cert a) (ga_relay_fetch a) (ga_pairing_store a).
Definition set_listen_addr v a := mkGatewayArgs (ga_sock a) (ga_names a) (Some v) (ga_tls_cert a) (ga_tls_key a)
  (ga_peers a) (ga_backs a) (ga_trust_cert a) (ga_relay_fetch a) (ga_pairing_store a).
Definition set_tls_cert v a := mkGatewayArgs (ga_sock a) (ga_names a) (ga_listen a) (Some v) (ga_tls_key a)
  (ga_peers a) (ga_backs a) (ga_trust_cert a) (ga_relay_fetch a) (ga_pairing_store a).
Definition set_tls_key v a := mkGatewayArgs (ga_sock a) (ga_names a) (ga_listen a) (ga_tls_cert a) (Some v)
  (ga_peers a) (ga_backs a) (ga_trust_cert a) (ga_relay_fetch a) (ga_pairing_store a).
Definition set_peers v a := mkGatewayArgs (ga_sock a) (ga_names a) (ga_listen a) (ga_tls_cert a) (ga_tls_key a)
  v (ga_backs a) (ga_trust_cert a) (ga_relay_fetch a) (ga_pairing_store a).
Definition set_backs v a := mkGatewayArgs (ga_sock a) (ga_names a) (ga_listen a) (ga_tls_cert a) (ga_tls_key a)
  (ga_peers a) v (ga_trust_cert a) (ga_relay_fetch a) (ga_pairing_store a).
Definition set_trust_cert v a := mkGatewayArgs (ga_sock a) (ga_names a) (ga_listen a) (ga_tls_cert a) (ga_tls_key a)
  (ga_peers a) (ga_backs a) (Some v) (ga_relay_fetch a) (ga_pairing_store a).
Definition set_relay_fetch v a := mkGatewayArgs (ga_sock a) (ga_names a) (ga_listen a) (ga_tls_cert a) (ga_tls_key a)
  (ga_peers a) (ga_backs a) (ga_trust_cert a) (Some v) (ga_pairing_store a).
Definition set_pairing_store v a := mkGatewayArgs (ga_sock a) (ga_names a) (ga_listen a) (ga_tls_cert a) (ga_tls_key a)
  (ga_peers a) (ga_backs a) (ga_trust_cert a) (ga_relay_fetch a) (Some v).

Section start.
Context `{SL : StartLib} `{CL : CryptoLib} `{WL : WireLib}.

Definition find_peer (domain : string) (peers : list (string * string)) : option (string * string) :=
  List.find (fun d => String.eqb d.1 domain) peers.

Definition parse_peer_arg (raw : string) (peers : list (string * string)) :
    result (list (string * string)) string :=
  letsome (domain, url_str) := split_at_char "="%char raw
    orelse Err ("--peer: malformed value '" +:+ raw +:+ "', expected <domain>=<url>") in
  if String.eqb domain EmptyString
  then Err ("--peer: empty domain in '" +:+ raw +:+ "', expected <domain>=<url>") else
  trying url := url_parse url_str catch e => Err ("--peer: invalid url in '" +:+ raw +:+ "': " +:+ e) in
  match find_peer domain peers with
  | Some (_, existing_url) =>
      Err ("--peer: duplicate domain '" +:+ domain +:+ "': already mapped to '" +:+ existing_url +:+
        "', now given '" +:+ url +:+ "' — remove one (ambiguous route configuration must fail closed, never last-write-wins)")
  | None => Ok (peers ++ [(domain, url)])
  end.

Definition parse_backs_flag (raw : string) (backs : list Principal) : result (list Principal) string :=
  trying principal := Principal_from_str raw
    catch e => Err ("--backs: invalid principal '" +:+ raw +:+ "': " +:+ ParsePrincipalError_display e) in
  if bool_decide (principal ∈ backs)
  then Err ("--backs: duplicate principal '" +:+ Principal_display principal +:+
    "' — each --backs binding must be unique") else
  Ok (backs ++ [principal]).

Definition USAGE : string :=
  "usage: famp-gateway [--socket <path>] --listen <addr> --tls-cert <path> --tls-key <path> [--peer <domain>=<url>]... [--backs agent:<domain>/<name>]... [--trust-cert <path>] [--relay-fetch <url>] [--pairing-store <path>] <principal-name>...".

(** What a flag does with its value; [None] is no such flag. *)
Definition apply_flag (flag : string) : option (string * (string -> GatewayArgs -> result GatewayArgs string)) :=
  if String.eqb flag "--socket" then
    Some ("--socket requires a path argument", fun v a => Ok (set_sock v a))
  else if String.eqb flag "--listen" then
    Some ("--listen requires an address argument, e.g. 127.0.0.1:8443", fun v a =>
      trying addr := addr_parse v catch e => Err ("--listen: invalid address '" +:+ v +:+ "': " +:+ e) in
      Ok (set_listen_addr addr a))
  else if String.eqb flag "--tls-cert" then
    Some ("--tls-cert requires a path argument", fun v a => Ok (set_tls_cert v a))
  else if String.eqb flag "--tls-key" then
    Some ("--tls-key requires a path argument", fun v a => Ok (set_tls_key v a))
  else if String.eqb flag "--peer" then
    Some ("--peer requires a <domain>=<url> argument", fun v a =>
      result_map (fun peers => set_peers peers a) (parse_peer_arg v (ga_peers a)))
  else if String.eqb flag "--backs" then
    Some ("--backs requires a <principal> argument, e.g. agent:hostb.test/bob", fun v a =>
      result_map (fun backs => set_backs backs a) (parse_backs_flag v (ga_backs a)))
  else if String.eqb flag "--trust-cert" then
    Some ("--trust-cert requires a path argument", fun v a => Ok (set_trust_cert v a))
  else if String.eqb flag "--relay-fetch" then
    Some ("--relay-fetch requires a url argument", fun v a =>
      trying url := url_parse v catch e => Err ("--relay-fetch: invalid url '" +:+ v +:+ "': " +:+ e) in
      Ok (set_relay_fetch url a))
  else if String.eqb flag "--pairing-store" then
    Some ("--pairing-store requires a path argument", fun v a => Ok (set_pairing_store v a))
  else None.

Fixpoint parse_loop (args : list string) (a : GatewayArgs) : result GatewayArgs string :=
  match args with
  | [] => Ok a
  | arg :: rest =>
      match apply_flag arg with
      | Some (missing, act) =>
          match rest with
          | [] => Err missing
          | value :: rest => trying a := act value a catch e => Err e in parse_loop rest a
          end
      | None =>
          if String.prefix "--" arg
          then Err ("famp-gateway: unrecognized argument '" +:+ arg +:+ "' — no such flag" +:+
                    String LF USAGE)
          else parse_loop rest (add_name arg a)
      end
  end.

(** [args] starts with the program's own name. *)
Definition parse_args (args : list string) : result GatewayArgs string :=
  trying a := parse_loop (tail args) no_args catch e => Err e in
  if (length (ga_names a) =? 0)%nat then Err USAGE else
  if is_none (ga_listen a) then Err "--listen <addr> is required, e.g. --listen 127.0.0.1:8443" else
  if is_none (ga_tls_cert a) then Err "--tls-cert <path> is required" else
  if is_none (ga_tls_key a) then Err "--tls-key <path> is required" else
  Ok a.

(** ** The route map: [build_route_map] *)
Inductive StartError :=
| StUsage (message : string)
| StBack (name : string) (e : GatewayError)
| StHome
| StOwnDomain (e : CliError)
| StIdentity (e : PeerError)
| StKeyring (e : KeyringError) | StKeyringIo
| StTls
| StBadRoute (domain name : string) (e : ParsePrincipalError)
| StAmbiguous (n : nat)
| StNoPeer (p : Principal) (domain : string).

Fixpoint routes_for_names (domain url : string) (names : list string) (routes : addr_map) :
    result addr_map StartError :=
  match names with
  | [] => Ok routes
  | name :: names =>
      trying p := Principal_from_str ("agent:" +:+ domain +:+ "/" +:+ name)
        catch e => Err (StBadRoute domain name e) in
      routes_for_names domain url names (add_peer routes p url)
  end.

Fixpoint routes_for_backs (peers : list (string * string)) (backs : list Principal) (routes : addr_map) :
    result addr_map StartError :=
  match backs with
  | [] => Ok routes
  | p :: backs =>
      letsome (_, url) := find_peer (pr_authority p) peers orelse Err (StNoPeer p (pr_authority p)) in
      routes_for_backs peers backs (add_peer routes p url)
  end.

Definition build_route_map (args : GatewayArgs) (backed_names : list string) : result addr_map StartError :=
  match ga_backs args with
  | [] =>
      match ga_peers args with
      | [] => Ok ∅
      | [(domain, url)] => routes_for_names domain url backed_names ∅
      | peers => Err (StAmbiguous (length peers))
      end
  | backs => routes_for_backs (ga_peers args) backs ∅
  end.

(** ** [load_peers_keyring]: a missing file is an empty keyring *)
Definition load_peers_keyring (io : PeerIo) (home : PeerHome) : result Keyring StartError :=
  match ho_keyring home with
  | None => Ok ∅
  | Some text => if po_keyring_readable io then map_err StKeyring (load_from_file text) else Err StKeyringIo
  end.

(** ** Registering the stand-ins: [ProxiedPrincipal::register] on a connection of
    its own *)
Definition map_client_err (display : BusClientError -> string) (e : BusClientError) : GatewayError :=
  match e with
  | BcIo _ | BcBrokerDidNotStart => GwBrokerUnreachable
  | BcHelloFailed kind message => GwHelloFailed kind message
  | BcProtocolMismatch message => GwHelloFailed BrokerProtoMismatch message
  | BcUnexpectedReply message => GwUnexpectedReply message
  | BcFrame | BcDecode => GwUnexpectedReply (display e)
  end.

Definition back_name {W} `{BusSocket W} (display : BusClientError -> string) (pid : N) (name : string)
    (registry : GatewayRegistry) (w : W) : GatewayRegistry * W * result unit GatewayError :=
  if is_some (registry !! name) then (registry, w, Err (GwDuplicatePrincipal name)) else
  let '(w, opened) := connect w None in
  trying conn := opened catch e => (registry, w, Err (map_client_err display e)) in
  let '(w, reply) := sock_request w conn (stand_in_register name pid) in
  match reply with
  | Ok (RegisterOk _ _ _) => (<[name := conn]> registry, w, Ok tt)
  | Ok (ReplyErr kind message) => (registry, sock_shutdown w conn, Err (GwRegisterFailed kind message))
  | Ok other => (registry, sock_shutdown w conn, Err (GwUnexpectedReply (variant_name other)))
  | Err e => (registry, sock_shutdown w conn, Err (map_client_err display e))
  end.

Fixpoint back_all {W} `{BusSocket W} (display : BusClientError -> string) (pid : N) (names : list string)
    (registry : GatewayRegistry) (w : W) : GatewayRegistry * W * result unit StartError :=
  match names with
  | [] => (registry, w, Ok tt)
  | name :: names =>
      let '(registry, w, r) := back_name display pid name registry w in
      trying _ := r catch e => (registry, w, Err (StBack name e)) in
      back_all display pid names registry w
  end.

(** ** [main], up to [ready] *)
Record ReadyGateway := mkGateway {
  gt_args : GatewayArgs; gt_registry : GatewayRegistry; gt_own_domain : string;
  gt_keyring : Keyring; gt_routes : addr_map }.

(** [order] is the order in which the registry's map is iterated; [home] is
    [None] when it cannot be resolved; [tls] is whether the client can be built. *)
Definition gateway_start {W} `{BusSocket W} (display : BusClientError -> string) (pid : N)
    (order : list string -> list string) (io : PeerIo) (tls : bool) (argv : list string)
    (home : option PeerHome) (w : W) : option PeerHome * W * result ReadyGateway StartError :=
  trying args := parse_args argv catch e => (home, w, Err (StUsage e)) in
  let '(registry, w, backed) := back_all display pid (ga_names args) ∅ w in
  trying _ := backed catch e => (home, w, Err e) in
  let backed_names := order (map fst (map_to_list registry)) in
  letsome h := home orelse (home, w, Err StHome) in
  trying own_domain := resolve_own_domain None (ho_own_domain_env h) (ho_own_domain_file h)
    catch e => (Some h, w, Err (StOwnDomain e)) in
  let (h, sk) := load_or_generate io h in
  trying _ := sk catch e => (Some h, w, Err (StIdentity e)) in
  trying keyring := load_peers_keyring io h catch e => (Some h, w, Err e) in
  if negb tls then (Some h, w, Err StTls) else
  trying routes := build_route_map args backed_names catch e => (Some h, w, Err e) in
  (Some h, w, Ok (mkGateway args registry own_domain keyring routes)).
End start.

(** ** What a gateway's start guarantees

    The command line is read word by word: [reads] states the result of
    [parse_args] field by field, without a loop.  The route map holds the
    declared bindings and nothing else, and a gateway that says it is ready has
    loaded everything it will run on. *)

(** ** A command line as words *)
Inductive Word := WFlag (flag value : string) | WName (name : string).

Definition spell (w : Word) : list string :=
  match w with WFlag f v => [f; v] | WName n => [n] end.
Definition FLAGS : list string :=
  ["--socket"; "--listen"; "--tls-cert"; "--tls-key"; "--peer"; "--backs"; "--trust-cert"; "--relay-fetch";
   "--pairing-store"].
Definition legal (w : Word) : Prop :=
  match w with WFlag f _ => f ∈ FLAGS | WName n => String.prefix "--" n = false end.
(** The values given to [flag], in order, and the words that are names. *)
Definition values (flag : string) (ws : list Word) : list string :=
  omap (fun w => match w with WFlag f v => if String.eqb f flag then Some v else None | WName _ => None end) ws.
Definition names (ws : list Word) : list string :=
  omap (fun w => match w with WName n => Some n | WFlag _ _ => None end) ws.

Section words.
Context `{SL : StartLib}.

(** [--peer domain=url], the domain ending at the first [=]. *)
Definition peer_arg (v : string) (d : string * string) : Prop :=
  exists s, v = d.1 +:+ String "="%char s /\ d.1 <> EmptyString /\ contains "="%char d.1 = false /\
    url_parse s = Ok d.2.

Record reads (ws : list Word) (a : GatewayArgs) : Prop := mkReads {
  rd_legal : Forall legal ws;
  rd_names : ga_names a = names ws;
  rd_sock : ga_sock a = last (values "--socket" ws);
  rd_listen : exists l, Forall2 (fun v x => addr_parse v = Ok x) (values "--listen" ws) l /\ ga_listen a = last l;
  rd_cert : ga_tls_cert a = last (values "--tls-cert" ws);
  rd_key : ga_tls_key a = last (values "--tls-key" ws);
  rd_peers : Forall2 peer_arg (values "--peer" ws) (ga_peers a);
  rd_peers_once : NoDup (map fst (ga_peers a));
  rd_backs : Forall2 (fun v p => Principal_from_str v = Ok p) (values "--backs" ws) (ga_backs a);
  rd_backs_once : NoDup (ga_backs a);
  rd_trust : ga_trust_cert a = last (values "--trust-cert" ws);
  rd_fetch : exists l, Forall2 (fun v x => url_parse v = Ok x) (values "--relay-fetch" ws) l /\ ga_relay_fetch a = last l;
  rd_store : ga_pairing_store a = last (values "--pairing-store" ws) }.

(** What the loop does with one word, and with a list of them. *)
Definition apply_word (w : Word) (a : GatewayArgs) : result GatewayArgs string :=
  match w with
  | WName n => Ok (add_name n a)
  | WFlag f v => match apply_flag f with Some (_, act) => act v a | None => Err EmptyString end
  end.
Fixpoint apply_words (ws : list Word) (a : GatewayArgs) : result GatewayArgs string :=
  match ws with
  | [] => Ok a
  | w :: ws => trying a := apply_word w a catch e => Err e in apply_words ws a
  end.

Lemma apply_words_app ws vs a :
  apply_words (ws ++ vs) a = match apply_words ws a with Ok b => apply_words vs b | Err e => Err e end.
Proof. revert a. induction ws as [|w ws IH]; intros a; simpl; [done|]. destruct (apply_word w a); auto. Qed.

Lemma flag_known f : f ∈ FLAGS <-> is_some (apply_flag f) = true.
Proof.
  unfold apply_flag, FLAGS. split.
  - intros H. repeat (apply elem_of_cons in H as [->|H]; [done|]). by apply elem_of_nil in H.
  - intros H. repeat case_match; try discriminate H;
      match goal with E : String.eqb f _ = true |- _ => apply String.eqb_eq in E as -> end; set_solver.
Qed.

(** The loop reads words, *)
Lemma parse_loop_words n : forall args a b, (length args <= n)%nat -> parse_loop args a = Ok b ->
  exists ws, args = flat_map spell ws /\ Forall legal ws /\ apply_words ws a = Ok b.
Proof.
  induction n as [|n IH]; intros [|arg rest] a b Hn Hp; simpl in Hn; try lia.
  1-2: exists []; simpl in *; naive_solver.
  cbn [parse_loop] in Hp. destruct (apply_flag arg) as [[missing act]|] eqn:Ef.
  - destruct rest as [|v rest]; [done|]. simpl in Hn. destruct (act v a) as [a'|] eqn:Ea; [|done].
    apply IH in Hp as (ws & -> & Hl & Hw); [|lia]. exists (WFlag arg v :: ws). split; [done|]. split.
    + constructor; [|done]. simpl. apply flag_known. by rewrite Ef.
    + cbn [apply_words apply_word]. by rewrite Ef, Ea.
  - destruct (String.prefix "--" arg) eqn:Epre; [done|]. apply IH in Hp as (ws & -> & Hl & Hw); [|lia].
    exists (WName arg :: ws). split; [done|]. split; [by constructor|done].
Qed.

(** and any words it is given. *)
Lemma words_parse_loop ws : forall a b, Forall legal ws -> apply_words ws a = Ok b ->
  parse_loop (flat_map spell ws) a = Ok b.
Proof.
  induction ws as [|w ws IH]; intros a b Hl Hw; [done|].
  apply Forall_cons in Hl as [Hl Hls]. cbn [apply_words] in Hw.
  destruct w as [f v|n]; cbn [flat_map spell app parse_loop apply_word] in *.
  - apply flag_known, is_some_true in Hl as ([m act] & Ef). rewrite Ef in *.
    destruct (act v a) as [a'|]; [|done]. by apply IH.
  - destruct (apply_flag n) as [p|] eqn:Ef.
    + assert (n ∈ FLAGS) as Hn by (apply flag_known; by rewrite Ef). exfalso. unfold FLAGS in Hn.
      repeat (apply elem_of_cons in Hn as [->|Hn]; [done|]). by apply elem_of_nil in Hn.
    + simpl in Hl. rewrite Hl. by apply IH.
Qed.

Lemma values_app f ws vs : values f (ws ++ vs) = values f ws ++ values f vs.
Proof. apply omap_app. Qed.
Lemma names_app ws vs : names (ws ++ vs) = names ws ++ names vs.
Proof. apply omap_app. Qed.

Lemma find_peer_none domain peers : find_peer domain peers = None <-> domain ∉ map fst peers.
Proof.
  unfold find_peer. induction peers as [|[d u] peers IH]; simpl; [split; [set_solver|done]|].
  destruct (String.eqb d domain) eqn:E.
  - apply String.eqb_eq in E as ->. split; [done|]. set_solver.
  - apply String.eqb_neq in E. rewrite IH. set_solver.
Qed.

Lemma find_peer_some domain peers d : NoDup (map fst peers) ->
  find_peer domain peers = Some d <-> d ∈ peers /\ d.1 = domain.
Proof.
  unfold find_peer. intros Hnd. induction peers as [|e peers IH]; simpl; [set_solver|].
  simpl in Hnd. apply NoDup_cons in Hnd as [Hnew Hnd]. destruct (String.eqb e.1 domain) eqn:E.
  - apply String.eqb_eq in E. split; [intros [= ->]; set_solver|]. intros [[->|Hin]%elem_of_cons Hd]; [done|].
    exfalso. apply Hnew. rewrite E, <- Hd. by apply list_elem_of_fmap_2.
  - apply String.eqb_neq in E. rewrite IH by done. set_solver.
Qed.

Lemma parse_peer_arg_ok v peers peers' : NoDup (map fst peers) ->
  parse_peer_arg v peers = Ok peers' <->
  exists d, peers' = peers ++ [d] /\ peer_arg v d /\ NoDup (map fst (peers ++ [d])).
Proof.
  intros Hnd. unfold parse_peer_arg. split.
  - destruct (split_at_char _ v) as [[domain s]|] eqn:Es; [|done]. apply split_at_char_Some in Es as [-> Hc].
    destruct (String.eqb domain EmptyString) eqn:Ed; [done|]. apply String.eqb_neq in Ed.
    destruct (url_parse s) as [url|] eqn:Eu; [|done]. destruct (find_peer domain peers) as [[]|] eqn:Ef; [done|].
    intros [= <-]. exists (domain, url). split; [done|]. split; [by exists s|].
    apply find_peer_none in Ef. rewrite map_app. apply NoDup_app. split; [done|].
    split; [|apply NoDup_singleton]. set_solver.
  - intros ([domain url] & -> & (s & -> & Hd & Hc & Hu) & Hnd'). rewrite map_app in Hnd'. simpl in *.
    rewrite split_at_char_app by done. apply String.eqb_neq in Hd. rewrite Hd, Hu.
    rewrite (proj2 (find_peer_none _ _)); [done|]. intros Hin. apply NoDup_app in Hnd' as (_ & Hdis & _).
    apply (Hdis domain Hin). set_solver.
Qed.

Lemma parse_backs_flag_ok v backs backs' : NoDup backs ->
  parse_backs_flag v backs = Ok backs' <->
  exists p, backs' = backs ++ [p] /\ Principal_from_str v = Ok p /\ NoDup (backs ++ [p]).
Proof.
  intros Hnd. unfold parse_backs_flag. split.
  - destruct (Principal_from_str v) as [p|]; [|done]. case_bool_decide as Hin; [done|]. intros [= <-].
    exists p. split_and!; [done..|]. apply NoDup_app. split; [done|]. split; [|apply NoDup_singleton]. set_solver.
  - intros (p & -> & -> & Hnd'). rewrite bool_decide_eq_false_2; [done|]. intros Hin.
    apply NoDup_app in Hnd' as (_ & Hdis & _). apply (Hdis p Hin). set_solver.
Qed.

Lemma reads_none : reads [] no_args.
Proof. constructor; try done; try constructor; by exists []. Qed.

Lemma FLAGS_cases f (P : string -> Prop) : Forall P FLAGS -> f ∈ FLAGS -> P f.
Proof. intros H. apply (proj1 (Forall_forall _ _) H). Qed.

(** The fields after one word more. *)
Ltac fields := constructor; try done; rewrite ?values_app, ?names_app; cbn -[last];
  rewrite ?app_nil_r, ?last_snoc; eauto.
Ltac each_flag H := repeat (apply elem_of_cons in H as [->|H]); try (by apply elem_of_nil in H).

Lemma reads_snoc ws w a a' : reads ws a -> legal w -> apply_word w a = Ok a' -> reads (ws ++ [w]) a'.
Proof.
  intros [Hl Hn Hs (la & Hla & Hli) Hc Hk Hp Hpo Hb Hbo Ht (fa & Hfa & Hfe) Hst] Hw Ha.
  assert (Hl' : Forall legal (ws ++ [w])) by (apply Forall_app; split; [done|by constructor]).
  destruct w as [f v|n]; [|injection Ha as <-; fields; by rewrite Hn].
  revert Ha. cbn [apply_word]. simpl in Hw. revert f Hw Hl'. unfold FLAGS.
  intros f Hw. each_flag Hw; intros Hl'; cbn -[last]; intros Ha; try (injection Ha as <-; by fields).
  - destruct (addr_parse v) as [x|] eqn:Ex; [|done]. injection Ha as <-. fields.
    exists (la ++ [x]). rewrite last_snoc. split; [by apply Forall2_app; [|repeat constructor]|done].
  - destruct (parse_peer_arg v (ga_peers a)) as [peers|] eqn:E; [|done]. injection Ha as <-.
    apply parse_peer_arg_ok in E as (d & -> & Hd & Hnd); [|done]. fields.
    by apply Forall2_app; [|repeat constructor].
  - destruct (parse_backs_flag v (ga_backs a)) as [backs|] eqn:E; [|done]. injection Ha as <-.
    apply parse_backs_flag_ok in E as (d & -> & Hd & Hnd); [|done]. fields.
    by apply Forall2_app; [|repeat constructor].
  - destruct (url_parse v) as [x|] eqn:Ex; [|done]. injection Ha as <-. fields.
    exists (fa ++ [x]). rewrite last_snoc. split; [by apply Forall2_app; [|repeat constructor]|done].
Qed.

Lemma Forall2_function {A B} (f : A -> B -> Prop) l : (forall x y z, f x y -> f x z -> y = z) ->
  forall k k', Forall2 f l k -> Forall2 f l k' -> k = k'.
Proof.
  intros Hf. induction l as [|x l IH]; intros k k' H H'; inversion H; inversion H'; subst; [done|].
  f_equal; [by eapply Hf|by apply IH].
Qed.

Lemma peer_arg_function v d d' : peer_arg v d -> peer_arg v d' -> d = d'.
Proof.
  destruct d as [d u], d' as [d' u']. intros (s & -> & _ & Hc & Hu) (s' & Heq & _ & Hc' & Hu'). simpl in *.
  apply (f_equal (split_at_char "="%char)) in Heq. rewrite !split_at_char_app in Heq by done. injection Heq as -> ->. congruence.
Qed.

(** The words determine the arguments. *)
Lemma reads_function ws a b : reads ws a -> reads ws b -> a = b.
Proof.
  intros [_ Hn Hs (l & Hl & Hli) Hc Hk Hp _ Hb _ Ht (f & Hf & Hfe) Hst]
    [_ Hn' Hs' (l' & Hl' & Hli') Hc' Hk' Hp' _ Hb' _ Ht' (f' & Hf' & Hfe') Hst'].
  assert (l = l') as -> by (eapply Forall2_function; [|done..]; naive_solver congruence).
  assert (f = f') as -> by (eapply Forall2_function; [|done..]; naive_solver congruence).
  destruct a, b. simpl in *. f_equal; try congruence.
  - eapply Forall2_function; [apply peer_arg_function|done..].
  - eapply Forall2_function; [|done..]. naive_solver congruence.
Qed.

Lemma reads_prefix ws w a : reads (ws ++ [w]) a ->
  exists a' lp lb, reads ws a' /\
    ga_peers a = ga_peers a' ++ lp /\ Forall2 peer_arg (values "--peer" [w]) lp /\
    ga_backs a = ga_backs a' ++ lb /\ Forall2 (fun v p => Principal_from_str v = Ok p) (values "--backs" [w]) lb.
Proof.
  intros [Hl Hn Hs (l & Hla & _) Hc Hk Hp Hpo Hb Hbo Ht (f & Hfa & _) Hst].
  rewrite values_app in *. apply Forall_app in Hl as [Hl _].
  apply Forall2_app_inv_l in Hla as (l1 & _ & Hl1 & _ & _), Hfa as (f1 & _ & Hf1 & _ & _).
  apply Forall2_app_inv_l in Hp as (p1 & lp & Hp1 & Hp2 & Ep), Hb as (b1 & lb & Hb1 & Hb2 & Eb).
  rewrite Ep, map_app in Hpo. rewrite Eb in Hbo. apply NoDup_app in Hpo as [Hpo _], Hbo as [Hbo _].
  exists (mkGatewayArgs (last (values "--socket" ws)) (names ws) (last l1) (last (values "--tls-cert" ws))
    (last (values "--tls-key" ws)) p1 b1 (last (values "--trust-cert" ws)) (last f1)
    (last (values "--pairing-store" ws))), lp, lb.
  split_and!; try done. constructor; simpl; eauto.
Qed.

Lemma reads_word ws w a : reads (ws ++ [w]) a ->
  exists a', reads ws a' /\ apply_word w a' = Ok a.
Proof.
  intros Hr. destruct (reads_prefix ws w a Hr) as (a' & lp & lb & Hr' & Ep & Hp & Eb & Hb). exists a'. split; [done|].
  assert (Hw : legal w) by (pose proof (rd_legal _ _ Hr) as Hl; apply Forall_app in Hl as [_ Hl]; by inversion Hl).
  enough (exists a'', apply_word w a' = Ok a'') as [a'' Ha].
  { rewrite Ha. f_equal. eapply reads_function; [|done]. by eapply reads_snoc. }
  destruct Hr as [_ _ _ (l & Hla & _) _ _ _ Hpo _ Hbo _ (f & Hfa & _) _], Hr' as [_ _ _ _ _ _ _ Hpo' _ Hbo' _ _ _].
  rewrite values_app in Hla, Hfa. apply Forall2_app_inv_l in Hla as (_ & l2 & _ & Hl2 & _), Hfa as (_ & f2 & _ & Hf2 & _).
  destruct w as [g v|n]; [|by eexists]. cbn [apply_word]. simpl in Hw. revert Hw. unfold FLAGS. intros Hw.
  each_flag Hw; cbn -[last] in *; try by eexists.
  - apply Forall2_cons_inv_l in Hl2 as (x & ? & Hx & _). rewrite Hx. by eexists.
  - apply Forall2_cons_inv_l in Hp as (d & ? & Hd & ->%Forall2_nil_inv_l & ->). rewrite Ep in Hpo.
    rewrite (proj2 (parse_peer_arg_ok v (ga_peers a') (ga_peers a' ++ [d]) Hpo')); [by eexists|by exists d].
  - apply Forall2_cons_inv_l in Hb as (p & ? & Hd & ->%Forall2_nil_inv_l & ->). rewrite Eb in Hbo.
    rewrite (proj2 (parse_backs_flag_ok v (ga_backs a') (ga_backs a' ++ [p]) Hbo')); [by eexists|by exists p].
  - apply Forall2_cons_inv_l in Hf2 as (x & ? & Hx & _). rewrite Hx. by eexists.
Qed.

Lemma apply_words_reads ws : forall a, Forall legal ws -> apply_words ws no_args = Ok a <-> reads ws a.
Proof.
  induction ws as [|w ws IH] using rev_ind; intros a Hl.
  - split; [intros [= <-]; apply reads_none|]. intros Hr. simpl. f_equal. apply (reads_function []); [apply reads_none|done].
  - apply Forall_app in Hl as [Hl Hws]. assert (Hw : legal w) by (by inversion Hws). rewrite apply_words_app. split.
    + destruct (apply_words ws no_args) as [b|] eqn:Eb; [|done]. simpl. destruct (apply_word w b) as [a'|] eqn:Ea; [|done].
      intros [= ->]. eapply reads_snoc; [by apply IH|done..].
    + intros (a' & Hr & Ha)%reads_word. apply IH in Hr; [|done]. rewrite Hr. simpl. by rewrite Ha.
Qed.

Lemma parse_args_reads bin argv a :
  parse_args (bin :: argv) = Ok a <->
  exists ws, argv = flat_map spell ws /\ reads ws a /\
    names ws <> [] /\ is_some (ga_listen a) = true /\ is_some (ga_tls_cert a) = true /\ is_some (ga_tls_key a) = true.
Proof.
  unfold parse_args. cbn [tail]. split.
  - destruct (parse_loop argv no_args) as [b|] eqn:Eb; [|done].
    destruct (parse_loop_words _ argv no_args b (Nat.le_refl _) Eb) as (ws & -> & Hl & Hr%apply_words_reads); [|done].
    pose proof (rd_names _ _ Hr) as Hn. unfold is_none.
    destruct (length (ga_names b) =? 0)%nat eqn:E0; [done|].
    destruct (is_some (ga_listen b)) eqn:E1, (is_some (ga_tls_cert b)) eqn:E2, (is_some (ga_tls_key b)) eqn:E3; try done.
    intros [= <-]. exists ws. split_and!; try done. intros Hw. by rewrite Hn, Hw in E0.
  - intros (ws & -> & Hr & Hn & H1 & H2 & H3). pose proof (rd_legal _ _ Hr) as Hl.
    rewrite (words_parse_loop ws no_args a Hl) by by apply apply_words_reads.
    unfold is_none. rewrite H1, H2, H3, (rd_names _ _ Hr). simpl. by destruct (names ws).
Qed.
End words.

(** ** Routes *)

(** The map built over a list of bindings, the last one winning. *)
Lemma routes_for_backs_ok peers backs : forall r m, routes_for_backs peers backs r = Ok m ->
  forall p url, m !! p = Some url <->
    (p ∈ backs /\ exists d, find_peer (pr_authority p) peers = Some (d, url)) \/ (p ∉ backs /\ r !! p = Some url).
Proof.
  induction backs as [|q backs IH]; intros r m; cbn [routes_for_backs].
  - intros [= <-] p url. set_solver.
  - destruct (find_peer (pr_authority q) peers) as [[d u]|] eqn:Ef; [|done]. intros Hm p url.
    rewrite (IH _ _ Hm p url). unfold add_peer. destruct (decide (p = q)) as [->|Hne].
    + rewrite lookup_insert_eq, Ef. rewrite elem_of_cons. destruct (decide (q ∈ backs)); naive_solver.
    + rewrite lookup_insert_ne by done. rewrite elem_of_cons. naive_solver.
Qed.

Lemma split_inside c x y a b :
  split_at_char c (x +:+ String c y) = Some (a, b) -> contains c b = false -> a = x /\ b = y.
Proof.
  revert a b. induction x as [|e x IH]; intros a b; simpl.
  - rewrite Ascii.eqb_refl. by intros [= <- <-].
  - destruct (Ascii.eqb e c) eqn:Ee.
    + intros [= <- <-]. rewrite contains_app. unfold contains at 2. simpl. rewrite Ascii.eqb_refl. simpl.
      by rewrite orb_true_r.
    + destruct (split_at_char c (x +:+ String c y)) as [[a' b']|] eqn:E; [|done]. simpl. intros [= <- <-] Hb.
      by destruct (IH a' b' eq_refl Hb) as [-> ->].
Qed.

(** A principal put together from a domain and a name has those parts. *)
Lemma joined_principal d n p :
  Principal_from_str ("agent:" +:+ d +:+ "/" +:+ n) = Ok p -> p = mkPrincipal d n.
Proof.
  intros [Hs [Ha Hn]]%Principal_from_str_sound. unfold Principal_display in Hs.
  apply (inj (String.app "agent:")) in Hs. destruct p as [a m]. cbn [pr_authority pr_name] in *.
  change (d +:+ String "/"%char n = a +:+ String "/"%char m) in Hs.
  apply (f_equal (split_at_char "/"%char)) in Hs.
  rewrite (split_at_char_app _ a) in Hs by (apply valid_authority_no; auto).
  apply split_inside in Hs as [-> ->]; [done|]. apply valid_name_no; auto.
Qed.

Lemma routes_for_names_ok d u ns : forall r m, routes_for_names d u ns r = Ok m ->
  forall p url, m !! p = Some url <->
    (pr_authority p = d /\ pr_name p ∈ ns /\ url = u) \/
    (~ (pr_authority p = d /\ pr_name p ∈ ns) /\ r !! p = Some url).
Proof.
  induction ns as [|n ns IH]; intros r m; cbn [routes_for_names].
  - intros [= <-] p url. set_solver.
  - destruct (Principal_from_str _) as [q|] eqn:Eq; [|done]. apply joined_principal in Eq as ->. intros Hm p url.
    rewrite (IH _ _ Hm p url). unfold add_peer. rewrite elem_of_cons.
    destruct (decide (p = mkPrincipal d n)) as [->|Hne]; cbn [pr_authority pr_name].
    + rewrite lookup_insert_eq. destruct (decide (n ∈ ns)); naive_solver.
    + rewrite lookup_insert_ne by done.
      assert (~ (pr_authority p = d /\ pr_name p = n)) by (destruct p; naive_solver). naive_solver.
Qed.

(** What the command line declares about [p]: its authority's peer, and either a
    binding of its own or, with no binding at all and a single peer, its name. *)
Definition declared `{StartLib} (ws : list Word) (p : Principal) (url : string) : Prop :=
  (exists v s, v ∈ values "--peer" ws /\ split_at_char "="%char v = Some (pr_authority p, s) /\ url_parse s = Ok url) /\
  match values "--backs" ws with
  | [] => length (values "--peer" ws) = 1%nat /\ pr_name p ∈ names ws
  | backs => exists v, v ∈ backs /\ Principal_from_str v = Ok p
  end.

Section routes.
Context `{SL : StartLib}.

Lemma peer_arg_split v d u :
  peer_arg v (d, u) <-> exists s, split_at_char "="%char v = Some (d, s) /\ d <> EmptyString /\ url_parse s = Ok u.
Proof.
  unfold peer_arg. cbn [fst snd]. split.
  - intros (s & -> & Hd & Hc & Hu). exists s. by rewrite split_at_char_app.
  - intros (s & [-> Hc]%split_at_char_Some & Hd & Hu). by exists s.
Qed.

Lemma Forall2_elem_r {A B} (R : A -> B -> Prop) l k y : Forall2 R l k -> y ∈ k -> exists x, x ∈ l /\ R x y.
Proof. intros H [i Hi]%list_elem_of_lookup. destruct (Forall2_lookup_r _ _ _ _ _ H Hi) as (x & Hx & HR).
  exists x. split; [by eapply list_elem_of_lookup_2|done]. Qed.
Lemma Forall2_elem_l {A B} (R : A -> B -> Prop) l k x : Forall2 R l k -> x ∈ l -> exists y, y ∈ k /\ R x y.
Proof. intros H [i Hi]%list_elem_of_lookup. destruct (Forall2_lookup_l _ _ _ _ _ H Hi) as (y & Hy & HR).
  exists y. split; [by eapply list_elem_of_lookup_2|done]. Qed.

(** The peers are the [--peer] words. *)
Lemma reads_peers ws a d u : reads ws a ->
  (d, u) ∈ ga_peers a <->
  d <> EmptyString /\ exists v s, v ∈ values "--peer" ws /\ split_at_char "="%char v = Some (d, s) /\ url_parse s = Ok u.
Proof.
  intros Hr. pose proof (rd_peers _ _ Hr) as Hp. split.
  - intros Hin. destruct (Forall2_elem_r _ _ _ _ Hp Hin) as (v & Hv & (s & Hs & Hd & Hu)%peer_arg_split).
    split; [done|]. by exists v, s.
  - intros (Hd & v & s & Hv & Hs & Hu). destruct (Forall2_elem_l _ _ _ _ Hp Hv) as ([d' u'] & Hin & Hpa).
    assert ((d', u') = (d, u)) as <-; [|done]. eapply peer_arg_function; [exact Hpa|].
    apply peer_arg_split. by exists s.
Qed.

Lemma reads_backs ws a p : reads ws a ->
  p ∈ ga_backs a <-> exists v, v ∈ values "--backs" ws /\ Principal_from_str v = Ok p.
Proof.
  intros Hr. pose proof (rd_backs _ _ Hr) as Hb. split.
  - intros Hin. destruct (Forall2_elem_r _ _ _ _ Hb Hin) as (v & ? & ?). by exists v.
  - intros (v & Hv & Hp). destruct (Forall2_elem_l _ _ _ _ Hb Hv) as (q & Hin & Hq). congruence.
Qed.

Lemma valid_authority_nonempty a : validate_authority a = Ok tt -> a <> EmptyString.
Proof. by intros H ->. Qed.

(** The map is exactly what is declared. *)
Lemma build_route_map_ok ws a backed m : reads ws a -> (forall n, n ∈ backed <-> n ∈ names ws) ->
  build_route_map a backed = Ok m -> forall p url, m !! p = Some url <-> declared ws p url.
Proof.
  intros Hr Hbacked Hm p url. unfold build_route_map in Hm. unfold declared.
  pose proof (Forall2_length _ _ _ (rd_backs _ _ Hr)) as Hlb. pose proof (Forall2_length _ _ _ (rd_peers _ _ Hr)) as Hlp.
  destruct (ga_backs a) as [|b bs] eqn:Eb.
  - destruct (values "--backs" ws); [|done]. destruct (ga_peers a) as [|[d u] [|d2 ps]] eqn:Ep; [| |done].
    + injection Hm as <-. rewrite lookup_empty. split; [done|]. intros (_ & Hlen & _). by rewrite Hlen in Hlp.
    + rewrite (routes_for_names_ok _ _ _ _ _ Hm p url), lookup_empty, Hlp, Hbacked.
      assert (Hd : (d, u) ∈ ga_peers a) by (rewrite Ep; set_solver).
      pose proof (proj1 (reads_peers ws a d u Hr) Hd) as (Hne & v & s & Hv & Hs & Hu).
      split.
      * intros [(<- & Hn & ->)|[_ ?]]; [|done]. split; [by exists v, s|done].
      * intros ((v' & s' & Hv' & Hs' & Hu') & _ & Hn). left. simpl in Hlp.
        destruct (values "--peer" ws) as [|v0 [|]]; [done| |done].
        apply list_elem_of_singleton in Hv as ->, Hv' as ->. rewrite Hs in Hs'. injection Hs' as -> ->.
        split; [done|]. split; [done|congruence].
  - destruct (values "--backs" ws) as [|v0 vs] eqn:Ev; [done|]. rewrite <- Eb in Hm.
    assert (Hm' : routes_for_backs (ga_peers a) (ga_backs a) ∅ = Ok m) by (rewrite Eb in Hm |- *; exact Hm).
    rewrite (routes_for_backs_ok _ _ _ _ Hm' p url), lookup_empty, (reads_backs ws a p Hr), Ev.
    split.
    + intros [(Hb & d & Hd)|[_ ?]]; [|done]. split; [|done].
      apply find_peer_some in Hd as [Hin Hda]; [|by apply (rd_peers_once ws)]. cbn [fst] in Hda. subst d.
      by apply (reads_peers ws a _ url Hr) in Hin as [_ ?].
    + intros (Hp & Hb). left. split; [done|]. exists (pr_authority p).
      apply find_peer_some; [by apply (rd_peers_once ws)|]. split; [|done].
      apply (reads_peers ws a _ url Hr). split; [|done].
      destruct Hb as (v & _ & [_ [Ha _]]%Principal_from_str_sound). by apply valid_authority_nonempty.
Qed.
End routes.
