(* ===== verification/GatewayBoot.v ===== *)
(** * A gateway that says it is ready

    The theorems on [gateway_start]: what has been loaded and bound when it
    returns, over any bus, and what the broker process holds for the stand-ins it
    registered, over the process of [Executor].  Their union is the precondition
    of the relay theorems of [IngressProps] and [EgressProps]. *)

From Stdlib Require Import Strings.Byte Ascii Lia.
From stdpp Require Import gmap strings list fin_maps.
From S2P Require Import Prelude Json Proto Mailbox Origin WireInstance Serde Codec Principal Crypto Fsm Core Derive Envelope.
From S2P Require Import DrainWalk BrokerState Awaiting Handle BrokerInv Scenario Executor BrokerProps SessionProps AwaitProps Delivery Process.
From S2P Require Import Keyring KeyringProps KeyringFile Ingress IngressProps Transport Egress EgressProps.
From S2P Require Import Client ClientSendProps PairPin Peer PeerProps PeerTrust GatewayStart.

(** ** The steps of a start *)
Section steps.
Context `{SL : StartLib} `{CL : CryptoLib} `{WL : WireLib} {W : Type} `{BS : BusSocket W}.
Context (display : BusClientError -> string) (pid : N).

Lemma back_name_ok name registry registry' (w w' : W) :
  back_name display pid name registry w = (registry', w', Ok tt) ->
  exists conn, registry !! name = None /\ registry' = <[name := conn]> registry.
Proof.
  unfold back_name. destruct (registry !! name) as [c|] eqn:E; [done|]. simpl.
  destruct (connect w None) as [w1 [conn|]]; [|done]. destruct (sock_request _ _ _) as [w2 reply].
  repeat case_match; try done. intros [= <- _]. by exists conn.
Qed.

Lemma back_all_ok names : forall registry (w : W) registry' w',
  back_all display pid names registry w = (registry', w', Ok tt) ->
  NoDup names /\ (forall n, n ∈ names -> registry !! n = None) /\
  forall n, is_Some (registry' !! n) <-> n ∈ names \/ is_Some (registry !! n).
Proof.
  induction names as [|name names IH]; intros registry w registry' w'; cbn [back_all].
  - intros [= <- _]. split; [constructor|]. set_solver.
  - destruct (back_name display pid name registry w) as [[r1 w1] [[]|]] eqn:E; [|done].
    apply back_name_ok in E as (conn & Hnew & ->). intros (Hnd & Hfree & Hdom)%IH. split_and!.
    + constructor; [|done]. intros Hin%Hfree. by rewrite lookup_insert_eq in Hin.
    + intros n [->|Hin]%elem_of_cons; [done|]. apply Hfree in Hin. by apply lookup_insert_None in Hin as [? _].
    + intros n. rewrite Hdom, elem_of_cons, lookup_insert_is_Some'. naive_solver.
Qed.

Record start_steps (order : list string -> list string) (io : PeerIo) (argv : list string) (home home' : option PeerHome)
    (w w' : W) (g : ReadyGateway) (h h' : PeerHome) (sk : FampSigningKey) : Prop := mkSteps {
  ss_home : home = Some h; ss_home' : home' = Some h';
  ss_args : parse_args argv = Ok (gt_args g);
  ss_backed : back_all display pid (ga_names (gt_args g)) ∅ w = (gt_registry g, w', Ok tt);
  ss_domain : resolve_own_domain None (ho_own_domain_env h) (ho_own_domain_file h) = Ok (gt_own_domain g);
  ss_identity : load_or_generate io h = (h', Ok sk);
  ss_keyring : load_peers_keyring io h' = Ok (gt_keyring g);
  ss_routes : build_route_map (gt_args g) (order (map fst (map_to_list (gt_registry g)))) = Ok (gt_routes g) }.

Lemma gateway_start_steps order io tls argv home w home' w' g :
  gateway_start display pid order io tls argv home w = (home', w', Ok g) ->
  exists h h' sk, start_steps order io argv home home' w w' g h h' sk.
Proof.
  unfold gateway_start. destruct (parse_args argv) as [args|] eqn:Ea; [|done].
  destruct (back_all _ _ _ _ w) as [[registry w1] [[]|]] eqn:Eb; [|done].
  destruct home as [h|]; [|done]. destruct (resolve_own_domain _ _ _) as [d|] eqn:Ed; [|done].
  destruct (load_or_generate io h) as [h' [sk|]] eqn:Ei; [|done].
  destruct (load_peers_keyring io h') as [k|] eqn:Ek; [|done]. destruct tls; [|done]. cbn [negb].
  destruct (build_route_map _ _) as [routes|] eqn:Er; [|done]. intros [= <- <- <-].
  exists h, h', sk. by constructor.
Qed.

Lemma backed_iff_named order registry names (w : W) w' : (forall l, order l ≡ₚ l) ->
  back_all display pid names ∅ w = (registry, w', Ok tt) ->
  forall n, n ∈ order (map fst (map_to_list registry)) <-> n ∈ names.
Proof.
  intros Hord Hb n. destruct (back_all_ok _ _ _ _ _ Hb) as (_ & _ & Hdom).
  specialize (Hdom n). rewrite (lookup_empty (A := ClientId)) in Hdom. rewrite Hord.
  rewrite list_elem_of_fmap. split.
  - intros ([n' c] & -> & Hin%elem_of_map_to_list). destruct (proj1 Hdom) as [?|[? ?]]; [by eexists|done|done].
  - intros Hin. destruct (proj2 Hdom (or_introl Hin)) as [c Hc]. exists (n, c). split; [done|]. by apply elem_of_map_to_list.
Qed.
End steps.

(** ** What a ready gateway has *)

(** The route map of a gateway that says it is ready holds exactly what its
    command line declares, whatever order its table of names is walked in: a
    principal has a route precisely when its authority is the domain of a [--peer]
    word, the route is that word's URL, and the principal is either bound by a
    [--backs] word or, when there is no [--backs] word and a single peer, its name
    is one of the positional words.  The stand-ins are the positional words, each
    given once. *)
Theorem routes_are_declared `{StartLib} `{CryptoLib} `{WireLib} {W} `{BS : BusSocket W}
    display pid order io tls bin argv home (w : W) home' w' g :
  (forall l, order l ≡ₚ l) ->
  gateway_start display pid order io tls (bin :: argv) home w = (home', w', Ok g) ->
  exists ws, argv = flat_map spell ws /\ Forall legal ws /\ NoDup (names ws) /\
    (forall p url, gt_routes g !! p = Some url <-> declared ws p url) /\
    (forall n, is_Some (gt_registry g !! n) <-> n ∈ names ws).
Proof.
  intros Hord (h & h' & sk & [_ _ Ha Hb _ _ _ Hm])%gateway_start_steps.
  destruct (proj1 (parse_args_reads _ _ _) Ha) as (ws & -> & Hr & _).
  rewrite (rd_names _ _ Hr) in Hb. destruct (back_all_ok _ _ _ _ _ _ _ Hb) as (Hnd & _ & Hdom).
  exists ws. split_and!; try done.
  - apply (rd_legal _ _ Hr).
  - eapply (build_route_map_ok ws); [exact Hr| |exact Hm]. by eapply backed_iff_named.
  - intros n. rewrite Hdom, (lookup_empty (A := ClientId)). split; [intros [?|[? ?]]; done|by left].
Qed.

Lemma load_or_generate_keeps `{CL : CryptoLib} io h h' r : load_or_generate io h = (h', r) -> ho_keyring h' = ho_keyring h /\
  ho_own_domain_env h' = ho_own_domain_env h /\ ho_own_domain_file h' = ho_own_domain_file h.
Proof. unfold load_or_generate. repeat case_match; by intros [= <- _]. Qed.

(** A gateway that says it is ready runs on what is on disk: its own domain
    is a legal authority and is the one the home resolves to; its identity is in
    the home, so that every later load (one per relay task) reads that same key and
    rewrites nothing; its keyring is the file's, or empty when there is no file,
    and can be saved again; the keyring file is as it was.  So a file that does not
    load, an unreadable one or a missing domain keeps the gateway from starting. *)
Theorem ready_gateway_is_loaded `{StartLib} `{CryptoLaws} `{WireLib} {W} `{BS : BusSocket W}
    display pid order io tls argv home (w : W) home' w' g :
  length (sk_seed (po_generated io)) = 32%nat ->
  gateway_start display pid order io tls argv home w = (home', w', Ok g) ->
  exists h h' sk, home = Some h /\ home' = Some h' /\
    validate_authority (gt_own_domain g) = Ok tt /\ home_own_domain h' = Ok (gt_own_domain g) /\
    (forall io', po_identity_readable io' = true -> load_or_generate io' h' = (h', Ok sk)) /\
    ho_keyring h' = ho_keyring h /\ keyring_of (ho_keyring h) = Ok (gt_keyring g) /\ storable (gt_keyring g).
Proof.
  intros Hseed (h & h' & sk & [Hh Hh' _ _ Hd Hi Hk _])%gateway_start_steps. exists h, h', sk.
  destruct (load_or_generate_keeps _ _ _ _ Hi) as (Hkey & Hde & Hdf).
  assert (Hof : keyring_of (ho_keyring h) = Ok (gt_keyring g)).
  { rewrite <- Hkey. unfold load_peers_keyring in Hk. unfold keyring_of. destruct (ho_keyring h') as [text|].
    - destruct (po_keyring_readable io); [|done]. destruct (load_from_file text); [|done]. simpl in Hk. by injection Hk as ->.
    - by injection Hk as <-. }
  split_and!.
  - done.
  - done.
  - by eapply own_domain_valid.
  - unfold home_own_domain. by rewrite Hde, Hdf.
  - by eapply identity_stable.
  - done.
  - done.
  - by eapply keyring_of_storable.
Qed.

(** Finding: once a [--backs] word is given, a positional name that none of
    them binds is backed, the gateway says it is ready, and everything addressed to
    any principal of that name fails for want of a route; the failure the comment
    in [build_route_map] calls the one to avoid. *)
Theorem unbound_name_has_no_route `{StartLib} `{CryptoLib} `{WireLib} {W} `{BS : BusSocket W} {Net} `{HC : HttpClient Net}
    display pid order io tls argv home (w : W) home' w' g n :
  gateway_start display pid order io tls argv home w = (home', w', Ok g) ->
  n ∈ ga_names (gt_args g) -> ga_backs (gt_args g) <> [] ->
  (forall p, p ∈ ga_backs (gt_args g) -> pr_name p <> n) ->
  is_Some (gt_registry g !! n) /\
  forall (net : Net) msg, pr_name (tm_recipient msg) = n ->
    http_send (gt_routes g) net msg = (net, Err (HtUnknownRecipient (tm_recipient msg))).
Proof.
  intros (h & h' & sk & [_ _ _ Hb _ _ _ Hr])%gateway_start_steps Hn Hbacks Hfree. split.
  - destruct (back_all_ok _ _ _ _ _ _ _ Hb) as (_ & _ & Hdom). apply Hdom. by left.
  - intros net msg Hm. unfold http_send. destruct (gt_routes g !! tm_recipient msg) as [url|] eqn:E; [|done].
    exfalso. unfold build_route_map in Hr. destruct (ga_backs (gt_args g)) as [|b bs] eqn:Eb; [done|].
    apply (routes_for_backs_ok _ _ _ _ Hr) in E as [[Hin _]|[_ ?]]; [|done]. by apply (Hfree _ Hin).
Qed.

(** ** The stand-ins at the broker *)

(** The broker's session of a stand-in: open, registered under its name with the
    gateway's origin, in no channel, its cursor at the end of its mailbox. *)
Record stands (w : World) (nm : string) (conn : ClientId) : Prop := {
  sd_open : conn ∈ w_senders w;
  sd_client : exists c, clients (w_broker w) !! conn = Some c /\ connected c = true /\ name c = Some nm /\
    origin c = Gateway /\ BrokerState.joined c = ∅ /\ await_offsets c !! MbAgent nm = Some (blen (file_of w (MbAgent nm))) }.

Section boot.
Context `{WL : WireLib} {WLaws : WireLaws} (alive : N -> bool) (now : Instant) (wall : WallClock).
Context (display : BusClientError -> string) (pid : N).
#[local] Existing Instance process_socket.

(** The process after it accepted a connection and answered a plain Hello. *)
Definition welcomed (w : World) : World :=
  with_sent (w_sent w ++ [(w_next_id w, HelloOk BUS_PROTO_VERSION)])
    (with_broker (set_clients (<[w_next_id w := fresh_client None wall]>) (w_broker w))
      (with_senders ({[w_next_id w]} ∪ w_senders w)
        (with_clients_idle (w_client_count w + 1) (w_next_id w + 1) false w))).

Lemma connect_plain io w : running w ->
  connect (H := process_socket io now wall) w None = (welcomed w, Ok (w_next_id w)).
Proof.
  intros Hr. destruct (fresh_id_unknown alive now w Hr) as [Hn _].
  unfold connect. simpl. unfold process_bus. simpl. unfold call_broker. simpl.
  unfold handle_wire. simpl. rewrite Hn. simpl. unfold hello. simpl.
  unfold deliver. simpl. rewrite bool_decide_true by set_solver. simpl.
  by rewrite first_reply_last.
Qed.

Lemma welcomed_Inv w : running w -> Inv (w_broker (welcomed w)).
Proof.
  intros Hr. destruct (fresh_id_unknown alive now w Hr) as [Hn _]. destruct Hr as [HI _ _].
  change (Inv (set_clients (<[w_next_id w := fresh_client None wall]>) (w_broker w))).
  pose proof (handle_Inv (disk_env (healthy alive) w) (w_broker w)
    (Wire (w_next_id w) (Hello BUS_PROTO_VERSION CLIENT_NAME None)) now wall) as H.
  simpl in H. unfold handle_wire in H. rewrite Hn in H. by eapply H.
Qed.

Lemma welcomed_ids w : running w -> ids_below (welcomed w).
Proof.
  intros [_ [Hc Hs] _]. split; simpl.
  - intros i. rewrite lookup_insert_is_Some'. intros [->|Hi%Hc]; lia.
  - intros i [->%elem_of_singleton|Hi%Hs]%elem_of_union; lia.
Qed.

(** A healthy disk reads a whole file to its end. *)
Lemma drain_to_end w mb : disk_whole w ->
  exists d, drain_from (disk_env (healthy alive) w) mb 0 = Ok d /\ dr_next_offset d = blen (file_of w mb).
Proof.
  intros Hd. destruct (whole_file_of w mb Hd) as (lines & Hf & Hn).
  pose proof (healthy_drain_at alive w mb [] lines Hf Hn) as H.
  eexists. split; [exact H|]. cbn [dr_next_offset app]. by rewrite Hf, blen_jsonl.
Qed.

(** What a register request does on a connection that has said Hello. *)
Lemma register_cases io v conn c nm :
  Inv (w_broker v) -> clients (w_broker v) !! conn = Some c -> conn ∈ w_senders v ->
  let r := sock_request (BusSocket := process_socket io now wall) v conn (stand_in_register nm pid) in
  (exists kind message, r.2 = Ok (ReplyErr kind message)) \/
  exists d reply cursors, drain_from (disk_env io v) (MbAgent nm) 0 = Ok d /\
    r.1 = with_cursors cursors (with_sent (w_sent v ++ [(conn, reply)])
      (with_broker (alter_client conn (bind_client nm pid None false (Some Gateway) (wall_first wall)
        (MbAgent nm) (dr_next_offset d)) (w_broker v)) v)).
Proof.
  intros HI Hc Hin. cbn [sock_request process_socket stand_in_register]. unfold process_bus. cbn [step]. unfold call_broker.
  rewrite (handle_register (disk_env io v) _ conn c nm pid None false (Some Gateway) now wall HI Hc).
  assert (Herr : forall s kind message, exists kind' message', (let (w, reply) :=
      match first_reply conn (drop (length (w_sent v)) (w_sent (execute_outs io now [err conn kind message] (with_broker s v)))) with
      | Some r => (execute_outs io now [err conn kind message] (with_broker s v), Ok r)
      | None => (execute_outs io now [err conn kind message] (with_broker s v), Err GwBrokerUnreachable)
      end in (w, map_err (fun _ => BcIo false) reply)).2 = Ok (ReplyErr kind' message')).
  { intros s kind message. exists kind, message. unfold execute_outs, err. cbn [foldl execute_out]. unfold deliver.
    cbn [with_broker w_senders]. rewrite bool_decide_true by done. cbn [with_sent w_sent with_broker].
    by rewrite first_reply_last. }
  unfold register.
  repeat match goal with |- context [if ?x then (_, [err _ _ _]) else _] => destruct x; [left; apply Herr|] end.
  destruct (drain_from _ _ _) as [d|] eqn:Ed; [|left; apply Herr].
  destruct (encode_frame _); [|left; apply Herr]. rewrite Hc. right. exists d.
  set (reply := RegisterOk _ _ _). exists reply. unfold execute_outs. cbn [foldl execute_out]. unfold deliver.
  cbn [with_broker w_senders]. rewrite bool_decide_true by done. cbn [with_sent with_cursors w_sent w_cursors with_broker].
  rewrite first_reply_last. eexists. split; [done|reflexivity].
Qed.

Lemma request_Inv io v conn msg : Inv (w_broker v) ->
  Inv (w_broker (sock_request (BusSocket := process_socket io now wall) v conn msg).1).
Proof.
  intros HI. cbn [sock_request process_socket]. unfold process_bus.
  destruct (step io true v (Frame conn msg) now wall) as [w'|w'|] eqn:E; [|exfalso; cbn [step] in E; by destruct (call_broker _ _ _ _ _) as [[]|]|done].
  destruct (first_reply _ _); simpl; by eapply step_Inv.
Qed.

Lemma stands_same w w' nm conn :
  stands w nm conn -> w_files w' = w_files w -> w_senders w ⊆ w_senders w' ->
  (forall c, clients (w_broker w) !! conn = Some c -> clients (w_broker w') !! conn = Some c) -> stands w' nm conn.
Proof.
  intros [Ho (c & Hc & Hrest)] Hf Hs Hk. split; [set_solver|]. exists c. split; [by apply Hk|].
  unfold file_of in *. by rewrite Hf.
Qed.

(** One stand-in more. *)
Lemma back_name_stands w registry registry' w' nm :
  running w -> (forall n conn, registry !! n = Some conn -> stands w n conn) ->
  back_name (H := process_socket (healthy alive) now wall) display pid nm registry w = (registry', w', Ok tt) ->
  running w' /\ w_files w' = w_files w /\ forall n conn, registry' !! n = Some conn -> stands w' n conn.
Proof.
  intros Hr Hreg. unfold back_name. destruct (registry !! nm) as [|] eqn:Enew; [done|]. cbn [is_some].
  rewrite (connect_plain _ _ Hr). cbv beta iota.
  set (v := welcomed w). set (conn := w_next_id w).
  pose proof (welcomed_Inv w Hr) as HI. pose proof (welcomed_ids w Hr) as Hids.
  destruct (fresh_id_unknown alive now w Hr) as [Hfresh _].
  assert (Hc : clients (w_broker v) !! conn = Some (fresh_client None wall)) by (simpl; by rewrite lookup_insert_eq).
  assert (Hin : conn ∈ w_senders v) by (simpl; set_solver).
  pose proof (request_Inv (healthy alive) v conn (stand_in_register nm pid) HI) as HI'.
  destruct (register_cases (healthy alive) v conn _ nm HI Hc Hin) as [(kind & message & He)|(d & reply & cursors & Hd & He)];
    destruct (sock_request _ _ _) as [w1 r]; cbn [fst snd] in *.
  { subst r. done. }
  intros Hok. assert (registry' = <[nm := conn]> registry /\ w' = w1) as [-> ->] by (repeat case_match; by simplify_eq).
  destruct Hr as [_ _ Hdisk].
  assert (Hfiles : w_files w1 = w_files w) by by subst w1.
  assert (Hsend : w_senders w ⊆ w_senders w1) by (subst w1; simpl; set_solver).
  assert (Hother : forall j c, clients (w_broker w) !! j = Some c -> clients (w_broker w1) !! j = Some c).
  { intros j c Hj. assert (conn <> j) by (intros <-; unfold conn in Hj; congruence).
    subst w1. simpl. by rewrite lookup_alter_ne, lookup_insert_ne by done. }
  split; [|split; [done|]].
  - split; [done| |unfold disk_whole; by rewrite Hfiles]. destruct Hids as [Hi1 Hi2]. subst w1. split; simpl in *; [|done].
    intros i [c Hic]. apply Hi1. rewrite lookup_alter_Some in Hic. destruct Hic as [(_ & c0 & Hc0 & _)|[_ Hc0]]; by eexists.
  - intros n c'. destruct (decide (n = nm)) as [->|Hn].
    + rewrite lookup_insert_eq. intros [= <-]. split; [by subst w1|].
      exists (bind_client nm pid None false (Some Gateway) (wall_first wall) (MbAgent nm) (dr_next_offset d) (fresh_client None wall)).
      split; [subst w1; simpl; by rewrite lookup_alter_eq, lookup_insert_eq|]. split_and!; try done.
      simpl. rewrite lookup_insert_eq. f_equal. unfold file_of. rewrite Hfiles.
      destruct (drain_to_end w (MbAgent nm) Hdisk) as (d' & Hd' & Hoff).
      change (disk_env (healthy alive) v) with (disk_env (healthy alive) w) in Hd.
      rewrite Hd in Hd'. injection Hd' as ->. exact Hoff.
    + rewrite lookup_insert_ne by done. intros Hc'. eapply stands_same; [by apply Hreg|done|done|by apply Hother].
Qed.

Lemma back_all_stands names : forall w registry registry' w',
  running w -> (forall n conn, registry !! n = Some conn -> stands w n conn) ->
  back_all (H := process_socket (healthy alive) now wall) display pid names registry w = (registry', w', Ok tt) ->
  running w' /\ w_files w' = w_files w /\ forall n conn, registry' !! n = Some conn -> stands w' n conn.
Proof.
  induction names as [|name names IH]; intros w registry registry' w' Hr Hs; cbn [back_all]; [by intros [= <- <-]|].
  destruct (back_name _ _ name registry w) as [[r1 w1] [[]|]] eqn:E; [|done].
  destruct (back_name_stands _ _ _ _ _ Hr Hs E) as (Hr1 & Hf1 & Hs1). intros Hb.
  destruct (IH _ _ _ _ Hr1 Hs1 Hb) as (Hr' & Hf' & Hs'). by rewrite Hf', Hf1.
Qed.

Lemma back_all_fresh names w registry w' : running w ->
  back_all (H := process_socket (healthy alive) now wall) display pid names ∅ w = (registry, w', Ok tt) ->
  running w' /\ w_files w' = w_files w /\ forall n conn, registry !! n = Some conn -> stands w' n conn.
Proof. intros Hr. apply back_all_stands; [done|]. intros n conn Hn. by rewrite lookup_empty in Hn. Qed.

Lemma stands_are_stand_ins io registry w :
  (forall n conn, registry !! n = Some conn -> stands w n conn) -> stand_ins io registry w.
Proof.
  intros H name conn Hreg. destruct (H _ _ Hreg) as [Ho (c & Hc & Hcon & Hn & Hor & _)]. split; [done|]. split.
  - unfold resolve_op_identity. rewrite Hc. cbv beta iota. rewrite Hcon. unfold effective_identity. rewrite Hn. done.
  - unfold client_origin. rewrite Hc. cbv beta iota. by rewrite Hn.
Qed.
End boot.

(** ** The first drain *)
Section idle.
Context `{WL : WireLib} {WLaws : WireLaws} (alive : N -> bool) (now : Instant) (wall : WallClock).

Lemma stands_owner env w nm conn : Inv (w_broker w) -> stands w nm conn ->
  resolve_await_owner env (w_broker w) conn = Ok (nm, conn) /\
  await_mailboxes (w_broker w) conn nm = [MbAgent nm] /\
  await_offset (w_broker w) conn (MbAgent nm) = blen (file_of w (MbAgent nm)).
Proof.
  intros HI [Ho (c & Hc & Hcon & Hn & Hor & Hj & Ha)]. split_and!.
  - unfold resolve_await_owner, resolve_op_identity. rewrite Hc. cbv beta iota. rewrite Hcon.
    unfold effective_identity. rewrite Hn. cbn [negb is_some].
    rewrite (proj2 (canonical_holder_iff _ nm conn HI)) by eauto. done.
  - unfold await_mailboxes. rewrite Hc, Hj. done.
  - unfold await_offset. rewrite Hc. simpl. by rewrite Ha.
Qed.

(** Everything in the mailbox lies behind the cursor. *)
Lemma nothing_behind w nm conn : disk_whole w ->
  await_offset (w_broker w) conn (MbAgent nm) = blen (file_of w (MbAgent nm)) ->
  drain_await_batch (disk_env (healthy alive) w) (w_broker w) conn (MbAgent nm) FilterAny None =
  Ok (mkBatch (MbAgent nm) [] (blen (file_of w (MbAgent nm))) true).
Proof.
  intros Hd Ho. destruct (whole_file_of w (MbAgent nm) Hd) as (lines & Hf & Hn).
  unfold drain_await_batch. rewrite Ho, Hf, blen_jsonl.
  assert (Hf' : file_of w (MbAgent nm) = jsonl (lines ++ [])) by by rewrite app_nil_r.
  assert (Hn' : Forall (fun l => NEWLINE ∉ l) (lines ++ [])) by by rewrite app_nil_r.
  rewrite (healthy_drain_at alive w (MbAgent nm) lines [] Hf' Hn'). rewrite app_nil_r.
  cbn [recs_from]. unfold walk. cbn [dr_records dr_next_offset dp_cap walk_loop wo_next_offset wo_delivered wo_fully_drained map].
  by rewrite N.min_id.
Qed.

Lemma first_drain_is_idle w nm conn t : running w -> stands w nm conn ->
  exists w', process_bus (healthy alive) now wall w conn (Await t None) = (w', Err GwBrokerUnreachable).
Proof.
  intros Hr Hs. pose proof (rn_inv _ Hr) as HI. destruct (stands_owner (disk_env (healthy alive) w) w nm conn HI Hs) as (Hown & Hmb & Hoff).
  pose proof (nothing_behind w nm conn (rn_disk _ Hr) Hoff) as Hbatch.
  assert (Hh : exists b, handle (disk_env (healthy alive) w) (w_broker w) (Wire conn (Await t None)) now wall =
    Some (b, [ParkAwait conn FilterAny (now + N.min t MAX_AWAIT_MS * 1000000)%N])).
  { destruct Hs as [_ (c & Hc & _)]. cbn [handle]. unfold handle_wire. rewrite Hc. simpl.
    rewrite (ok_handshaked c) by (by eapply (inv_clients _ HI)). simpl.
    set (s := touch_activity _ conn _).
    assert (Hsim : clients_sim (w_broker w) s) by apply touch_activity_sim.
    assert (HIs : Inv s) by by apply Inv_touch.
    unfold await_envelope. rewrite (resolve_await_owner_sim _ (w_broker w) s conn HI HIs Hsim), Hown.
    rewrite (await_mailboxes_sim (w_broker w) s) by done. rewrite Hmb. cbn [await_scan].
    unfold s. rewrite drain_await_batch_touch, touch_await_offset, Hbatch, Hoff.
    cbn [ab_next_offset ab_envelopes length]. rewrite N.eqb_refl. cbn [negb]. rewrite bool_decide_true by done. cbn [negb].
    by eexists. }
  destruct Hh as [b Hh]. unfold process_bus. cbn [step]. unfold call_broker. rewrite Hh.
  unfold execute_outs. cbn [foldl execute_out]. cbn [with_broker w_sent]. rewrite drop_all. simpl. by eexists.
Qed.
End idle.

(** C27. Over the broker process, a gateway that says it is ready leaves a running
    broker on whose mailbox files nothing has changed, and its table of stand-ins
    is right about it: each connection is open, acts for the name it is filed
    under, is that name's canonical holder and declared the gateway's origin.
    That is what the relay theorems assume of a gateway. *)
Theorem started_gateway_stands_in `{StartLib} `{CryptoLib} `{WireLaws} alive now wall
    display pid order io tls argv home w home' w' g :
  running w ->
  gateway_start (H := process_socket (healthy alive) now wall) display pid order io tls argv home w = (home', w', Ok g) ->
  running w' /\ w_files w' = w_files w /\ stand_ins (healthy alive) (gt_registry g) w' /\
  forall n conn, gt_registry g !! n = Some conn -> canonical_holder_id (w_broker w') n = Some conn.
Proof.
  intros Hr (h & h' & sk & [_ _ _ Hb _ _ _ _])%gateway_start_steps.
  destruct (back_all_fresh alive now wall display pid _ _ _ _ Hr Hb) as (Hr' & Hf & Hs).
  split_and!; [done|done|by apply stands_are_stand_ins|].
  intros n conn Hn. destruct (Hs _ _ Hn) as [_ (c & Hc & _ & Hname & _)].
  apply canonical_holder_iff; [by apply rn_inv|eauto].
Qed.

(** Finding: a gateway's start skips the backlog.  Registering a stand-in puts
    its await cursor at the end of its mailbox and answers with what is queued
    there; the gateway drops that answer, and its relay task reads from the
    cursor on.  So whatever was sent to a remote principal before its stand-in
    registered stays in the mailbox, and the first drain posts nothing, whatever
    the mailbox holds. *)
Theorem start_skips_the_backlog `{StartLib} `{CryptoLib} `{WireLaws} alive now wall
    display pid order io tls argv home w home' w' g nm conn :
  running w ->
  gateway_start (H := process_socket (healthy alive) now wall) display pid order io tls argv home w = (home', w', Ok g) ->
  gt_registry g !! nm = Some conn ->
  mailbox_log w' (MbAgent nm) = mailbox_log w (MbAgent nm) /\
  await_offset (w_broker w') conn (MbAgent nm) = blen (file_of w' (MbAgent nm)) /\
  forall {Net} `{HC : !HttpClient Net} now' wall' debug sk vk fresh (net : Net), exists w'',
    egress_turn (LB := process_bus (healthy alive) now' wall') (gt_routes g) debug nm (gt_registry g)
      (gt_own_domain g) sk vk fresh net w' = Some (net, w'').
Proof.
  intros Hr (h & h' & sk & [_ _ _ Hb _ _ _ _])%gateway_start_steps Hn.
  destruct (back_all_fresh alive now wall display pid _ _ _ _ Hr Hb) as (Hr' & Hf & Hs).
  specialize (Hs _ _ Hn). split_and!.
  - unfold mailbox_log, file_of. by rewrite Hf.
  - by apply (stands_owner (disk_env (healthy alive) w') w' nm conn (rn_inv _ Hr') Hs).
  - intros Net HC now' wall' debug sk' vk fresh net.
    destruct (first_drain_is_idle alive now' wall' w' nm conn AWAIT_TIMEOUT_MS Hr' Hs) as [w'' Hw].
    unfold egress_turn. rewrite Hn. unfold send_recv. rewrite Hw. simpl. by eexists.
Qed.

(** ** A concrete start *)
#[export] Instance any_url : StartLib := {| url_parse s := Ok s; addr_parse s := Ok s |}.

Definition boot_words : list Word :=
  [WFlag "--listen" "127.0.0.1:8443"; WFlag "--tls-cert" "cert.pem"; WFlag "--tls-key" "key.pem";
   WFlag "--peer" "c.test=https://c.test:9443"; WName "carol"].
Definition boot_argv : list string := "famp-gateway" :: flat_map spell boot_words.
Definition bound_argv : list string :=
  boot_argv ++ ["dave"; "--backs"; "agent:c.test/carol"].

(** Bob wrote to carol, who is on another host, before any gateway ran. *)
Definition waiting_turns : list Turn :=
  boot_turns ++ [turn (Frame 1 (Send (TgtAgent "carol") (msg_from "agent:h/bob")))].
Definition w_waiting : World := world_of (run_loop false w_boot waiting_turns) w_boot.

Lemma w_waiting_running : running w_waiting.
Proof.
  assert (Hrun : exists w, run_loop false w_boot waiting_turns = Running w /\ w_waiting = w).
  { unfold w_waiting. destruct (run_loop false w_boot waiting_turns) as [w|w|] eqn:E;
      [exists w; split; reflexivity|exfalso; vm_compute in E; discriminate E..]. }
  destruct Hrun as (w & Hrun & Hw). split.
  - rewrite Hw. exact (run_loop_Inv false w_boot waiting_turns w (Inv_new 0) Hrun).
  - rewrite Hw. exact (bk_ids _ _ _ _ (books_run _ waiting_turns w_boot w 0 0 (books_boot _ _ _ _ _) eq_refl Hrun)).
  - assert (Hf : w_files w_waiting = {["carol.jsonl" := jsonl [bob_line]]}) by (vm_compute; reflexivity).
    intros p f. rewrite Hf. intros [<- <-]%lookup_singleton_Some. exists [bob_line]. split; [done|].
    apply Forall_singleton. apply (bool_decide_unpack _). vm_compute. exact I.
Qed.

Definition boot_home : PeerHome := mkPeerHome (Some (save_to_file demo_rotated)) None (Some "a.test") TfMissing.
Definition boot_run (argv : list string) : option PeerHome * World * result ReadyGateway StartError :=
  gateway_start (H := process_socket (healthy (fun _ => true)) 0 wall0) (fun _ => "error") 42 (fun l => l) calm_io true
    argv (Some boot_home) w_waiting.

Lemma boot_runs argv : is_ok (boot_run argv).2 = true -> exists home' w' g, boot_run argv = (home', w', Ok g).
Proof. destruct (boot_run argv) as [[home' w'] [g|]]; [|done]. by exists home', w', g. Qed.

Lemma routes_are_declared_witness :
  exists ws, flat_map spell boot_words = flat_map spell ws /\
    declared ws (mkPrincipal "c.test" "carol") "https://c.test:9443".
Proof.
  destruct (boot_runs boot_argv) as (home' & w' & g & E); [vm_compute; reflexivity|].
  destruct (routes_are_declared (BS := process_socket (healthy (fun _ => true)) 0 wall0) (fun _ => "error") 42
    (fun l => l) calm_io true "famp-gateway" (flat_map spell boot_words) (Some boot_home) w_waiting home' w' g)
    as (ws & Hws & _ & _ & Hroutes & _); [intros l; reflexivity|exact E|].
  exists ws. split; [exact Hws|]. apply Hroutes.
  apply (f_equal (fun r => match r.2 with Ok g => gt_routes g !! mkPrincipal "c.test" "carol" | Err _ => None end)) in E.
  vm_compute in E. symmetry. exact E.
Qed.

Lemma ready_gateway_is_loaded_witness :
  exists h h' sk, Some boot_home = Some h /\
    (forall io', po_identity_readable io' = true -> load_or_generate io' h' = (h', Ok sk)) /\
    exists g, storable (gt_keyring g) /\ active_key (gt_keyring g) demo_peer (demo_now "5") = LkActive (demo_key x02).
Proof.
  destruct (boot_runs boot_argv) as (home' & w' & g & E); [vm_compute; reflexivity|].
  destruct (ready_gateway_is_loaded (BS := process_socket (healthy (fun _ => true)) 0 wall0) (fun _ => "error") 42
    (fun l => l) calm_io true boot_argv (Some boot_home) w_waiting home' w' g)
    as (h & h' & sk & Hh & _ & _ & _ & Hsk & _ & _ & Hst); [reflexivity|exact E|].
  exists h, h', sk. split; [exact Hh|]. split; [exact Hsk|]. exists g. split; [exact Hst|].
  apply (f_equal (fun r => match r.2 with Ok g => active_key (gt_keyring g) demo_peer (demo_now "5") | Err _ => LkUnpinned end)) in E.
  vm_compute in E. symmetry. exact E.
Qed.

Definition dead_net : HttpClient unit := {| url_has_path _ := true; http_post n _ _ _ := (n, HttpFailed "down") |}.

Lemma unbound_name_has_no_route_witness :
  exists home' w' g, boot_run bound_argv = (home', w', Ok g) /\ is_Some (gt_registry g !! "dave") /\
    forall msg, pr_name (tm_recipient msg) = "dave" ->
      http_send (H := dead_net) (gt_routes g) tt msg = (tt, Err (HtUnknownRecipient (tm_recipient msg))).
Proof.
  destruct (boot_runs bound_argv) as (home' & w' & g & E); [vm_compute; reflexivity|].
  exists home', w', g. split; [exact E|].
  assert (Ha : gt_args g = match parse_args bound_argv with Ok a => a | Err _ => no_args end).
  { apply (f_equal (fun r => match r.2 with Ok g => gt_args g | Err _ => no_args end)) in E. cbn [snd] in E.
    rewrite <- E. vm_compute. reflexivity. }
  destruct (unbound_name_has_no_route (BS := process_socket (healthy (fun _ => true)) 0 wall0) (HC := dead_net)
    (fun _ => "error") 42 (fun l => l) calm_io true bound_argv (Some boot_home) w_waiting home' w' g "dave" E)
    as [Hs Hroute].
  - rewrite Ha. apply (bool_decide_unpack _). vm_compute. exact I.
  - rewrite Ha. vm_compute. discriminate.
  - rewrite Ha. intros p Hp. assert (p ∈ [mkPrincipal "c.test" "carol"]) as ->%list_elem_of_singleton by exact Hp.
    discriminate.
  - split; [exact Hs|]. intros msg Hm. exact (Hroute tt msg Hm).
Qed.

Lemma started_gateway_stands_in_witness :
  exists home' w' g, boot_run boot_argv = (home', w', Ok g) /\ running w' /\
    stand_ins (healthy (fun _ => true)) (gt_registry g) w' /\ canonical_holder_id (w_broker w') "carol" = Some 2%N.
Proof.
  destruct (boot_runs boot_argv) as (home' & w' & g & E); [vm_compute; reflexivity|].
  exists home', w', g. split; [exact E|].
  destruct (started_gateway_stands_in (fun _ => true) 0 wall0 (fun _ => "error") 42 (fun l => l) calm_io true boot_argv
    (Some boot_home) w_waiting home' w' g w_waiting_running E) as (Hr & _ & Hs & Hc).
  split; [exact Hr|]. split; [exact Hs|]. apply Hc.
  apply (f_equal (fun r => match r.2 with Ok g => gt_registry g !! "carol" | Err _ => None end)) in E.
  vm_compute in E. symmetry. exact E.
Defined.

Lemma start_skips_the_backlog_witness :
  exists home' w' g, boot_run boot_argv = (home', w', Ok g) /\
    mailbox_log w' (MbAgent "carol") = [(Local, msg_from "agent:h/bob")] /\
    await_offset (w_broker w') 2%N (MbAgent "carol") = blen (file_of w' (MbAgent "carol")).
Proof.
  destruct (boot_runs boot_argv) as (home' & w' & g & E); [vm_compute; reflexivity|].
  exists home', w', g. split; [exact E|].
  destruct (start_skips_the_backlog (fun _ => true) 0 wall0 (fun _ => "error") 42 (fun l => l) calm_io true boot_argv
    (Some boot_home) w_waiting home' w' g "carol" 2%N w_waiting_running E) as (Hlog & Hoff & _).
  - apply (f_equal (fun r => match r.2 with Ok g => gt_registry g !! "carol" | Err _ => None end)) in E.
    vm_compute in E. symmetry. exact E.
  - split; [|exact Hoff]. rewrite Hlog. vm_compute. reflexivity.
Qed.
