(* ===== verification/HookScan.v ===== *)
(** * The Stop hook: what a session's transcript says

    [crates/famp/src/cli/hook/{transcript,stdin}.rs]: the payload a host hands to
    its stop hook, and the replay of a transcript's last two megabytes that finds
    out whether the session is listening and under which name.  Parsing a line is
    [from_slice] of [WireLib]. *)

From Stdlib Require Import Strings.Byte Ascii.
From stdpp Require Import gmap strings list pretty.
From S2P Require Import Prelude Json Proto Principal Keyring Render Receive McpTools TaskDir.

(** ** [String::from_utf8_lossy]

    Every maximal invalid piece, a truncated sequence included, becomes one
    U+FFFD. *)
Definition between (lo hi : N) (b : byte) : bool := (lo <=? Byte.to_N b)%N && (Byte.to_N b <=? hi)%N.
Definition continuation (b : byte) : bool := between 128 191 b.
Definition second_of_three (b0 b1 : byte) : bool :=
  if between 224 224 b0 then between 160 191 b1
  else if between 237 237 b0 then between 128 159 b1
  else continuation b1.
Definition second_of_four (b0 b1 : byte) : bool :=
  if between 240 240 b0 then between 144 191 b1
  else if between 244 244 b0 then between 128 143 b1
  else continuation b1.
Definition REPLACEMENT : bytes := [xef; xbf; xbd].

Fixpoint utf8_lossy (b : bytes) : bytes :=
  match b with
  | [] => []
  | b0 :: t0 =>
      if between 0 127 b0 then b0 :: utf8_lossy t0
      else if between 194 223 b0 then
        match t0 with
        | [] => REPLACEMENT
        | b1 :: t1 => if continuation b1 then b0 :: b1 :: utf8_lossy t1 else REPLACEMENT ++ utf8_lossy t0
        end
      else if between 224 239 b0 then
        match t0 with
        | [] => REPLACEMENT
        | b1 :: t1 =>
            if negb (second_of_three b0 b1) then REPLACEMENT ++ utf8_lossy t0 else
            match t1 with
            | [] => REPLACEMENT
            | b2 :: t2 =>
                if continuation b2 then b0 :: b1 :: b2 :: utf8_lossy t2 else REPLACEMENT ++ utf8_lossy t1
            end
        end
      else if between 240 244 b0 then
        match t0 with
        | [] => REPLACEMENT
        | b1 :: t1 =>
            if negb (second_of_four b0 b1) then REPLACEMENT ++ utf8_lossy t0 else
            match t1 with
            | [] => REPLACEMENT
            | b2 :: t2 =>
                if negb (continuation b2) then REPLACEMENT ++ utf8_lossy t1 else
                match t2 with
                | [] => REPLACEMENT
                | b3 :: t3 =>
                    if continuation b3 then b0 :: b1 :: b2 :: b3 :: utf8_lossy t3
                    else REPLACEMENT ++ utf8_lossy t2
                end
            end
        end
      else REPLACEMENT ++ utf8_lossy t0
  end.

(** ** The hook's input: [stdin.rs] *)
Record StopHookInput := mkHookInput {
  hi_transcript_path : option string; hi_session_id : option string; hi_reason : option string }.
Definition no_input : StopHookInput := mkHookInput None None None.

Definition nonempty_str (v : Value) : option string :=
  s ← as_str v; if String.eqb s EmptyString then None else Some s.

(** The first of two keys that is present, whatever it holds. *)
Definition get_either (v : Value) (k k' : string) : option Value :=
  match get v k with Some x => Some x | None => get v k' end.
Definition str_field (obj : Value) (snake camel : string) : option string :=
  get_either obj snake camel ≫= nonempty_str.

Section scan.
Context `{WL : WireLib}.

Definition from_str (s : string) : result Value string := from_slice (String.list_byte_of_string s).

Definition parse_stop_hook_json (raw : string) : StopHookInput :=
  match from_str raw with
  | Ok (VObject m) =>
      let v := VObject m in
      mkHookInput (str_field v "transcript_path" "transcriptPath") (str_field v "session_id" "sessionId")
        (str_field v "reason" "reason")
  | _ => no_input
  end.

(** ** Control actions: [transcript.rs] *)
Inductive ActionKind := ActRegister | ActSetListen.
Record Action := mkAction {
  ac_tool_use_id : string; ac_kind : ActionKind; ac_identity : string; ac_listen : option bool }.

Inductive ListenState := LsActive (identity : string) | LsExplicitlyOff | LsUnresolved.

Definition parse_tool_args (raw : Value) : Value :=
  match raw with
  | VObject _ => raw
  | VString s => match from_str s with Ok v => v | Err _ => VObject [] end
  | _ => VObject []
  end.

Definition listen_flag (args : Value) : option bool := get args "listen" ≫= as_bool.
Definition identity_from_args (args : Value) : option string := get_either args "identity" "name" ≫= nonempty_str.

(** [str::to_lowercase] as far as the two patterns below can see it: no letter
    outside ASCII is lowered to one they contain without a mark after it. *)
Definition lower (c : ascii) : ascii :=
  if ascii_between "A"%char "Z"%char c then ascii_of_nat (nat_of_ascii c + 32) else c.
Fixpoint squeezed (s : string) : string :=
  match s with
  | EmptyString => EmptyString
  | String c s => if Ascii.eqb c " "%char then squeezed s else String (lower c) (squeezed s)
  end.
Definition quoted (s : string) : string := String DQUOTE (s +:+ String DQUOTE EmptyString).
Definition function_output_success (payload : Value) : bool :=
  let lowered := squeezed (default EmptyString (get_str payload "output")) in
  negb (str_contains (quoted "iserror" +:+ ":true") lowered) &&
  negb (str_contains (quoted "is_error" +:+ ":true") lowered).

Definition ends_with (suffix s : string) : bool := is_some (strip_suffix suffix s).

(** The scan's accumulator: the actions in order and the outcome per call. *)
Abbreviation scan_state := (list Action * gmap string bool)%type.

(** Strict: only JSON [true] counts. *)
Definition is_true (v : option Value) : bool := match v with Some (VBool true) => true | _ => false end.

Definition is_object (v : Value) : bool := match v with VObject _ => true | _ => false end.
Definition object_or (v : option Value) (d : Value) : Value :=
  match v with Some (VObject m) => VObject m | _ => d end.
Definition str_or_empty (v : Value) (k : string) : string := default EmptyString (get_str v k).

Definition claude_block (st : scan_state) (block : Value) : scan_state :=
  let '(actions, results) := st in
  if negb (is_object block) then st else
  let t := str_or_empty block "type" in
  let name := str_or_empty block "name" in
  if String.eqb t "tool_use" then
    let inp := parse_tool_args (default VNull (get block "input")) in
    let uid := str_or_empty block "id" in
    if ends_with "famp_register" name then
      match identity_from_args inp with
      | Some ident =>
          if String.eqb uid EmptyString then st
          else (actions ++ [mkAction uid ActRegister ident (listen_flag inp)], results)
      | None => st
      end
    else if ends_with "famp_set_listen" name && negb (String.eqb uid EmptyString) then
      (actions ++ [mkAction uid ActSetListen EmptyString (listen_flag inp)], results)
    else st
  else if String.eqb t "tool_result" then
    match get_str block "tool_use_id" with
    | Some uid => (actions, <[uid := negb (is_true (get block "is_error"))]> results)
    | None => st
    end
  else st.

Definition parse_claude_format (ev : Value) (st : scan_state) : scan_state :=
  let msg := object_or (get ev "message") ev in
  match get msg "content" with
  | Some (VArray content) => foldl claude_block st content
  | _ => st
  end.

(** A call of [tool] under the id [uid]. *)
Definition control_action (tool uid : string) (args : Value) : option Action :=
  if ends_with "famp_register" tool then
    ident ← identity_from_args args; Some (mkAction uid ActRegister ident (listen_flag args))
  else if ends_with "famp_set_listen" tool then Some (mkAction uid ActSetListen EmptyString (listen_flag args))
  else None.

Definition codex_function_call (payload : Value) (pos : N) (st : scan_state) : scan_state :=
  let '(actions, results) := st in
  let namespace := str_or_empty payload "namespace" in
  let tool := if negb (String.eqb namespace EmptyString) && negb (String.eqb namespace "mcp__famp")
              then EmptyString else str_or_empty payload "name" in
  let args := parse_tool_args (default VNull (get payload "arguments")) in
  let uid := default ("codex-fc:" +:+ pretty pos) (get_str payload "call_id") in
  match control_action tool uid args with Some a => (actions ++ [a], results) | None => st end.

Definition codex_function_output (payload : Value) (st : scan_state) : scan_state :=
  let '(actions, results) := st in
  match get_str payload "call_id" with
  | Some uid => if is_some (results !! uid) then st
                else (actions, <[uid := function_output_success payload]> results)
  | None => st
  end.

Definition codex_mcp_call (payload : Value) (pos : N) (st : scan_state) : scan_state :=
  let '(actions, results) := st in
  let inv := object_or (get payload "invocation") (VObject []) in
  let server := str_or_empty inv "server" in
  let tool := if negb (String.eqb server EmptyString) && negb (String.eqb server "famp")
              then EmptyString else str_or_empty inv "tool" in
  let args := parse_tool_args (default VNull (get inv "arguments")) in
  let result := object_or (get payload "result") (VObject []) in
  let ok := match get result "Ok" with
            | Some (VObject m) => negb (is_true (obj_get "isError" m))
            | _ => false
            end in
  let uid := default ("codex:" +:+ pretty pos) (get_str payload "call_id") in
  match control_action tool uid args with
  | Some a => (actions ++ [a], <[uid := ok]> results)
  | None => st
  end.

Definition parse_codex_format (ev : Value) (pos : N) (st : scan_state) : scan_state :=
  match get ev "payload" with
  | Some (VObject m) =>
      let payload := VObject m in
      let ptype := str_or_empty payload "type" in
      if String.eqb ptype "function_call" then codex_function_call payload pos st
      else if String.eqb ptype "function_call_output" then codex_function_output payload st
      else if String.eqb ptype "mcp_tool_call_end" then codex_mcp_call payload pos st
      else st
  | _ => st
  end.

Fixpoint scan_lines (pos : N) (lines : list string) (st : scan_state) : scan_state :=
  match lines with
  | [] => st
  | line :: lines =>
      let pos := (pos + 1)%N in
      match from_str line with
      | Ok ev => scan_lines pos lines (parse_codex_format ev pos (parse_claude_format ev st))
      | Err _ => scan_lines pos lines st
      end
  end.

(** ** The last two megabytes *)
Definition MAX_BYTES : N := 2000000%N.

Fixpoint after_newline (s : string) : option string :=
  match s with
  | EmptyString => None
  | String c s => if Ascii.eqb c LF then Some s else after_newline s
  end.

Definition transcript_tail (file : bytes) : string :=
  let offset := (blen file - MAX_BYTES)%N in
  let tail := String.string_of_list_byte (utf8_lossy (drop (N.to_nat offset) file)) in
  if (0 <? offset)%N then default tail (after_newline tail) else tail.

Definition scan_transcript (file : bytes) : scan_state :=
  scan_lines 0 (file_lines (transcript_tail file)) ([], ∅).

(** ** The replay *)
Record Replay := mkReplay { rp_active : string; rp_last_identity : string; rp_explicit_off : bool }.
Definition replay_start : Replay := mkReplay EmptyString EmptyString false.

Definition is_off (a : Action) : bool := bool_decide (ac_listen a = Some false).

Definition replay_action (r : Replay) (a : Action) : Replay :=
  match ac_kind a with
  | ActRegister =>
      let last := if String.eqb (ac_identity a) EmptyString then rp_last_identity r else ac_identity a in
      if is_off a then mkReplay EmptyString last true else mkReplay (ac_identity a) last false
  | ActSetListen =>
      if is_off a then mkReplay EmptyString (rp_last_identity r) true
      else if negb (String.eqb (rp_last_identity r) EmptyString)
      then mkReplay (rp_last_identity r) (rp_last_identity r) false
      else r
  end.

Definition succeeded (results : gmap string bool) (a : Action) : bool :=
  default false (results !! ac_tool_use_id a).

Definition replay_actions (st : scan_state) : ListenState :=
  let '(actions, results) := st in
  let r := foldl (fun r a => if succeeded results a then replay_action r a else r) replay_start actions in
  if negb (String.eqb (rp_active r) EmptyString) then LsActive (rp_active r)
  else if rp_explicit_off r then LsExplicitlyOff
  else LsUnresolved.

(** [None] is a file that cannot be read. *)
Definition extract_listen_state (file : option bytes) : ListenState :=
  match file with Some b => replay_actions (scan_transcript b) | None => LsUnresolved end.
End scan.

(** ** Validation *)
Definition hook_identity_char (c : ascii) : bool :=
  is_alphanumeric c || Ascii.eqb c "."%char || Ascii.eqb c "_"%char || Ascii.eqb c DASH.
Definition validate_identity (identity : string) : bool :=
  negb (String.eqb identity EmptyString) && (String.length identity <=? 64)%nat &&
  negb (contains LF identity) && string_forall hook_identity_char identity.
Definition sender_char (c : ascii) : bool :=
  is_alphanumeric c || Ascii.eqb c "@"%char || Ascii.eqb c "."%char || Ascii.eqb c "_"%char ||
  Ascii.eqb c ":"%char || Ascii.eqb c "/"%char || Ascii.eqb c DASH.
Definition validate_sender (sender : string) : bool :=
  negb (String.eqb sender EmptyString) && (String.length sender <=? 128)%nat && string_forall sender_char sender.
