(* ===== verification/StopLock.v ===== *)
(** * The stop hook's lock file

    [crates/famp/src/cli/hook/lock.rs]: one file per identity, created with
    [O_EXCL], holding its holder's process id.  Acquiring it is a handful of
    system calls and processes interleave between them, so a process is a program
    counter and a step is one call.  A file is an inode: a handle opened before
    the name was removed still writes the removed file.  The identity is fixed;
    the name is [root/identity.lock]. *)

From Stdlib Require Import Ascii Lia.
From stdpp Require Import gmap strings list pretty.
From S2P Require Import Prelude Json Proto Principal InboxReader Keyring KeyringFile Client.

(** [LOCK_JUST_BORN_GRACE], in seconds. *)
Definition LOCK_JUST_BORN_GRACE : N := 30%N.

Definition parse_u32 (s : string) : option N := n ← parse_u64 s; if (n <=? u32_max)%N then Some n else None.

Record LockFile := mkLockFile { lf_text : string; lf_mtime : N }.

(** The name's inode and the contents of every inode. *)
Record LockFs := mkLockFs { fs_name : option N; fs_inodes : gmap N LockFile; fs_next : N }.
Definition fs_empty : LockFs := mkLockFs None ∅ 0.

Definition fs_read (fs : LockFs) : option LockFile := fs_name fs ≫= fun i => fs_inodes fs !! i.
(** [create_new]; the inode it opens. *)
Definition fs_create (now : N) (fs : LockFs) : option (LockFs * N) :=
  match fs_name fs with
  | Some _ => None
  | None =>
      let i := fs_next fs in
      Some (mkLockFs (Some i) (<[i := mkLockFile EmptyString now]> (fs_inodes fs)) (i + 1), i)
  end.
Definition fs_write (i : N) (text : string) (now : N) (fs : LockFs) : LockFs :=
  mkLockFs (fs_name fs) (alter (fun f => mkLockFile (lf_text f +:+ text) now) i (fs_inodes fs)) (fs_next fs).
Definition fs_remove (fs : LockFs) : LockFs := mkLockFs None (fs_inodes fs) (fs_next fs).

(** Where a process stands in [try_acquire_in]; [PcWrite] carries the handle of
    [create_and_claim] and whether this is the retry. *)
Inductive Pc :=
| PcCreate | PcWrite (i : N) (retry : bool) | PcRead | PcGrace | PcRemove | PcRecreate
| PcHeld | PcGaveUp.

(** What the contents say of the holder. *)
Inductive Holder := HolderAlive | HolderStale | HolderUnnamed.
Definition classify (alive : N -> bool) (contents : option LockFile) : Holder :=
  match (fun f => trim (lf_text f)) <$> contents with
  | Some s =>
      if String.eqb s EmptyString then HolderUnnamed else
      match parse_u32 s with
      | Some pid => if alive pid then HolderAlive else HolderStale
      | None => HolderStale
      end
  | None => HolderUnnamed
  end.

(** [lock_is_within_grace]; a time in the future is fresh. *)
Definition within_grace (now : N) (contents : option LockFile) : bool :=
  match contents with
  | None => false
  | Some f => (now <? lf_mtime f)%N || (now - lf_mtime f <? LOCK_JUST_BORN_GRACE)%N
  end.

Definition pid_line (pid : N) : string := pretty pid +:+ String LF EmptyString.

(** One system call of process [pid]; [written] is whether a write succeeds. *)
Definition lock_call (alive : N -> bool) (now : N) (written : bool) (pid : N) (fs : LockFs) (pc : Pc) : LockFs * Pc :=
  match pc with
  | PcCreate => match fs_create now fs with Some (fs, i) => (fs, PcWrite i false) | None => (fs, PcRead) end
  | PcWrite i retry =>
      if written then (fs_write i (pid_line pid) now fs, PcHeld)
      else (fs, if retry then PcGaveUp else PcRead)
  | PcRead =>
      (fs, match classify alive (fs_read fs) with
           | HolderAlive => PcGaveUp | HolderStale => PcRemove | HolderUnnamed => PcGrace
           end)
  | PcGrace => (fs, if within_grace now (fs_read fs) then PcGaveUp else PcRemove)
  | PcRemove => (fs_remove fs, PcRecreate)
  | PcRecreate => match fs_create now fs with Some (fs, i) => (fs, PcWrite i true) | None => (fs, PcGaveUp) end
  | PcHeld | PcGaveUp => (fs, pc)
  end.

(** [try_acquire_in] run without interruption; seven calls reach an end. *)
Fixpoint acquire_calls (fuel : nat) (alive : N -> bool) (now : N) (written : bool) (pid : N) (fs : LockFs) (pc : Pc) :
    LockFs * Pc :=
  match fuel with
  | O => (fs, pc)
  | S fuel => let '(fs, pc) := lock_call alive now written pid fs pc in acquire_calls fuel alive now written pid fs pc
  end.
Definition try_acquire (alive : N -> bool) (now : N) (written : bool) (pid : N) (fs : LockFs) : LockFs * bool :=
  let '(fs, pc) := acquire_calls 8 alive now written pid fs PcCreate in
  (fs, match pc with PcHeld => true | _ => false end).

(** [Drop]: the name is removed, whoever's file it is now. *)
Definition release (fs : LockFs) : LockFs := fs_remove fs.

(** ** Processes interleaving *)
Record LockWorld := mkLockWorld { lw_fs : LockFs; lw_procs : gmap N Pc; lw_dead : gset N }.

Inductive LockEvent :=
| LkCall (pid now : N) (written : bool)   (* the next call of a process *)
| LkRelease (pid : N)                      (* a holder drops its guard *)
| LkDie (pid : N).                         (* a process ends without dropping it *)

Definition pc_of (w : LockWorld) (pid : N) : Pc := default PcCreate (lw_procs w !! pid).
Definition lives (w : LockWorld) (pid : N) : bool := negb (bool_decide (pid ∈ lw_dead w)).

Definition lock_step (w : LockWorld) (e : LockEvent) : LockWorld :=
  match e with
  | LkCall pid now written =>
      if negb (lives w pid) then w else
      let '(fs, pc) := lock_call (lives w) now written pid (lw_fs w) (pc_of w pid) in
      mkLockWorld fs (<[pid := pc]> (lw_procs w)) (lw_dead w)
  | LkRelease pid =>
      if lives w pid && match pc_of w pid with PcHeld => true | _ => false end
      then mkLockWorld (release (lw_fs w)) (delete pid (lw_procs w)) (lw_dead w) else w
  | LkDie pid => mkLockWorld (lw_fs w) (delete pid (lw_procs w)) ({[pid]} ∪ lw_dead w)
  end.
Definition lock_run (w : LockWorld) (es : list LockEvent) : LockWorld := foldl lock_step w es.
Definition no_locks : LockWorld := mkLockWorld fs_empty ∅ ∅.

Definition holds (w : LockWorld) (pid : N) : Prop := lives w pid = true /\ pc_of w pid = PcHeld.

(** ** What the stop hook's lock promises

    [StopLock]'s acquisition run without interruption: what it answers, that at
    most one living process then holds the lock, and that a holder that died is no
    obstacle.  Interleaved call by call it does not keep the promise. *)

(** ** The holder's line *)
Lemma digits_plain s : string_forall is_digit s = true -> string_forall plain s = true.
Proof. apply string_forall_impl. intros [[] [] [] [] [] [] [] []]; done. Qed.

Lemma trim_line s :
  string_forall plain s = true -> s <> EmptyString -> trim (s +:+ String LF EmptyString) = s.
Proof.
  intros Hs Hne. destruct s as [|c s]; [done|]. unfold trim.
  assert (trim_start (String c s +:+ String LF EmptyString) = String c s +:+ String LF EmptyString) as ->.
  { apply andb_true_iff in Hs as [Hc _]. unfold trim_start.
    change (String c s +:+ ?t) with (String c (s +:+ t)). cbn [trim_ws]. by rewrite plain_ws. }
  clear Hne. revert c Hs. induction s as [|d s IH]; intros c Hs.
  - apply andb_true_iff in Hs as [Hc _]. change (String c EmptyString +:+ ?t) with (String c t).
    cbn [trim_end]. unfold trim_start at 1. cbn [trim_ws]. rewrite plain_ws by done. done.
  - pose proof (andb_prop _ _ Hs) as [Hc Hs']. change (String c ?s +:+ ?t) with (String c (s +:+ t)).
    cbn [trim_end]. rewrite (IH d Hs'). unfold trim_start. cbn [trim_ws]. by rewrite plain_ws.
Qed.

Lemma pretty_digits (x : N) : string_forall is_digit (pretty x) = true.
Proof. unfold pretty, pretty_N. case_decide; [done|]. by apply pretty_go_digits. Qed.

Lemma pretty_nonempty (x : N) : pretty x <> EmptyString.
Proof.
  unfold pretty, pretty_N. case_decide; [done|]. apply pretty_go_nonempty. lia.
Qed.

Lemma read_pid pid : (pid <= u32_max)%N -> parse_u32 (trim (pid_line pid)) = Some pid /\ trim (pid_line pid) <> EmptyString.
Proof.
  intros Hp. unfold pid_line. rewrite trim_line by (apply digits_plain, pretty_digits || apply pretty_nonempty).
  split; [|apply pretty_nonempty]. unfold parse_u32. rewrite parse_pretty; [|by unfold u32_max, u64_max in *; lia].
  simpl. by rewrite (proj2 (N.leb_le _ _)).
Qed.

Lemma pid_line_inj p q : pid_line p = pid_line q -> p = q.
Proof.
  intros H. unfold pid_line in H. apply (f_equal trim_end_lf) in H.
  rewrite !trim_digits_lf in H by apply pretty_digits. by apply (inj pretty) in H.
Qed.

(** A file that names a living process is in use. *)
Lemma classify_named alive pid t : (pid <= u32_max)%N -> alive pid = true ->
  classify alive (Some (mkLockFile (pid_line pid) t)) = HolderAlive.
Proof.
  intros Hp Ha. destruct (read_pid pid Hp) as [Hr Hne]. cbv [classify fmap option_fmap option_map lf_text].
  destruct (String.eqb_spec (trim (pid_line pid)) EmptyString); [done|]. by rewrite Hr, Ha.
Qed.

(** ** The acquisition as a function *)

(** What the code promises: a lock is in use while its file names a living
    process, or names none and is younger than the grace period. *)
Definition in_use (alive : N -> bool) (now : N) (contents : option LockFile) : bool :=
  match contents with
  | None => false
  | Some f => match classify alive (Some f) with
              | HolderAlive => true | HolderStale => false | HolderUnnamed => within_grace now (Some f) end
  end.

(** Every name stands for an inode, below the next free one. *)
Definition fs_wf (fs : LockFs) : Prop :=
  match fs_name fs with Some i => is_Some (fs_inodes fs !! i) | None => True end.

Lemma fs_read_wf fs : fs_wf fs -> fs_read fs = None <-> fs_name fs = None.
Proof. unfold fs_wf, fs_read. destruct (fs_name fs) as [i|]; simpl; [|done]. intros [f ->]. done. Qed.

(** An unnamed file aged [0] seconds is within its grace. *)
Lemma newborn now text : within_grace now (Some (mkLockFile text now)) = true.
Proof. unfold within_grace, LOCK_JUST_BORN_GRACE. simpl. rewrite N.ltb_irrefl, N.sub_diag. done. Qed.

Lemma calls_done n alive now written pid fs pc :
  pc = PcHeld \/ pc = PcGaveUp -> acquire_calls n alive now written pid fs pc = (fs, pc).
Proof. intros H. induction n as [|n IH]; [done|]. destruct H as [-> | ->]; exact IH. Qed.

(** The new file, with the process's line or still empty. *)
Lemma claimed alive now written pid fs i fs' retry n :
  fs_create now fs = Some (fs', i) ->
  exists fs'' pc, acquire_calls (S (S (S n))) alive now written pid fs' (PcWrite i retry) = (fs'', pc) /\
    fs_wf fs'' /\ pc = (if written then PcHeld else PcGaveUp) /\
    fs_read fs'' = Some (mkLockFile (if written then pid_line pid else EmptyString) now).
Proof.
  unfold fs_create. destruct (fs_name fs) eqn:E; [done|]. intros [= <- <-].
  destruct written.
  - cbn [acquire_calls lock_call]. rewrite calls_done by (by left).
    eexists _, _. split; [done|]. unfold fs_wf, fs_read, fs_write. simpl.
    rewrite lookup_alter_eq, lookup_insert_eq. done.
  - destruct retry.
    + cbn [acquire_calls lock_call]. rewrite calls_done by (by right).
      eexists _, _. split; [done|]. unfold fs_wf, fs_read. simpl. rewrite lookup_insert_eq. done.
    + set (fs' := mkLockFs _ _ _). assert (Hr : fs_read fs' = Some (mkLockFile EmptyString now)).
      { unfold fs_read, fs'. simpl. by rewrite lookup_insert_eq. }
      cbn [acquire_calls lock_call]. rewrite Hr. unfold classify; simpl.
      rewrite Hr, newborn. rewrite calls_done by (by right).
      eexists _, _. split; [done|]. split; [|done]. unfold fs_wf, fs'. simpl. by rewrite lookup_insert_eq.
Qed.

Lemma calls_S n alive now written pid fs pc :
  acquire_calls (S n) alive now written pid fs pc =
  let '(fs, pc) := lock_call alive now written pid fs pc in acquire_calls n alive now written pid fs pc.
Proof. done. Qed.

(** The outcome of a lock that is not in use. *)
Definition claims (written : bool) (now pid : N) (fs' : LockFs) (pc : Pc) : Prop :=
  fs_wf fs' /\ pc = (if written then PcHeld else PcGaveUp) /\
  fs_read fs' = Some (mkLockFile (if written then pid_line pid else EmptyString) now).

Lemma reclaimed n alive now written pid fs :
  exists fs' pc, acquire_calls (5 + n) alive now written pid fs PcRemove = (fs', pc) /\ claims written now pid fs' pc.
Proof.
  change (5 + n)%nat with (S (S (3 + n))). rewrite calls_S. cbn [lock_call]. rewrite calls_S. cbn [lock_call].
  destruct (fs_create now (fs_remove fs)) as [[fs' j]|] eqn:Ec; [|done].
  exact (claimed alive now written pid _ j fs' true n Ec).
Qed.

Lemma acquire_spec alive now written pid fs :
  fs_wf fs ->
  exists fs' pc, acquire_calls 8 alive now written pid fs PcCreate = (fs', pc) /\
    if in_use alive now (fs_read fs) then fs' = fs /\ pc = PcGaveUp else claims written now pid fs' pc.
Proof.
  intros Hwf. rewrite calls_S. cbn [lock_call].
  destruct (fs_create now fs) as [[fs' j]|] eqn:Ec.
  - assert (fs_read fs = None) as ->.
    { apply fs_read_wf; [done|]. unfold fs_create in Ec. by destruct (fs_name fs). }
    exact (claimed alive now written pid fs j fs' false 4 Ec).
  - destruct (fs_read fs) as [f|] eqn:Er.
    2: { apply fs_read_wf in Er; [|done]. unfold fs_create in Ec. by rewrite Er in Ec. }
    unfold in_use. rewrite calls_S. cbn [lock_call]. rewrite Er.
    destruct (classify alive (Some f)).
    + exists fs, PcGaveUp. rewrite calls_done by (by right). done.
    + exact (reclaimed 1 alive now written pid fs).
    + rewrite calls_S. cbn [lock_call]. rewrite Er. destruct (within_grace now (Some f)).
      * exists fs, PcGaveUp. rewrite calls_done by (by right). done.
      * exact (reclaimed 0 alive now written pid fs).
Qed.

(** ** Acquisitions one after the other *)
Inductive LockTurn := TurnAcquire (pid now : N) (written : bool) | TurnRelease (pid : N) | TurnDie (pid : N).
Definition turn_events (t : LockTurn) : list LockEvent :=
  match t with
  | TurnAcquire pid now written => replicate 8 (LkCall pid now written)
  | TurnRelease pid => [LkRelease pid]
  | TurnDie pid => [LkDie pid]
  end.
Definition turn_pid (t : LockTurn) : N :=
  match t with TurnAcquire pid _ _ | TurnRelease pid | TurnDie pid => pid end.
Definition take_turn (w : LockWorld) (t : LockTurn) : LockWorld := lock_run w (turn_events t).

Record lock_inv (w : LockWorld) : Prop := mkLockInv {
  li_wf : fs_wf (lw_fs w);
  li_settled : forall p, pc_of w p = PcCreate \/ pc_of w p = PcHeld \/ pc_of w p = PcGaveUp;
  li_named : forall p, holds w p -> (p <= u32_max)%N /\ exists t, fs_read (lw_fs w) = Some (mkLockFile (pid_line p) t) }.

Lemma no_locks_inv : lock_inv no_locks.
Proof.
  split; [done|by left|]. intros p [_ H]. unfold pc_of in H. simpl in H. by rewrite lookup_empty in H.
Qed.

Lemma at_most_one w p q : lock_inv w -> holds w p -> holds w q -> p = q.
Proof.
  intros Hi [_ (t & Ht)]%(li_named w Hi) [_ (t' & Ht')]%(li_named w Hi).
  rewrite Ht in Ht'. by injection Ht' as ->%pid_line_inj _.
Qed.

(** Eight calls in a row are one uninterrupted acquisition. *)
Lemma calls_in_a_row n p now written w : lives w p = true ->
  lock_run w (replicate (S n) (LkCall p now written)) =
  let '(fs, pc) := acquire_calls (S n) (lives w) now written p (lw_fs w) (pc_of w p) in
  mkLockWorld fs (<[p := pc]> (lw_procs w)) (lw_dead w).
Proof.
  revert w. induction n as [|n IH]; intros w Hl.
  - unfold lock_run. cbn [replicate foldl acquire_calls lock_step]. rewrite Hl. cbn [negb]. by case_goal.
  - change (lock_run w (replicate (S (S n)) ?e)) with (lock_run (lock_step w e) (replicate (S n) e)).
    rewrite (calls_S (S n)). cbn [lock_step]. rewrite Hl. cbn [negb].
    destruct (lock_call _ _ _ _ _ _) as [fs pc] eqn:E.
    rewrite IH by done. cbn [lw_fs lw_procs lw_dead]. unfold pc_of at 1. cbn [lw_procs].
    rewrite lookup_insert_eq. cbn [default].
    change (lives (mkLockWorld fs (<[p:=pc]> (lw_procs w)) (lw_dead w))) with (lives w).
    destruct (acquire_calls _ _ _ _ _ _ _) as [fs' pc']. by rewrite insert_insert_eq.
Qed.

Lemma dead_calls n p now written w : lives w p = false -> lock_run w (replicate n (LkCall p now written)) = w.
Proof. intros Hl. induction n as [|n IH]; [done|]. cbn. by rewrite Hl. Qed.

Lemma acquiring p now written w : lives w p = true ->
  take_turn w (TurnAcquire p now written) =
  let '(fs, pc) := acquire_calls 8 (lives w) now written p (lw_fs w) (pc_of w p) in
  mkLockWorld fs (<[p := pc]> (lw_procs w)) (lw_dead w).
Proof. exact (calls_in_a_row 7 p now written w). Qed.

Lemma pc_of_insert fs procs dead p pc q :
  pc_of (mkLockWorld fs (<[p := pc]> procs) dead) q = if decide (p = q) then pc else default PcCreate (procs !! q).
Proof. unfold pc_of. simpl. case_decide as H; [subst; by rewrite lookup_insert_eq|by rewrite lookup_insert_ne]. Qed.

Lemma pc_of_delete fs procs dead p q :
  pc_of (mkLockWorld fs (delete p procs) dead) q = if decide (p = q) then PcCreate else default PcCreate (procs !! q).
Proof. unfold pc_of. simpl. case_decide as H; [subst; by rewrite lookup_delete_eq|by rewrite lookup_delete_ne]. Qed.

(** A lock somebody holds is in use. *)
Lemma held_in_use w q now : lock_inv w -> holds w q -> in_use (lives w) now (fs_read (lw_fs w)) = true.
Proof.
  intros Hi Hq. destruct (li_named w Hi q Hq) as [Hp [t ->]]. unfold in_use.
  rewrite classify_named; [done|done|apply Hq].
Qed.

Lemma acquire_inv w p now written : lock_inv w -> (p <= u32_max)%N -> lock_inv (take_turn w (TurnAcquire p now written)).
Proof.
  intros Hi Hp. destruct (lives w p) eqn:Hl.
  2: { unfold take_turn, turn_events. by rewrite dead_calls. }
  rewrite acquiring by done.
  assert (Hsame : forall pc, pc_of w p = pc \/ pc = PcGaveUp /\ pc_of w p <> PcHeld ->
            pc = PcCreate \/ pc = PcHeld \/ pc = PcGaveUp ->
            lock_inv (mkLockWorld (lw_fs w) (<[p := pc]> (lw_procs w)) (lw_dead w))).
  { intros pc Hpc Hset. split; [apply Hi| |].
    - intros q. rewrite pc_of_insert. case_decide; [done|apply (li_settled w Hi q)].
    - intros q [Hlq Hq]. rewrite pc_of_insert in Hq. apply (li_named w Hi). split; [exact Hlq|].
      case_decide; [subst q; destruct Hpc as [?|[? _]]; congruence|done]. }
  destruct (li_settled w Hi p) as [Hpc|Hpc].
  2: { rewrite calls_done by done. apply Hsame; [by left|]. tauto. }
  rewrite Hpc. destruct (acquire_spec (lives w) now written p (lw_fs w) (li_wf w Hi)) as (fs' & pc & -> & Hspec).
  destruct (in_use (lives w) now (fs_read (lw_fs w))) eqn:Hu.
  { destruct Hspec as [-> ->]. apply Hsame; [right; by rewrite Hpc|tauto]. }
  destruct Hspec as (Hwf & -> & Hread).
  assert (Hnone : forall q, ~ holds w q) by (intros q Hq; by rewrite (held_in_use w q now Hi Hq) in Hu).
  split; [done| |].
  - intros q. rewrite pc_of_insert. case_decide; [destruct written; tauto|apply (li_settled w Hi q)].
  - intros q [Hlq Hq]. rewrite pc_of_insert in Hq. case_decide; [subst q|by destruct (Hnone q)].
    destruct written; [|done]. split; [done|]. by exists now.
Qed.

Lemma turn_inv w t : lock_inv w -> (turn_pid t <= u32_max)%N -> lock_inv (take_turn w t).
Proof.
  destruct t as [p now written|p|p]; intros Hi Hp; [by apply acquire_inv|..]; cbn.
  - destruct (lives w p) eqn:Hl; [|done]. destruct (pc_of w p) eqn:Hpc; try done. cbn [andb].
    assert (Hh : holds w p) by done. split; [done| |].
    + intros q. rewrite pc_of_delete. case_decide; [tauto|apply (li_settled w Hi q)].
    + intros q [Hlq Hq]. rewrite pc_of_delete in Hq. case_decide as Hne; [done|].
      destruct Hne. apply (at_most_one w); done.
  - split; [apply Hi| |].
    + intros q. rewrite pc_of_delete. case_decide; [tauto|apply (li_settled w Hi q)].
    + intros q [Hlq Hq]. rewrite pc_of_delete in Hq. case_decide as Hne; [done|].
      apply (li_named w Hi). split; [|done]. revert Hlq. unfold lives. simpl. rewrite !negb_true_iff, !bool_decide_eq_false.
      set_solver.
Qed.

Lemma turns_inv ts w : lock_inv w -> Forall (fun t => turn_pid t <= u32_max)%N ts -> lock_inv (foldl take_turn w ts).
Proof.
  intros Hi Hts. revert w Hi. induction Hts as [|t ts Ht _ IH]; intros w Hi; [done|]. simpl. by apply IH, turn_inv.
Qed.

(** C34. Acquisitions, releases and deaths taken in turns, however many and in
    whatever order, never leave two living processes holding the lock; a process
    about to try gets it exactly when it is not in use, which it is while its file
    names a living process or is too young to name one; and a holder that dies
    without releasing leaves a lock the next living process gets at once, whatever
    its age. *)
Theorem lock_is_exclusive_in_turn ts :
  Forall (fun t => turn_pid t <= u32_max)%N ts ->
  let w := foldl take_turn no_locks ts in
  (forall p q, holds w p -> holds w q -> p = q) /\
  (forall p now, lives w p = true -> pc_of w p = PcCreate ->
     (holds (take_turn w (TurnAcquire p now true)) p <-> in_use (lives w) now (fs_read (lw_fs w)) = false)) /\
  (forall p q now, holds w q -> lives w p = true -> pc_of w p = PcCreate -> p <> q ->
     holds (take_turn (take_turn w (TurnDie q)) (TurnAcquire p now true)) p).
Proof.
  intros Hts w. pose proof (turns_inv ts _ no_locks_inv Hts) as Hi. fold w in Hi. clearbody w. clear ts Hts.
  assert (Hget : forall w' p now, fs_wf (lw_fs w') -> lives w' p = true -> pc_of w' p = PcCreate ->
     (holds (take_turn w' (TurnAcquire p now true)) p <-> in_use (lives w') now (fs_read (lw_fs w')) = false)).
  { intros w' p now Hwf Hl Hpc. rewrite acquiring, Hpc by done.
    destruct (acquire_spec (lives w') now true p (lw_fs w') Hwf) as (fs & pc & -> & Hs).
    unfold holds. rewrite pc_of_insert, decide_True by done.
    destruct (in_use _ _ _); [by destruct Hs as [_ ->]; naive_solver|]. by destruct Hs as (_ & -> & _). }
  split_and!; [intros p q; by apply at_most_one|intros p now; apply Hget, Hi|].
  intros p q now Hq Hl Hpc Hne. apply Hget; cbn.
  - apply Hi.
  - unfold lives in *. simpl. rewrite !negb_true_iff, !bool_decide_eq_false in *. set_solver.
  - rewrite pc_of_delete, decide_False by done. exact Hpc.
  - destruct (li_named w Hi q Hq) as [Hpq [t ->]]. unfold in_use.
    destruct (read_pid q Hpq) as [Hr Hx]. cbv [classify fmap option_fmap option_map lf_text].
    destruct (String.eqb_spec (trim (pid_line q)) EmptyString); [done|]. rewrite Hr.
    assert (lives (mkLockWorld (lw_fs w) (delete q (lw_procs w)) ({[q]} ∪ lw_dead w)) q = false) as ->; [|done].
    unfold lives. simpl. rewrite bool_decide_true by set_solver. done.
Qed.

Example lock_is_exclusive_in_turn_witness :
  let w := foldl take_turn no_locks [TurnAcquire 7 100 true; TurnAcquire 8 101 true] in
  holds w 7 /\ ~ holds w 8 /\ (forall p q, holds w p -> holds w q -> p = q).
Proof.
  set (ts := [TurnAcquire 7 100 true; TurnAcquire 8 101 true]).
  split_and!; [split; vm_compute; reflexivity|intros [_ H]; vm_compute in H; discriminate H|].
  refine (proj1 (lock_is_exclusive_in_turn ts _)).
  unfold ts, u32_max. repeat constructor; cbn [turn_pid]; lia.
Defined.

(** Interleaved call by call, the lock admits two holders although every
    process lives, every write succeeds and no lock was ever stale: one process
    finds the file in place, the holder releases it, and the process takes the
    missing file for an orphan, removes the file a third process has meanwhile
    made and claims it again. *)
Theorem release_race_admits_two :
  let es := replicate 2 (LkCall 1 100 true) ++ [LkCall 2 100 true; LkRelease 1; LkCall 2 100 true; LkCall 2 100 true]
            ++ replicate 2 (LkCall 3 100 true) ++ replicate 3 (LkCall 2 100 true) in
  let w := lock_run no_locks es in
  holds w 2 /\ holds w 3 /\ lw_dead w = ∅ /\
  lf_text <$> fs_read (lw_fs w) = Some (pid_line 2) /\
  (forall n, (n < length es)%nat -> in_use (lives w) 100 (fs_read (lw_fs (lock_run no_locks (take n es)))) = true \/
     fs_read (lw_fs (lock_run no_locks (take n es))) = None).
Proof.
  intros es w. split_and!; [split; vm_compute; reflexivity..|vm_compute; reflexivity|vm_compute; reflexivity|].
  intros n Hn. do 11 (destruct n as [|n]; [vm_compute; first [left; reflexivity|right; reflexivity]|]).
  vm_compute in Hn. lia.
Qed.
