(* ===== verification/Hook.v ===== *)
(** * The native stop hook

    [crates/famp/src/cli/hook/{codex_stop,pid_fallback,emit}.rs] with the two
    requests of [famp-inspect-client/src/lib.rs] it makes: when the host's turn
    ends, find the identity the session listens under, wait for mail, and answer
    the host with a decision that names no more than how many messages came and
    from whom.  The host's files and processes are [HookHost]. *)

From Stdlib Require Import Strings.Byte Ascii.
From stdpp Require Import gmap strings list pretty.
From S2P Require Import Prelude Json Proto Origin WireInstance Principal Derive Envelope Keyring BrokerState Executor.
From S2P Require Import Client ClientSend Inspect Receive McpTools HookScan StopLock.

(** ** The inspector's client *)
Definition INSPECT_CLIENT : string := "famp-inspect-client/0.10.0".

Inductive ProbeOutcome := ProbeHealthy (conn : ClientId) | ProbeDown | ProbeOrphan (summary : string).

(** A failed connection is down, stale or refused; no caller here tells these
    apart. *)
Definition raw_connect_probe {W} `{BusSocket W} (w : W) : W * ProbeOutcome :=
  let '(w, opened) := sock_open w in
  trying conn := opened catch _ => (w, ProbeDown) in
  let '(w, reply) := sock_request w conn (Hello BUS_PROTO_VERSION INSPECT_CLIENT None) in
  match reply with
  | Ok (HelloOk _) => (w, ProbeHealthy conn)
  | Ok other => (sock_shutdown w conn, ProbeOrphan ("unexpected reply: " +:+ variant_name other))
  | Err _ => (sock_shutdown w conn, ProbeOrphan "read_frame")
  end.

Definition inspect_call {W} `{BusSocket W} (w : W) (conn : ClientId) (kind : InspectKind) : W * option Value :=
  let '(w, reply) := sock_request w conn (Inspect kind) in
  (sock_shutdown w conn, match reply with Ok (InspectOk payload) => Some payload | _ => None end).

Definition identity_row_specs : field_specs :=
  [("name", fault d_string); ("listen_mode", fault d_boolean); ("cwd", fault (d_option d_string));
   ("registered_at_unix_seconds", fault (d_unsigned u64_max)); ("last_activity_unix_seconds", fault (d_unsigned u64_max));
   ("mailbox_unread", fault (d_unsigned u64_max)); ("mailbox_total", fault (d_unsigned u64_max));
   ("last_sender", fault d_string); ("last_received_at_unix_seconds", fault (d_option (d_unsigned u64_max)))].
Definition d_identity_row : decoder IdentityRow := fun v =>
  try m := struct_fields identity_row_specs v in
  try nm := required d_string m "name" in
  try listen := required d_boolean m "listen_mode" in
  try cw := optional d_string m "cwd" in
  try registered := required (d_unsigned u64_max) m "registered_at_unix_seconds" in
  try active := required (d_unsigned u64_max) m "last_activity_unix_seconds" in
  try unread := required (d_unsigned u64_max) m "mailbox_unread" in
  try total := required (d_unsigned u64_max) m "mailbox_total" in
  try sender := required d_string m "last_sender" in
  try received := optional (d_unsigned u64_max) m "last_received_at_unix_seconds" in
  Ok (mkIdentityRow nm listen cw registered active unread total sender received).

Definition identity_list_specs : field_specs := [("rows", fault (d_vec d_identity_row))].
Definition d_identity_list : decoder (list IdentityRow) := fun v =>
  try m := struct_fields identity_list_specs v in required (d_vec d_identity_row) m "rows".

(** The rows of [InspectIdentitiesReply::List], whose tag is taken out first;
    any other reply and any that does not decode is [None]. *)
Definition listed_identities (payload : Value) : option (list IdentityRow) :=
  match payload with
  | VObject m =>
      if bool_decide ((obj_get "kind" m ≫= as_str) = Some "list")
      then match d_identity_list (VObject (List.filter (fun kv => negb (String.eqb kv.1 "kind")) m)) with
           | Ok rows => Some rows | Err _ => None end
      else None
  | VArray (VString tag :: rest) =>
      if String.eqb tag "list"
      then match d_identity_list (VArray rest) with Ok rows => Some rows | Err _ => None end
      else None
  | _ => None
  end.

Definition ask_identities {W} `{BusSocket W} (w : W) : W * option (list IdentityRow) :=
  let '(w, probe) := raw_connect_probe w in
  match probe with
  | ProbeHealthy conn =>
      let '(w, payload) := inspect_call w conn InspectIdentities in (w, payload ≫= listed_identities)
  | _ => (w, None)
  end.

(** ** The host *)
Record Process := mkProcess { ps_pid : N; ps_parent : N; ps_command : string }.

(** [hh_file] is [None] for a path that is no file, and holds the contents if they
    can be read; [hh_rollout] is [codex_rollout::resolve_rollout_path]; [hh_var] is
    [std::env::var]; [hh_makes_dir] and [hh_writes] tell which directories can be made
    and which files written in full. *)
Record HookHost := mkHookHost {
  hh_pid : N; hh_now : N; hh_processes : list Process; hh_alive : N -> bool; hh_fallback : bool;
  hh_file : string -> option (option bytes); hh_rollout : string -> option string;
  hh_timeout_ms : N; hh_exe : string; hh_nonces : nat -> string; hh_env : SendEnv;
  hh_lock_written : bool; hh_stdout : bool;
  hh_var : string -> option string; hh_makes_dir : string -> bool; hh_writes : string -> bool; hh_seconds : N }.

(** ** The fallback: [pid_fallback.rs] *)
Definition parent_pid (host : HookHost) (pid : N) : option N :=
  ps_parent <$> List.find (fun p => (ps_pid p =? pid)%N) (hh_processes host).

Fixpoint ancestor_pids (host : HookHost) (max_depth : nat) (current : N) : list N :=
  match max_depth with
  | O => []
  | S max_depth =>
      match parent_pid host current with
      | Some ppid => if (ppid =? 0)%N || (ppid =? 1)%N then [] else ppid :: ancestor_pids host max_depth ppid
      | None => []
      end
  end.

Definition sibling_mcp_pids (host : HookHost) (ancestors : list N) : list N :=
  map ps_pid (List.filter (fun p =>
    bool_decide (ps_parent p ∈ ancestors) && Render.str_contains "famp mcp" (ps_command p)) (hh_processes host)).

Definition unique_session_name_for_pids {W} `{BusSocket W} (pids : list N) (w : W) : W * option string :=
  let '(w, bus) := connect w None in
  trying conn := bus catch _ => (w, None) in
  let '(w, reply) := sock_request w conn Sessions in
  let w := sock_shutdown w conn in
  match reply with
  | Ok (SessionsOk rows) =>
      let names := list_to_set (map sr_name (List.filter (fun r => bool_decide (sr_pid r ∈ pids)) rows)) : gset string in
      (w, match elements names with [name] => Some name | _ => None end)
  | _ => (w, None)
  end.

Definition identity_is_listen {W} `{BusSocket W} (name : string) (w : W) : W * bool :=
  let '(w, rows) := ask_identities w in
  (w, match rows with
      | Some rows => existsb (fun r => String.eqb (ir_name r) name && ir_listen_mode r) rows
      | None => false
      end).

Definition resolve_via_pid {W} `{BusSocket W} (host : HookHost) (w : W) : W * option string :=
  if negb (hh_fallback host) then (w, None) else
  let ancestors := ancestor_pids host 6 (hh_pid host) in
  if bool_decide (ancestors = []) then (w, None) else
  let siblings := sibling_mcp_pids host ancestors in
  if bool_decide (siblings = []) then (w, None) else
  let '(w, candidate) := unique_session_name_for_pids siblings w in
  letsome candidate := candidate orelse (w, None) in
  let '(w, listening) := identity_is_listen candidate w in
  (w, if listening then Some candidate else None).

(** ** The decision: [emit.rs] *)
Definition meta_item (acc : N * string) (item : Value) : N * string :=
  let '(count, sender) := acc in
  if is_true (get item "timeout") then acc else
  ((count + 1)%N, default sender (get_either item "from" "sender" ≫= as_str)).
Definition meta_from_outcome (o : AwaitOutcome) : N * string := foldl meta_item (0%N, "unknown") (ao_envelopes o).

Definition build_reason (count : N) (sender : string) (mailbox : option MailboxName) : string :=
  match mailbox with
  | Some (MbChannel name) =>
      let chan := if String.prefix "#" name then name else "#" +:+ name in
      if (1 <? count)%N
      then "[FAMP listen mode] " +:+ pretty count +:+ " new FAMP messages in channel " +:+ chan +:+ ", latest from " +:+
           sender +:+ ". Call famp_channel_log({channel: '" +:+ chan +:+ "'}) to read them."
      else "[FAMP listen mode] New FAMP message in channel " +:+ chan +:+ " from " +:+ sender +:+
           ". Call famp_channel_log({channel: '" +:+ chan +:+ "'}) to read it."
  | _ =>
      if (1 <? count)%N
      then "[FAMP listen mode] " +:+ pretty count +:+ " new FAMP messages, latest from " +:+ sender +:+
           ". Call famp_inbox to read them."
      else "[FAMP listen mode] New FAMP message from " +:+ sender +:+ ". Call famp_inbox to read it."
  end.

Definition actionable_unread_at {W} `{BusSocket W} (identity : string) (w : W) : W * option (N * string) :=
  let '(w, rows) := ask_identities w in
  (w, rows ≫= fun rows =>
      r ← List.find (fun r => String.eqb (ir_name r) identity) rows;
      Some (ir_mailbox_unread r, if String.eqb (ir_last_sender r) "(none)" then "unknown" else ir_last_sender r)).

Definition block_decision (count : N) (sender : string) (mailbox : option MailboxName) : Value :=
  let sender := if validate_sender sender then sender else "unknown" in
  json_obj [("decision", VString "block"); ("reason", VString (build_reason count sender mailbox))].

(** What is written to stdout, if anything. *)
Definition emit_block_decision_at {W} `{BusSocket W} (stdout : bool) (o : AwaitOutcome) (identity : string) (w : W) :
    W * option Value :=
  if ao_aborted o || ao_timed_out o || bool_decide (length (ao_envelopes o) = 0%nat) then (w, None) else
  let '(count, sender) := meta_from_outcome o in
  if (count <? 1)%N then (w, None) else
  let write w count sender := (w, if stdout then Some (block_decision count sender (ao_mailbox o)) else None) in
  match ao_mailbox o with
  | Some (MbChannel _) => write w count sender
  | _ =>
      let '(w, unread) := actionable_unread_at identity w in
      match unread with
      | Some (unread, last_sender) =>
          if (unread =? 0)%N then (w, None)
          else write w unread (if String.eqb last_sender EmptyString then sender else last_sender)
      | None => write w count sender
      end
  end.

(** ** The hook: [codex_stop.rs] *)
Section hook.
Context `{WL : WireLib}.

Definition resolve_transcript (host : HookHost) (input : StopHookInput) : option string :=
  match hi_transcript_path input with
  | Some path => if is_some (hh_file host path) then Some path else hi_session_id input ≫= hh_rollout host
  | None => hi_session_id input ≫= hh_rollout host
  end.

(** [None] is no transcript at all. *)
Definition transcript_state (host : HookHost) (input : StopHookInput) : option ListenState :=
  (fun path => extract_listen_state (default None (hh_file host path))) <$> resolve_transcript host input.

Definition listen_identity {W} `{BusSocket W} (host : HookHost) (input : StopHookInput) (w : W) : W * option string :=
  match transcript_state host input with
  | Some LsExplicitlyOff => (w, None)
  | Some (LsActive name) => (w, Some name)
  | _ => resolve_via_pid host w
  end.

(** The line printed, and the path and contents of the backup file written. *)
Record HookOutput := mkHookOutput { hk_stdout : option Value; hk_backup : option (string * bytes) }.
Definition no_output : HookOutput := mkHookOutput None None.

(** [Path::join] with a relative path. *)
Definition path_join (base rel : string) : string :=
  if String.eqb base EmptyString then rel else if ends_with "/" base then base +:+ rel else base +:+ "/" +:+ rel.
Definition state_dir (host : HookHost) : option string :=
  match hh_var host "XDG_STATE_HOME" with
  | Some p => Some (path_join p "famp")
  | None => (fun h => path_join (path_join (path_join h ".local") "state") "famp") <$> hh_var host "HOME"
  end.

Definition mailbox_json (mb : option MailboxName) : Value :=
  match mb with
  | Some (MbChannel n) => json_obj [("kind", VString "channel"); ("name", VString n)]
  | Some (MbAgent n) => json_obj [("kind", VString "agent"); ("name", VString n)]
  | None => VNull
  end.
Definition backup_value (o : AwaitOutcome) : Value :=
  json_obj [("mailbox", mailbox_json (ao_mailbox o)); ("envelopes", VArray (ao_envelopes o))].
Definition backup_name (host : HookHost) : string :=
  pretty (hh_seconds host) +:+ "-" +:+ pretty (hh_pid host) +:+ "-native.jsonl".
(** Best effort: every failure is silent and leaves no backup. *)
Definition backup_outcome (host : HookHost) (o : AwaitOutcome) : option (string * bytes) :=
  state ← state_dir host;
  let backup_dir := path_join state "received" in
  if negb (hh_makes_dir host backup_dir) then None else
  match to_vec (backup_value o) with
  | Err _ => None
  | Ok serialized =>
      let path := path_join backup_dir (backup_name host) in
      if hh_writes host path then Some (path, serialized ++ [x0a]) else None
  end.

Definition run_async {W} `{BusSocket W} (host : HookHost) (input : StopHookInput) (locks : LockFs) (w : W) :
    LockFs * W * HookOutput :=
  let '(w, identity) := listen_identity host input w in
  letsome identity := identity orelse (locks, w, no_output) in
  if negb (validate_identity identity) then (locks, w, no_output) else
  let '(locks, acquired) :=
    try_acquire (hh_alive host) (hh_now host) (hh_lock_written host) (hh_pid host) locks in
  if negb acquired then (locks, w, no_output) else
  let '(w, outcome) := await_run (hh_exe host) (hh_nonces host) (hh_env host)
    (mkAwaitArgs (hh_timeout_ms host) None (Some identity)) w in
  trying o := outcome catch _ => (release locks, w, no_output) in
  if ao_aborted o || ao_timed_out o || bool_decide (length (ao_envelopes o) = 0%nat)
  then (release locks, w, no_output) else
  let '(w, line) := emit_block_decision_at (hh_stdout host) o identity w in
  (release locks, w, mkHookOutput line (backup_outcome host o)).

(** [run_inner]; the process itself always exits with 0. *)
Definition codex_stop {W} `{BusSocket W} (host : HookHost) (stdin : string) (locks : LockFs) (w : W) :
    LockFs * W * HookOutput :=
  let input := parse_stop_hook_json stdin in
  match hi_reason input with
  | Some reason => if negb (String.eqb reason "end_turn") then (locks, w, no_output) else run_async host input locks w
  | None => run_async host input locks w
  end.
End hook.
