(* ===== verification/HostConfig.v ===== *)
(** * Installing into Claude Code

    [crates/famp/src/cli/install/{json_merge,stop_entry,claude_code,
    slash_commands,hook_runner,await_hook}.rs], [uninstall/claude_code.rs] and
    [executable.rs]: the files under the user's home the two commands write and
    take back.  A home is its text files by path; modes and directories are not
    kept.  The pretty printer is third-party; the assets are files of the
    repository that are not Rust. *)

From Stdlib Require Import Ascii.
From stdpp Require Import gmap strings list pretty.
From S2P Require Import Prelude Json Proto WireInstance Derive Envelope Keyring Client Render Receive HookScan.

Abbreviation Files := (gmap string string).

(** Which paths can be read (as UTF-8) and written, the clock in seconds, and the
    assets compiled in. *)
Record HostIo := mkHostIo {
  ho_readable : string -> bool; ho_writable : string -> bool; ho_seconds : N; ho_asset : string -> string }.

(** [serde_json::to_string_pretty], with what the code relies on. *)
Class PrettyLib := { to_string_pretty : Value -> result string string }.
Class PrettyLaws `{WL : WireLib} `{PL : PrettyLib} : Prop := {
  pretty_reads_back v : doc_wf v = true ->
    exists s, to_string_pretty v = Ok s /\ trim s <> EmptyString /\ from_str s = Ok v }.

Inductive MergeError :=
| JsonMergeRead | JsonMergeParse | JsonMergeNotObject | JsonMergeBackup | JsonMergePersist | MergeIo.
Inductive MergeOutcome := Inserted | Updated | AlreadyMatches | Removed | NotPresent.

(** [PartialEq] of [serde_json::Value]; two floats are compared by their bits,
    which differs from [f64] on the two zeros only. *)
Definition number_eqb (a b : Number) : bool :=
  match a, b with
  | PosInt x, PosInt y => (x =? y)%N
  | NegInt x, NegInt y => (x =? y)%Z
  | Float x, Float y => (x =? y)%N
  | _, _ => false
  end.
Fixpoint value_eqb (a b : Value) {struct a} : bool :=
  match a, b with
  | VNull, VNull => true
  | VBool x, VBool y => Bool.eqb x y
  | VNumber x, VNumber y => number_eqb x y
  | VString x, VString y => String.eqb x y
  | VArray l, VArray l' =>
      (fix go l l' := match l, l' with
        | [], [] => true
        | x :: l, y :: l' => value_eqb x y && go l l'
        | _, _ => false end) l l'
  | VObject m, VObject m' =>
      (fix go m m' := match m, m' with
        | [], [] => true
        | (k, x) :: m, (k', y) :: m' => String.eqb k k' && value_eqb x y && go m m'
        | _, _ => false end) m m'
  | _, _ => false
  end.

(** ** The JSON merge: [json_merge.rs] *)
Section merge.
Context `{WL : WireLib} `{PL : PrettyLib}.

Definition is_blank (s : string) : bool := String.eqb (trim s) EmptyString.

(** [None] is an absent or blank file. *)
Definition read_document (io : HostIo) (files : Files) (path : string) : result (option Value) MergeError :=
  match files !! path with
  | None => Ok None
  | Some s =>
      if negb (ho_readable io path) then Err JsonMergeRead
      else if is_blank s then Ok None
      else match from_str s with Ok v => Ok (Some v) | Err _ => Err JsonMergeParse end
  end.

(** The backup's name for a path ending in [.json]. *)
Definition backup_path (io : HostIo) (path : string) : string := path +:+ ".bak." +:+ pretty (ho_seconds io).
Definition backup_if_exists (io : HostIo) (files : Files) (path : string) : Files * result unit MergeError :=
  match files !! path with
  | None => (files, Ok tt)
  | Some s =>
      if ho_writable io (backup_path io path) then (<[backup_path io path := s]> files, Ok tt)
      else (files, Err JsonMergeBackup)
  end.

(** A temporary file renamed into place. *)
Definition persist_json (io : HostIo) (files : Files) (path : string) (root : Value) : Files * result unit MergeError :=
  if negb (ho_writable io path) then (files, Err JsonMergePersist) else
  match to_string_pretty root with
  | Ok s => (<[path := s]> files, Ok tt)
  | Err _ => (files, Err JsonMergeParse)
  end.

Definition rewrite_json (io : HostIo) (files : Files) (path : string) (root : Value) (o : MergeOutcome) :
    Files * result MergeOutcome MergeError :=
  let '(files, r) := backup_if_exists io files path in
  trying _ := r catch e => (files, Err e) in
  let '(files, r) := persist_json io files path root in
  trying _ := r catch e => (files, Err e) in
  (files, Ok o).

Definition upsert_user_json (io : HostIo) (files : Files) (path parent_key leaf_key : string) (value : Value) :
    Files * result MergeOutcome MergeError :=
  trying doc := read_document io files path catch e => (files, Err e) in
  match default (VObject []) doc with
  | VObject obj =>
      match default (VObject []) (obj_get parent_key obj) with
      | VObject parent =>
          let write o :=
            rewrite_json io files path
              (VObject (obj_insert parent_key (VObject (obj_insert leaf_key value parent)) obj)) o in
          match obj_get leaf_key parent with
          | Some existing => if value_eqb existing value then (files, Ok AlreadyMatches) else write Updated
          | None => write Inserted
          end
      | _ => (files, Err JsonMergeNotObject)
      end
  | _ => (files, Err JsonMergeNotObject)
  end.

Definition remove_user_json (io : HostIo) (files : Files) (path parent_key leaf_key : string) :
    Files * result MergeOutcome MergeError :=
  trying doc := read_document io files path catch e => (files, Err e) in
  match doc with
  | None => (files, Ok NotPresent)
  | Some (VObject obj) =>
      match obj_get parent_key obj with
      | None => (files, Ok NotPresent)
      | Some (VObject parent) =>
          if is_some (obj_get leaf_key parent)
          then rewrite_json io files path
                 (VObject (obj_insert parent_key (VObject (obj_remove leaf_key parent)) obj)) Removed
          else (files, Ok NotPresent)
      | Some _ => (files, Err JsonMergeNotObject)
      end
  | Some _ => (files, Err JsonMergeNotObject)
  end.
End merge.

(** ** Owned stop hooks: [stop_entry.rs] *)
Definition is_quote (c : ascii) : bool := Ascii.eqb c "'"%char || Ascii.eqb c DQUOTE.
Fixpoint trim_quotes_start (s : string) : string :=
  match s with String c rest => if is_quote c then trim_quotes_start rest else s | EmptyString => EmptyString end.
Fixpoint trim_quotes_end (s : string) : string :=
  match s with
  | String c rest => let rest := trim_quotes_end rest in
                     if is_quote c && String.eqb rest EmptyString then EmptyString else String c rest
  | EmptyString => EmptyString
  end.
(** [trim_matches] over the two quotes. *)
Definition trim_quotes (s : string) : string := trim_quotes_end (trim_quotes_start s).

Fixpoint codex_stop_tokens (tokens : list string) : bool :=
  match tokens with
  | a :: (b :: _) as rest => String.eqb a "hook" && String.eqb b "codex-stop" || codex_stop_tokens rest
  | _ => false
  end.

Definition is_famp_command (command : string) (shims : list string) : bool :=
  existsb (fun shim => String.eqb command shim || String.eqb (trim_quotes command) shim ||
                       String.prefix (shim +:+ " ") command) shims ||
  existsb (fun token => existsb (String.eqb (trim_quotes token)) shims) (split_whitespace command) ||
  codex_stop_tokens (map trim_quotes (split_whitespace command)).

Definition owned (shims : list string) (v : Value) : bool :=
  match get_str v "command" with Some command => is_famp_command command shims | None => false end.

Definition as_array (v : Value) : option (list Value) := match v with VArray l => Some l | _ => None end.

(** Dropped, kept as it is, or kept without its owned inner hooks. *)
Definition remove_famp_hook_from_stop_entry (shims : list string) (entry : Value) : option Value :=
  if owned shims entry then None else
  match get entry "hooks" ≫= as_array with
  | None => Some entry
  | Some hooks =>
      let filtered := List.filter (fun h => negb (owned shims h)) hooks in
      if bool_decide (length filtered = length hooks) then Some entry
      else if bool_decide (length filtered = 0%nat) then None
      else match entry with VObject m => Some (VObject (obj_insert "hooks" (VArray filtered) m)) | _ => None end
  end.

(** ** Generated scripts: [executable.rs], [hook_runner.rs], [await_hook.rs] *)

Definition SQUOTE : string := "'".
Definition posix_shell_literal (raw : string) : string :=
  SQUOTE +:+ str_replace SQUOTE "'\''" raw +:+ SQUOTE.

Definition write_file (io : HostIo) (files : Files) (path text : string) : Files * result unit MergeError :=
  if ho_writable io path then (<[path := text]> files, Ok tt) else (files, Err MergeIo).
Definition remove_file (io : HostIo) (files : Files) (path : string) : Files * result MergeOutcome MergeError :=
  match files !! path with
  | None => (files, Ok NotPresent)
  | Some _ => if ho_writable io path then (delete path files, Ok Removed) else (files, Err MergeIo)
  end.

Definition install_shim (io : HostIo) (asset : string) (files : Files) (path exe : string) : Files * result unit MergeError :=
  write_file io files path (str_replace "@FAMP_BIN@" (posix_shell_literal exe) (ho_asset io asset)).
Definition remove_shim := remove_file.

(** ** Claude Code: [install/claude_code.rs] *)

(** The home's name with a path under it. *)
Definition under (home rel : string) : string :=
  if ends_with "/" home then home +:+ rel else home +:+ "/" +:+ rel.
Definition claude_json_path (home : string) : string := under home ".claude.json".
Definition commands_dir (home : string) : string := under home ".claude/commands".
Definition settings_path (home : string) : string := under home ".claude/settings.json".
Definition shim_path (home : string) : string := under home ".famp/hook-runner.sh".
Definition await_shim_path (home : string) : string := under home ".claude/hooks/famp-await.sh".

(** [slash_commands::TEMPLATES]. *)
Definition TEMPLATES : list string :=
  ["famp-register.md"; "famp-send.md"; "famp-channel.md"; "famp-join.md"; "famp-leave.md"; "famp-who.md"; "famp-inbox.md"].

Fixpoint write_all (io : HostIo) (files : Files) (dir : string) (templates : list string) : Files * result unit MergeError :=
  match templates with
  | [] => (files, Ok tt)
  | name :: templates =>
      let '(files, r) := write_file io files (dir +:+ "/" +:+ name) (ho_asset io name) in
      trying _ := r catch e => (files, Err e) in
      write_all io files dir templates
  end.
Fixpoint remove_all (io : HostIo) (files : Files) (dir : string) (templates : list string) : Files * result N MergeError :=
  match templates with
  | [] => (files, Ok 0%N)
  | name :: templates =>
      let '(files, r) := remove_file io files (dir +:+ "/" +:+ name) in
      trying o := r catch e => (files, Err e) in
      let '(files, r) := remove_all io files dir templates in
      trying n := r catch e => (files, Err e) in
      (files, Ok (match o with Removed => n + 1 | _ => n end)%N)
  end.

Definition mcp_value (exe : string) : Value :=
  json_obj [("type", VString "stdio"); ("command", VString exe); ("args", VArray [VString "mcp"])].
Definition stop_entry (path : string) (timeout : N) : Value :=
  json_obj [("matcher", VString EmptyString);
            ("hooks", VArray [json_obj [("type", VString "command"); ("command", VString path);
                                        ("timeout", VNumber (PosInt timeout))]])].
Definition famp_paths (home : string) : list string := [shim_path home; await_shim_path home].
Definition stop_hooks (doc : option Value) : list Value :=
  default [] (get (default VNull doc) "hooks" ≫= fun h => get h "Stop" ≫= as_array).
Definition kept_hooks (home : string) (prior : list Value) : list Value :=
  omap (remove_famp_hook_from_stop_entry (famp_paths home)) prior.

Section claude.
Context `{WL : WireLib} `{PL : PrettyLib}.

Definition build_stop_array (io : HostIo) (files : Files) (home : string) : result (list Value) MergeError :=
  try existing := read_document io files (settings_path home) in
  Ok (kept_hooks home (stop_hooks existing) ++ [stop_entry (shim_path home) 30; stop_entry (await_shim_path home) 86400]).

(** [run_at_with_executable]; [exe] is the resolved executable. *)
Definition install_claude (io : HostIo) (exe home : string) (files : Files) : Files * result unit MergeError :=
  let '(files, r) := upsert_user_json io files (claude_json_path home) "mcpServers" "famp" (mcp_value exe) in
  trying _ := r catch e => (files, Err e) in
  let '(files, r) := write_all io files (commands_dir home) TEMPLATES in
  trying _ := r catch e => (files, Err e) in
  let '(files, r) := install_shim io "hook-runner.sh" files (shim_path home) exe in
  trying _ := r catch e => (files, Err e) in
  trying new_stop := build_stop_array io files home catch e => (files, Err e) in
  let '(files, r) := upsert_user_json io files (settings_path home) "hooks" "Stop" (VArray new_stop) in
  trying _ := r catch e => (files, Err e) in
  install_shim io "famp-await.sh" files (await_shim_path home) exe.

(** ** [uninstall/claude_code.rs] *)
Definition surgical_remove_stop_entry (io : HostIo) (files : Files) (home : string) :
    Files * result MergeOutcome MergeError :=
  trying existing := read_document io files (settings_path home) catch e => (files, Err e) in
  let prior := stop_hooks existing in
  if bool_decide (length prior = 0%nat) then (files, Ok NotPresent) else
  let filtered := kept_hooks home prior in
  if bool_decide (length filtered = length prior) then (files, Ok NotPresent)
  else if bool_decide (length filtered = 0%nat) then remove_user_json io files (settings_path home) "hooks" "Stop"
  else upsert_user_json io files (settings_path home) "hooks" "Stop" (VArray filtered).

(** What the command prints of each of its five steps. *)
Record UninstallReport := mkUninstallReport {
  ur_mcp : MergeOutcome; ur_commands : N; ur_runner : MergeOutcome; ur_await : MergeOutcome; ur_stop : MergeOutcome }.

Definition uninstall_claude (io : HostIo) (home : string) (files : Files) : Files * result UninstallReport MergeError :=
  let '(files, r) := remove_user_json io files (claude_json_path home) "mcpServers" "famp" in
  trying mcp := r catch e => (files, Err e) in
  let '(files, r) := remove_all io files (commands_dir home) TEMPLATES in
  trying removed := r catch e => (files, Err e) in
  let '(files, r) := remove_shim io files (shim_path home) in
  trying runner := r catch e => (files, Err e) in
  let '(files, r) := remove_shim io files (await_shim_path home) in
  trying await := r catch e => (files, Err e) in
  let '(files, r) := surgical_remove_stop_entry io files home in
  trying stop := r catch e => (files, Err e) in
  (files, Ok (mkUninstallReport mcp removed runner await stop)).
End claude.
