(* ===== verification/HostConfigProps.v ===== *)
(** * What installing into Claude Code changes, and what uninstalling gives back

    The merge as an update of one leaf of a document; the two commands as updates
    of the two documents and of the scripts; that installing twice is installing
    once, and that uninstalling gives back what was there. *)

From Stdlib Require Import Ascii Lia.
From stdpp Require Import gmap strings list pretty.
From S2P Require Import Prelude Json Proto WireInstance Principal Derive Envelope EnvelopeProps Keyring KeyringFile.
From S2P Require Import Client TaskDir Render Receive HookScan HostConfig.

(** ** One word of a shell *)

(** Quote removal by a POSIX shell: [None] is an unclosed quote or a character that
    means something to the shell. *)
Definition shell_plain (c : ascii) : bool :=
  is_alphanumeric c || Ascii.eqb c "/"%char || Ascii.eqb c "."%char || Ascii.eqb c "_"%char || Ascii.eqb c "-"%char.
Fixpoint shell_word (quoted : bool) (s : string) : option string :=
  match s with
  | EmptyString => if quoted then None else Some EmptyString
  | String c s =>
      if quoted then if Ascii.eqb c "'"%char then shell_word false s else String c <$> shell_word true s
      else if Ascii.eqb c "'"%char then shell_word true s
      else if Ascii.eqb c "\"%char then
        match s with
        | String d s => if Ascii.eqb d LF then shell_word false s else String d <$> shell_word false s
        | EmptyString => None
        end
      else if shell_plain c then String c <$> shell_word false s
      else None
  end.

(** The text the installers write into a script for the path of the program is,
    to a POSIX shell, one word that stands for exactly that path, whatever
    characters it holds: no path can end the quotation it is placed in. *)
Theorem literal_is_one_word raw : shell_word false (posix_shell_literal raw) = Some raw.
Proof.
  unfold posix_shell_literal. change (SQUOTE +:+ ?s) with (String "'" s). cbn [shell_word].
  change (Ascii.eqb "'" "'") with true. cbv iota. unfold str_replace.
  induction raw as [|c raw IH]; [done|]. cbn [str_replace_from].
  destruct (Ascii.eqb_spec c "'") as [->|Hc].
  - assert (String.prefix SQUOTE (String "'" raw) = true) as -> by (by destruct raw).
    change (String.length SQUOTE - 1)%nat with 0%nat. rewrite str_app_assoc.
    change ("'\''" +:+ ?t) with (String "'" (String "\" (String "'" (String "'" t)))).
    cbn [shell_word]. change (shell_plain "'") with false. cbn. by rewrite IH.
  - assert (String.prefix SQUOTE (String c raw) = false) as ->.
    { unfold SQUOTE. cbn [String.prefix]. destruct (ascii_dec _ c); [congruence|done]. }
    change (String c ?a +:+ ?b) with (String c (a +:+ b)). cbn [shell_word].
    rewrite (proj2 (Ascii.eqb_neq _ _) Hc), IH. done.
Qed.

(** ** Objects *)
Lemma value_eqb_eq a : forall b, value_eqb a b = true <-> a = b.
Proof.
  induction a as [|x|n|s|l IH|m IH] using value_ind_nested; intros b; destruct b as [|y|n'|s'|l'|m']; try done.
  - cbn. rewrite Bool.eqb_true_iff. split; congruence.
  - destruct n, n'; cbn; rewrite ?N.eqb_eq, ?Z.eqb_eq; split; congruence.
  - cbn. rewrite String.eqb_eq. split; congruence.
  - revert l'. induction IH as [|v l Hv _ IHl]; intros [|v' l']; [done..|]. cbn.
    rewrite andb_true_iff, Hv. specialize (IHl l'). cbn in IHl. rewrite IHl. split; [intros [-> [= ->]]; done|by intros [= -> ->]].
  - revert m'. induction IH as [|[k v] m Hv _ IHm]; intros [|[k' v'] m']; [done..|]. cbn.
    rewrite !andb_true_iff, String.eqb_eq. cbn in Hv. rewrite Hv. specialize (IHm m'). cbn in IHm. rewrite IHm.
    split; [intros [[-> ->] [= ->]]; done|by intros [= -> -> ->]].
Qed.

Lemma keys_ascend_remove {A} k (m : list (string * A)) : keys_ascend m = true -> keys_ascend (obj_remove k m) = true.
Proof. apply keys_ascend_filter. Qed.

(** Equal objects by their lookups. *)
Ltac by_lookup :=
  apply keys_ascend_ext;
  [repeat first [apply keys_ascend_insert | apply keys_ascend_remove | assumption]..|
   let k := fresh "k" in intros k; rewrite ?obj_get_insert, ?obj_get_remove, ?obj_get_insert;
   repeat match goal with |- context [String.eqb k ?x] => destruct (String.eqb_spec k x); subst end; try done].

Lemma obj_insert_twice {A} k (v v' : A) m : keys_ascend m = true -> obj_insert k v (obj_insert k v' m) = obj_insert k v m.
Proof. intros H. by_lookup. Qed.
Lemma obj_insert_same {A} k (v : A) m : keys_ascend m = true -> obj_get k m = Some v -> obj_insert k v m = m.
Proof. intros H Hg. by_lookup. Qed.
Lemma obj_remove_inserted {A} k (v : A) m : keys_ascend m = true -> obj_remove k (obj_insert k v m) = obj_remove k m.
Proof. intros H. by_lookup. Qed.
Lemma obj_remove_absent {A} k (m : list (string * A)) : keys_ascend m = true -> obj_get k m = None -> obj_remove k m = m.
Proof. intros H Hg. by_lookup. Qed.

(** ** One leaf of a document *)
Definition Obj : Type := list (string * Value).
Definition members (key : string) (obj : Obj) : Obj :=
  match obj_get key obj with Some (VObject m) => m | _ => [] end.
Definition set_leaf (key leaf : string) (v : Value) (obj : Obj) : Obj :=
  obj_insert key (VObject (obj_insert leaf v (members key obj))) obj.
Definition drop_leaf (key leaf : string) (obj : Obj) : Obj :=
  obj_insert key (VObject (obj_remove leaf (members key obj))) obj.

(** A section the merge can enter: an object, or missing. *)
Definition section_ok (key : string) (obj : Obj) : Prop :=
  obj_get key obj = None \/ exists m, obj_get key obj = Some (VObject m).
(** A document the merge accepts. *)
Record mergeable (key : string) (obj : Obj) : Prop := mkMergeable {
  mg_wf : doc_wf (VObject obj) = true;
  mg_section : section_ok key obj }.

(** What may stand two levels down a document, and what in a list there. *)
Definition leaf_wf (v : Value) : bool := wf_at number_ok 125 v.
Definition item_wf (v : Value) : bool := wf_at number_ok 124 v.

Lemma members_wf key obj : mergeable key obj -> wf_at number_ok 126 (VObject (members key obj)) = true.
Proof.
  intros [Hw [H|[m H]]]; unfold members; rewrite H; [done|]. exact (wf_at_get _ _ _ _ _ Hw H).
Qed.
Lemma members_ascend key obj : mergeable key obj -> keys_ascend (members key obj) = true.
Proof. intros H%members_wf. by eapply wf_at_ascend. Qed.
Lemma mergeable_ascend key obj : mergeable key obj -> keys_ascend obj = true.
Proof. intros [H _]. by eapply wf_at_ascend. Qed.

Lemma with_section key m obj : mergeable key obj -> wf_at number_ok 126 (VObject m) = true ->
  mergeable key (obj_insert key (VObject m) obj) /\ members key (obj_insert key (VObject m) obj) = m.
Proof.
  intros Hm Hw. split; [split|].
  - apply wf_at_insert; [exact Hw|apply Hm].
  - right. exists m. by rewrite obj_get_insert, String.eqb_refl.
  - unfold members. by rewrite obj_get_insert, String.eqb_refl.
Qed.

Lemma set_leaf_mergeable key leaf v obj : mergeable key obj -> leaf_wf v = true ->
  mergeable key (set_leaf key leaf v obj) /\ members key (set_leaf key leaf v obj) = obj_insert leaf v (members key obj).
Proof. intros Hm Hv. apply with_section; [done|]. apply wf_at_insert; [exact Hv|by apply members_wf]. Qed.

Lemma leaf_list_wf l : leaf_wf (VArray l) = true <-> forallb item_wf l = true.
Proof. done. Qed.

(** ** The merge *)
Section merge.
Context `{WL : WireLib} `{WLW : !WireLaws} `{PL : PrettyLib} `{PLaws : !PrettyLaws}.
Variable io : HostIo.
Hypothesis all_readable : forall p, ho_readable io p = true.
Hypothesis all_writable : forall p, ho_writable io p = true.

(** Files alike but for some paths; a merge touches a document and its backup. *)
Definition only_at (paths : list string) (files files' : Files) : Prop :=
  forall q, q ∉ paths -> files' !! q = files !! q.
Definition with_backup (path : string) : list string := [path; backup_path io path].

Lemma only_at_refl paths files : only_at paths files files.
Proof. by intros q. Qed.

(** The document a home's file holds. *)
Definition holds_doc (files : Files) (path : string) (od : option Obj) : Prop :=
  read_document io files path = Ok (VObject <$> od).

Lemma parsed_mergeable files path key od : holds_doc files path od -> section_ok key (default [] od) ->
  mergeable key (default [] od).
Proof.
  intros Hd Hs. split; [|done]. destruct od as [obj|]; [|done]. unfold holds_doc, read_document in Hd. simpl in *.
  destruct (files !! path) as [text|]; [|done]. destruct (negb _); [done|]. destruct (is_blank text); [done|].
  destruct (from_str text) eqn:E; [|done]. injection Hd as ->. exact (from_slice_wf _ _ E).
Qed.

Lemma rewritten files path root o : doc_wf root = true ->
  exists files', rewrite_json io files path root o = (files', Ok o) /\
    read_document io files' path = Ok (Some root) /\ only_at (with_backup path) files files'.
Proof.
  intros Hw. destruct (pretty_reads_back root Hw) as (s & Hs & Hne & Hp).
  assert (Hb : exists files1, backup_if_exists io files path = (files1, Ok tt) /\ only_at (with_backup path) files files1).
  { unfold backup_if_exists. destruct (files !! path) as [old|].
    - rewrite all_writable. eexists. split; [done|]. intros q Hq. rewrite lookup_insert_ne; [done|].
      intros <-. apply Hq. right. by left.
    - exists files. split; [done|apply only_at_refl]. }
  destruct Hb as (files1 & Hb & Hat). unfold rewrite_json, persist_json. rewrite Hb, all_writable. simpl. rewrite Hs.
  eexists. split; [done|]. split.
  - unfold read_document, is_blank. rewrite lookup_insert_eq, all_readable. simpl.
    rewrite (proj2 (String.eqb_neq _ _) Hne), Hp. done.
  - intros q Hq. rewrite lookup_insert_ne; [by apply Hat|]. intros <-. apply Hq. by left.
Qed.

Lemma section_members key obj : mergeable key obj ->
  default (VObject []) (obj_get key obj) = VObject (members key obj).
Proof. intros [_ [H|[m H]]]; unfold members; by rewrite H. Qed.

Lemma upsert_sets files path key leaf v od :
  holds_doc files path od -> mergeable key (default [] od) -> leaf_wf v = true ->
  exists files' o, upsert_user_json io files path key leaf v = (files', Ok o) /\
    holds_doc files' path (Some (set_leaf key leaf v (default [] od))) /\ only_at (with_backup path) files files' /\ o <> NotPresent.
Proof.
  intros Hd Hm Hv. unfold upsert_user_json. rewrite Hd.
  assert (default (VObject []) (VObject <$> od) = VObject (default [] od)) as -> by (by destruct od).
  set (obj := default [] od) in *. rewrite section_members by done.
  assert (Hw : doc_wf (VObject (set_leaf key leaf v obj)) = true) by (by apply set_leaf_mergeable).
  destruct (obj_get leaf (members key obj)) as [old|] eqn:El.
  - destruct (value_eqb old v) eqn:Ev.
    + apply value_eqb_eq in Ev as ->. exists files, AlreadyMatches.
      split_and!; [done| |apply only_at_refl|done]. unfold holds_doc. rewrite Hd. f_equal.
      destruct od as [o|]; [|discriminate El]. simpl in *. do 2 f_equal. unfold set_leaf. subst obj. simpl in *.
      rewrite (obj_insert_same leaf) by (done || by apply members_ascend).
      symmetry. apply obj_insert_same; [by eapply mergeable_ascend|].
      destruct Hm as [_ [H|[m H]]]; unfold members in *; rewrite H in *; done.
    + destruct (rewritten files path _ Updated Hw) as (files' & He & Hr & Hat).
      exists files', Updated. split_and!; [exact He|exact Hr|done|done].
  - destruct (rewritten files path _ Inserted Hw) as (files' & He & Hr & Hat).
    exists files', Inserted. split_and!; [exact He|exact Hr|done|done].
Qed.

Lemma upsert_matches files path key leaf v od :
  holds_doc files path od -> mergeable key (default [] od) -> obj_get leaf (members key (default [] od)) = Some v ->
  upsert_user_json io files path key leaf v = (files, Ok AlreadyMatches).
Proof.
  intros Hd Hm Hl. unfold upsert_user_json. rewrite Hd.
  assert (default (VObject []) (VObject <$> od) = VObject (default [] od)) as -> by (by destruct od).
  rewrite section_members by done. rewrite Hl. by rewrite (proj2 (value_eqb_eq v v)).
Qed.

Lemma remove_drops files path key leaf obj v :
  holds_doc files path (Some obj) -> mergeable key obj -> obj_get leaf (members key obj) = Some v ->
  exists files', remove_user_json io files path key leaf = (files', Ok Removed) /\
    holds_doc files' path (Some (drop_leaf key leaf obj)) /\ only_at (with_backup path) files files'.
Proof.
  intros Hd Hm Hl. unfold remove_user_json. rewrite Hd. simpl.
  destruct (mg_section _ _ Hm) as [H|[m H]]; unfold members in Hl; rewrite H in Hl |- *; [done|]. rewrite Hl. simpl.
  assert (Hw : doc_wf (VObject (drop_leaf key leaf obj)) = true).
  { apply with_section; [done|]. by apply wf_at_filter, members_wf. }
  destruct (rewritten files path _ Removed Hw) as (files' & He & Hr & Hat).
  unfold drop_leaf, members in He, Hr |- *. rewrite H in He, Hr |- *. exists files'. done.
Qed.

(** ** Other files *)
Lemma only_at_trans ps files1 files2 files3 : only_at ps files1 files2 -> only_at ps files2 files3 -> only_at ps files1 files3.
Proof. intros H1 H2 q Hq. by rewrite H2, H1. Qed.
Lemma only_at_sub ps ps' files1 files2 : (forall p, p ∈ ps -> p ∈ ps') -> only_at ps files1 files2 -> only_at ps' files1 files2.
Proof.
  intros Hs H q Hq. apply H. by intros ?%Hs.
Qed.

Lemma read_elsewhere ps files files' path : only_at ps files files' -> path ∉ ps ->
  read_document io files' path = read_document io files path.
Proof. intros H Hp. unfold read_document. by rewrite H. Qed.

Lemma written files path text :
  exists files', write_file io files path text = (files', Ok tt) /\ files' !! path = Some text /\ only_at [path] files files'.
Proof.
  unfold write_file. rewrite all_writable. eexists. split; [done|]. split; [apply lookup_insert_eq|].
  intros q Hq. apply lookup_insert_ne. intros <-. apply Hq. by left.
Qed.

Lemma removed files path :
  exists files', remove_file io files path = (files', Ok (if files !! path then Removed else NotPresent)) /\
    files' !! path = None /\ only_at [path] files files'.
Proof.
  unfold remove_file. destruct (files !! path) eqn:E; rewrite ?all_writable.
  - eexists. split; [done|]. split; [apply lookup_delete_eq|].
    intros q Hq. apply lookup_delete_ne. intros <-. apply Hq. by left.
  - exists files. split_and!; [done|done|apply only_at_refl].
Qed.

Definition in_dir (dir : string) (names : list string) : list string := map (fun n => dir +:+ "/" +:+ n) names.

(** Writing templates and removing them. *)
Lemma templates_written dir names files :
  NoDup (in_dir dir names) ->
  exists files', write_all io files dir names = (files', Ok tt) /\ only_at (in_dir dir names) files files' /\
    forall n, n ∈ names -> files' !! (dir +:+ "/" +:+ n) = Some (ho_asset io n).
Proof.
  revert files. induction names as [|n names IH]; intros files Hnd.
  - exists files. split_and!; [done|apply only_at_refl|]. by intros n ?%elem_of_nil.
  - cbn [write_all]. destruct (written files (dir +:+ "/" +:+ n) (ho_asset io n)) as (files1 & -> & Hl & Hat). simpl.
    apply NoDup_cons in Hnd as [Hn Hnd].
    destruct (IH files1 Hnd) as (files2 & -> & Hat2 & Hl2).
    exists files2. split_and!; [done| |].
    + eapply only_at_trans; eapply only_at_sub; [|exact Hat| |exact Hat2]; set_solver.
    + intros m [->|Hm]%elem_of_cons; [|by apply Hl2]. by rewrite Hat2.
Qed.

Lemma templates_removed dir names files :
  NoDup (in_dir dir names) -> (forall n, n ∈ names -> is_Some (files !! (dir +:+ "/" +:+ n))) ->
  exists files', remove_all io files dir names = (files', Ok (N.of_nat (length names))) /\
    only_at (in_dir dir names) files files' /\ forall p, p ∈ in_dir dir names -> files' !! p = None.
Proof.
  revert files. induction names as [|n names IH]; intros files Hnd Hin.
  - exists files. split_and!; [done|apply only_at_refl|]. by intros n ?%elem_of_nil.
  - cbn [remove_all]. destruct (removed files (dir +:+ "/" +:+ n)) as (files1 & -> & Hl & Hat).
    destruct (Hin n ltac:(by left)) as [t ->]. cbn.
    apply NoDup_cons in Hnd as [Hn Hnd].
    destruct (IH files1 Hnd) as (files2 & -> & Hat2 & Hl2).
    { intros m Hm. rewrite Hat; [apply Hin; by right|]. intros E%list_elem_of_singleton. apply Hn.
      apply list_elem_of_fmap. exists m. by rewrite E. }
    exists files2. split_and!; [simpl; do 2 f_equal; lia| |].
    + eapply only_at_trans; eapply only_at_sub; [|exact Hat| |exact Hat2]; set_solver.
    + intros p [->|Hp]%elem_of_cons; [|by apply Hl2]. by rewrite Hat2.
Qed.
End merge.

(** ** The paths *)
Lemma str_app_inj (a b c : string) : a +:+ b = a +:+ c -> b = c.
Proof. induction a as [|x a IH]; [done|]. intros H. apply IH. change (String x (a +:+ b) = String x (a +:+ c)) in H. congruence. Qed.

Lemma under_inj home a b : under home a = under home b -> a = b.
Proof. unfold under. destruct (ends_with "/" home); intros H; repeat apply str_app_inj in H; done. Qed.

Lemma under_app home a b : under home a +:+ b = under home (a +:+ b).
Proof. unfold under. destruct (ends_with "/" home); by rewrite !str_app_assoc. Qed.

Lemma backup_under io home a : backup_path io (under home a) = under home (a +:+ ".bak." +:+ pretty (ho_seconds io)).
Proof. apply under_app. Qed.

Lemma command_under home n : commands_dir home +:+ "/" +:+ n = under home (".claude/commands/" +:+ n).
Proof. unfold commands_dir. by rewrite under_app. Qed.

(** Everything the two commands touch. *)
Definition touched (io : HostIo) (home : string) : list string :=
  with_backup io (claude_json_path home) ++ in_dir (commands_dir home) TEMPLATES ++ [shim_path home] ++
  with_backup io (settings_path home) ++ [await_shim_path home].

Ltac unfold_paths :=
  unfold touched, with_backup, in_dir, claude_json_path, settings_path, shim_path, await_shim_path, TEMPLATES in *;
  cbn [map app] in *; rewrite ?backup_under, ?command_under in *.
(** Two paths under a home differ by the text of their names. *)
Ltac by_paths :=
  unfold_paths;
  rewrite ?elem_of_cons, ?elem_of_nil;
  let H := fresh in intros H; repeat destruct H as [H|H]; try done;
  apply under_inj in H; discriminate H.

Lemma templates_nodup home : NoDup (in_dir (commands_dir home) TEMPLATES).
Proof. unfold_paths. repeat (apply NoDup_cons; split; [by_paths|]). constructor. Qed.

(** ** The stop hooks *)
Lemma stop_hooks_members (od : option Obj) :
  stop_hooks (VObject <$> od) =
  match obj_get "Stop" (members "hooks" (default [] od)) with Some (VArray l) => l | _ => [] end.
Proof.
  unfold stop_hooks, members. destruct od as [obj|]; [|done]. simpl.
  destruct (obj_get "hooks" obj) as [[]|]; try done. simpl. by destruct (obj_get "Stop" m) as [[]|].
Qed.

Lemma named_owned names h name : get_str h "command" = Some name -> name ∈ names -> owned names h = true.
Proof.
  unfold owned. intros -> Hn. unfold is_famp_command.
  assert (existsb (fun shim => String.eqb name shim || String.eqb (trim_quotes name) shim ||
                       String.prefix (shim +:+ " ") name) names = true) as ->; [|done].
  apply existsb_exists. exists name. split; [by apply list_elem_of_In|]. by rewrite String.eqb_refl.
Qed.

Lemma own_path_owned home path : path ∈ famp_paths home -> is_famp_command path (famp_paths home) = true.
Proof.
  intros H. exact (named_owned _ (VObject [("command", VString path)]) path eq_refl H).
Qed.

Lemma own_entry_dropped home path timeout : path ∈ famp_paths home ->
  remove_famp_hook_from_stop_entry (famp_paths home) (stop_entry path timeout) = None.
Proof.
  intros H. set (shims := famp_paths home) in *.
  assert (Ho : owned shims (json_obj [("type", VString "command"); ("command", VString path);
                ("timeout", VNumber (PosInt timeout))]) = true) by exact (own_path_owned home path H).
  unfold remove_famp_hook_from_stop_entry, stop_entry, owned at 1.
  set (inner := json_obj [("type", VString "command"); ("command", VString path);
                          ("timeout", VNumber (PosInt timeout))]) in *. clearbody inner.
  assert (json_obj [("matcher", VString EmptyString); ("hooks", VArray [inner])] =
          VObject [("hooks", VArray [inner]); ("matcher", VString EmptyString)]) as -> by reflexivity.
  cbn -[owned]. by rewrite Ho.
Qed.

Definition our_hooks (home : string) : list Value :=
  [stop_entry (shim_path home) 30; stop_entry (await_shim_path home) 86400].

Lemma kept_ours home l : kept_hooks home (l ++ our_hooks home) = kept_hooks home l.
Proof.
  unfold kept_hooks, our_hooks. rewrite omap_app. cbn [omap list_omap].
  rewrite !own_entry_dropped by (unfold famp_paths; set_solver). by rewrite app_nil_r.
Qed.

(** Filtering an entry once is enough. *)
Lemma entry_filtered shims e e' :
  remove_famp_hook_from_stop_entry shims e = Some e' -> remove_famp_hook_from_stop_entry shims e' = Some e'.
Proof.
  unfold remove_famp_hook_from_stop_entry. destruct (owned shims e) eqn:Eo; [done|].
  destruct (get e "hooks" ≫= as_array) as [hooks|] eqn:Eh; [|by intros [= <-]; rewrite Eo, Eh].
  set (filtered := List.filter (fun h => negb (owned shims h)) hooks).
  case_bool_decide as Hl; [intros [= <-]; rewrite Eo, Eh; by rewrite bool_decide_true|].
  case_bool_decide as Hz; [done|]. destruct e as [| | | | |m]; try done. intros [= <-].
  assert (owned shims (VObject (obj_insert "hooks" (VArray filtered) m)) = false) as ->.
  { revert Eo. unfold owned, get_str, get. by rewrite obj_get_insert. }
  simpl. rewrite obj_get_insert. simpl.
  assert (List.filter (fun h => negb (owned shims h)) filtered = filtered) as ->; [|by rewrite bool_decide_true].
  unfold filtered. clear. induction hooks as [|h hooks IH]; [done|]. simpl.
  destruct (owned shims h) eqn:E; simpl; [done|]. by rewrite E, IH.
Qed.

Lemma kept_twice shims (l : list Value) :
  omap (remove_famp_hook_from_stop_entry shims) (omap (remove_famp_hook_from_stop_entry shims) l) =
  omap (remove_famp_hook_from_stop_entry shims) l.
Proof.
  induction l as [|e l IH]; [done|]. simpl.
  destruct (remove_famp_hook_from_stop_entry shims e) as [e'|] eqn:E; [|done].
  simpl. rewrite (entry_filtered _ _ _ E). by f_equal.
Qed.

Lemma entry_wf num d shims e e' : remove_famp_hook_from_stop_entry shims e = Some e' -> wf_at num d e = true -> wf_at num d e' = true.
Proof.
  unfold remove_famp_hook_from_stop_entry. destruct (owned shims e); [done|].
  destruct (get e "hooks" ≫= as_array) as [hooks|] eqn:Eh; [|by intros [= <-]].
  case_bool_decide; [by intros [= <-]|]. case_bool_decide; [done|]. destruct e as [| | | | |m]; try done. intros [= <-] Hw.
  apply wf_at_insert; [|done]. simpl in Eh. destruct (obj_get "hooks" m) as [v|] eqn:Eg; [|done].
  pose proof (wf_at_get _ _ _ _ _ Hw Eg) as Hv. destruct v; try done. injection Eh as ->.
  cbn [wf_at] in Hv |- *. rewrite andb_true_iff, forallb_forall in Hv |- *. destruct Hv as [Hd Hv]. split; [done|].
  intros h [Hin _]%filter_In. by apply Hv.
Qed.

Lemma kept_wf num d shims (l : list Value) : forallb (wf_at num d) l = true ->
  forallb (wf_at num d) (omap (remove_famp_hook_from_stop_entry shims) l) = true.
Proof.
  rewrite !forallb_forall. intros H e' (e & He & Hr)%list_elem_of_In%list_elem_of_omap.
  eapply entry_wf; [exact Hr|]. by apply H, list_elem_of_In.
Qed.

(** The stop hooks of a document, as entries. *)
Lemma prior_items ds : mergeable "hooks" (default [] ds) -> forallb item_wf (stop_hooks (VObject <$> ds)) = true.
Proof.
  intros Hm. rewrite stop_hooks_members. destruct (obj_get "Stop" _) as [v|] eqn:E; [|done].
  pose proof (wf_at_get _ _ _ _ _ (members_wf _ _ Hm) E) as Hv. by destruct v.
Qed.

(** *** The user's own entries

    An entry none of whose commands names a script of this program or its native
    hook is the user's, whatever way the program looks for its own. *)
Definition within (t s : string) : Prop := exists a b, s = a +:+ (t +:+ b).

Lemma str_app_nil_r (s : string) : s +:+ EmptyString = s.
Proof. induction s as [|c s IH]; [done|]. change (String c s +:+ ?u) with (String c (s +:+ u)). by rewrite IH. Qed.
Lemma within_refl s : within s s.
Proof. exists EmptyString, EmptyString. by rewrite str_app_nil_r. Qed.
Lemma within_trans r t s : within r t -> within t s -> within r s.
Proof. intros (a & b & ->) (c & d & ->). exists (c +:+ a), (b +:+ d). by rewrite !str_app_assoc. Qed.
Lemma within_cons c t s : within t s -> within t (String c s).
Proof. intros (a & b & ->). by exists (String c a), b. Qed.

Lemma prefix_itself p b : String.prefix p (p +:+ b) = true.
Proof. induction p as [|c p IH]; [by destruct b|].
  change (String c p +:+ b) with (String c (p +:+ b)). cbn [String.prefix]. by destruct (ascii_dec c c). Qed.
Lemma prefix_initial p s : String.prefix p s = true -> exists b, s = p +:+ b.
Proof.
  revert s. induction p as [|c p IH]; intros s Hp; [by exists s|]. destruct s as [|d s]; [done|].
  cbn [String.prefix] in Hp. destruct (ascii_dec c d) as [<-|]; [|done]. destruct (IH s Hp) as [b ->]. by exists b.
Qed.
Lemma prefix_within p s : String.prefix p s = true -> within p s.
Proof. intros [b ->]%prefix_initial. by exists EmptyString, b. Qed.
Lemma contains_within t s : within t s -> str_contains t s = true.
Proof.
  intros (a & b & ->). induction a as [|c a IH].
  - change (EmptyString +:+ ?u) with u. pose proof (prefix_itself t b) as Hp.
    destruct (t +:+ b); cbn [str_contains]; by rewrite Hp.
  - change (String c a +:+ ?u) with (String c (a +:+ u)). cbn [str_contains]. by rewrite IH, orb_true_r.
Qed.

Lemma trim_start_within s : within (trim_quotes_start s) s.
Proof. induction s as [|c s IH]; [apply within_refl|]. simpl. destruct (is_quote c); [by apply within_cons|apply within_refl]. Qed.
Lemma trim_end_initial s : exists b, s = trim_quotes_end s +:+ b.
Proof.
  induction s as [|c s [b IH]]; [by exists EmptyString|]. cbn [trim_quotes_end]. cbv zeta.
  destruct (_ && _); [by exists (String c s)|]. exists b. change (String c ?a +:+ b) with (String c (a +:+ b)). by rewrite <- IH.
Qed.
Lemma trim_quotes_within s : within (trim_quotes s) s.
Proof.
  eapply within_trans; [|apply trim_start_within]. destruct (trim_end_initial (trim_quotes_start s)) as [b Hb].
  exists EmptyString, b. exact Hb.
Qed.

Lemma flush_within x cur fields s : x ∈ flush cur fields -> (forall y, y ∈ fields -> within y s) -> within cur s -> within x s.
Proof. unfold flush. destruct (String.eqb cur EmptyString); [by eauto|]. intros [->|Hx]%elem_of_cons Hf Hc; eauto. Qed.
Lemma token_within s : forall x skip cur, skip = 0%nat \/ cur = EmptyString -> x ∈ split_ws skip cur s -> within x (cur +:+ s).
Proof.
  induction s as [|c s IH]; intros x skip cur Hs; cbn [split_ws].
  - intros Hx. rewrite str_app_nil_r. eapply flush_within; [exact Hx| |apply within_refl]. by intros y ?%elem_of_nil.
  - destruct skip as [|k].
    + destruct (ws_len (String c s)) as [|k].
      * intros Hx%IH; [|by left]. by rewrite str_app_assoc in Hx.
      * intros Hx. eapply flush_within; [exact Hx| |by exists EmptyString, (String c s)].
        intros y Hy%IH; [|by right]. eapply within_trans; [exact Hy|]. exists (cur +:+ String c EmptyString), EmptyString.
        by rewrite str_app_assoc, str_app_nil_r.
    + destruct Hs as [| ->]; [done|]. intros Hx%IH; [|by right]. by apply within_cons.
Qed.

(** A command that names none of [names]. *)
Definition unrelated (names : list string) (command : string) : bool :=
  forallb (fun name => negb (str_contains name command)) names.
Lemma unrelated_not_named names command t s : unrelated names command = true -> t ∈ names -> within t s -> within s command -> False.
Proof.
  unfold unrelated. rewrite forallb_forall. intros H Ht%list_elem_of_In%H Hts Hs.
  by rewrite (contains_within t command) in Ht by (by eapply within_trans).
Qed.

Lemma codex_token tokens : codex_stop_tokens tokens = true -> "codex-stop" ∈ tokens.
Proof.
  induction tokens as [|x l IH]; [done|]. destruct l as [|y l]; [done|]. cbn [codex_stop_tokens].
  intros [[_ ->%String.eqb_eq]%andb_true_iff|H]%orb_true_iff; [right; left|right; by apply IH].
Qed.

Lemma unrelated_foreign shims command : unrelated ("codex-stop" :: shims) command = true -> is_famp_command command shims = false.
Proof.
  intros Hu. pose proof (fun t s => unrelated_not_named _ _ t s Hu) as Hno.
  apply not_true_iff_false. unfold is_famp_command. rewrite !orb_true_iff, !existsb_exists.
  assert (Htok : forall tok, tok ∈ split_whitespace command -> within (trim_quotes tok) command).
  { intros tok Ht. eapply within_trans; [apply trim_quotes_within|]. by apply (token_within _ _ 0 EmptyString); [left|]. }
  intros [[(shim & Hin%list_elem_of_In & H)|(tok & Ht%list_elem_of_In & H)]|H].
  - rewrite !orb_true_iff, !String.eqb_eq in H. destruct H as [[<-|H]|H%prefix_within].
    + apply (Hno command command); [by right|apply within_refl..].
    + apply (Hno shim shim); [by right|apply within_refl|]. rewrite <- H. apply trim_quotes_within.
    + eapply (Hno shim); [by right| |exact H]. by exists EmptyString, " ".
  - apply existsb_exists in H as (shim & Hin%list_elem_of_In & H%String.eqb_eq).
    apply (Hno shim shim); [by right|apply within_refl|]. rewrite <- H. by apply Htok.
  - apply codex_token, list_elem_of_fmap in H as (tok & H & Ht).
    apply (Hno "codex-stop" "codex-stop"); [by left|apply within_refl|]. rewrite H. by apply Htok.
Qed.

(** The commands of an entry: its own, in the older form, and its handlers'. *)
Definition commands_of (e : Value) : list string :=
  omap (fun h => get_str h "command") (e :: default [] (get e "hooks" ≫= as_array)).
Definition users_entry (names : list string) (e : Value) : bool := forallb (unrelated ("codex-stop" :: names)) (commands_of e).

(** An entry as it was, or one with some of its handlers left out. *)
Definition trimmed (e e' : Value) : Prop :=
  e' = e \/ exists m hs hs', e = VObject m /\ obj_get "hooks" m = Some (VArray hs) /\
    hs' `sublist_of` hs /\ hs' <> [] /\ e' = VObject (obj_insert "hooks" (VArray hs') m).

(** What becomes of a list of stop entries: the user's all stay as they are and in
    their order, every entry left is one of them or what is left of one, and none has
    a command among [names]. *)
Record users_kept (names : list string) (prior kept : list Value) : Prop := mkUsersKept {
  uk_users : List.filter (users_entry names) prior `sublist_of` kept;
  uk_from e' : e' ∈ kept -> exists e, e ∈ prior /\ trimmed e e';
  uk_none e' name : e' ∈ kept -> name ∈ names -> name ∉ commands_of e' }.

Lemma users_not_owned names h : forallb (unrelated ("codex-stop" :: names)) (omap (fun h => get_str h "command") [h]) = true ->
  owned names h = false.
Proof. unfold owned. cbn [omap list_omap]. destruct (get_str h "command"); [|done]. simpl. intros [H _]%andb_true_iff. by apply unrelated_foreign. Qed.

Lemma users_entry_kept names e : users_entry names e = true -> remove_famp_hook_from_stop_entry names e = Some e.
Proof.
  unfold users_entry, commands_of. rewrite forallb_forall. intros H.
  assert (Ho : forall h, h ∈ e :: default [] (get e "hooks" ≫= as_array) -> owned names h = false).
  { intros h Hh. apply users_not_owned. apply forallb_forall. intros c Hc. apply H.
    apply list_elem_of_In, list_elem_of_omap. apply list_elem_of_In, list_elem_of_omap in Hc as (h' & ->%list_elem_of_singleton & Hc).
    by exists h. }
  unfold remove_famp_hook_from_stop_entry. rewrite (Ho e) by left.
  destruct (get e "hooks" ≫= as_array) as [hooks|]; [|done].
  assert (List.filter (fun h => negb (owned names h)) hooks = hooks) as ->; [|by rewrite bool_decide_true].
  apply forallb_filter_id, forallb_forall. intros h Hh%list_elem_of_In. by rewrite Ho by (by right).
Qed.

Lemma removed_trimmed names e e' : remove_famp_hook_from_stop_entry names e = Some e' -> trimmed e e'.
Proof.
  unfold remove_famp_hook_from_stop_entry. destruct (owned names e); [done|].
  destruct (get e "hooks" ≫= as_array) as [hooks|] eqn:Eh; [|intros [= <-]; by left].
  case_bool_decide; [intros [= <-]; by left|]. case_bool_decide as Hz; [done|]. destruct e as [| | | | |m]; try done.
  intros [= <-]. simpl in Eh. destruct (obj_get "hooks" m) as [[| | | |hs|]|] eqn:Eg; try done. injection Eh as ->.
  right. exists m, hooks, (List.filter (fun h => negb (owned names h)) hooks). split_and!; try done.
  - clear. induction hooks as [|h hooks IH]; [constructor|]. simpl. destruct (negb _); by constructor.
  - intros E. by rewrite E in Hz.
Qed.

Lemma filter_keeps_all {A} (f : A -> bool) l : length (List.filter f l) = length l -> forall x, x ∈ l -> f x = true.
Proof.
  induction l as [|y l IH]; intros Hl x; [by intros ?%elem_of_nil|]. simpl in Hl. destruct (f y) eqn:E.
  - intros [->|Hx]%elem_of_cons; [done|]. apply IH; [by injection Hl|done].
  - pose proof (List.filter_length_le f l). simpl in Hl. lia.
Qed.

(** The handlers of an entry the filter keeps. *)
Lemma kept_handlers shims e e' : remove_famp_hook_from_stop_entry shims e = Some e' ->
  owned shims e' = false /\ forall hs, (get e' "hooks" ≫= as_array) = Some hs -> forall h, h ∈ hs -> owned shims h = false.
Proof.
  unfold remove_famp_hook_from_stop_entry. destruct (owned shims e) eqn:Eo; [done|].
  destruct (get e "hooks" ≫= as_array) as [hooks|] eqn:Eh.
  2: { intros [= <-]. split; [done|]. intros hs. by rewrite Eh. }
  case_bool_decide as Hl.
  { intros [= <-]. split; [done|]. rewrite Eh. intros hs [= <-] h Hin.
    pose proof (filter_keeps_all _ _ Hl h Hin) as H. by apply negb_true_iff in H. }
  case_bool_decide; [done|]. destruct e as [| | | | |m]; try done. intros [= <-]. split.
  - revert Eo. unfold owned, get_str, get. by rewrite obj_get_insert.
  - simpl. rewrite obj_get_insert. simpl. intros hs [= <-] h [_ Hf]%list_elem_of_In%filter_In. by apply negb_true_iff in Hf.
Qed.

Lemma users_are_kept names prior : users_kept names prior (omap (remove_famp_hook_from_stop_entry names) prior).
Proof.
  split.
  - induction prior as [|e prior IH]; [constructor|]. cbn [List.filter omap list_omap].
    destruct (users_entry names e) eqn:Eu; [rewrite users_entry_kept by done; by constructor|].
    destruct (remove_famp_hook_from_stop_entry names e); [by apply sublist_cons|exact IH].
  - intros e' (e & He & Hr)%list_elem_of_omap. exists e. split; [done|by eapply removed_trimmed].
  - intros e' name (e & _ & [Ho Hh]%kept_handlers)%list_elem_of_omap Hn (h & Hin & Hc)%list_elem_of_omap.
    apply elem_of_cons in Hin as [->|Hin]; [by rewrite (named_owned _ _ _ Hc Hn) in Ho|].
    destruct (get e' "hooks" ≫= as_array) as [hs|]; [|by apply elem_of_nil in Hin].
    specialize (Hh hs eq_refl h Hin). by rewrite (named_owned _ _ _ Hc Hn) in Hh.
Qed.

(** ** Installing, installing again, uninstalling

    The claims over the two commands of [HostConfig]: what an installation
    leaves, that a second one changes nothing, that uninstalling gives the user's
    configuration back, and the hook it leaves behind. *)

Section install.
Context `{WL : WireLib} `{WLW : !WireLaws} `{PL : PrettyLib} `{PLaws : !PrettyLaws}.
Variables (io : HostIo) (exe home : string).
Hypothesis all_readable : forall p, ho_readable io p = true.
Hypothesis all_writable : forall p, ho_writable io p = true.

(** A script as it is installed. *)
Definition script (asset : string) : string :=
  str_replace "@FAMP_BIN@" (posix_shell_literal exe) (ho_asset io asset).

(** The configuration as the user has it: the fields of the two documents. *)
Record configured (files : Files) (dc ds : option Obj) : Prop := mkConfigured {
  cf_claude : holds_doc io files (claude_json_path home) dc;
  cf_settings : holds_doc io files (settings_path home) ds;
  cf_servers : section_ok "mcpServers" (default [] dc);
  cf_hooks : section_ok "hooks" (default [] ds) }.
Lemma configured_mergeable files dc ds : configured files dc ds ->
  mergeable "mcpServers" (default [] dc) /\ mergeable "hooks" (default [] ds).
Proof. intros [Hc Hs Hsc Hss]. split; by eapply parsed_mergeable. Qed.

Definition prior_hooks (ds : option Obj) : list Value := stop_hooks (VObject <$> ds).
Definition new_hooks (ds : option Obj) : list Value := kept_hooks home (prior_hooks ds) ++ our_hooks home.

(** What an installation leaves. *)
Record installed (files : Files) (dc ds : option Obj) : Prop := mkInstalled {
  in_claude : holds_doc io files (claude_json_path home)
    (Some (set_leaf "mcpServers" "famp" (mcp_value exe) (default [] dc)));
  in_settings : holds_doc io files (settings_path home)
    (Some (set_leaf "hooks" "Stop" (VArray (new_hooks ds)) (default [] ds)));
  in_commands : forall n, n ∈ TEMPLATES -> files !! (commands_dir home +:+ "/" +:+ n) = Some (ho_asset io n);
  in_runner : files !! shim_path home = Some (script "hook-runner.sh");
  in_await : files !! await_shim_path home = Some (script "famp-await.sh") }.

Lemma new_hooks_wf ds : mergeable "hooks" (default [] ds) -> leaf_wf (VArray (new_hooks ds)) = true.
Proof.
  intros Hm. rewrite leaf_list_wf. unfold new_hooks. rewrite forallb_app. apply andb_true_iff. split; [|reflexivity].
  by apply kept_wf, prior_items.
Qed.

Lemma hooks_of_set v od : mergeable "hooks" (default [] od) -> leaf_wf v = true ->
  stop_hooks (Some (VObject (set_leaf "hooks" "Stop" v (default [] od)))) = match v with VArray l => l | _ => [] end.
Proof.
  intros Hm Hv. change (Some (VObject ?o)) with (VObject <$> Some o). rewrite stop_hooks_members.
  simpl. rewrite (proj2 (set_leaf_mergeable _ "Stop" _ _ Hm Hv)), obj_get_insert. by rewrite String.eqb_refl.
Qed.

Lemma command_touched n : n ∈ TEMPLATES -> commands_dir home +:+ "/" +:+ n ∈ in_dir (commands_dir home) TEMPLATES.
Proof. intros H. apply list_elem_of_fmap. by exists n. Qed.

(** One path of [touched] is none of some others. *)
Ltac untouched H := rewrite H; [try done|by by_paths].

Ltac unread H :=
  let Hr := fresh in pose proof (fun p => read_elsewhere io _ _ _ p H) as Hr; rewrite Hr; [clear Hr|by by_paths].
Ltac untouched_command H Hn :=
  rewrite H; [|revert Hn; unfold TEMPLATES; rewrite !elem_of_cons, elem_of_nil;
               intros Hn; repeat destruct Hn as [->|Hn]; try done; by_paths].

Lemma install_installs files dc ds : configured files dc ds ->
  exists files', install_claude io exe home files = (files', Ok tt) /\ installed files' dc ds /\
    only_at (touched io home) files files'.
Proof.
  intros Hcf. destruct (configured_mergeable _ _ _ Hcf) as [Hmc Hms]. destruct Hcf as [Hc Hs _ _]. unfold install_claude.
  destruct (upsert_sets io all_readable all_writable files _ "mcpServers" "famp" (mcp_value exe) dc Hc Hmc eq_refl)
    as (f1 & o1 & -> & Hc1 & Hat1 & _). cbv beta iota.
  destruct (templates_written io all_readable all_writable (commands_dir home) TEMPLATES f1 (templates_nodup home))
    as (f2 & -> & Hat2 & Hw2). cbv beta iota. unfold install_shim. fold (script "hook-runner.sh") (script "famp-await.sh").
  destruct (written io all_writable f2 (shim_path home) (script "hook-runner.sh")) as (f3 & -> & Hw3 & Hat3). cbv beta iota.
  assert (Hs3 : holds_doc io f3 (settings_path home) ds).
  { unfold holds_doc. unread Hat3. unread Hat2.
    unread Hat1. exact Hs. }
  unfold build_stop_array. rewrite Hs3. cbv beta iota. fold (prior_hooks ds). fold (our_hooks home). fold (new_hooks ds).
  destruct (upsert_sets io all_readable all_writable f3 _ "hooks" "Stop" (VArray (new_hooks ds)) ds Hs3 Hms (new_hooks_wf ds Hms))
    as (f4 & o4 & -> & Hs4 & Hat4 & _). cbv beta iota.
  destruct (written io all_writable f4 (await_shim_path home) (script "famp-await.sh")) as (f5 & -> & Hw5 & Hat5).
  exists f5. split; [done|]. split; [split|].
  - unfold holds_doc. unread Hat5. unread Hat4.
    unread Hat3. unread Hat2. exact Hc1.
  - unfold holds_doc. unread Hat5. exact Hs4.
  - intros n Hn. untouched_command Hat5 Hn. untouched_command Hat4 Hn. untouched_command Hat3 Hn. by apply Hw2.
  - untouched Hat5. untouched Hat4.
  - exact Hw5.
  - intros q Hq. unfold touched in Hq. rewrite !not_elem_of_app in Hq. destruct Hq as (Hq1 & Hq2 & Hq3 & Hq4 & Hq5).
    by rewrite Hat5, Hat4, Hat3, Hat2, Hat1.
Qed.

(** ** Again *)
Lemma write_same files path text : files !! path = Some text -> write_file io files path text = (files, Ok tt).
Proof. intros H. unfold write_file. rewrite all_writable. by rewrite insert_id. Qed.

Lemma write_all_same dir names files :
  (forall n, n ∈ names -> files !! (dir +:+ "/" +:+ n) = Some (ho_asset io n)) ->
  write_all io files dir names = (files, Ok tt).
Proof.
  induction names as [|n names IH]; intros H; [done|]. cbn [write_all].
  rewrite write_same by (apply H; by left). apply IH. intros m Hm. apply H. by right.
Qed.

Lemma install_again files dc ds :
  mergeable "mcpServers" (default [] dc) -> mergeable "hooks" (default [] ds) -> installed files dc ds ->
  install_claude io exe home files = (files, Ok tt).
Proof.
  intros Hmc Hms [Hc Hs Ht Hr Ha]. pose proof (new_hooks_wf ds Hms) as Hnw. unfold install_claude, install_shim.
  destruct (set_leaf_mergeable _ "famp" (mcp_value exe) _ Hmc eq_refl) as [Hmc' Hmem].
  rewrite (upsert_matches io files _ "mcpServers" "famp" (mcp_value exe) _ Hc Hmc')
    by (simpl; by rewrite Hmem, obj_get_insert).
  rewrite write_all_same by exact Ht. fold (script "hook-runner.sh") (script "famp-await.sh").
  rewrite write_same by exact Hr. cbv beta iota. unfold build_stop_array. rewrite Hs. cbv beta iota.
  change (VObject <$> Some ?o) with (Some (VObject o)). rewrite (hooks_of_set _ _ Hms Hnw). fold (our_hooks home).
  assert (kept_hooks home (new_hooks ds) ++ our_hooks home = new_hooks ds) as ->.
  { unfold new_hooks. rewrite kept_ours. f_equal. apply kept_twice. }
  destruct (set_leaf_mergeable _ "Stop" _ _ Hms Hnw) as [Hms' Hmem'].
  rewrite (upsert_matches io files _ "hooks" "Stop" (VArray (new_hooks ds)) _ Hs Hms')
    by (simpl; by rewrite Hmem', obj_get_insert).
  by apply write_same.
Qed.

(** ** And back *)
Lemma drop_set key leaf v obj : mergeable key obj -> leaf_wf v = true ->
  drop_leaf key leaf (set_leaf key leaf v obj) = drop_leaf key leaf obj.
Proof.
  intros Hm Hv. unfold drop_leaf. rewrite (proj2 (set_leaf_mergeable _ leaf _ _ Hm Hv)).
  rewrite obj_remove_inserted by (by apply members_ascend). unfold set_leaf.
  by rewrite obj_insert_twice by (by eapply mergeable_ascend).
Qed.

Lemma set_set key leaf v v' obj : mergeable key obj -> leaf_wf v' = true ->
  set_leaf key leaf v (set_leaf key leaf v' obj) = set_leaf key leaf v obj.
Proof.
  intros Hm Hv. unfold set_leaf at 1. rewrite (proj2 (set_leaf_mergeable _ leaf _ _ Hm Hv)).
  rewrite obj_insert_twice by (by apply members_ascend). unfold set_leaf.
  by rewrite obj_insert_twice by (by eapply mergeable_ascend).
Qed.

(** The document with its stop hooks replaced, or dropped when none is left. *)
Definition hooks_left (kept : list Value) (ds : option Obj) : Obj :=
  match kept with
  | [] => drop_leaf "hooks" "Stop" (default [] ds)
  | _ => set_leaf "hooks" "Stop" (VArray kept) (default [] ds)
  end.

Lemma stop_replaced files path ds l kept :
  mergeable "hooks" (default [] ds) -> leaf_wf (VArray l) = true -> leaf_wf (VArray kept) = true ->
  holds_doc io files path (Some (set_leaf "hooks" "Stop" (VArray l) (default [] ds))) ->
  exists files' o,
    (if bool_decide (length kept = 0%nat) then remove_user_json io files path "hooks" "Stop"
     else upsert_user_json io files path "hooks" "Stop" (VArray kept)) = (files', Ok o) /\ o <> NotPresent /\
    holds_doc io files' path (Some (hooks_left kept ds)) /\ only_at (with_backup io path) files files'.
Proof.
  intros Hms Hl Hkw Hs. destruct (set_leaf_mergeable _ "Stop" _ _ Hms Hl) as [Hms' Hmem'].
  destruct kept as [|k kept]; cbn [length]; [rewrite bool_decide_true by done|rewrite bool_decide_false by done]; cbv iota.
  - destruct (remove_drops io all_readable all_writable files _ "hooks" "Stop" _ (VArray l) Hs Hms')
      as (files' & He & Hr & Hat). { by rewrite Hmem', obj_get_insert. }
    exists files', Removed. rewrite (drop_set _ _ _ _ Hms Hl) in Hr. split_and!; [exact He|done|done|done].
  - destruct (upsert_sets io all_readable all_writable files _ "hooks" "Stop" (VArray (k :: kept)) _ Hs Hms' Hkw)
      as (files' & o & He & Hr & Hat & Ho). simpl in Hr. rewrite (set_set _ _ _ _ _ Hms Hl) in Hr.
    exists files', o. split_and!; [exact He|done|done|done].
Qed.

(** Sections the user had come back as they were. *)
Lemma left_untouched ds : mergeable "hooks" (default [] ds) -> prior_hooks ds <> [] ->
  exists obj, ds = Some obj /\ hooks_left (prior_hooks ds) ds = obj.
Proof.
  intros Hm Hne. unfold prior_hooks in *. rewrite stop_hooks_members in *.
  destruct ds as [obj|]; [|done]. simpl in *. exists obj. split; [done|].
  destruct (obj_get "Stop" (members "hooks" obj)) as [[| | | |l|]|] eqn:Es; try done. destruct l as [|h l]; [done|].
  unfold hooks_left, set_leaf. simpl. rewrite (obj_insert_same "Stop") by (done || by apply members_ascend).
  apply obj_insert_same; [by eapply mergeable_ascend|].
  destruct (mg_section _ _ Hm) as [H|[m H]]; unfold members in Es |- *; rewrite H in Es |- *; done.
Qed.

(** The stop hooks once ours are out. *)
Definition hooks_back (ds : option Obj) : Obj := hooks_left (kept_hooks home (prior_hooks ds)) ds.

Lemma stop_entry_removed files ds :
  mergeable "hooks" (default [] ds) ->
  holds_doc io files (settings_path home) (Some (set_leaf "hooks" "Stop" (VArray (new_hooks ds)) (default [] ds))) ->
  exists files' o, surgical_remove_stop_entry io files home = (files', Ok o) /\ o <> NotPresent /\
    holds_doc io files' (settings_path home) (Some (hooks_back ds)) /\ only_at (with_backup io (settings_path home)) files files'.
Proof.
  intros Hms Hs. pose proof (new_hooks_wf ds Hms) as Hnw. unfold surgical_remove_stop_entry. rewrite Hs. cbv beta iota zeta.
  change (VObject <$> Some ?o) with (Some (VObject o)). rewrite (hooks_of_set _ _ Hms Hnw).
  assert (kept_hooks home (new_hooks ds) = kept_hooks home (prior_hooks ds)) as ->.
  { unfold new_hooks. rewrite kept_ours. apply kept_twice. }
  assert (Hlen : length (new_hooks ds) = S (S (length (kept_hooks home (prior_hooks ds))))).
  { unfold new_hooks. rewrite length_app. simpl. lia. }
  rewrite Hlen, (bool_decide_false (_ = 0%nat)) by done. cbv iota.
  rewrite (bool_decide_false (_ = S _)) by lia. apply stop_replaced with (l := new_hooks ds); [done|done| |done].
  revert Hnw. rewrite !leaf_list_wf. unfold new_hooks. rewrite forallb_app. by intros [? _]%andb_true_iff.
Qed.

Lemma servers_untouched obj servers :
  mergeable "mcpServers" obj -> obj_get "mcpServers" obj = Some (VObject servers) -> obj_get "famp" servers = None ->
  drop_leaf "mcpServers" "famp" obj = obj.
Proof.
  intros Hm Hs Hf. pose proof (members_ascend _ _ Hm) as Hk. unfold drop_leaf, members in *. rewrite Hs in *.
  rewrite obj_remove_absent by done. apply obj_insert_same; [by eapply mergeable_ascend|done].
Qed.

Lemma uninstall_removes files dc ds :
  mergeable "mcpServers" (default [] dc) -> mergeable "hooks" (default [] ds) -> installed files dc ds ->
  exists files' o,
    uninstall_claude io home files = (files', Ok (mkUninstallReport Removed 7 Removed Removed o)) /\ o <> NotPresent /\
    holds_doc io files' (claude_json_path home) (Some (drop_leaf "mcpServers" "famp" (default [] dc))) /\
    holds_doc io files' (settings_path home) (Some (hooks_back ds)) /\
    (forall p, p ∈ in_dir (commands_dir home) TEMPLATES \/ p = shim_path home \/ p = await_shim_path home -> files' !! p = None) /\
    only_at (touched io home) files files'.
Proof.
  intros Hmc Hms [Hc Hs Ht Hr Ha]. unfold uninstall_claude, remove_shim.
  destruct (set_leaf_mergeable _ "famp" (mcp_value exe) _ Hmc eq_refl) as [Hmc' Hmem].
  destruct (remove_drops io all_readable all_writable files _ "mcpServers" "famp" _ (mcp_value exe) Hc Hmc')
    as (f1 & -> & Hc1 & Hat1). { by rewrite Hmem, obj_get_insert. }
  rewrite (drop_set _ _ (mcp_value exe) _ Hmc eq_refl) in Hc1. cbv beta iota.
  destruct (templates_removed io all_readable all_writable (commands_dir home) TEMPLATES f1 (templates_nodup home))
    as (f2 & -> & Hat2 & Hn2).
  { intros n Hn. untouched_command Hat1 Hn. by rewrite Ht. }
  cbv beta iota. destruct (removed io all_writable f2 (shim_path home)) as (f3 & -> & Hn3 & Hat3).
  assert (f2 !! shim_path home = Some (script "hook-runner.sh")) as -> by (untouched Hat2; untouched Hat1).
  cbv beta iota. destruct (removed io all_writable f3 (await_shim_path home)) as (f4 & -> & Hn4 & Hat4).
  assert (f3 !! await_shim_path home = Some (script "famp-await.sh")) as ->
    by (untouched Hat3; untouched Hat2; untouched Hat1).
  cbv beta iota. destruct (stop_entry_removed f4 ds Hms) as (f5 & o & -> & Ho & Hs5 & Hat5).
  { unfold holds_doc. unread Hat4. unread Hat3. unread Hat2. unread Hat1. exact Hs. }
  cbv beta iota. exists f5, o. split_and!; [done|done| |exact Hs5| |].
  - unfold holds_doc. unread Hat5. unread Hat4. unread Hat3. unread Hat2. exact Hc1.
  - intros p [Hp|[->| ->]].
    + assert (f2 !! p = None) as Hp2 by (by apply Hn2). apply list_elem_of_fmap in Hp as (n & -> & Hn).
      untouched_command Hat5 Hn. untouched_command Hat4 Hn. untouched_command Hat3 Hn. exact Hp2.
    + untouched Hat5. untouched Hat4.
    + untouched Hat5.
  - intros q Hq. unfold touched in Hq. rewrite !not_elem_of_app in Hq. destruct Hq as (Hq1 & Hq2 & Hq3 & Hq4 & Hq5).
    by rewrite Hat5, Hat4, Hat3, Hat2, Hat1.
Qed.
End install.

(** A disk on which every file of the home can be read and written. *)
Definition healthy_home (io : HostIo) : Prop := forall p, ho_readable io p = true /\ ho_writable io p = true.

(** C37. On a disk whose files can be read and written, an installation into
    documents that parse, whose [mcpServers] and [hooks] are objects where they are
    present, succeeds, enters the server and the two hooks into the user's documents
    and nothing else into them, writes the nine scripts, and touches no other file of
    the home but the documents' backups; the stop hooks it leaves are its own two
    behind the user's, every entry of whose that names no script of this program stays
    unchanged and in its place, and no earlier hook of it is left; and an installation
    after it succeeds and changes no file at all, not even a backup. *)
Theorem install_twice_is_once `{WL : WireLib} `{WLW : !WireLaws} `{PL : PrettyLib} `{PLaws : !PrettyLaws}
    (io : HostIo) (exe home : string) (files : Files) (dc ds : option Obj) :
  healthy_home io -> configured io home files dc ds ->
  exists files' kept, install_claude io exe home files = (files', Ok tt) /\ installed io exe home files' dc ds /\
    (exists doc, read_document io files' (settings_path home) = Ok (Some doc) /\
       stop_hooks (Some doc) = kept ++ our_hooks home) /\
    users_kept (famp_paths home) (prior_hooks ds) kept /\
    only_at (touched io home) files files' /\
    install_claude io exe home files' = (files', Ok tt).
Proof.
  intros Hio Hc.
  assert (Hr : forall p, ho_readable io p = true) by (intros p; apply Hio).
  assert (Hw : forall p, ho_writable io p = true) by (intros p; apply Hio).
  destruct (install_installs io exe home Hr Hw files dc ds Hc) as (files' & Hi & Hin & Hat).
  destruct (configured_mergeable io home files dc ds Hc) as [Hmc Hms].
  exists files', (kept_hooks home (prior_hooks ds)). split_and!; [done|done| |apply users_are_kept|done|].
  - eexists. split; [apply Hin|]. exact (hooks_of_set _ _ Hms (new_hooks_wf home ds Hms)).
  - by eapply install_again.
Qed.

(** Uninstalling after installing gives the user's configuration back: the
    command reports every artifact removed, the scripts are gone, the server entry
    is out of its document, the stop hooks are those the user had, any earlier ones
    of this program left out, and no other file changed but backups; a user who had
    servers and stop hooks, none of them this program's, has the very two documents
    from before. *)
Theorem uninstall_gives_back `{WL : WireLib} `{WLW : !WireLaws} `{PL : PrettyLib} `{PLaws : !PrettyLaws}
    (io : HostIo) (exe home : string) (files : Files) (dc ds : option Obj) :
  healthy_home io -> configured io home files dc ds ->
  exists files' files'' o,
    install_claude io exe home files = (files', Ok tt) /\
    uninstall_claude io home files' = (files'', Ok (mkUninstallReport Removed 7 Removed Removed o)) /\ o <> NotPresent /\
    holds_doc io files'' (claude_json_path home) (Some (drop_leaf "mcpServers" "famp" (default [] dc))) /\
    holds_doc io files'' (settings_path home) (Some (hooks_back home ds)) /\
    (forall p, p ∈ in_dir (commands_dir home) TEMPLATES \/ p = shim_path home \/ p = await_shim_path home ->
       files'' !! p = None) /\
    only_at (touched io home) files files'' /\
    (forall servers, obj_get "mcpServers" (default [] dc) = Some (VObject servers) -> obj_get "famp" servers = None ->
       prior_hooks ds <> [] -> kept_hooks home (prior_hooks ds) = prior_hooks ds ->
       holds_doc io files'' (claude_json_path home) dc /\ holds_doc io files'' (settings_path home) ds).
Proof.
  intros Hio Hc.
  assert (Hr : forall p, ho_readable io p = true) by (intros p; apply Hio).
  assert (Hw : forall p, ho_writable io p = true) by (intros p; apply Hio).
  destruct (install_installs io exe home Hr Hw files dc ds Hc) as (files' & Hi & Hin & Hat).
  destruct (configured_mergeable io home files dc ds Hc) as [Hmc Hms].
  destruct (uninstall_removes io exe home Hr Hw files' dc ds Hmc Hms Hin) as (files'' & o & Hu & Ho & Hd & Hs & Hg & Hat').
  exists files', files'', o. split_and!; [done..|by eapply only_at_trans|].
  intros servers Hsv Hf Hne Hk. rewrite (servers_untouched _ servers Hmc Hsv Hf) in Hd.
  destruct (left_untouched ds Hms Hne) as (obj & Hds & Hb). unfold hooks_back in Hs. rewrite Hk, Hb in Hs. subst ds. split; [|done].
  by destruct dc.
Qed.

(** ** A hook left behind *)
Lemma shared_entry shims ours mine : owned shims ours = true -> owned shims mine = false ->
  remove_famp_hook_from_stop_entry shims (VObject [("hooks", VArray [ours; mine])]) = Some (VObject [("hooks", VArray [mine])]).
Proof. intros Ho Hm. unfold remove_famp_hook_from_stop_entry. cbn -[owned]. by rewrite Ho, Hm. Qed.

(** Uninstalling looks for a stop entry to drop by counting the entries, so that
    an entry the user extended by a hook of his own counts as not this program's: the
    command removes the script, reports no hook found, and the user's settings go on
    running the removed script. *)
Theorem shared_entry_keeps_the_hook `{WL : WireLib} `{PL : PrettyLib}
    (io : HostIo) (home mine : string) (files : Files) (doc : Value) :
  is_famp_command mine (famp_paths home) = false ->
  let command c := json_obj [("type", VString "command"); ("command", VString c)] in
  let entry := VObject [("hooks", VArray [command (await_shim_path home); command mine])] in
  read_document io files (settings_path home) = Ok (Some doc) -> stop_hooks (Some doc) = [entry] ->
  surgical_remove_stop_entry io files home = (files, Ok NotPresent) /\
  owned (famp_paths home) (command (await_shim_path home)) = true /\
  remove_famp_hook_from_stop_entry (famp_paths home) entry = Some (VObject [("hooks", VArray [command mine])]).
Proof.
  intros Hmine command entry Hd Hs.
  assert (Ho : owned (famp_paths home) (command (await_shim_path home)) = true).
  { refine (own_path_owned home (await_shim_path home) _). unfold famp_paths. set_solver. }
  assert (Hm : owned (famp_paths home) (command mine) = false) by exact Hmine.
  assert (He : remove_famp_hook_from_stop_entry (famp_paths home) entry = Some (VObject [("hooks", VArray [command mine])])).
  { by apply shared_entry. }
  split_and!; [|done|done]. unfold surgical_remove_stop_entry. rewrite Hd. cbv beta iota zeta. rewrite Hs.
  rewrite bool_decide_false by done. unfold kept_hooks. cbn [omap list_omap]. rewrite He.
  by rewrite bool_decide_true.
Qed.

(** ** A home *)
Lemma toy_not_blank v : trim (String.string_of_list_byte (toy_print v)) <> EmptyString.
Proof.
  unfold toy_print. set (rest := pos_bits _).
  change (String.string_of_list_byte (_ :: rest)) with (String "002"%char (String.string_of_list_byte rest)).
  generalize (String.string_of_list_byte rest). intros s. unfold trim, trim_start.
  assert (trim_ws 0 (String "002" s) = String "002" s) as -> by (by destruct s as [|? [|? ?]]).
  cbn [trim_end]. unfold trim_start.
  assert (trim_ws 0 (String "002" s) = String "002" s) as -> by (by destruct s as [|? [|? ?]]).
  done.
Qed.
#[export] Instance toy_pretty : PrettyLib := {| to_string_pretty v := Ok (String.string_of_list_byte (toy_print v)) |}.
#[export] Instance toy_pretty_laws : PrettyLaws.
Proof.
  split. intros v Hv. eexists. split; [done|]. split; [apply toy_not_blank|].
  unfold from_str. rewrite String.list_byte_of_string_of_list_byte. by apply toy_parse_print.
Qed.

Definition home_io : HostIo := mkHostIo (fun _ => true) (fun _ => true) 100 (fun _ => "FAMP_BIN=@FAMP_BIN@").
Definition user_claude : Obj := [("costUSD", VNumber (Float 4602678819172646912)); ("mcpServers", VObject [("other", VNull)]); ("theme", VString "dark")].
Definition user_hook : Value := VObject [("command", VString "lint.sh")].
Definition user_settings : Obj := [("hooks", VObject [("Stop", VArray [user_hook])])].
Definition printed (o : Obj) : string := String.string_of_list_byte (toy_print (VObject o)).
Definition user_home : Files :=
  <[claude_json_path "/h" := printed user_claude]> (<[settings_path "/h" := printed user_settings]> ∅).

Lemma user_configured : configured home_io "/h" user_home (Some user_claude) (Some user_settings).
Proof.
  split; [vm_compute; reflexivity..| |]; right; eexists; reflexivity.
Qed.
Lemma home_healthy : healthy_home home_io.
Proof. by intros p. Qed.

Example install_twice_is_once_witness :
  exists files', install_claude home_io "/bin/famp" "/h" user_home = (files', Ok tt) /\
    install_claude home_io "/bin/famp" "/h" files' = (files', Ok tt).
Proof.
  destruct (install_twice_is_once home_io "/bin/famp" "/h" user_home _ _ home_healthy user_configured)
    as (files' & kept & H & _ & _ & _ & _ & H'). exists files'. split; [exact H|exact H'].
Defined.

Example uninstall_gives_back_witness :
  exists files' files'' r, install_claude home_io "/bin/famp" "/h" user_home = (files', Ok tt) /\
    uninstall_claude home_io "/h" files' = (files'', Ok r) /\
    read_document home_io files'' (settings_path "/h") = Ok (Some (VObject user_settings)).
Proof.
  destruct (uninstall_gives_back home_io "/bin/famp" "/h" user_home _ _ home_healthy user_configured)
    as (f' & f'' & o & Hi & Hu & _ & _ & _ & _ & _ & Hsame).
  exists f', f''. eexists. split; [exact Hi|]. split; [exact Hu|].
  destruct (Hsame [("other", VNull)] eq_refl eq_refl) as [_ Hs];
    [vm_compute; discriminate|vm_compute; reflexivity|exact Hs].
Qed.

Example shared_entry_keeps_the_hook_witness :
  let entry := VObject [("hooks", VArray [json_obj [("type", VString "command"); ("command", VString (await_shim_path "/h"))];
                                          json_obj [("type", VString "command"); ("command", VString "lint.sh")]])] in
  let files := <[settings_path "/h" := printed [("hooks", VObject [("Stop", VArray [entry])])]]> ∅ in
  surgical_remove_stop_entry home_io files "/h" = (files, Ok NotPresent).
Proof.
  intros entry files.
  refine (proj1 (shared_entry_keeps_the_hook home_io "/h" "lint.sh" files
                   (VObject [("hooks", VObject [("Stop", VArray [entry])])]) _ _ _)); vm_compute; reflexivity.
Qed.
