(* ===== verification/ListenWake.v ===== *)
(** * The wake helper

    [crates/famp/src/cli/listen_wake.rs]: a process that waits on the bus for an
    identity and prints one line per batch, with its backoff, the file it appends
    the lines to, the process that follows that file, and the pidfile that is to
    keep it alone.  The pidfile's calls interleave as in [StopLock], on whose files
    they are modelled. *)

From Stdlib Require Import Ascii Lia.
From stdpp Require Import gmap strings list pretty.
From S2P Require Import Prelude Json Proto WireInstance Principal InboxReader Keyring KeyringFile Client ClientSend.
From S2P Require Import TaskDir Receive HookScan StopLock.

(** ** The line *)
Definition token_char (c : ascii) : bool :=
  is_alphanumeric c || Ascii.eqb c "."%char || Ascii.eqb c "_"%char || Ascii.eqb c "@"%char ||
  Ascii.eqb c "+"%char || Ascii.eqb c "-"%char.
Definition scrub_token (s : string) : option string :=
  if String.eqb s EmptyString || negb (String.length s <=? 64)%nat then None
  else if string_forall token_char s then Some s else None.

(** What follows the last slash. *)
Fixpoint after_last_slash (s : string) : option string :=
  match s with
  | EmptyString => None
  | String c s =>
      match after_last_slash s with
      | Some t => Some t
      | None => if Ascii.eqb c "/"%char then Some s else None
      end
  end.
Definition scrub_sender (raw : string) : string :=
  default "unknown" (scrub_token (default raw (after_last_slash raw))).

Definition sender_from_envelope (env : Value) : option string :=
  scrub_sender <$>
  match get_str env "from" with
  | Some s => Some s
  | None =>
      match get_str env "sender" with
      | Some s => Some s
      | None => inner ← get env "envelope"; get_str inner "from"
      end
  end.
Definition extract_sender (o : AwaitOutcome) : string :=
  default "unknown" (find_map sender_from_envelope (rev (ao_envelopes o))).

Definition wake_line (o : AwaitOutcome) (identity : string) : string :=
  "FAMP_WAKE identity=" +:+ identity +:+ " sender=" +:+ extract_sender o +:+ " count=" +:+
  pretty (N.of_nat (length (ao_envelopes o))).

Inductive WakeAction := Done | Continue | Exit (code : N).

(** Which of the three outputs take a write; the lines each has taken. *)
Record WakeOut := mkWakeOut {
  wo_out_ok : bool; wo_err_ok : bool; wo_file_ok : bool;
  wo_out : list string; wo_err : list string; wo_file : list string }.
Definition print_out (line : string) (o : WakeOut) : WakeOut :=
  mkWakeOut (wo_out_ok o) (wo_err_ok o) (wo_file_ok o) (wo_out o ++ [line]) (wo_err o) (wo_file o).
Definition print_err (line : string) (o : WakeOut) : WakeOut :=
  if wo_err_ok o then mkWakeOut (wo_out_ok o) (wo_err_ok o) (wo_file_ok o) (wo_out o) (wo_err o ++ [line]) (wo_file o) else o.
(** [append_wake_line], with the warning of a failed one. *)
Definition append_wake_line (line : string) (o : WakeOut) : WakeOut :=
  if wo_file_ok o then mkWakeOut (wo_out_ok o) (wo_err_ok o) (wo_file_ok o) (wo_out o) (wo_err o) (wo_file o ++ [line])
  else print_err "listen-wake: failed to append wake file" o.

Definition write_wake_outcome (outcome : AwaitOutcome) (identity : string) (loop_mode : bool) (o : WakeOut) :
    WakeOut * result WakeAction CliError :=
  if ao_aborted outcome then (o, Ok (Exit 3))
  else if ao_timed_out outcome then
    if loop_mode then (o, Ok Continue)
    else if wo_err_ok o then (print_err "TIMEOUT" o, Ok (Exit 2)) else (o, Err ClIo)
  else
    let line := wake_line outcome identity in
    if negb (wo_out_ok o) then (o, Err ClIo) else
    (append_wake_line line (print_out line o), Ok (if loop_mode then Continue else Done)).

(** ** The loop *)
Definition BACKOFF_START : N := 1%N.
Definition BACKOFF_CAP : N := 60%N.
Definition MAX_CONSECUTIVE_FAILURES : N := 100%N.

(** The registers of the loop, the seconds slept and what was written. *)
Record WakeLoop := mkWakeLoop { wl_backoff : N; wl_failures : N; wl_slept : N; wl_output : WakeOut }.
Inductive WakeEnd := WeDone | WeExit (code : N) | WeError (e : CliError) | WeGaveUp.

(** One turn of the loop, given what the wait came to. *)
Definition wake_turn (identity : string) (loop_mode : bool) (l : WakeLoop) (r : result AwaitOutcome CliError) :
    WakeLoop + (WakeLoop * WakeEnd) :=
  match r with
  | Ok outcome =>
      let '(out, action) := write_wake_outcome outcome identity loop_mode (wl_output l) in
      let l := mkWakeLoop BACKOFF_START 0 (wl_slept l) out in
      match action with
      | Ok Continue => inl l
      | Ok Done => inr (l, WeDone)
      | Ok (Exit code) => inr (l, WeExit code)
      | Err e => inr (l, WeError e)
      end
  | Err e =>
      if negb loop_mode then inr (l, WeError e) else
      let failures := N.min (wl_failures l + 1) u32_max in
      let out := print_err ("listen-wake bus error (attempt " +:+ pretty failures +:+ "/100)") (wl_output l) in
      if (MAX_CONSECUTIVE_FAILURES <=? failures)%N
      then inr (mkWakeLoop (wl_backoff l) failures (wl_slept l) out, WeGaveUp)
      else inl (mkWakeLoop (N.min (wl_backoff l * 2) BACKOFF_CAP) failures (wl_slept l + wl_backoff l) out)
  end.

Definition wake_start (out : WakeOut) : WakeLoop := mkWakeLoop BACKOFF_START 0 0 out.

Section loop.
Context `{WL : WireLib}.

(** [None] as the end is a loop still running after [fuel] turns. *)
Fixpoint run_await_loop {W} `{BusSocket W} (fuel : nat) (exe : string) (fresh : nat -> string) (env : SendEnv)
    (identity : string) (timeout_ms : N) (loop_mode : bool) (l : WakeLoop) (w : W) : W * WakeLoop * option WakeEnd :=
  match fuel with
  | O => (w, l, None)
  | S fuel =>
      let '(w, r) := await_run exe fresh env (mkAwaitArgs timeout_ms None (Some identity)) w in
      match wake_turn identity loop_mode l r with
      | inl l => run_await_loop fuel exe fresh env identity timeout_ms loop_mode l w
      | inr (l, e) => (w, l, Some e)
      end
  end.
End loop.

(** ** Following the file: one pass of [follow_wake_file], from position [pos] *)
Fixpoint drop_string (n : nat) (s : string) : string :=
  match n, s with S n, String _ s => drop_string n s | _, _ => s end.
Definition follow_poll (pos : nat) (file : string) : nat * string :=
  let fresh := drop_string pos file in
  if negb (String.eqb fresh EmptyString) then (String.length file, fresh)
  else (if (String.length file <? pos)%nat then 0%nat else pos, EmptyString).
Fixpoint follow_polls (pos : nat) (files : list string) : nat * string :=
  match files with
  | [] => (pos, EmptyString)
  | file :: files =>
      let '(pos, printed) := follow_poll pos file in
      let '(pos, rest) := follow_polls pos files in (pos, printed +:+ rest)
  end.

(** ** The pidfile *)
Inductive PidPc :=
| PfRead | PfKill (old : N) | PfRemove | PfOpen | PfWrite (i : N) | PfHeld | PfRefused.

(** [None] is no file, an unreadable one or one that names no process. *)
Definition read_pidfile (fs : LockFs) : option N := f ← fs_read fs; parse_u32 (trim (lf_text f)).

(** [create] and [truncate] without [create_new]. *)
Definition fs_open_truncate (now : N) (fs : LockFs) : LockFs * N :=
  match fs_name fs with
  | Some i => (mkLockFs (Some i) (<[i := mkLockFile EmptyString now]> (fs_inodes fs)) (fs_next fs), i)
  | None =>
      let i := fs_next fs in
      (mkLockFs (Some i) (<[i := mkLockFile EmptyString now]> (fs_inodes fs)) (i + 1), i)
  end.
(** A write at the start of the file by a handle of its own. *)
Definition fs_overwrite (i : N) (text : string) (now : N) (fs : LockFs) : LockFs :=
  mkLockFs (fs_name fs)
    (alter (fun f => mkLockFile (text +:+ drop_string (String.length text) (lf_text f)) now) i (fs_inodes fs)) (fs_next fs).

(** One call of [acquire_pidfile] by process [pid], with the process it kills;
    [alive] is [is_listen_wake_alive]. *)
Definition pid_call (alive : N -> bool) (now : N) (force : bool) (pid : N) (fs : LockFs) (pc : PidPc) :
    LockFs * PidPc * option N :=
  match pc with
  | PfRead =>
      (fs, match read_pidfile fs with
           | None => PfOpen
           | Some old => if alive old then if force then PfKill old else PfRefused else PfRemove
           end, None)
  | PfKill old => (fs, PfRemove, Some old)
  | PfRemove => (fs_remove fs, PfOpen, None)
  | PfOpen => let '(fs, i) := fs_open_truncate now fs in (fs, PfWrite i, None)
  | PfWrite i => (fs_overwrite i (pid_line pid) now fs, PfHeld, None)
  | PfHeld | PfRefused => (fs, pc, None)
  end.

(** [release_pidfile_if_ours]. *)
Definition release_pidfile_if_ours (pid : N) (fs : LockFs) : LockFs :=
  if bool_decide (read_pidfile fs = Some pid) then fs_remove fs else fs.

(** Five calls reach an end. *)
Fixpoint pid_calls (fuel : nat) (alive : N -> bool) (now : N) (force : bool) (pid : N) (fs : LockFs) (pc : PidPc) :
    LockFs * PidPc * list N :=
  match fuel with
  | O => (fs, pc, [])
  | S fuel =>
      let '(fs, pc, killed) := pid_call alive now force pid fs pc in
      let '(fs, pc, more) := pid_calls fuel alive now force pid fs pc in
      (fs, pc, match killed with Some k => k :: more | None => more end)
  end.
Definition acquire_pidfile (alive : N -> bool) (now : N) (force : bool) (pid : N) (fs : LockFs) : LockFs * bool * list N :=
  let '(fs, pc, killed) := pid_calls 5 alive now force pid fs PfRead in
  (fs, match pc with PfHeld => true | _ => false end, killed).

(** ** Arming a detached helper: [ensure_supervised_inner] *)
Definition supervisor_args (identity : string) (force : bool) : list string :=
  ["listen-wake"; "--as"; identity; "--loop"] ++ (if force then ["--force"] else []).
(** The arguments of the process spawned, if one is. *)
Definition ensure_supervised (alive : N -> bool) (fs : LockFs) (identity : string) (force : bool) : option (list string) :=
  if negb force && match read_pidfile fs with Some pid => alive pid | None => false end then None
  else Some (supervisor_args identity force).

(** ** What the wake helper promises

    Its line is one scrubbed line that no message body reaches, a broker that stays
    away ends it after a fixed number of attempts and a fixed wait, a follower
    prints every line once, and its pidfile names one holder as long as the
    acquisitions do not interleave. *)

(** ** The line *)
Lemma scrub_token_chars s t : scrub_token s = Some t -> string_forall token_char t = true /\ (String.length t <= 64)%nat.
Proof.
  unfold scrub_token. destruct (_ || _) eqn:E; [done|]. apply orb_false_iff in E as [_ E].
  apply negb_false_iff, Nat.leb_le in E. destruct (string_forall token_char s) eqn:Es; [|done]. by intros [= <-].
Qed.

Lemma scrub_sender_chars raw :
  string_forall token_char (scrub_sender raw) = true /\ (String.length (scrub_sender raw) <= 64)%nat.
Proof.
  unfold scrub_sender. destruct (scrub_token _) as [t|] eqn:E; [by apply scrub_token_chars in E|].
  split; [done|]. simpl. lia.
Qed.

Lemma find_map_some {A B} (f : A -> option B) l y : find_map f l = Some y -> exists x, x ∈ l /\ f x = Some y.
Proof.
  induction l as [|x l IH]; [done|]. simpl. destruct (f x) as [z|] eqn:E.
  - intros [= ->]. exists x. by split; [left|].
  - intros H. destruct (IH H) as (x' & ? & ?). exists x'. by split; [right|].
Qed.

Lemma extract_sender_chars o : string_forall token_char (extract_sender o) = true /\ (String.length (extract_sender o) <= 64)%nat.
Proof.
  unfold extract_sender. destruct (find_map _ _) as [t|] eqn:E; [|split; [done|simpl; lia]].
  apply find_map_some in E as (v & _ & Hv). unfold sender_from_envelope in Hv.
  destruct (match get_str v "from" with Some s => Some s | None => _ end) as [raw|]; [|done].
  injection Hv as <-. apply scrub_sender_chars.
Qed.

(** Two messages that name the same sender. *)
Definition same_sender (e e' : Value) : Prop := sender_from_envelope e = sender_from_envelope e'.

Lemma find_map_rev_ext {A B} (f : A -> option B) l l' :
  Forall2 (fun x y => f x = f y) l l' -> find_map f (rev l) = find_map f (rev l').
Proof.
  intros H. assert (Hr : Forall2 (fun x y => f x = f y) (rev l) (rev l')).
  { induction H as [|x y l l' Hx _ IH]; [constructor|]. simpl. apply Forall2_app; [exact IH|by repeat constructor]. }
  clear H. induction Hr as [|x y l1 l2 Hx _ IH]; [done|]. simpl. by rewrite Hx, IH.
Qed.

Definition line_char (c : ascii) : bool := token_char c || Ascii.eqb c " "%char || Ascii.eqb c "="%char.

Lemma token_line s : string_forall token_char s = true -> string_forall line_char s = true.
Proof. apply string_forall_impl. intros c H. unfold line_char. by rewrite H. Qed.

(** The line the helper prints for a batch, to its output and to the file other
    programs watch, is built of letters, digits, blanks and six marks alone, so it is
    one line and no shell syntax; it is fixed by the identity, the number of messages
    and the names of their senders, whatever else they say. *)
Theorem wake_line_is_scrubbed o envelopes identity :
  scrub_token identity = Some identity ->
  string_forall line_char (wake_line o identity) = true /\
  (Forall2 same_sender (ao_envelopes o) envelopes ->
   wake_line (mkAwaitOutcome envelopes (ao_mailbox o) (ao_next_offset o) (ao_timed_out o) (ao_diagnostic o) (ao_aborted o))
     identity = wake_line o identity).
Proof.
  intros [Hi _]%scrub_token_chars. split.
  - unfold wake_line. rewrite !string_forall_app. rewrite (token_line _ Hi).
    rewrite (token_line _ (proj1 (extract_sender_chars o))).
    assert (string_forall line_char (pretty (N.of_nat (length (ao_envelopes o)))) = true) as ->; [|done].
    eapply string_forall_impl; [|apply pretty_digits]. by intros [[] [] [] [] [] [] [] []].
  - intros H. unfold wake_line, extract_sender. simpl. by rewrite <- (Forall2_length _ _ _ H), <- (find_map_rev_ext _ _ _ H).
Qed.

Example wake_line_is_scrubbed_witness :
  let m body := json_obj [("from", VString "agent:local.bus/alice"); ("body", VString body)] in
  let o body := mkAwaitOutcome [m body] None None false None false in
  wake_line (o "hello") "bob" = "FAMP_WAKE identity=bob sender=alice count=1" /\
  wake_line (o "; rm -rf /") "bob" = wake_line (o "hello") "bob".
Proof.
  intros m o. split; [vm_compute; reflexivity|].
  refine (proj2 (wake_line_is_scrubbed (o "hello") [m "; rm -rf /"] "bob" eq_refl) _).
  repeat constructor; vm_compute; reflexivity.
Qed.

(** ** A broker that stays away *)

(** Backoff, failures and seconds slept after a number of failed waits. *)
Definition failed_once (r : N * N * N) : N * N * N :=
  let '(backoff, failures, slept) := r in (N.min (backoff * 2) BACKOFF_CAP, failures + 1, slept + backoff)%N.
Definition failed (k : nat) : N * N * N := Nat.iter k failed_once (BACKOFF_START, 0, 0)%N.
Definition registers (l : WakeLoop) : N * N * N := (wl_backoff l, wl_failures l, wl_slept l).

Lemma failed_S k : failed (S k) = failed_once (failed k).
Proof. done. Qed.

Lemma failed_count k : (failed k).1.2 = N.of_nat k.
Proof.
  induction k as [|k IH]; [done|]. rewrite failed_S. destruct (failed k) as [[b f] s].
  cbn [failed_once fst snd] in *. subst f. lia.
Qed.

Lemma failing_turn identity l e k :
  registers l = failed k -> (k < 99)%nat ->
  exists l', wake_turn identity true l (Err e) = inl l' /\ registers l' = failed (S k).
Proof.
  intros Hr Hk. pose proof (failed_count k) as Hc. rewrite <- Hr in Hc. simpl in Hc.
  unfold wake_turn, MAX_CONSECUTIVE_FAILURES. cbn [negb]. rewrite Hc.
  assert (N.min (N.of_nat k + 1) u32_max = N.of_nat k + 1)%N as -> by (unfold u32_max; lia).
  rewrite (proj2 (N.leb_gt _ _)) by lia. eexists. split; [done|].
  rewrite failed_S, <- Hr. unfold registers. cbn [wl_backoff wl_failures wl_slept].
  unfold failed_once. by rewrite Hc.
Qed.

Lemma last_failing_turn identity l e :
  registers l = failed 99 ->
  exists l', wake_turn identity true l (Err e) = inr (l', WeGaveUp) /\ wl_failures l' = 100%N /\ wl_slept l' = wl_slept l.
Proof.
  intros Hr. injection Hr as _ Hf _. unfold wake_turn. cbn [negb]. rewrite Hf. eexists. by split.
Qed.

Section loop.
Context `{WL : WireLib} {W} `{BusSocket W}.
Variables (exe : string) (fresh : nat -> string) (env : SendEnv) (identity : string) (timeout_ms : N).

(** Every wait from now on fails. *)
Definition away : Prop :=
  forall w, exists w' e, await_run exe fresh env (mkAwaitArgs timeout_ms None (Some identity)) w = (w', Err e).

Lemma failing_loop fuel : away -> forall k l w, registers l = failed k -> (k <= 99)%nat ->
  exists w' l' e, run_await_loop fuel exe fresh env identity timeout_ms true l w = (w', l', e) /\
    if decide (fuel + k < 100)%nat then e = None /\ registers l' = failed (fuel + k)
    else e = Some WeGaveUp /\ wl_failures l' = 100%N /\ wl_slept l' = 5643%N.
Proof.
  intros Ha. induction fuel as [|fuel IH]; intros k l w Hr Hk.
  - exists w, l, None. split; [done|]. rewrite decide_True by lia. done.
  - cbn [run_await_loop]. destruct (Ha w) as (w1 & e & ->).
    destruct (decide (k = 99%nat)) as [->|Hne].
    + destruct (last_failing_turn identity l e Hr) as (l' & -> & Hf & Hs).
      exists w1, l', (Some WeGaveUp). split; [done|]. rewrite decide_False by lia.
      split_and!; [done|done|]. rewrite Hs. injection Hr as _ _ ->. vm_compute. reflexivity.
    + destruct (failing_turn identity l e k Hr ltac:(lia)) as (l' & -> & Hr').
      destruct (IH (S k) l' w1 Hr' ltac:(lia)) as (w2 & l2 & e2 & -> & Hif).
      exists w2, l2, e2. split; [done|]. by replace (S fuel + k)%nat with (fuel + S k)%nat by lia.
Qed.

(** A helper whose broker stays away ends: it tries exactly a hundred times, it
    sleeps five thousand six hundred and forty-three seconds in all, each pause twice
    the one before up to a minute, and then gives up; until then it is running, no
    pause having been longer than that minute. *)
Theorem helper_gives_up (out : WakeOut) (w : W) :
  away ->
  (forall fuel, (100 <= fuel)%nat ->
     exists w' l, run_await_loop fuel exe fresh env identity timeout_ms true (wake_start out) w = (w', l, Some WeGaveUp) /\
       wl_failures l = 100%N /\ wl_slept l = 5643%N) /\
  (forall fuel, (fuel < 100)%nat ->
     exists w' l, run_await_loop fuel exe fresh env identity timeout_ms true (wake_start out) w = (w', l, None) /\
       wl_failures l = N.of_nat fuel /\ (wl_backoff l <= 60)%N).
Proof.
  intros Ha. split; intros fuel Hf.
  - destruct (failing_loop fuel Ha 0 (wake_start out) w eq_refl ltac:(lia)) as (w' & l & e & -> & Hif).
    rewrite decide_False in Hif by lia. destruct Hif as (-> & Hfl & Hs). by exists w', l.
  - destruct (failing_loop fuel Ha 0 (wake_start out) w eq_refl ltac:(lia)) as (w' & l & e & -> & Hif).
    rewrite decide_True in Hif by lia. destruct Hif as (-> & Hr). exists w', l. split; [done|].
    rewrite Nat.add_0_r in Hr. pose proof (failed_count fuel) as Hc. rewrite <- Hr in Hc. split; [exact Hc|].
    destruct fuel as [|fuel]; [injection Hr as -> _ _; unfold BACKOFF_START; lia|].
    rewrite failed_S in Hr. destruct (failed fuel) as [[b f] s].
    injection Hr as -> _ _. unfold BACKOFF_CAP. lia.
Qed.
End loop.

(** No broker at all. *)
#[local] Instance no_broker : BusSocket unit := {|
  sock_open u := (u, Err (BcIo true));
  sock_request u _ _ := (u, Err (BcIo false));
  sock_shutdown u _ := u |}.
Definition quiet : WakeOut := mkWakeOut true true true [] [] [].

Example helper_gives_up_witness :
  let env := mkSendEnv (fun _ => None) None None None false None TfMissing in
  exists l, run_await_loop 100 "famp" (fun _ => "n") env "bob" 1000 true (wake_start quiet) tt = (tt, l, Some WeGaveUp) /\
    wl_slept l = 5643%N.
Proof.
  intros env.
  destruct (helper_gives_up "famp" (fun _ => "n") env "bob" 1000 quiet tt) as [Hend _].
  { intros []. eexists _, _. vm_compute. reflexivity. }
  destruct (Hend 100%nat ltac:(lia)) as ([] & l & Hr & _ & Hs). exists l. split; [exact Hr|exact Hs].
Qed.

(** ** The follower *)

(** Readings of a file that only grows. *)
Fixpoint growing (file : string) (readings : list string) : Prop :=
  match readings with
  | [] => True
  | next :: readings => (exists t, next = file +:+ t) /\ growing next readings
  end.

Lemma drop_string_app a b : drop_string (String.length a) (a +:+ b) = b.
Proof. induction a as [|c a IH]; [by destruct b|]. exact IH. Qed.

Lemma poll_grown file t : follow_poll (String.length file) (file +:+ t) = (String.length (file +:+ t), t).
Proof.
  unfold follow_poll. rewrite drop_string_app. destruct (String.eqb_spec t EmptyString) as [->|]; [|done]. simpl.
  by rewrite str_app_nil, (proj2 (Nat.ltb_ge _ _)).
Qed.

(** A follower that starts at the end of the wake file prints, over any number of
    polls at any moments while the helper appends to it, exactly what was appended
    up to its last poll, in order, every byte once. *)
Theorem follower_prints_each_wake_once file readings :
  growing file readings ->
  exists added, default file (last readings) = file +:+ added /\
    follow_polls (String.length file) readings = (String.length (file +:+ added), added).
Proof.
  revert file. induction readings as [|next readings IH]; intros file Hg.
  - exists EmptyString. by rewrite str_app_nil.
  - destruct Hg as [[t ->] Hg]. destruct (IH _ Hg) as (u & Hl & Hp). exists (t +:+ u).
    split.
    + rewrite <- str_app_assoc, <- Hl, last_cons. by destruct (last readings).
    + cbn [follow_polls]. by rewrite poll_grown, Hp, str_app_assoc.
Qed.

Example follower_prints_each_wake_once_witness :
  follow_polls 2 ["a;"; "a;b;"; "a;b;"; "a;b;c;d;"] = (8%nat, "b;c;d;").
Proof.
  destruct (follower_prints_each_wake_once "a;" ["a;"; "a;b;"; "a;b;"; "a;b;c;d;"]) as (added & Hl & Hp).
  { repeat split; [exists EmptyString|exists "b;"|exists EmptyString|exists "c;d;"]; reflexivity. }
  assert (added = "b;c;d;") as -> by (symmetry; exact (f_equal (drop_string 2) Hl)). exact Hp.
Qed.

(** ** The pidfile *)
Lemma pid_written now pid fs i : (pid <= u32_max)%N ->
  fs_name fs = Some i -> fs_inodes fs !! i = Some (mkLockFile EmptyString now) ->
  read_pidfile (fs_overwrite i (pid_line pid) now fs) = Some pid.
Proof.
  intros Hp Hn Hi. unfold read_pidfile, fs_read, fs_overwrite. simpl. rewrite Hn. simpl.
  rewrite lookup_alter_eq, Hi. simpl. destruct (String.length (pid_line pid)); simpl;
    rewrite str_app_nil; by apply read_pid.
Qed.

Lemma opened now fs : let '(fs', i) := fs_open_truncate now fs in
  fs_name fs' = Some i /\ fs_inodes fs' !! i = Some (mkLockFile EmptyString now).
Proof. unfold fs_open_truncate. destruct (fs_name fs); (split; [done|]); apply lookup_insert_eq. Qed.

(** The file is opened and the line written. *)
Lemma pid_taken n alive now force pid fs : (pid <= u32_max)%N ->
  exists fs', pid_calls (S (S n)) alive now force pid fs PfOpen = (fs', PfHeld, []) /\ read_pidfile fs' = Some pid.
Proof.
  intros Hp. cbn [pid_calls pid_call]. pose proof (opened now fs) as Ho.
  destruct (fs_open_truncate now fs) as [fs1 i]. cbn. exists (fs_overwrite i (pid_line pid) now fs1).
  split; [|by apply pid_written; apply Ho || done].
  assert (forall m fs, pid_calls m alive now force pid fs PfHeld = (fs, PfHeld, [])) as Hheld.
  { induction m as [|m IH]; intros fs'; [done|]. cbn [pid_calls pid_call]. by rewrite IH. }
  by rewrite Hheld.
Qed.

(** Run without interruption, taking the pidfile is refused exactly when it names a
    living helper and force is not asked for, in which case nothing changes; otherwise
    it is taken and names the taker, the living helper it named, if any, having been
    killed and nobody else; and giving it back removes it for its holder alone. *)
Theorem pidfile_names_its_holder alive now force pid fs :
  (pid <= u32_max)%N ->
  let busy := match read_pidfile fs with Some old => alive old | None => false end in
  let '(fs', got, killed) := acquire_pidfile alive now force pid fs in
  got = negb busy || force /\
  killed = (if busy && force then from_option (fun old => [old]) [] (read_pidfile fs) else []) /\
  (got = false -> fs' = fs) /\
  (got = true -> read_pidfile fs' = Some pid /\ read_pidfile (release_pidfile_if_ours pid fs') = None /\
     forall other, other <> pid -> release_pidfile_if_ours other fs' = fs').
Proof.
  intros Hp busy. unfold acquire_pidfile.
  assert (Hback : forall fs', read_pidfile fs' = Some pid ->
    read_pidfile fs' = Some pid /\ read_pidfile (release_pidfile_if_ours pid fs') = None /\
    forall other, other <> pid -> release_pidfile_if_ours other fs' = fs').
  { intros fs' Hr. unfold release_pidfile_if_ours. rewrite Hr. split_and!; [done|by rewrite bool_decide_true|].
    intros other Ho. rewrite bool_decide_false; [done|]. intros [= E]. by apply Ho. }
  subst busy. cbn [pid_calls pid_call]. destruct (read_pidfile fs) as [old|] eqn:Er.
  - destruct (alive old) eqn:Ea.
    + destruct force.
      * destruct (pid_taken 0 alive now true pid (fs_remove fs) Hp) as (fs' & Ht & Hr).
        cbn [pid_call]. cbn [pid_calls pid_call] in Ht |- *. rewrite Ht.
        split_and!; [done|done|done|by intros _; apply Hback].
      * cbn. split_and!; done.
    + destruct (pid_taken 1 alive now force pid (fs_remove fs) Hp) as (fs' & Ht & Hr).
      cbn [pid_calls pid_call] in Ht |- *. rewrite Ht. split_and!; [done|done|done|by intros _; apply Hback].
  - destruct (pid_taken 2 alive now force pid fs Hp) as (fs' & Ht & Hr).
    cbn [pid_calls pid_call] in Ht |- *. rewrite Ht. split_and!; [done|done|done|by intros _; apply Hback].
Qed.

Example pidfile_names_its_holder_witness :
  let '(fs, got, _) := acquire_pidfile (fun p => (p =? 7)%N) 100 false 7 fs_empty in
  got = true /\ read_pidfile fs = Some 7%N /\
  acquire_pidfile (fun p => (p =? 7)%N) 101 false 8 fs = (fs, false, []).
Proof.
  pose proof (pidfile_names_its_holder (fun p => (p =? 7)%N) 100 false 7 fs_empty ltac:(unfold u32_max; lia)) as H.
  destruct (acquire_pidfile (fun p => (p =? 7)%N) 100 false 7 fs_empty) as [[fs got] killed].
  destruct H as (Hg & _ & _ & Ht). simpl in Hg. split; [exact Hg|]. destruct (Ht Hg) as [Hr _]. split; [exact Hr|].
  pose proof (pidfile_names_its_holder (fun p => (p =? 7)%N) 101 false 8 fs ltac:(unfold u32_max; lia)) as H'.
  rewrite Hr in H'. destruct (acquire_pidfile (fun p => (p =? 7)%N) 101 false 8 fs) as [[fs' got'] killed'].
  destruct H' as (-> & -> & Hs & _). simpl. by rewrite (Hs eq_refl).
Qed.

(** Processes interleaving call by call, none of them told to force. *)
Definition pid_steps (alive : N -> bool) (now : N) (order : list N) (st : LockFs * gmap N PidPc) : LockFs * gmap N PidPc :=
  foldl (fun st p =>
    let '(fs, procs) := st in
    let '(fs, pc, _) := pid_call alive now false p fs (default PfRead (procs !! p)) in
    (fs, <[p := pc]> procs)) st order.

(** Two helpers started at the same moment both run: each finds no pidfile, each
    writes its own over whatever is there, and both hold what only one may; the file
    names the second, so that the first, when it ends, removes nothing and the
    pidfile never knew of it. *)
Theorem pidfile_admits_two :
  let '(fs, procs) := pid_steps (fun _ => true) 100 [1; 2; 1; 1; 2; 2]%N (fs_empty, ∅) in
  procs !! 1%N = Some PfHeld /\ procs !! 2%N = Some PfHeld /\
  read_pidfile fs = Some 2%N /\ release_pidfile_if_ours 1 fs = fs.
Proof. vm_compute. done. Qed.
