(* ===== verification/CodexConfig.v ===== *)
(** * Installing into Codex and Grok, and diagnosing the installation

    [crates/famp/src/cli/install/{toml_merge,codex,grok}.rs], [uninstall/{codex,grok}.rs]
    and [inspect/wake.rs]: the server entry and the hook trust in a TOML document, the
    stop hook in a project's JSON document, and the command that tells whether a
    session can be woken.  The [toml] crate is a parser and a printer; the two
    directories are taken absolute; whether the program supports the hook, the
    process table and the git roots are arguments. *)

From Stdlib Require Import Ascii.
From stdpp Require Import gmap strings list pretty.
From S2P Require Import Prelude Json Proto WireInstance Crypto Derive Envelope Keyring Client ClientSend Inspect Render Receive.
From S2P Require Import TaskDir HookScan Hook HostConfig.

(** ** TOML documents *)

(** [toml::Value]; a table is a [BTreeMap]. *)
Inductive Toml :=
| TStr (s : string) | TInt (z : Z) | TFloat (bits : N) | TBool (b : bool) | TDate (s : string)
| TArr (l : list Toml) | TTab (m : list (string * Toml)).
Abbreviation Table := (list (string * Toml)).

Class TomlDocLib := { toml_parse : string -> option Table; toml_print : Table -> option string }.

Definition toml_str (v : Toml) : option string := match v with TStr s => Some s | _ => None end.
Definition toml_bool (v : Toml) : option bool := match v with TBool b => Some b | _ => None end.
Definition toml_get (v : Toml) (k : string) : option Toml := match v with TTab m => obj_get k m | _ => None end.

(** [PartialEq] of [toml::Value]. *)
Fixpoint toml_eqb (a b : Toml) {struct a} : bool :=
  match a, b with
  | TStr x, TStr y => String.eqb x y
  | TInt x, TInt y => (x =? y)%Z
  | TFloat x, TFloat y => (x =? y)%N
  | TBool x, TBool y => Bool.eqb x y
  | TDate x, TDate y => String.eqb x y
  | TArr l, TArr l' =>
      (fix go l l' := match l, l' with
        | [], [] => true
        | x :: l, y :: l' => toml_eqb x y && go l l'
        | _, _ => false end) l l'
  | TTab m, TTab m' =>
      (fix go m m' := match m, m' with
        | [], [] => true
        | (k, x) :: m, (k', y) :: m' => String.eqb k k' && toml_eqb x y && go m m'
        | _, _ => false end) m m'
  | _, _ => false
  end.

(** ** The TOML merge: [toml_merge.rs] *)
Inductive TomlError := TomlIo | TomlParse | TomlTableExpected | TomlSerialize.

(** [ensure_nested_parent] and [get_nested_parent_mut]: the table at a path; a
    missing one is made ([create]) or is [None]. *)
Fixpoint nested_parent (create : bool) (root : Table) (path : list string) : result (option Table) TomlError :=
  match path with
  | [] => Ok (Some root)
  | seg :: path =>
      match obj_get seg root with
      | None => if create then nested_parent create [] path else Ok None
      | Some (TTab t) => nested_parent create t path
      | Some _ => Err TomlTableExpected
      end
  end.
(** The document with the table at a path replaced. *)
Fixpoint put_nested (root : Table) (path : list string) (t : Table) : Table :=
  match path with
  | [] => t
  | seg :: path =>
      obj_insert seg (TTab (put_nested (match obj_get seg root with Some (TTab s) => s | _ => [] end) path t)) root
  end.
(** [prune_empty_nested_parent], deepest first. *)
Fixpoint prune (root : Table) (path : list string) : Table :=
  match path with
  | [] => root
  | seg :: path =>
      match obj_get seg root with
      | Some (TTab t) =>
          match prune t path with
          | [] => obj_remove seg root
          | t => obj_insert seg (TTab t) root
          end
      | _ => root
      end
  end.

Section toml.
Context `{TL : TomlDocLib}.

(** [None] is a missing file. *)
Definition read_toml_table (io : HostIo) (files : Files) (path : string) : result (option Table) TomlError :=
  match files !! path with
  | None => Ok None
  | Some s =>
      if negb (ho_readable io path) then Err TomlIo
      else if is_blank s then Ok (Some [])
      else match toml_parse s with Some t => Ok (Some t) | None => Err TomlParse end
  end.

Definition persist_toml (io : HostIo) (files : Files) (path : string) (root : Table) : Files * result unit TomlError :=
  if negb (ho_writable io path) then (files, Err TomlIo) else
  match toml_print root with
  | Some s => (<[path := s]> files, Ok tt)
  | None => (files, Err TomlSerialize)
  end.

Definition rewrite_toml (io : HostIo) (files : Files) (path : string) (root : Table) : Files * result unit TomlError :=
  let '(files, r) := backup_if_exists io files path in
  trying _ := r catch _ => (files, Err TomlIo) in
  persist_toml io files path root.

(** [upsert_nested_table]; [upsert_codex_table] is the path of one segment. *)
Definition upsert_nested_table (io : HostIo) (files : Files) (path : string) (parent_path : list string)
    (leaf_key : string) (value : Table) : Files * result MergeOutcome TomlError :=
  trying doc := read_toml_table io files path catch e => (files, Err e) in
  let root := default [] doc in
  trying found := nested_parent true root parent_path catch e => (files, Err e) in
  let parent := default [] found in
  let write o :=
    let '(files, r) := rewrite_toml io files path (put_nested root parent_path (obj_insert leaf_key (TTab value) parent)) in
    trying _ := r catch e => (files, Err e) in (files, Ok o) in
  match obj_get leaf_key parent with
  | Some existing => if toml_eqb existing (TTab value) then (files, Ok AlreadyMatches) else write Updated
  | None => write Inserted
  end.
Definition upsert_codex_table (io : HostIo) (files : Files) (path parent_key leaf_key : string) (value : Table) :
    Files * result MergeOutcome TomlError :=
  upsert_nested_table io files path [parent_key] leaf_key value.

(** [remove_nested_tables_where]: the keys of the tables chosen. *)
Definition remove_nested_tables_where (io : HostIo) (files : Files) (path : string) (parent_path : list string)
    (chosen : string -> Table -> bool) : Files * result (list string) TomlError :=
  trying doc := read_toml_table io files path catch e => (files, Err e) in
  letsome root := doc orelse (files, Ok []) in
  trying found := nested_parent false root parent_path catch e => (files, Err e) in
  letsome parent := found orelse (files, Ok []) in
  let keys := omap (fun kv => match kv.2 with TTab t => if chosen kv.1 t then Some kv.1 else None | _ => None end) parent in
  if bool_decide (keys = []) then (files, Ok []) else
  let parent := foldl (fun t k => obj_remove k t) parent keys in
  let '(files, r) := rewrite_toml io files path (prune (put_nested root parent_path parent) parent_path) in
  trying _ := r catch e => (files, Err e) in (files, Ok keys).

Definition remove_nested_table (io : HostIo) (files : Files) (path : string) (parent_path : list string) (leaf_key : string) :
    Files * result MergeOutcome TomlError :=
  trying doc := read_toml_table io files path catch e => (files, Err e) in
  letsome root := doc orelse (files, Ok NotPresent) in
  trying found := nested_parent false root parent_path catch e => (files, Err e) in
  letsome parent := found orelse (files, Ok NotPresent) in
  if negb (is_some (obj_get leaf_key parent)) then (files, Ok NotPresent) else
  let '(files, r) := rewrite_toml io files path (prune (put_nested root parent_path (obj_remove leaf_key parent)) parent_path) in
  trying _ := r catch e => (files, Err e) in (files, Ok Removed).
Definition remove_codex_table (io : HostIo) (files : Files) (path parent_key leaf_key : string) :
    Files * result MergeOutcome TomlError :=
  remove_nested_table io files path [parent_key] leaf_key.
End toml.

(** ** Codex: [install/codex.rs] *)
Definition CODEX_AWAIT_TIMEOUT_SEC : Z := 86400%Z.
(** A JSON integer. *)
Definition json_int (z : Z) : Value := VNumber (if (z <? 0)%Z then NegInt z else PosInt (Z.to_N z)).
Definition CODEX_STOP_EVENT_LABEL : string := "stop".

Inductive CodexError := CxUnsupported | CxToml (e : TomlError) | CxJson (e : MergeError).

Definition config_path (home : string) : string := under home ".codex/config.toml".
Definition hooks_path (project : string) : string := under project ".codex/hooks.json".
Definition codex_shim_path (project : string) : string := under project ".codex/hooks/famp-await.sh".

Definition shell_quote_char (c : ascii) : bool :=
  Principal.is_alphanumeric c || Ascii.eqb c "/"%char || Ascii.eqb c "."%char || Ascii.eqb c "_"%char || Ascii.eqb c "-"%char.
Definition shell_quote_path (raw : string) : string :=
  if Proto.string_forall shell_quote_char raw then raw else posix_shell_literal raw.
Definition codex_stop_command (exe : string) : string := shell_quote_path exe +:+ " hook codex-stop".
(** A set, of which only membership is asked. *)
Definition famp_hook_command_patterns (exe shim : string) : list string :=
  [codex_stop_command exe; exe +:+ " hook codex-stop"; shim; shell_quote_path shim].

Definition codex_hook_key (hooks event : string) (group handler : nat) : string :=
  hooks +:+ ":" +:+ event +:+ ":" +:+ pretty (N.of_nat group) +:+ ":" +:+ pretty (N.of_nat handler).

(** [famp_crypto::sha256_artifact_id]. *)
Fixpoint hex_of_bytes (b : bytes) : string :=
  match b with
  | [] => EmptyString
  | x :: b => let n := Stdlib.Strings.Byte.to_N x in
              String (hex_digit (n / 16)) (String (hex_digit (n mod 16)) (hex_of_bytes b))
  end.
Definition sha256_artifact_id `{CryptoLib} (b : bytes) : string := "sha256:" +:+ hex_of_bytes (sha256_digest b).

(** [canonical_json] sorts what a [BTreeMap] has sorted already. *)
Definition codex_command_hook_hash `{WireLib} `{CryptoLib} (event command : string) (timeout : Z) : string :=
  let identity := json_obj [("event_name", VString event);
    ("hooks", VArray [json_obj [("async", VBool false); ("command", VString command);
                                ("timeout", json_int timeout); ("type", VString "command")]])] in
  sha256_artifact_id (match to_vec identity with Ok b => b | Err _ => [] end).

Definition codex_entry (command : string) : Value :=
  json_obj [("hooks", VArray [json_obj [("type", VString "command"); ("command", VString command);
                                        ("timeout", json_int CODEX_AWAIT_TIMEOUT_SEC)]])].
Definition codex_kept (exe project : string) (prior : list Value) : list Value :=
  omap (remove_famp_hook_from_stop_entry (famp_hook_command_patterns exe (codex_shim_path project))) prior.

(** [[mcp_servers.famp]]. *)
Definition server_table (exe : string) : Table :=
  obj_insert "command" (TStr exe) (obj_insert "args" (TArr [TStr "mcp"]) (obj_insert "startup_timeout_sec" (TInt 10) [])).
Definition trust_table (hash : string) : Table :=
  obj_insert "trusted_hash" (TStr hash) (obj_insert "enabled" (TBool true) []).

Section codex.
Context `{WL : WireLib} `{PL : PrettyLib} `{TL : TomlDocLib} `{CL : CryptoLib}.

Definition famp_trusted_hashes (event exe shim : string) : list string :=
  map (fun command => codex_command_hook_hash event command CODEX_AWAIT_TIMEOUT_SEC) (famp_hook_command_patterns exe shim).

(** The entries of this program for the document [hooks], but for the one kept. *)
Definition stale_trust (hooks : string) (keep : option string) (hashes : list string) (key : string) (table : Table) : bool :=
  if bool_decide (keep = Some key) then false else
  String.prefix (hooks +:+ ":" +:+ CODEX_STOP_EVENT_LABEL +:+ ":") key &&
  match obj_get "trusted_hash" table ≫= toml_str with Some h => bool_decide (h ∈ hashes) | None => false end.
Definition remove_stale_codex_hook_trust (io : HostIo) (files : Files) (config hooks : string) (keep : option string)
    (hashes : list string) : Files * result (list string) TomlError :=
  remove_nested_tables_where io files config ["hooks"; "state"] (stale_trust hooks keep hashes).

Definition seed_codex_hook_trust (io : HostIo) (files : Files) (config key hash : string) :
    Files * result MergeOutcome TomlError :=
  upsert_nested_table io files config ["hooks"; "state"] key (trust_table hash).

Definition codex_stop_array (io : HostIo) (files : Files) (exe project : string) : result (list Value) MergeError :=
  try existing := read_document io files (hooks_path project) in
  Ok (codex_kept exe project (stop_hooks existing) ++ [codex_entry (codex_stop_command exe)]).

(** [run_at_project_with_executable]; [supports] is the probe's answer. *)
Definition install_codex (io : HostIo) (exe home project : string) (supports : bool) (files : Files) :
    Files * result unit CodexError :=
  if negb supports then (files, Err CxUnsupported) else
  let config := config_path home in
  let hooks := hooks_path project in
  let '(files, r) := upsert_codex_table io files config "mcp_servers" "famp" (server_table exe) in
  trying _ := r catch e => (files, Err (CxToml e)) in
  let '(files, r) := remove_shim io files (codex_shim_path project) in
  trying _ := r catch e => (files, Err (CxJson e)) in
  let command := codex_stop_command exe in
  trying new_stop := codex_stop_array io files exe project catch e => (files, Err (CxJson e)) in
  let '(files, r) := upsert_user_json io files hooks "hooks" "Stop" (VArray new_stop) in
  trying _ := r catch e => (files, Err (CxJson e)) in
  let key := codex_hook_key hooks CODEX_STOP_EVENT_LABEL (length new_stop - 1) 0 in
  let hash := codex_command_hook_hash CODEX_STOP_EVENT_LABEL command CODEX_AWAIT_TIMEOUT_SEC in
  let hashes := famp_trusted_hashes CODEX_STOP_EVENT_LABEL exe (codex_shim_path project) in
  let '(files, r) := remove_stale_codex_hook_trust io files config hooks (Some key) hashes in
  trying _ := r catch e => (files, Err (CxToml e)) in
  let '(files, r) := seed_codex_hook_trust io files config key hash in
  trying _ := r catch e => (files, Err (CxToml e)) in
  (files, Ok tt).

(** ** [uninstall/codex.rs] *)

(** The program the document names, or the bare name. *)
Definition installed_program (io : HostIo) (files : Files) (config : string) : string :=
  default "famp"
    (if negb (ho_readable io config) then None else
     (text ← files !! config; table ← toml_parse text; servers ← obj_get "mcp_servers" table;
      famp ← toml_get servers "famp"; command ← toml_get famp "command"; toml_str command)).

(** The trust keys of the entry at [group]. *)
Definition collect_removed_trust_keys (hooks : string) (group : nat) (entry : Value) (shims : list string) : list string :=
  if owned shims entry then [codex_hook_key hooks "stop" group 0] else
  match get entry "hooks" ≫= as_array with
  | None => []
  | Some handlers => omap (fun ih => if owned shims ih.2 then Some (codex_hook_key hooks "stop" group ih.1) else None)
                       (imap pair handlers)
  end.

Definition surgical_remove_codex_stop_entry (io : HostIo) (files : Files) (hooks : string) (shims : list string) :
    Files * result (list string) MergeError :=
  trying existing := read_document io files hooks catch e => (files, Err e) in
  let prior := stop_hooks existing in
  if bool_decide (length prior = 0%nat) then (files, Ok []) else
  let keys := concat (imap (fun i entry => collect_removed_trust_keys hooks i entry shims) prior) in
  let filtered := omap (remove_famp_hook_from_stop_entry shims) prior in
  if bool_decide (keys = []) then (files, Ok []) else
  let '(files, r) :=
    if bool_decide (length filtered = 0%nat) then remove_user_json io files hooks "hooks" "Stop"
    else upsert_user_json io files hooks "hooks" "Stop" (VArray filtered) in
  trying _ := r catch e => (files, Err e) in (files, Ok keys).

Fixpoint remove_trust_keys (io : HostIo) (files : Files) (config : string) (keys : list string) : Files * result unit TomlError :=
  match keys with
  | [] => (files, Ok tt)
  | key :: keys =>
      let '(files, r) := remove_nested_table io files config ["hooks"; "state"] key in
      trying _ := r catch e => (files, Err e) in remove_trust_keys io files config keys
  end.

Definition uninstall_codex (io : HostIo) (home project : string) (files : Files) : Files * result unit CodexError :=
  let config := config_path home in
  let hooks := hooks_path project in
  let shim := codex_shim_path project in
  let exe := installed_program io files config in
  let '(files, r) := remove_codex_table io files config "mcp_servers" "famp" in
  trying _ := r catch e => (files, Err (CxToml e)) in
  let '(files, r) := remove_shim io files shim in
  trying _ := r catch e => (files, Err (CxJson e)) in
  let '(files, r) := surgical_remove_codex_stop_entry io files hooks (famp_hook_command_patterns exe shim) in
  trying keys := r catch e => (files, Err (CxJson e)) in
  let '(files, r) := remove_trust_keys io files config keys in
  trying _ := r catch e => (files, Err (CxToml e)) in
  let '(files, r) := remove_stale_codex_hook_trust io files config hooks None (famp_trusted_hashes "stop" exe shim) in
  trying _ := r catch e => (files, Err (CxToml e)) in
  (files, Ok tt).
End codex.

(** ** Grok: [install/grok.rs] and [uninstall/grok.rs] *)
Definition grok_config_path (home : string) : string := under home ".grok/config.toml".
Definition grok_skill_path (home : string) : string := under home ".grok/skills/famp-listen/SKILL.md".
Definition grok_await_shim (home : string) : string := under home ".grok/hooks/famp-await.sh".
Definition grok_stop_json (home : string) : string := under home ".grok/hooks/famp-listen-stop.json".
Definition FAMP_LISTEN_SKILL : string := "skills/famp-listen/SKILL.md".

Section grok.
Context `{WL : WireLib} `{PL : PrettyLib} `{TL : TomlDocLib}.

Definition install_stop_hook_json (io : HostIo) (files : Files) (path shim : string) : Files * result unit MergeError :=
  let body := json_obj [("hooks", json_obj [("Stop", VArray [json_obj [("hooks", VArray [json_obj [
    ("type", VString "command"); ("command", VString shim); ("timeout", json_int 86400)]])]])])] in
  match to_string_pretty body with
  | Ok serialized => write_file io files path (serialized +:+ String LF EmptyString)
  | Err _ => (files, Err JsonMergeParse)
  end.
Definition install_skill (io : HostIo) (files : Files) (path : string) : Files * result unit MergeError :=
  write_file io files path (ho_asset io FAMP_LISTEN_SKILL).
(** [remove_skill_dir]; directories are not modelled. *)
Definition remove_skill (io : HostIo) (files : Files) (path : string) : Files * result unit MergeError :=
  match files !! path with
  | None => (files, Ok tt)
  | Some body =>
      if negb (ho_readable io path) then (files, Err MergeIo)
      else if String.eqb body (ho_asset io FAMP_LISTEN_SKILL)
      then let '(files, r) := remove_file io files path in trying _ := r catch e => (files, Err e) in (files, Ok tt)
      else (files, Ok tt)
  end.

(** [run_at_with_executable]. *)
Definition install_grok (io : HostIo) (exe home : string) (files : Files) : Files * result unit CodexError :=
  let '(files, r) := upsert_codex_table io files (grok_config_path home) "mcp_servers" "famp" (server_table exe) in
  trying _ := r catch e => (files, Err (CxToml e)) in
  let '(files, r) := install_shim io "famp-await.sh" files (grok_await_shim home) exe in
  trying _ := r catch e => (files, Err (CxJson e)) in
  let '(files, r) := install_stop_hook_json io files (grok_stop_json home) (grok_await_shim home) in
  trying _ := r catch e => (files, Err (CxJson e)) in
  let '(files, r) := install_skill io files (grok_skill_path home) in
  trying _ := r catch e => (files, Err (CxJson e)) in
  (files, Ok tt).

Definition uninstall_grok (io : HostIo) (home : string) (files : Files) : Files * result unit CodexError :=
  let '(files, r) := remove_codex_table io files (grok_config_path home) "mcp_servers" "famp" in
  trying _ := r catch e => (files, Err (CxToml e)) in
  let '(files, r) := remove_skill io files (grok_skill_path home) in
  trying _ := r catch e => (files, Err (CxJson e)) in
  let '(files, r) := remove_file io files (grok_stop_json home) in
  trying _ := r catch e => (files, Err (CxJson e)) in
  let '(files, r) := remove_shim io files (grok_await_shim home) in
  trying _ := r catch e => (files, Err (CxJson e)) in
  (files, Ok tt).
End grok.

(** ** Can the session be woken: [inspect/wake.rs] *)
Inductive TriState := TsTrue | TsFalse | TsUnknown.
Inductive HolderKind := HkMcp | HkCliRegister | HkOther | HkUnknown.
Record HookState := mkHookState { hs_path : string; hs_present : bool; hs_trusted : TriState }.
Definition tri_eqb (a b : TriState) : bool :=
  match a, b with TsTrue, TsTrue | TsFalse, TsFalse | TsUnknown, TsUnknown => true | _, _ => false end.

Definition as_i64 (v : Value) : option Z :=
  match v with
  | VNumber (PosInt n) => if (n <=? 9223372036854775807)%N then Some (Z.of_N n) else None
  | VNumber (NegInt z) => Some z
  | _ => None
  end.

(** The handlers of a group that are the native hook, by index. *)
Definition native_handler (ih : nat * Value) : option (nat * string * Z) :=
  command ← get_str ih.2 "command";
  if (match get_str ih.2 "type" with Some t => String.eqb t "command" | None => false end) &&
     ends_with " hook codex-stop" (trim_end command)
  then Some (ih.1, command, default CODEX_AWAIT_TIMEOUT_SEC (get ih.2 "timeout" ≫= as_i64)) else None.
Definition native_group (ig : nat * Value) : option (nat * nat * string * Z) :=
  handlers ← (get ig.2 "hooks" ≫= as_array);
  '(h, command, timeout) ← find_map native_handler (imap pair handlers);
  Some (ig.1, h, command, timeout).
Definition find_native_hook (json : Value) : option (nat * nat * string * Z) :=
  groups ← (get json "hooks" ≫= fun h => get h "Stop" ≫= as_array);
  find_map native_group (imap pair groups).

(** The last part of a path, unless it is [..]. *)
Fixpoint path_parts (cur s : string) : list string :=
  match s with
  | EmptyString => [cur]
  | String c s => if Ascii.eqb c "/"%char then cur :: path_parts EmptyString s else path_parts (cur +:+ String c EmptyString) s
  end.
Definition path_file_name (s : string) : option string :=
  name ← last (List.filter (fun p => negb (String.eqb p EmptyString) && negb (String.eqb p ".")) (path_parts EmptyString s));
  if String.eqb name ".." then None else Some name.

Fixpoint classify_words (words : list string) : HolderKind :=
  match words with
  | a :: (b :: _) as rest =>
      let word := trim_quotes a in
      let executable := trim_quotes (default word (path_file_name word)) in
      if String.eqb executable "famp" || String.prefix "famp-" executable
      then if String.eqb b "mcp" then HkMcp else if String.eqb b "register" then HkCliRegister else HkOther
      else classify_words rest
  | _ => HkOther
  end.
Definition classify_cmdline (cmdline : string) : HolderKind := classify_words (split_whitespace cmdline).

Definition wake_readiness (listen : bool) (holder : HolderKind) (hook : HookState) (parked : bool) :
    TriState * string * option string :=
  if negb listen then
    (TsFalse, "broker listen intent is disabled", Some "call MCP famp_set_listen({ listen: true })")
  else match holder with
  | HkCliRegister =>
    (TsFalse, "standalone `famp register --tail` can display events but cannot bind a Codex MCP session",
     Some "stop the CLI holder, restart Codex if needed, then call MCP famp_register")
  | _ =>
    if negb (hs_present hook) then
      (TsFalse, "the project has no native FAMP Codex Stop hook",
       Some "run `famp install-codex --project <path>`, then restart Codex")
    else if negb (tri_eqb (hs_trusted hook) TsTrue) then
      (TsFalse, "the Codex Stop hook is present but its enabled trust entry is missing or stale",
       Some "re-run `famp install-codex --project <path>`, then restart Codex")
    else match holder with
    | HkMcp =>
      if parked then
        (TsUnknown, "configuration, an MCP holder, and an active waiter are present, but waiter provenance and Codex hook load cannot be attributed",
         Some "confirm the waiter was created by a freshly restarted Codex Stop hook; manual CLI/MCP awaits do not prove host wake readiness")
      else
        (TsUnknown, "configuration and MCP binding look correct, but no waiter is parked; the turn may be active or this window may need a restart",
         Some "end the turn and re-check; restart Codex if the hook was installed after this window opened")
    | _ =>
      (TsUnknown, "the hook is configured, but the holder could not be confirmed as this Codex MCP session",
       Some "call MCP famp_register in the target Codex window")
    end
  end.

Definition waiter_row_specs : field_specs :=
  [("name", fault d_string); ("mailbox", fault d_string); ("cursor", fault (d_unsigned u64_max));
   ("deadline_ms", fault (d_unsigned u64_max))].
Definition d_waiter_row : decoder WaiterRow := fun v =>
  try m := struct_fields waiter_row_specs v in
  try nm := required d_string m "name" in
  try mailbox := required d_string m "mailbox" in
  try cursor := required (d_unsigned u64_max) m "cursor" in
  try deadline := required (d_unsigned u64_max) m "deadline_ms" in
  Ok (mkWaiterRow nm mailbox cursor deadline).
Definition waiter_list_specs : field_specs := [("rows", fault (d_vec d_waiter_row))].
Definition d_waiter_list : decoder (list WaiterRow) := fun v =>
  try m := struct_fields waiter_list_specs v in required (d_vec d_waiter_row) m "rows".
(** The rows of [InspectWaitersReply::List]. *)
Definition listed_waiters (payload : Value) : option (list WaiterRow) :=
  match payload with
  | VObject m =>
      if bool_decide ((obj_get "kind" m ≫= as_str) = Some "list")
      then match d_waiter_list (VObject (List.filter (fun kv => negb (String.eqb kv.1 "kind")) m)) with
           | Ok rows => Some rows | Err _ => None end
      else None
  | VArray (VString tag :: rest) =>
      if String.eqb tag "list" then match d_waiter_list (VArray rest) with Ok rows => Some rows | Err _ => None end else None
  | _ => None
  end.

Record WakeReport := mkWakeReport {
  wk_identity : string; wk_holder : HolderKind; wk_holder_pid : option N; wk_listen : bool; wk_hook : HookState;
  wk_configured : bool; wk_armed : TriState; wk_loaded : TriState; wk_parked : bool;
  wk_ready : TriState; wk_reason : string; wk_remediation : option string }.

(** Why there is no report. *)
Inductive WakeFailure := WfExit1 | WfUnreachable | WfInspect | WfNotRegistered (name : string) | WfSessions (e : CliError)
| WfJson (e : MergeError) | WfToml (e : TomlError).

Section wake.
Context `{WL : WireLib} `{PL : PrettyLib} `{TL : TomlDocLib} `{CL : CryptoLib}.

Definition inspect_trust (io : HostIo) (files : Files) (config hooks : string) (group handler : nat) (command : string)
    (timeout : Z) : result TriState TomlError :=
  match files !! config with
  | None => Ok TsFalse
  | Some body =>
      if negb (ho_readable io config) then Err TomlIo else
      letsome table := toml_parse body orelse Err TomlParse in
      let state := hooks_table ← obj_get "hooks" table; states ← toml_get hooks_table "state";
                   toml_get states (codex_hook_key hooks CODEX_STOP_EVENT_LABEL group handler) in
      letsome state := state orelse Ok TsFalse in
      let enabled := default false (toml_get state "enabled" ≫= toml_bool) in
      let matches := match toml_get state "trusted_hash" ≫= toml_str with
                     | Some hash => String.eqb hash (codex_command_hook_hash CODEX_STOP_EVENT_LABEL command timeout)
                     | None => false
                     end in
      Ok (if enabled && matches then TsTrue else TsFalse)
  end.

Definition inspect_hook (io : HostIo) (files : Files) (home project : string) : result HookState WakeFailure :=
  let hooks := hooks_path project in
  let absent := mkHookState hooks false TsFalse in
  match files !! hooks with
  | None => Ok absent
  | Some body =>
      if negb (ho_readable io hooks) then Err (WfJson MergeIo) else
      trying json := from_str body catch _ => Err (WfJson JsonMergeParse) in
      letsome (group, handler, command, timeout) := find_native_hook json orelse Ok absent in
      trying trusted := inspect_trust io files (config_path home) hooks group handler command timeout catch e => Err (WfToml e) in
      Ok (mkHookState hooks true trusted)
  end.

(** [run]: [cmdline] reads the process table and [project_of] resolves the
    identity's directory to its project. *)
Definition inspect_wake {W} `{BusSocket W} (io : HostIo) (files : Files) (env : SendEnv) (cmdline : N -> option string)
    (project_of : option string -> string) (home identity : string) (w : W) : W * result WakeReport WakeFailure :=
  let '(w, probe) := raw_connect_probe w in
  match probe with
  | ProbeHealthy conn =>
      let w := sock_shutdown w conn in
      let '(w, rows) := ask_identities w in
      letsome rows := rows orelse (w, Err WfInspect) in
      letsome row := List.find (fun r => String.eqb (ir_name r) identity) rows orelse (w, Err (WfNotRegistered identity)) in
      let '(w, probe) := raw_connect_probe w in
      match probe with
      | ProbeHealthy conn =>
          let '(w, payload) := inspect_call w conn InspectWaiters in
          letsome waiters := payload ≫= listed_waiters orelse (w, Err WfInspect) in
          let parked := existsb (fun r => String.eqb (wr_name r) identity) waiters in
          let '(w, sessions) := sessions_run env false None w in
          trying sessions := sessions catch e => (w, Err (WfSessions e)) in
          let pid := sr_pid <$> List.find (fun r => String.eqb (sr_name r) identity) sessions in
          let holder := default HkUnknown (classify_cmdline <$> (pid ≫= cmdline)) in
          (w, try hook := inspect_hook io files home (project_of (ir_cwd row)) in
              let armed := match holder with HkCliRegister => TsFalse | _ => TsUnknown end in
              let loaded := if hs_present hook then TsUnknown else TsFalse in
              let '(ready, reason, remediation) := wake_readiness (ir_listen_mode row) holder hook parked in
              Ok (mkWakeReport identity holder pid (ir_listen_mode row) hook
                    (hs_present hook && tri_eqb (hs_trusted hook) TsTrue) armed loaded parked ready reason remediation))
      | _ => (w, Err WfUnreachable)
      end
  | _ => (w, Err WfExit1)
  end.
End wake.
