(* ===== verification/CodexProps.v ===== *)
(** * What installing into Codex gives, and how it is told

    A native hook under any program's name counts as ours, so that an installation
    leaves exactly one; the diagnosing command finds the installed hook trusted;
    uninstalling gives the two documents back. *)

From Stdlib Require Import Ascii Lia.
From stdpp Require Import gmap strings list pretty.
From S2P Require Import Prelude Json Proto WireInstance Principal Crypto Derive Envelope EnvelopeProps Keyring KeyringFile.
From S2P Require Import Client ClientSend Inspect Render TaskDir Receive HookScan Hook HostConfig HostConfigProps.
From S2P Require Import InboxReader CodexConfig.

(** ** White space *)

(** A white space character ends before a byte below 128. *)
Definition low (c : ascii) : Prop := (N_of_ascii c < 128)%N.

Lemma ws_len_low s c t : low c -> (0 < String.length s)%nat -> (ws_len (s +:+ String c t) <= String.length s)%nat.
Proof.
  unfold low. intros Hc Hs. destruct s as [|x s]; [simpl in Hs; lia|].
  change (String x s +:+ ?u) with (String x (s +:+ u)). cbn [ws_len String.length].
  destruct (_ || _)%N; [lia|]. destruct s as [|y s].
  - change (EmptyString +:+ String c t) with (String c t). cbn [String.length].
    assert ((N_of_ascii c =? 133)%N = false /\ (N_of_ascii c =? 160)%N = false) as [-> ->] by lia.
    rewrite andb_false_r. destruct t as [|d t]; [lia|].
    assert ((N_of_ascii c =? 154)%N = false /\ (N_of_ascii c =? 128)%N = false /\ (N_of_ascii c =? 129)%N = false)
      as (-> & -> & ->) by lia. rewrite !andb_false_r. simpl. lia.
  - change (String y s +:+ ?u) with (String y (s +:+ u)). cbn [String.length].
    destruct (_ && (_ || _))%N; [lia|]. destruct s as [|z s].
    + change (EmptyString +:+ String c t) with (String c t). cbn [String.length].
      assert ((N_of_ascii c =? 128)%N = false /\ (N_of_ascii c =? 159)%N = false /\ (128 <=? N_of_ascii c)%N = false /\
              (N_of_ascii c =? 168)%N = false /\ (N_of_ascii c =? 169)%N = false /\ (N_of_ascii c =? 175)%N = false)
        as (-> & -> & -> & -> & -> & ->) by lia. rewrite !andb_false_r. simpl. lia.
    + change (String z s +:+ ?u) with (String z (s +:+ u)). cbn [String.length]. destruct (_ || _)%N; lia.
Qed.

(** The fields before a blank do not matter to those after it. *)
Lemma flush_app cur fields : flush cur fields = flush cur [] ++ fields.
Proof. unfold flush. by destruct (String.eqb cur EmptyString). Qed.

Lemma split_after_blank p r : forall skip cur, (skip <= String.length p)%nat ->
  exists fields, split_ws skip cur (p +:+ String " " r) = fields ++ split_ws 0 EmptyString r.
Proof.
  induction p as [|c p IH]; intros skip cur Hs.
  - assert (skip = 0%nat) as -> by (simpl in Hs; lia). exists (flush cur []).
    change (EmptyString +:+ ?u) with u. cbn [split_ws].
    assert (ws_len (String " " r) = 1%nat) as -> by reflexivity. apply flush_app.
  - change (String c p +:+ ?u) with (String c (p +:+ u)). cbn [split_ws]. destruct skip as [|k].
    + pose proof (ws_len_low (String c p) " " r ltac:(unfold low; vm_compute; reflexivity) ltac:(simpl; lia)) as Hw.
      change (String c p +:+ ?u) with (String c (p +:+ u)) in Hw.
      destruct (ws_len (String c (p +:+ String " " r))) as [|k].
      * apply IH. lia.
      * destruct (IH k EmptyString) as [fields ->]; [cbn [String.length] in Hw; lia|].
        exists (flush cur [] ++ fields). by rewrite flush_app, app_assoc.
    + apply IH. simpl in Hs. lia.
Qed.

Lemma split_blank t : forall k cur, trim_ws k t = EmptyString -> split_ws k cur t = flush cur [].
Proof.
  induction t as [|c t IH]; intros k cur Ht; [done|]. cbn [split_ws trim_ws] in *. destruct k as [|k]; [|by apply IH].
  destruct (ws_len (String c t)) as [|k]; [done|]. by rewrite (IH k EmptyString Ht).
Qed.

Lemma trim_end_rest s : exists t, s = trim_end s +:+ t /\ trim_start t = EmptyString.
Proof.
  induction s as [|c s IH]; [by exists EmptyString|]. cbn [trim_end].
  destruct (String.eqb_spec (trim_start (String c s)) EmptyString) as [E|E].
  - by exists (String c s).
  - destruct IH as (t & Hs & Ht). exists t. split; [|done]. change (String c ?a +:+ t) with (String c (a +:+ t)). by rewrite <- Hs.
Qed.

(** ** Any program's native hook is ours *)
Lemma codex_tokens_end fields : codex_stop_tokens (fields ++ ["hook"; "codex-stop"]) = true.
Proof.
  induction fields as [|f fields IH]; [done|]. destruct fields as [|g fields]; [cbn; by destruct (String.eqb f "hook")|].
  cbn [app codex_stop_tokens] in *. by rewrite IH, orb_true_r.
Qed.

Lemma ends_with_app suffix s : ends_with suffix s = true -> exists p, s = p +:+ suffix.
Proof.
  unfold ends_with. intros H. apply is_some_true in H as [p Hp]. exists p. revert p Hp.
  induction s as [|c s IH]; intros p; cbn [strip_suffix].
  - destruct (String.eqb_spec EmptyString suffix) as [<-|]; [by intros [= <-]|done].
  - destruct (String.eqb_spec (String c s) suffix) as [<-|]; [by intros [= <-]|].
    destruct (strip_suffix suffix s) as [q|]; [|done]. intros [= <-].
    change (String c q +:+ suffix) with (String c (q +:+ suffix)). by rewrite <- (IH q eq_refl).
Qed.

Lemma native_is_ours command shims :
  ends_with " hook codex-stop" (trim_end command) = true -> is_famp_command command shims = true.
Proof.
  intros [p Hp]%ends_with_app. destruct (trim_end_rest command) as (t & Hs & Ht). rewrite Hp in Hs.
  unfold is_famp_command. assert (codex_stop_tokens (map trim_quotes (split_whitespace command)) = true) as ->;
    [|by rewrite orb_true_r].
  rewrite Hs, str_app_assoc. change (" hook codex-stop" +:+ t) with (String " " ("hook codex-stop" +:+ t)).
  unfold split_whitespace. destruct (split_after_blank p ("hook codex-stop" +:+ t) 0 EmptyString ltac:(lia)) as [fields ->].
  assert (split_ws 0 EmptyString ("hook codex-stop" +:+ t) = ["hook"; "codex-stop"]) as ->.
  { assert (Hw : forall c u, plain c = true -> ws_len (String c u) = 0%nat) by (intros; by apply plain_ws).
    change ("hook codex-stop" +:+ t) with (String "h" (String "o" (String "o" (String "k" (String " " ("codex-stop" +:+ t)))))).
    cbn [split_ws]. rewrite !Hw by done.
    assert (forall u, ws_len (String " " u) = 1%nat) as -> by done.
    change ("codex-stop" +:+ t) with (String "c" (String "o" (String "d" (String "e" (String "x" (String "-"
      (String "s" (String "t" (String "o" (String "p" t)))))))))).
    cbn [split_ws]. rewrite !Hw by done. rewrite split_blank by exact Ht. done. }
  rewrite map_app. apply codex_tokens_end.
Qed.

Lemma trim_ws_end c s : plain c = true -> forall k, (k <= String.length s)%nat -> trim_ws k (s +:+ String c EmptyString) <> EmptyString.
Proof.
  intros Hc. assert (Hlow : low c) by (unfold plain in Hc; unfold low; lia).
  induction s as [|d s IH]; intros k Hk.
  - assert (k = 0%nat) as -> by (simpl in Hk; lia). change (EmptyString +:+ ?u) with u. cbn [trim_ws]. by rewrite plain_ws.
  - change (String d s +:+ ?u) with (String d (s +:+ u)). cbn [trim_ws String.length] in *. destruct k as [|k]; [|apply IH; lia].
    pose proof (ws_len_low (String d s) c EmptyString Hlow ltac:(simpl; lia)) as Hw.
    change (String d s +:+ ?u) with (String d (s +:+ u)) in Hw.
    destruct (ws_len (String d (s +:+ String c EmptyString))); [done|]. apply IH. simpl in Hw. lia.
Qed.

Lemma trim_end_plain s c : plain c = true -> trim_end (s +:+ String c EmptyString) = s +:+ String c EmptyString.
Proof.
  intros Hc. induction s as [|d s IH].
  - change (EmptyString +:+ ?u) with u. cbn [trim_end]. unfold trim_start. cbn [trim_ws]. by rewrite plain_ws.
  - pose proof (trim_ws_end c (String d s) Hc 0 ltac:(lia)) as Hne.
    change (String d s +:+ ?u) with (String d (s +:+ u)) in Hne |- *. cbn [trim_end].
    destruct (String.eqb_spec (trim_start (String d (s +:+ String c EmptyString))) EmptyString); [done|]. by rewrite IH.
Qed.

Lemma own_command_native exe : ends_with " hook codex-stop" (trim_end (codex_stop_command exe)) = true.
Proof.
  unfold codex_stop_command. change " hook codex-stop" with (" hook codex-sto" +:+ "p") at 2.
  rewrite <- str_app_assoc, trim_end_plain by done. rewrite str_app_assoc.
  change (" hook codex-sto" +:+ "p") with " hook codex-stop". unfold ends_with. by rewrite strip_suffix_app.
Qed.

(** No handler left by the filter is native. *)
Lemma not_owned_not_native shims i h : owned shims h = false -> native_handler (i, h) = None.
Proof.
  unfold owned, native_handler. simpl. destruct (get_str h "command") as [c|]; [|done]. simpl. intros Ho.
  destruct (ends_with " hook codex-stop" (trim_end c)) eqn:E; [|by rewrite andb_false_r].
  by rewrite (native_is_ours c shims E) in Ho.
Qed.

Lemma find_map_none {A B} (f : A -> option B) l : (forall x, x ∈ l -> f x = None) -> find_map f l = None.
Proof.
  induction l as [|x l IH]; intros H; [done|]. simpl. rewrite (H x) by left. apply IH. intros y Hy. apply H. by right.
Qed.

Lemma kept_not_native shims e e' i : remove_famp_hook_from_stop_entry shims e = Some e' -> native_group (i, e') = None.
Proof.
  intros [_ Hk]%kept_handlers. unfold native_group. simpl.
  destruct (get e' "hooks" ≫= as_array) as [hs|]; [|done]. simpl. rewrite find_map_none; [done|].
  intros [j h] Hin. apply elem_of_lookup_imap in Hin as (k & x & [= -> ->] & Hx).
  eapply not_owned_not_native, Hk; [done|]. by eapply list_elem_of_lookup_2.
Qed.

Lemma codex_entry_native exe i : native_group (i, codex_entry (codex_stop_command exe)) =
  Some (i, 0%nat, codex_stop_command exe, CODEX_AWAIT_TIMEOUT_SEC).
Proof.
  unfold native_group, codex_entry. pose proof (own_command_native exe) as Hn.
  generalize dependent (codex_stop_command exe). intros command Hn.
  assert (json_obj [("hooks", VArray [json_obj [("type", VString "command"); ("command", VString command);
            ("timeout", json_int CODEX_AWAIT_TIMEOUT_SEC)]])] =
          VObject [("hooks", VArray [VObject [("command", VString command); ("timeout", VNumber (PosInt 86400));
                                              ("type", VString "command")]])]) as -> by reflexivity.
  cbn -[ends_with trim_end]. unfold native_handler. cbn -[ends_with trim_end]. by rewrite Hn.
Qed.

Lemma find_map_app_none {A B} (f : A -> option B) l x : (forall y, y ∈ l -> f y = None) -> find_map f (l ++ [x]) = f x.
Proof.
  induction l as [|y l IH]; intros H; [simpl; by destruct (f x)|]. simpl. rewrite (H y) by left. apply IH.
  intros z Hz. apply H. by right.
Qed.

(** The installed hook is the one the diagnosis finds. *)
Lemma native_found exe project prior :
  find_map native_group (imap pair (codex_kept exe project prior ++ [codex_entry (codex_stop_command exe)])) =
  Some (length (codex_kept exe project prior), 0%nat, codex_stop_command exe, CODEX_AWAIT_TIMEOUT_SEC).
Proof.
  rewrite imap_app. cbn [imap]. rewrite find_map_app_none.
  - rewrite Nat.add_0_r. apply codex_entry_native.
  - intros [i e] Hin. apply elem_of_lookup_imap in Hin as (k & x & [= -> ->] & Hx).
    apply list_elem_of_lookup_2, list_elem_of_omap in Hx as (e & _ & He). by eapply kept_not_native.
Qed.

(** ** TOML documents *)
Section toml_ind.
Variable P : Toml -> Prop.
Hypothesis Hstr : forall s, P (TStr s).
Hypothesis Hint : forall z, P (TInt z).
Hypothesis Hfloat : forall b, P (TFloat b).
Hypothesis Hbool : forall b, P (TBool b).
Hypothesis Hdate : forall s, P (TDate s).
Hypothesis Harr : forall l, Forall P l -> P (TArr l).
Hypothesis Htab : forall m, Forall (fun kv => P kv.2) m -> P (TTab m).
Fixpoint toml_ind_nested (v : Toml) : P v :=
  match v with
  | TStr s => Hstr s | TInt z => Hint z | TFloat b => Hfloat b | TBool b => Hbool b | TDate s => Hdate s
  | TArr l => Harr l ((fix go l : Forall P l := match l with
      | [] => List.Forall_nil _ | x :: t => List.Forall_cons _ x t (toml_ind_nested x) (go t) end) l)
  | TTab m => Htab m ((fix go m : Forall (fun kv => P kv.2) m := match m with
      | [] => List.Forall_nil _ | kv :: t => List.Forall_cons _ kv t (toml_ind_nested kv.2) (go t) end) m)
  end.
End toml_ind.

(** Values the printer and the parser agree on: tables in order, integers of 64 bits,
    floats that are finite, lists nested no deeper than the reader goes. *)
Fixpoint toml_in (d : nat) (v : Toml) : bool :=
  match v with
  | TStr _ | TBool _ | TDate _ => true
  | TInt z => ((-9223372036854775808 <=? z) && (z <=? 9223372036854775807))%Z
  | TFloat bits => number_ok (Float bits)
  | TArr l => bool_decide (0 < d)%nat && forallb (toml_in (pred d)) l
  | TTab m => bool_decide (0 < d)%nat && keys_ascend m && forallb (fun kv => toml_in (pred d) kv.2) m
  end.
Fixpoint toml_wf (v : Toml) : bool :=
  match v with
  | TTab m => keys_ascend m && forallb (fun kv => toml_wf kv.2) m
  | v => toml_in 64 v
  end.

(** What the code relies on of the [toml] crate. *)
Class TomlDocLaws `{TL : TomlDocLib} : Prop := {
  toml_reads_back t : toml_wf (TTab t) = true ->
    exists s, toml_print t = Some s /\ toml_parse s = Some t /\ (is_blank s = true -> t = []) }.

Lemma elem_obj_get {A} k (v : A) m : keys_ascend m = true -> In (k, v) m -> obj_get k m = Some v.
Proof.
  induction m as [|[k' v'] m IH]; [done|]. intros Hk Hin. pose proof Hk as Hs. rewrite keys_ascend_sorted in Hs.
  inversion Hs as [|? ? Hs' Hlt]; subst. destruct Hin as [[= -> ->]|Hin]; simpl; [by rewrite String.eqb_refl|].
  destruct (String.eqb_spec k k') as [->|]; [|apply IH; [by rewrite keys_ascend_sorted|done]].
  rewrite Forall_forall in Hlt. apply list_elem_of_In in Hin. specialize (Hlt _ Hin). unfold key_lt in Hlt. simpl in Hlt.
  pose proof (String.compare_antisym k' k') as E. rewrite Hlt in E. done.
Qed.

Lemma toml_wf_table m : toml_wf (TTab m) = true <-> keys_ascend m = true /\ forall k v, obj_get k m = Some v -> toml_wf v = true.
Proof.
  simpl. rewrite andb_true_iff, forallb_forall. split; intros [Hk Hm]; split; try done.
  - intros k v Hg%obj_get_elem. by apply (Hm (k, v)), list_elem_of_In.
  - intros [k v] Hin. simpl. apply (Hm k). by apply elem_obj_get.
Qed.

Lemma toml_wf_insert k v m : toml_wf v = true -> toml_wf (TTab m) = true -> toml_wf (TTab (obj_insert k v m)) = true.
Proof.
  rewrite !toml_wf_table. intros Hv [Hk Hm]. split; [by apply keys_ascend_insert|]. intros k' v'. rewrite obj_get_insert.
  destruct (String.eqb k' k); [by intros [= <-]|apply Hm].
Qed.
Lemma toml_wf_remove k m : toml_wf (TTab m) = true -> toml_wf (TTab (obj_remove k m)) = true.
Proof.
  rewrite !toml_wf_table. intros [Hk Hm]. split; [by apply keys_ascend_remove|]. intros k' v'. rewrite obj_get_remove.
  destruct (String.eqb k' k); [done|apply Hm].
Qed.

Lemma toml_eqb_eq a : forall b, toml_eqb a b = true <-> a = b.
Proof.
  induction a as [s|z|b|b|s|l IH|m IH] using toml_ind_nested; intros v; destruct v as [s'|z'|b'|b'|s'|l'|m']; try done.
  - cbn. rewrite String.eqb_eq. split; congruence.
  - cbn. rewrite Z.eqb_eq. split; congruence.
  - cbn. rewrite N.eqb_eq. split; congruence.
  - cbn. rewrite Bool.eqb_true_iff. split; congruence.
  - cbn. rewrite String.eqb_eq. split; congruence.
  - revert l'. induction IH as [|v l Hv _ IHl]; intros [|v' l']; [done..|]. cbn.
    rewrite andb_true_iff, Hv. specialize (IHl l'). cbn in IHl. rewrite IHl. split; [intros [-> [= ->]]; done|by intros [= -> ->]].
  - revert m'. induction IH as [|[k v] m Hv _ IHm]; intros [|[k' v'] m']; [done..|]. cbn.
    rewrite !andb_true_iff, String.eqb_eq. cbn in Hv. rewrite Hv. specialize (IHm m'). cbn in IHm. rewrite IHm.
    split; [intros [[-> ->] [= ->]]; done|by intros [= -> -> ->]].
Qed.

(** ** The table at a path *)
Definition reaches (root : Table) (path : list string) : Prop := exists o, nested_parent false root path = Ok o.
Definition sub (seg : string) (root : Table) : Table := match obj_get seg root with Some (TTab s) => s | _ => [] end.

Lemma sub_wf seg root : toml_wf (TTab root) = true -> toml_wf (TTab (sub seg root)) = true.
Proof.
  intros [_ Hm]%toml_wf_table. unfold sub. destruct (obj_get seg root) as [v|] eqn:E; [|done].
  specialize (Hm _ _ E). by destruct v.
Qed.

Lemma reaches_create path : forall root, reaches root path ->
  exists t, nested_parent true root path = Ok (Some t) /\
    nested_parent false root path = Ok (Some t) \/ nested_parent true root path = Ok (Some []) /\ nested_parent false root path = Ok None.
Proof.
  induction path as [|seg path IH]; intros root [o Ho]; [exists root; by left|]. cbn [nested_parent] in *.
  destruct (obj_get seg root) as [v|] eqn:E.
  - destruct v as [| | | | | |t]; try done. apply IH. by exists o.
  - exists []. right. split; [|done]. clear. induction path as [|seg path IH]; [done|]. exact IH.
Qed.

Lemma put_wf path t : toml_wf (TTab t) = true -> forall root, toml_wf (TTab root) = true -> toml_wf (TTab (put_nested root path t)) = true.
Proof.
  intros Ht. induction path as [|seg path IH]; intros root Hr; [done|]. cbn [put_nested].
  apply toml_wf_insert; [|done]. apply IH. exact (sub_wf seg root Hr).
Qed.

Lemma prune_wf path : forall root, toml_wf (TTab root) = true -> toml_wf (TTab (prune root path)) = true.
Proof.
  induction path as [|seg path IH]; intros root Hr; [done|]. cbn [prune].
  pose proof (sub_wf seg root Hr) as Hs. unfold sub in Hs. destruct (obj_get seg root) as [[| | | | | |t]|]; try done.
  specialize (IH t Hs). destruct (prune t path); [by apply toml_wf_remove|by apply toml_wf_insert].
Qed.

Lemma nested_put path t : forall root, nested_parent false (put_nested root path t) path = Ok (Some t).
Proof.
  induction path as [|seg path IH]; intros root; [done|]. cbn [put_nested nested_parent].
  rewrite obj_get_insert, String.eqb_refl. apply IH.
Qed.

Lemma prune_reaches path : forall root, reaches root path -> reaches (prune root path) path.
Proof.
  induction path as [|seg path IH]; intros root [o Ho]; [by exists (Some root)|]. cbn [prune nested_parent] in *.
  destruct (obj_get seg root) as [[| | | | | |t]|] eqn:E; try done.
  - destruct (IH t ltac:(by exists o)) as [o' Ho']. unfold reaches. cbn [nested_parent].
    destruct (prune t path) as [|x l] eqn:Ep.
    + rewrite obj_get_remove, String.eqb_refl. by exists None.
    + rewrite obj_get_insert, String.eqb_refl. by exists o'.
  - exists o. cbn [nested_parent]. by rewrite E.
Qed.

(** Paths that part at the first step do not meet. *)
Lemma put_elsewhere seg path t root k : k <> seg -> obj_get k (put_nested root (seg :: path) t) = obj_get k root.
Proof. intros H. cbn [put_nested]. by rewrite obj_get_insert, (proj2 (String.eqb_neq _ _) H). Qed.
Lemma prune_elsewhere seg path root k : k <> seg -> obj_get k (prune root (seg :: path)) = obj_get k root.
Proof.
  intros H. cbn [prune]. destruct (obj_get seg root) as [[| | | | | |t]|]; try done.
  destruct (prune t path); rewrite ?obj_get_remove, ?obj_get_insert, (proj2 (String.eqb_neq _ _) H); done.
Qed.
Lemma nested_same create seg path root root' : obj_get seg root = obj_get seg root' ->
  nested_parent create root (seg :: path) = nested_parent create root' (seg :: path).
Proof. intros H. cbn [nested_parent]. by rewrite H. Qed.

Lemma nested_wf path : forall create root t, toml_wf (TTab root) = true ->
  nested_parent create root path = Ok (Some t) -> toml_wf (TTab t) = true.
Proof.
  induction path as [|seg path IH]; intros create root t Hr; [by intros [= <-]|]. cbn [nested_parent].
  pose proof (sub_wf seg root Hr) as Hs. unfold sub in Hs.
  destruct (obj_get seg root) as [[| | | | | |s]|]; try done; [by apply IH|]. destruct create; [by apply IH|done].
Qed.

(** Putting back what is there. *)
Lemma put_same path t : forall root, toml_wf (TTab root) = true -> nested_parent true root path = Ok (Some t) ->
  nested_parent false root path = Ok (Some t) -> put_nested root path t = root.
Proof.
  induction path as [|seg path IH]; intros root Hr Ht Hf; [by injection Hf|]. cbn [put_nested nested_parent] in *.
  pose proof (sub_wf seg root Hr) as Hs. unfold sub in Hs. apply toml_wf_table in Hr as [Hk _].
  destruct (obj_get seg root) as [[| | | | | |s]|] eqn:E; try done. rewrite IH by done. by apply obj_insert_same.
Qed.

Definition table_at (root : Table) (path : list string) : Table :=
  match nested_parent false root path with Ok (Some t) => t | _ => [] end.
Lemma table_at_wf root path : toml_wf (TTab root) = true -> toml_wf (TTab (table_at root path)) = true.
Proof. unfold table_at. intros Hr. destruct (nested_parent false root path) as [[t|]|] eqn:E; [|done..]. by eapply nested_wf. Qed.
Definition set_table (root : Table) (path : list string) (leaf : string) (v : Table) : Table :=
  put_nested root path (obj_insert leaf (TTab v) (table_at root path)).

Lemma set_table_wf root path leaf v : toml_wf (TTab root) = true -> toml_wf (TTab v) = true ->
  toml_wf (TTab (set_table root path leaf v)) = true.
Proof. intros Hr Hv. apply put_wf; [|done]. by apply toml_wf_insert, table_at_wf. Qed.
Lemma set_table_reads root path leaf v : nested_parent false (set_table root path leaf v) path =
  Ok (Some (obj_insert leaf (TTab v) (table_at root path))).
Proof. apply nested_put. Qed.

(** Replacing twice, and at two places; a path that leads somewhere is not pruned. *)
Lemma put_put path t t' : forall root, toml_wf (TTab root) = true ->
  put_nested (put_nested root path t') path t = put_nested root path t.
Proof.
  induction path as [|seg path IH]; intros root Hr; [done|]. cbn [put_nested]. rewrite obj_get_insert, String.eqb_refl.
  pose proof (sub_wf seg root Hr) as Hs. unfold sub in Hs. rewrite IH by exact Hs.
  apply obj_insert_twice. by apply toml_wf_table in Hr as [Hk _].
Qed.
Lemma nested_nonempty path t s : nested_parent false s path = Ok (Some t) -> t <> [] -> s <> [].
Proof. destruct path; [by intros [= ->]|]. by intros H _ ->. Qed.
Lemma prune_same path t : t <> [] -> forall root, toml_wf (TTab root) = true ->
  nested_parent false root path = Ok (Some t) -> prune root path = root.
Proof.
  intros Ht. induction path as [|seg path IH]; intros root Hr Hn; [done|]. cbn [prune nested_parent] in *.
  pose proof (sub_wf seg root Hr) as Hs. unfold sub in Hs. apply toml_wf_table in Hr as [Hk _].
  destruct (obj_get seg root) as [[| | | | | |s]|] eqn:E; try done. rewrite IH by done.
  pose proof (nested_nonempty _ _ _ Hn Ht). destruct s; [done|]. by apply obj_insert_same.
Qed.

(** ** The TOML merge *)
Section toml_merge.
Context `{TL : TomlDocLib} `{TLaws : !TomlDocLaws}.
Variable io : HostIo.
Hypothesis all_readable : forall p, ho_readable io p = true.
Hypothesis all_writable : forall p, ho_writable io p = true.

Lemma toml_rewritten files path root : toml_wf (TTab root) = true ->
  exists files', rewrite_toml io files path root = (files', Ok tt) /\
    read_toml_table io files' path = Ok (Some root) /\ only_at (with_backup io path) files files'.
Proof.
  intros Hw. destruct (toml_reads_back root Hw) as (s & Hs & Hp & Hb). unfold rewrite_toml, persist_toml, backup_if_exists.
  assert (Hr : forall f, read_toml_table io (<[path := s]> f) path = Ok (Some root)).
  { intros f. unfold read_toml_table. rewrite lookup_insert_eq, all_readable. simpl. rewrite Hp.
    destruct (is_blank s); [by rewrite Hb|done]. }
  destruct (files !! path); rewrite ?all_writable; simpl; rewrite Hs; eexists; (split; [done|]); (split; [apply Hr|]);
    intros q Hq; unfold with_backup in Hq; rewrite !lookup_insert_ne; set_solver.
Qed.

Lemma toml_upserts files path parents leaf value ot :
  read_toml_table io files path = Ok ot -> toml_wf (TTab (default [] ot)) = true -> reaches (default [] ot) parents ->
  toml_wf (TTab value) = true ->
  exists files' o, upsert_nested_table io files path parents leaf value = (files', Ok o) /\
    read_toml_table io files' path = Ok (Some (set_table (default [] ot) parents leaf value)) /\
    only_at (with_backup io path) files files'.
Proof.
  intros Hd Hw Hre Hv. unfold upsert_nested_table. rewrite Hd. set (root := default [] ot) in *.
  destruct (toml_rewritten files path _ (set_table_wf root parents leaf value Hw Hv)) as (files' & Hrw & Hrd & Hat).
  pose proof (table_at_wf root parents Hw) as Hta. unfold set_table, table_at in *.
  destruct (reaches_create parents root Hre) as (t & [[Hc Hn]|[Hc Hn]]); rewrite Hn in *; rewrite Hc;
    cbv beta iota zeta; cbn [from_option id].
  - destruct (obj_get leaf t) as [old|] eqn:El; [|rewrite Hrw; by exists files', Inserted].
    destruct (toml_eqb old (TTab value)) eqn:Ee; [|rewrite Hrw; by exists files', Updated].
    apply toml_eqb_eq in Ee as ->. exists files, AlreadyMatches. split; [done|]. split; [|apply only_at_refl].
    pose proof (proj1 (proj1 (toml_wf_table t) Hta)) as Hk. rewrite obj_insert_same by done. rewrite put_same by done.
    rewrite Hd. unfold root. destruct ot; [done|]. exfalso. revert Hn El. unfold root. simpl.
    destruct parents; [by intros [= <-]|done].
  - cbn [obj_get from_option id]. rewrite Hrw. by exists files', Inserted.
Qed.

(** Removing tables under a path keeps the document readable, and what is elsewhere. *)
Lemma toml_removes_some files path seg parents chosen ot :
  read_toml_table io files path = Ok ot -> toml_wf (TTab (default [] ot)) = true -> reaches (default [] ot) (seg :: parents) ->
  exists files' keys ot', remove_nested_tables_where io files path (seg :: parents) chosen = (files', Ok keys) /\
    read_toml_table io files' path = Ok ot' /\ toml_wf (TTab (default [] ot')) = true /\
    reaches (default [] ot') (seg :: parents) /\
    (forall k, k <> seg -> obj_get k (default [] ot') = obj_get k (default [] ot)) /\
    only_at (with_backup io path) files files' /\
    (forall t, nested_parent false (default [] ot) (seg :: parents) = Ok (Some t) ->
       (forall k v, obj_get k t = Some (TTab v) -> chosen k v = false) -> ot' = ot).
Proof.
  intros Hd Hw Hre. unfold remove_nested_tables_where. rewrite Hd.
  assert (Hsame : exists files' keys ot', (files, @Ok (list string) TomlError []) = (files', Ok keys) /\
    read_toml_table io files' path = Ok ot' /\ toml_wf (TTab (default [] ot')) = true /\
    reaches (default [] ot') (seg :: parents) /\
    (forall k, k <> seg -> obj_get k (default [] ot') = obj_get k (default [] ot)) /\
    only_at (with_backup io path) files files' /\
    (forall t, nested_parent false (default [] ot) (seg :: parents) = Ok (Some t) ->
       (forall k v, obj_get k t = Some (TTab v) -> chosen k v = false) -> ot' = ot)).
  { exists files, [], ot. by split_and!. }
  destruct ot as [root|]; [|exact Hsame]. cbn [from_option id] in *. destruct Hre as [o Ho].
  revert Hsame. rewrite Ho. intros Hsame. destruct o as [parent|]; [|exact Hsame]. set (keys := omap _ parent). case_bool_decide as Hkeys; [exact Hsame|].
  pose proof (nested_wf _ _ _ _ Hw Ho) as Hp.
  assert (Hsome : ~ forall k v, obj_get k parent = Some (TTab v) -> chosen k v = false).
  { intros Hno. apply Hkeys. apply elem_of_nil_inv. intros key ([k v] & Hin & Hc)%list_elem_of_omap. simpl in Hc.
    destruct v as [| | | | | |t]; try done. rewrite (Hno k t) in Hc; [done|].
    apply elem_obj_get; [exact (proj1 (proj1 (toml_wf_table _) Hp))|by apply list_elem_of_In]. }
  set (parent' := foldl _ parent keys).
  assert (Hp' : toml_wf (TTab parent') = true).
  { unfold parent'. clear -Hp. clearbody keys. revert parent Hp. induction keys as [|k keys IH]; intros t Ht; [done|].
    simpl foldl. by apply IH, toml_wf_remove. }
  set (root' := prune _ _). assert (Hw' : toml_wf (TTab root') = true) by (by apply prune_wf, put_wf).
  destruct (toml_rewritten files path root' Hw') as (files' & -> & Hrd & Hat).
  exists files', keys, (Some root'). split_and!; try done.
  - apply prune_reaches. exists (Some parent'). apply nested_put.
  - intros k Hk. simpl. unfold root'. by rewrite prune_elsewhere, put_elsewhere.
  - intros t Ht Hno. injection Ht as <-. by destruct Hsome.
Qed.

Lemma toml_removes files path seg parents leaf root t v :
  read_toml_table io files path = Ok (Some root) -> toml_wf (TTab root) = true ->
  nested_parent false root (seg :: parents) = Ok (Some t) -> obj_get leaf t = Some v ->
  exists files', remove_nested_table io files path (seg :: parents) leaf = (files', Ok Removed) /\
    read_toml_table io files' path =
      Ok (Some (prune (put_nested root (seg :: parents) (obj_remove leaf t)) (seg :: parents))) /\
    only_at (with_backup io path) files files'.
Proof.
  intros Hd Hw Hn Hl. unfold remove_nested_table. rewrite Hd, Hn, Hl. cbn [is_some negb].
  destruct (toml_rewritten files path (prune (put_nested root (seg :: parents) (obj_remove leaf t)) (seg :: parents)))
    as (files' & -> & Hrd & Hat); [|by exists files'].
  apply prune_wf, put_wf; [|done]. apply toml_wf_remove. by eapply nested_wf.
Qed.

Lemma parsed files path root : read_toml_table io files path = Ok (Some root) -> root <> [] ->
  exists text, files !! path = Some text /\ toml_parse text = Some root.
Proof.
  unfold read_toml_table. destruct (files !! path) as [text|]; [|done]. rewrite all_readable. simpl.
  destruct (is_blank text); [by intros [= <-]|]. destruct (toml_parse text) eqn:E; [|done]. intros [= ->] _. by exists text.
Qed.
End toml_merge.

(** ** The paths *)
Fixpoint final_char (s : string) : option ascii :=
  match s with EmptyString => None | String c s => match s with EmptyString => Some c | _ => final_char s end end.
Lemma final_char_app s t : t <> EmptyString -> final_char (s +:+ t) = final_char t.
Proof.
  intros Ht. induction s as [|c s IH]; [done|]. change (String c s +:+ t) with (String c (s +:+ t)). cbn [final_char]. rewrite IH.
  destruct (s +:+ t) eqn:E; [|done]. exfalso. destruct s; [exact (Ht E)|]. by destruct t.
Qed.
Lemma final_char_under home rel : rel <> EmptyString -> final_char (under home rel) = final_char rel.
Proof.
  intros Hr. unfold under. destruct (ends_with "/" home); rewrite final_char_app; try done. by rewrite final_char_app.
Qed.
Lemma final_char_digits s : string_forall is_digit s = true -> s <> EmptyString -> exists c, final_char s = Some c /\ is_digit c = true.
Proof.
  induction s as [|c s IH]; [done|]. cbn [string_forall final_char]. intros [Hc Hs]%andb_true_iff _.
  destruct s as [|d s]; [by exists c|]. by apply IH.
Qed.
Lemma final_char_backup io path : exists c, final_char (backup_path io path) = Some c /\ is_digit c = true.
Proof.
  unfold backup_path. assert (Hd : string_forall is_digit (pretty (ho_seconds io)) = true /\ pretty (ho_seconds io) <> EmptyString).
  { unfold pretty, pretty_N. case_decide; [done|]. split; [by apply pretty_go_digits|]. apply pretty_go_nonempty. left. lia. }
  destruct Hd as [Hd Hne]. destruct (final_char_digits _ Hd Hne) as (c & Hc & Hdc). exists c. split; [|done].
  by rewrite !final_char_app.
Qed.

(** The three documents' paths end differently, and no backup's like them. *)
Record apart (io : HostIo) (c h s : string) : Prop := mkApart {
  ap_config : c ∉ with_backup io h /\ c <> s; ap_hooks : h ∉ with_backup io c /\ h <> s }.
Lemma paths_apart io home project : apart io (config_path home) (hooks_path project) (codex_shim_path project).
Proof.
  assert (Hc : final_char (config_path home) = Some "l"%char) by (by apply final_char_under).
  assert (Hh : final_char (hooks_path project) = Some "n"%char) by (by apply final_char_under).
  assert (Hs : final_char (codex_shim_path project) = Some "h"%char) by (by apply final_char_under).
  assert (Hb : forall p q x, final_char p = Some x -> is_digit x = false -> p <> backup_path io q).
  { intros p q x Hp Hx ->. destruct (final_char_backup io q) as (y & Hy & Hd). congruence. }
  split; (split; [|congruence]); unfold with_backup; rewrite elem_of_cons, list_elem_of_singleton; intros [?|E]; try congruence;
    by eapply Hb in E.
Qed.
Lemma shim_apart io home project :
  codex_shim_path project ∉ with_backup io (config_path home) /\ codex_shim_path project ∉ with_backup io (hooks_path project).
Proof.
  assert (Hs : final_char (codex_shim_path project) = Some "h"%char) by (by apply final_char_under).
  assert (Hc : final_char (config_path home) = Some "l"%char) by (by apply final_char_under).
  assert (Hh : final_char (hooks_path project) = Some "n"%char) by (by apply final_char_under).
  unfold with_backup. split; rewrite elem_of_cons, list_elem_of_singleton; intros [?|E]; try congruence;
    apply (f_equal final_char) in E; rewrite Hs in E; [destruct (final_char_backup io (config_path home)) as (y & Hy & Hd)
      |destruct (final_char_backup io (hooks_path project)) as (y & Hy & Hd)]; rewrite Hy in E; by injection E as <-.
Qed.
Definition codex_touched (io : HostIo) (home project : string) : list string :=
  with_backup io (config_path home) ++ with_backup io (hooks_path project) ++ [codex_shim_path project].

(** ** Installing *)
Section install.
Context `{WL : WireLib} `{WLW : !WireLaws} `{PL : PrettyLib} `{PLaws : !PrettyLaws} `{TL : TomlDocLib} `{TLaws : !TomlDocLaws} `{CL : CryptoLib}.
Variables (io : HostIo) (exe home project : string).
Hypothesis healthy : healthy_home io.
#[local] Abbreviation config := (config_path home).
#[local] Abbreviation hooks := (hooks_path project).

Definition codex_stop_hooks (dh : option Obj) : list Value :=
  codex_kept exe project (prior_hooks dh) ++ [codex_entry (codex_stop_command exe)].
Definition own_key (dh : option Obj) : string :=
  codex_hook_key hooks CODEX_STOP_EVENT_LABEL (length (codex_kept exe project (prior_hooks dh))) 0.
Definition own_hash : string :=
  codex_command_hook_hash CODEX_STOP_EVENT_LABEL (codex_stop_command exe) CODEX_AWAIT_TIMEOUT_SEC.

(** What an installation leaves: the tables and the hook. *)
Record codex_installed (files : Files) (root : Table) (dh : option Obj) : Prop := mkCodexInstalled {
  ci_table : read_toml_table io files config = Ok (Some root);
  ci_wf : toml_wf (TTab root) = true;
  ci_server : exists servers, obj_get "mcp_servers" root = Some (TTab servers) /\ obj_get "famp" servers = Some (TTab (server_table exe));
  ci_trust : exists states, nested_parent false root ["hooks"; "state"] = Ok (Some states) /\
               obj_get (own_key dh) states = Some (TTab (trust_table own_hash));
  ci_hooks : holds_doc io files hooks (Some (set_leaf "hooks" "Stop" (VArray (codex_stop_hooks dh)) (default [] dh))) }.

Lemma codex_stop_wf dh : mergeable "hooks" (default [] dh) -> leaf_wf (VArray (codex_stop_hooks dh)) = true.
Proof.
  intros Hm. rewrite leaf_list_wf. unfold codex_stop_hooks. rewrite forallb_app. apply andb_true_iff. split; [|reflexivity].
  by apply kept_wf, prior_items.
Qed.

Lemma toml_elsewhere ps files files' path : only_at ps files files' -> path ∉ ps ->
  read_toml_table io files' path = read_toml_table io files path.
Proof. intros H Hp. unfold read_toml_table. by rewrite H. Qed.

(** A table is there once it can be read at its path. *)
Lemma reads_table k root t : nested_parent false root [k] = Ok (Some t) -> obj_get k root = Some (TTab t).
Proof. cbn [nested_parent]. destruct (obj_get k root) as [[]|]; try done. by intros [= ->]. Qed.

Lemma reaches_same k path root root' : obj_get k root' = obj_get k root -> reaches root (k :: path) -> reaches root' (k :: path).
Proof. intros H [o Ho]. exists o. by rewrite (nested_same false k path root' root H). Qed.

(** The user's trust entries are none of ours. *)
Definition foreign_trust (states : Table) : Prop := forall key t h,
  obj_get key states = Some (TTab t) -> (obj_get "trusted_hash" t ≫= toml_str) = Some h ->
  h ∉ famp_trusted_hashes CODEX_STOP_EVENT_LABEL exe (codex_shim_path project).
Lemma foreign_kept keep states : foreign_trust states -> forall key table, obj_get key states = Some (TTab table) ->
  stale_trust hooks keep (famp_trusted_hashes CODEX_STOP_EVENT_LABEL exe (codex_shim_path project)) key table = false.
Proof.
  intros Hf key t Hg. unfold stale_trust. case_bool_decide; [done|]. destruct (obj_get "trusted_hash" t ≫= toml_str) as [h|] eqn:E.
  - rewrite bool_decide_false by (by eapply Hf). apply andb_false_r.
  - apply andb_false_r.
Qed.

Lemma codex_install_installs files ot dh :
  read_toml_table io files config = Ok ot -> toml_wf (TTab (default [] ot)) = true ->
  reaches (default [] ot) ["mcp_servers"] -> reaches (default [] ot) ["hooks"; "state"] ->
  holds_doc io files hooks dh -> mergeable "hooks" (default [] dh) ->
  exists files' root, install_codex io exe home project true files = (files', Ok tt) /\
    codex_installed files' root dh /\ files' !! codex_shim_path project = None /\
    only_at (codex_touched io home project) files files' /\
    (forall st, nested_parent false (default [] ot) ["hooks"; "state"] = Ok (Some st) -> foreign_trust st ->
       root = set_table (set_table (default [] ot) ["mcp_servers"] "famp" (server_table exe)) ["hooks"; "state"]
                (own_key dh) (trust_table own_hash)).
Proof.
  intros Hc Hcw Hs Ht Hh Hm.
  assert (Hr : forall p, ho_readable io p = true) by (intros p; apply healthy).
  assert (Hw : forall p, ho_writable io p = true) by (intros p; apply healthy).
  destruct (paths_apart io home project) as [[Hac Hacs] [Hah Hahs]].
  unfold install_codex, upsert_codex_table. cbv beta iota zeta. cbn [negb].
  assert (Hv1 : toml_wf (TTab (server_table exe)) = true) by reflexivity.
  destruct (toml_upserts io Hr Hw files _ _ "famp" _ ot Hc Hcw Hs Hv1) as (f1 & o1 & -> & Hc1 & Hat1). cbv beta iota.
  unfold remove_shim. destruct (removed io Hw f1 (codex_shim_path project)) as (f2 & -> & Hsh2 & Hat2). cbv beta iota.
  assert (Hh2 : holds_doc io f2 hooks dh).
  { unfold holds_doc. rewrite (read_elsewhere io _ _ _ _ Hat2) by (by rewrite list_elem_of_singleton).
    by rewrite (read_elsewhere io _ _ _ _ Hat1). }
  unfold codex_stop_array. rewrite Hh2. cbv beta iota. fold (prior_hooks dh). fold (codex_stop_hooks dh).
  destruct (upsert_sets io Hr Hw f2 _ "hooks" "Stop" (VArray (codex_stop_hooks dh)) dh Hh2 Hm (codex_stop_wf dh Hm))
    as (f3 & o3 & -> & Hh3 & Hat3 & _). cbv beta iota.
  assert (length (codex_stop_hooks dh) - 1 = length (codex_kept exe project (prior_hooks dh)))%nat as ->.
  { unfold codex_stop_hooks. rewrite length_app. simpl. lia. }
  fold (own_key dh) own_hash. set (root1 := set_table _ _ _ _) in Hc1.
  assert (Hc3 : read_toml_table io f3 config = Ok (Some root1)).
  { rewrite (toml_elsewhere _ _ _ _ Hat3) by done. rewrite (toml_elsewhere _ _ _ _ Hat2) by (by rewrite list_elem_of_singleton).
    exact Hc1. }
  assert (Hw1 : toml_wf (TTab root1) = true) by (by apply set_table_wf).
  assert (Ht1 : reaches root1 ["hooks"; "state"]) by (by eapply reaches_same; [apply put_elsewhere|exact Ht]).
  destruct (toml_removes_some io Hr Hw f3 _ "hooks" ["state"] (stale_trust hooks (Some (own_key dh))
      (famp_trusted_hashes CODEX_STOP_EVENT_LABEL exe (codex_shim_path project)))
    (Some root1) Hc3 Hw1 Ht1) as (f4 & keys & ot4 & He4 & Hc4 & Hw4 & Ht4 & Hel4 & Hat4 & Hid4).
  unfold remove_stale_codex_hook_trust. rewrite He4. cbv beta iota. unfold seed_codex_hook_trust.
  assert (Hv5 : toml_wf (TTab (trust_table own_hash)) = true) by reflexivity.
  destruct (toml_upserts io Hr Hw f4 _ _ (own_key dh) _ ot4 Hc4 Hw4 Ht4 Hv5) as (f5 & o5 & -> & Hc5 & Hat5). cbv beta iota.
  eexists f5, _. split; [done|]. split; [split|split; [|split]].
  - exact Hc5.
  - by apply set_table_wf.
  - exists (obj_insert "famp" (TTab (server_table exe)) (table_at (default [] ot) ["mcp_servers"])).
    split; [|by rewrite obj_get_insert]. unfold set_table. rewrite put_elsewhere, Hel4 by done.
    apply reads_table, set_table_reads.
  - eexists. split; [apply set_table_reads|]. by rewrite obj_get_insert, String.eqb_refl.
  - unfold holds_doc. rewrite (read_elsewhere io _ _ _ _ Hat5), (read_elsewhere io _ _ _ _ Hat4) by done. exact Hh3.
  - assert (Hn : codex_shim_path project ∉ with_backup io config /\ codex_shim_path project ∉ with_backup io hooks).
    { apply shim_apart. }
    destruct Hn as [Hn1 Hn2]. by rewrite Hat5, Hat4, Hat3.
  - intros q Hq. unfold codex_touched in Hq. rewrite !not_elem_of_app in Hq. destruct Hq as (Hq1 & Hq2 & Hq3).
    by rewrite Hat5, Hat4, Hat3, Hat2, Hat1.
  - intros st Hst Hf. rewrite (Hid4 st); [done| |by apply foreign_kept].
    rewrite <- Hst. apply nested_same. by apply put_elsewhere.
Qed.

(** The document the hooks' file holds, in its text. *)
Lemma doc_text files path v : read_document io files path = Ok (Some v) ->
  exists text, files !! path = Some text /\ from_str text = Ok v.
Proof.
  unfold read_document. destruct (files !! path) as [text|]; [|done]. destruct (negb (ho_readable io path)); [done|].
  destruct (is_blank text); [done|]. destruct (from_str text) eqn:E; [|done]. intros [= ->]. by exists text.
Qed.

(** What the diagnosis and the other commands read of an installation. *)
Lemma installed_is_trusted files root dh :
  mergeable "hooks" (default [] dh) -> codex_installed files root dh ->
  inspect_hook io files home project = Ok (mkHookState hooks true TsTrue).
Proof.
  intros Hm [Hc Hw _ (states & Hst & Hk) Hh]. unfold inspect_hook.
  destruct (doc_text files hooks _ Hh) as (text & Ht & Hp). rewrite Ht, (proj1 (healthy _)). cbn [negb]. rewrite Hp.
  assert (find_native_hook (VObject (set_leaf "hooks" "Stop" (VArray (codex_stop_hooks dh)) (default [] dh))) =
    Some (length (codex_kept exe project (prior_hooks dh)), 0%nat, codex_stop_command exe, CODEX_AWAIT_TIMEOUT_SEC)) as ->.
  { unfold find_native_hook, set_leaf. cbn [get]. rewrite obj_get_insert, String.eqb_refl. simpl.
    rewrite obj_get_insert, String.eqb_refl. simpl. unfold codex_stop_hooks. apply native_found. }
  unfold inspect_trust. assert (Hne : root <> []) by (intros ->; discriminate Hst).
  destruct (parsed io (fun p => proj1 (healthy p)) files config root Hc Hne) as (toml & -> & ->). rewrite (proj1 (healthy _)).
  cbn [negb]. fold (own_key dh). cbn [nested_parent] in Hst.
  destruct (obj_get "hooks" root) as [[| | | | | |h]|]; try done. simpl.
  destruct (obj_get "state" h) as [[| | | | | |s]|]; try done. simpl. injection Hst as ->. rewrite Hk.
  fold own_hash. generalize own_hash. intros hash. simpl. by rewrite String.eqb_refl.
Qed.

Lemma installed_names_program files root dh : codex_installed files root dh -> installed_program io files config = exe.
Proof.
  intros [Hc Hw (servers & Hs & Hf) _ _]. unfold installed_program. rewrite (proj1 (healthy _)). cbn [negb].
  assert (Hne : root <> []) by (by intros ->).
  destruct (parsed io (fun p => proj1 (healthy p)) files config root Hc Hne) as (toml & -> & Hp).
  simpl. rewrite Hp. simpl. rewrite Hs. simpl. by rewrite Hf.
Qed.



Lemma concat_imap_nil {A B} (f : nat -> A -> list B) l : (forall i x, x ∈ l -> f i x = []) -> concat (imap f l) = [].
Proof.
  revert f. induction l as [|x l IH]; intros f H; [done|]. simpl. rewrite (H 0%nat x) by left. apply IH.
  intros i y Hy. apply H. by right.
Qed.

#[local] Abbreviation shims := (famp_hook_command_patterns exe (codex_shim_path project)).



End install.

(** What the user's configuration must be for an installation: readable documents,
    with tables and objects where the program looks for them. *)
Record codex_home `{WireLib} `{TomlDocLib} (io : HostIo) (home project : string) (files : Files) (ot : option Table) (dh : option Obj) : Prop :=
  mkCodexHome {
  ch_table : read_toml_table io files (config_path home) = Ok ot;
  ch_wf : toml_wf (TTab (default [] ot)) = true;
  ch_servers : reaches (default [] ot) ["mcp_servers"];
  ch_states : reaches (default [] ot) ["hooks"; "state"];
  ch_doc : holds_doc io files (hooks_path project) dh;
  ch_hooks : section_ok "hooks" (default [] dh) }.

(** Every handler of a document that is a native stop hook, with its place. *)
Definition native_hooks (doc : Value) : list (nat * nat * string * Z) :=
  concat (imap (fun i group => map (fun jct => (i, jct.1.1, jct.1.2, jct.2))
    (omap native_handler (imap pair (default [] (get group "hooks" ≫= as_array))))) (stop_hooks (Some doc))).

Lemma kept_native_none shims e e' : remove_famp_hook_from_stop_entry shims e = Some e' ->
  omap native_handler (imap pair (default [] (get e' "hooks" ≫= as_array))) = [].
Proof.
  intros [_ Hk]%kept_handlers. apply elem_of_nil_inv. intros x ([j h] & Hin & Hn)%list_elem_of_omap.
  apply elem_of_lookup_imap in Hin as (k & y & [= -> ->] & Hy%list_elem_of_lookup_2).
  destruct (get e' "hooks" ≫= as_array) as [hs|]; [|by apply elem_of_nil in Hy].
  by rewrite (not_owned_not_native shims) in Hn by (by eapply Hk).
Qed.

Lemma one_native_hook exe project doc prior :
  stop_hooks (Some doc) = codex_kept exe project prior ++ [codex_entry (codex_stop_command exe)] ->
  native_hooks doc = [(length (codex_kept exe project prior), 0%nat, codex_stop_command exe, CODEX_AWAIT_TIMEOUT_SEC)].
Proof.
  intros H. unfold native_hooks. rewrite H, imap_app, List.concat_app, concat_imap_nil.
  - pose proof (codex_entry_native exe 0) as Hn. unfold native_group in Hn.
    assert (exists handler, (get (codex_entry (codex_stop_command exe)) "hooks" ≫= as_array) = Some [handler]) as [handler E]
      by (eexists; reflexivity).
    cbn [fst snd] in Hn. cbn [imap concat app]. unfold compose. rewrite Nat.add_0_r. rewrite E in Hn |- *. cbn [default imap omap list_omap find_map mbind option_bind] in *.
    destruct (native_handler (0%nat, handler)) as [[[j c] t]|] eqn:En; [|done]. simpl in Hn |- *. rewrite En. simpl. congruence.
  - intros i e' (e & _ & He)%list_elem_of_omap. by rewrite (kept_native_none _ _ _ He).
Qed.

(** C38. On a disk whose files can be read and written, an installation into a home
    whose documents parse (no float of the TOML one infinite), with tables and objects
    wherever [mcp_servers], [hooks] and [hooks.state] are present, succeeds, whatever
    stop hooks, servers and trust entries the user already has; the stop hooks are
    then the user's, those naming none of this program's commands unchanged and in
    order, with the installed one behind them; of all their handlers it is the one
    native hook; the diagnosing command, which reads the two documents by itself, finds
    it trusted: the entry named by its position is enabled and carries the hash the
    command computes for it, so that the hash and the position written agree with
    those read; a later uninstallation finds in the table the program that was
    installed; no file but the two documents, their backups and the old script is
    touched. *)
Theorem codex_install_is_trusted `{WL : WireLib} `{WLW : !WireLaws} `{PL : PrettyLib} `{PLaws : !PrettyLaws} `{TL : TomlDocLib} `{TLaws : !TomlDocLaws}
    `{CL : CryptoLib} (io : HostIo) (exe home project : string) (files : Files) (ot : option Table) (dh : option Obj) :
  healthy_home io -> codex_home io home project files ot dh ->
  exists files' doc kept, install_codex io exe home project true files = (files', Ok tt) /\
    read_document io files' (hooks_path project) = Ok (Some doc) /\
    stop_hooks (Some doc) = kept ++ [codex_entry (codex_stop_command exe)] /\
    users_kept (famp_hook_command_patterns exe (codex_shim_path project)) (prior_hooks dh) kept /\
    native_hooks doc = [(length kept, 0%nat, codex_stop_command exe, CODEX_AWAIT_TIMEOUT_SEC)] /\
    inspect_hook io files' home project = Ok (mkHookState (hooks_path project) true TsTrue) /\
    installed_program io files' (config_path home) = exe /\
    files' !! codex_shim_path project = None /\
    only_at (codex_touched io home project) files files'.
Proof.
  intros Hio [Hc Hw Hs Ht Hh Hm%(parsed_mergeable io _ _ _ _ Hh)].
  destruct (codex_install_installs io exe home project Hio files ot dh Hc Hw Hs Ht Hh Hm)
    as (files' & root & He & Hi & Hsh & Hat & _).
  pose proof (hooks_of_set _ _ Hm (codex_stop_wf exe project dh Hm)) as Hl.
  exists files', (VObject (set_leaf "hooks" "Stop" (VArray (codex_stop_hooks exe project dh)) (default [] dh))),
    (codex_kept exe project (prior_hooks dh)).
  split_and!; [exact He|apply Hi|exact Hl|apply users_are_kept|by apply (one_native_hook exe project)| | |exact Hsh|exact Hat].
  - by eapply installed_is_trusted.
  - by eapply installed_names_program.
Qed.





(** Trust entries are named by a hook's position, and an installation moves this
    program's hook behind the user's.  A user whose own hook stood behind an earlier
    installation's finds it moved one place forward, and the entry that trusted it
    overwritten by this program's: the hook he had trusted is no longer. *)
Theorem reinstall_takes_users_trust `{WL : WireLib} `{WLW : !WireLaws} `{PL : PrettyLib} `{PLaws : !PrettyLaws} `{TL : TomlDocLib}
    `{TLaws : !TomlDocLaws} `{CL : CryptoLib} (io : HostIo) (exe home project : string) (files : Files) (ot : option Table)
    (dh : option Obj) (ours mine : Value) (theirs : Table) :
  healthy_home io -> codex_home io home project files ot dh -> prior_hooks dh = [ours; mine] ->
  let shims := famp_hook_command_patterns exe (codex_shim_path project) in
  remove_famp_hook_from_stop_entry shims ours = None -> remove_famp_hook_from_stop_entry shims mine = Some mine ->
  let key := codex_hook_key (hooks_path project) CODEX_STOP_EVENT_LABEL 1 0 in
  obj_get key (table_at (default [] ot) ["hooks"; "state"]) = Some (TTab theirs) ->
  theirs <> trust_table (own_hash exe) ->
  exists files' doc root states, install_codex io exe home project true files = (files', Ok tt) /\
    read_document io files' (hooks_path project) = Ok (Some doc) /\
    stop_hooks (Some doc) = [mine; codex_entry (codex_stop_command exe)] /\
    read_toml_table io files' (config_path home) = Ok (Some root) /\
    nested_parent false root ["hooks"; "state"] = Ok (Some states) /\
    obj_get key states = Some (TTab (trust_table (own_hash exe))) /\ obj_get key states <> Some (TTab theirs).
Proof.
  intros Hio [Hc Hw Hs Ht Hh Hm%(parsed_mergeable io _ _ _ _ Hh)] Hprior shims Ho Hmine key Htheirs Hne.
  destruct (codex_install_installs io exe home project Hio files ot dh Hc Hw Hs Ht Hh Hm)
    as (files' & root & He & [Hr _ _ (states & Hst & Hk) Hd] & _ & _ & _).
  assert (Hkept : codex_kept exe project (prior_hooks dh) = [mine]).
  { unfold codex_kept. rewrite Hprior. cbn [omap list_omap]. fold shims. by rewrite Ho, Hmine. }
  unfold own_key in Hk. rewrite Hkept in Hk. change (obj_get key states = Some (TTab (trust_table (own_hash exe)))) in Hk.
  exists files', (VObject (set_leaf "hooks" "Stop" (VArray (codex_stop_hooks exe project dh)) (default [] dh))), root, states.
  split_and!; [exact He|exact Hd| |exact Hr|exact Hst|exact Hk|].
  - rewrite (hooks_of_set _ _ Hm (codex_stop_wf exe project dh Hm)). unfold codex_stop_hooks. by rewrite Hkept.
  - rewrite Hk. intros [= E]. by apply Hne.
Qed.

(** ** Grok *)
Definition grok_touched (io : HostIo) (home : string) : list string :=
  with_backup io (grok_config_path home) ++ [grok_await_shim home; grok_stop_json home; grok_skill_path home].

Ltac by_grok_paths :=
  unfold grok_touched, with_backup, grok_config_path, grok_await_shim, grok_stop_json, grok_skill_path; rewrite ?backup_under;
  cbn [app]; rewrite ?elem_of_cons, ?elem_of_nil;
  let H := fresh in intros H; repeat destruct H as [H|H]; try done; apply under_inj in H; discriminate H.
Ltac unwritten H := rewrite H by by_grok_paths.

Section grok.
Context `{WL : WireLib} `{WLW : !WireLaws} `{PL : PrettyLib} `{PLaws : !PrettyLaws} `{TL : TomlDocLib} `{TLaws : !TomlDocLaws}.
Variables (io : HostIo) (exe home : string).
Hypothesis healthy : healthy_home io.
#[local] Abbreviation config := (grok_config_path home).

Lemma grok_installs files ot :
  read_toml_table io files config = Ok ot -> toml_wf (TTab (default [] ot)) = true -> reaches (default [] ot) ["mcp_servers"] ->
  exists files', install_grok io exe home files = (files', Ok tt) /\
    read_toml_table io files' config = Ok (Some (set_table (default [] ot) ["mcp_servers"] "famp" (server_table exe))) /\
    is_Some (files' !! grok_await_shim home) /\ is_Some (files' !! grok_stop_json home) /\
    files' !! grok_skill_path home = Some (ho_asset io FAMP_LISTEN_SKILL) /\ only_at (grok_touched io home) files files'.
Proof.
  intros Hc Hw Hs. unfold install_grok, upsert_codex_table, install_shim, install_skill, install_stop_hook_json.
  assert (Hr : forall p, ho_readable io p = true) by (intros p; apply healthy).
  assert (Hwr : forall p, ho_writable io p = true) by (intros p; apply healthy).
  destruct (toml_upserts io Hr Hwr files _ _ "famp" (server_table exe) ot Hc Hw Hs eq_refl) as (f1 & o1 & -> & Hc1 & Hat1).
  cbv beta iota. set (script := str_replace _ _ _).
  destruct (written io Hwr f1 (grok_await_shim home) script) as (f2 & -> & Hw2 & Hat2). cbv beta iota.
  set (body := json_obj _). destruct (pretty_reads_back body eq_refl) as (text & -> & _).
  destruct (written io Hwr f2 (grok_stop_json home) (text +:+ String LF EmptyString)) as (f3 & -> & Hw3 & Hat3). cbv beta iota.
  destruct (written io Hwr f3 (grok_skill_path home) (ho_asset io FAMP_LISTEN_SKILL)) as (f4 & -> & Hw4 & Hat4). cbv beta iota.
  exists f4. split_and!; [done| | | |exact Hw4|].
  - rewrite (toml_elsewhere io _ _ _ _ Hat4), (toml_elsewhere io _ _ _ _ Hat3), (toml_elsewhere io _ _ _ _ Hat2) by by_grok_paths.
    exact Hc1.
  - unwritten Hat4. unwritten Hat3. by rewrite Hw2.
  - unwritten Hat4. by rewrite Hw3.
  - intros q Hq. unfold grok_touched in Hq. rewrite not_elem_of_app, !not_elem_of_cons in Hq.
    destruct Hq as (Hq1 & Hq2 & Hq3 & Hq4 & _).
    rewrite Hat4, Hat3, Hat2, Hat1; [done|done|by rewrite list_elem_of_singleton..].
Qed.

Lemma grok_uninstalls files root servers :
  read_toml_table io files config = Ok (Some root) -> toml_wf (TTab root) = true ->
  nested_parent false root ["mcp_servers"] = Ok (Some servers) -> is_Some (obj_get "famp" servers) ->
  exists files', uninstall_grok io home files = (files', Ok tt) /\
    read_toml_table io files' config = Ok (Some (prune (put_nested root ["mcp_servers"] (obj_remove "famp" servers)) ["mcp_servers"])) /\
    files' !! grok_await_shim home = None /\ files' !! grok_stop_json home = None /\
    files' !! grok_skill_path home =
      (if bool_decide (files !! grok_skill_path home = Some (ho_asset io FAMP_LISTEN_SKILL)) then None
       else files !! grok_skill_path home) /\
    only_at (grok_touched io home) files files'.
Proof.
  intros Hc Hw Hn [v Hf]. unfold uninstall_grok, remove_codex_table, remove_shim.
  assert (Hr : forall p, ho_readable io p = true) by (intros p; apply healthy).
  assert (Hwr : forall p, ho_writable io p = true) by (intros p; apply healthy).
  destruct (toml_removes io Hr Hwr files _ _ _ "famp" root servers v Hc Hw Hn Hf) as (f1 & -> & Hc1 & Hat1). cbv beta iota.
  assert (Hsk : exists f2, remove_skill io f1 (grok_skill_path home) = (f2, Ok tt) /\ only_at [grok_skill_path home] f1 f2 /\
    f2 !! grok_skill_path home =
      (if bool_decide (files !! grok_skill_path home = Some (ho_asset io FAMP_LISTEN_SKILL)) then None
       else files !! grok_skill_path home)).
  { assert (f1 !! grok_skill_path home = files !! grok_skill_path home) as E by (unwritten Hat1; done).
    rewrite <- E. unfold remove_skill. rewrite Hr. cbn [negb]. destruct (f1 !! grok_skill_path home) as [body|] eqn:Eb.
    - destruct (String.eqb_spec body (ho_asset io FAMP_LISTEN_SKILL)) as [->|Hne].
      + destruct (removed io Hwr f1 (grok_skill_path home)) as (f2 & -> & Hn2 & Hat2).
        exists f2. rewrite bool_decide_true by done. split_and!; [done|done|done].
      + exists f1. rewrite bool_decide_false by congruence. by split_and!.
    - exists f1. by split_and!. }
  destruct Hsk as (f2 & -> & Hat2 & Hsk). cbv beta iota.
  destruct (removed io Hwr f2 (grok_stop_json home)) as (f3 & -> & Hn3 & Hat3). cbv beta iota.
  destruct (removed io Hwr f3 (grok_await_shim home)) as (f4 & -> & Hn4 & Hat4). cbv beta iota.
  exists f4. split_and!; [done| |exact Hn4| | |].
  - rewrite (toml_elsewhere io _ _ _ _ Hat4), (toml_elsewhere io _ _ _ _ Hat3), (toml_elsewhere io _ _ _ _ Hat2) by by_grok_paths.
    exact Hc1.
  - unwritten Hat4. exact Hn3.
  - unwritten Hat4. unwritten Hat3. exact Hsk.
  - intros q Hq. unfold grok_touched in Hq. rewrite not_elem_of_app, !not_elem_of_cons in Hq.
    destruct Hq as (Hq1 & Hq2 & Hq3 & Hq4 & _).
    rewrite Hat4, Hat3, Hat2, Hat1; [done|done|by rewrite list_elem_of_singleton..].
Qed.
End grok.

(** Installing into Grok and uninstalling again, with the skill edited in between or
    not: the scripts and the hook are gone, the skill is removed exactly when it is
    still the one installed, nothing else of the home has changed, and a user who had
    servers, none of them this program's, has his table back. *)
Theorem grok_uninstall_spares_the_user `{WL : WireLib} `{WLW : !WireLaws} `{PL : PrettyLib} `{PLaws : !PrettyLaws} `{TL : TomlDocLib}
    `{TLaws : !TomlDocLaws} (io : HostIo) (exe home edit : string) (files : Files) (ot : option Table) :
  healthy_home io -> read_toml_table io files (grok_config_path home) = Ok ot -> toml_wf (TTab (default [] ot)) = true ->
  reaches (default [] ot) ["mcp_servers"] ->
  exists files' files'' ot', install_grok io exe home files = (files', Ok tt) /\
    files' !! grok_skill_path home = Some (ho_asset io FAMP_LISTEN_SKILL) /\
    uninstall_grok io home (<[grok_skill_path home := edit]> files') = (files'', Ok tt) /\
    files'' !! grok_await_shim home = None /\ files'' !! grok_stop_json home = None /\
    files'' !! grok_skill_path home = (if bool_decide (edit = ho_asset io FAMP_LISTEN_SKILL) then None else Some edit) /\
    only_at (grok_touched io home) files files'' /\
    read_toml_table io files'' (grok_config_path home) = Ok ot' /\
    (forall servers, nested_parent false (default [] ot) ["mcp_servers"] = Ok (Some servers) -> servers <> [] ->
       obj_get "famp" servers = None -> ot' = ot).
Proof.
  intros Hio Hc Hw Hs. destruct (grok_installs io exe home Hio files ot Hc Hw Hs) as (f1 & Hi & Hc1 & _ & _ & Hsk & Hat1).
  set (root := set_table _ _ _ _) in Hc1. assert (Hwr : toml_wf (TTab root) = true) by (by apply set_table_wf).
  set (f2 := <[grok_skill_path home := edit]> f1).
  assert (Hat2 : only_at [grok_skill_path home] f1 f2).
  { intros q Hq. apply lookup_insert_ne. intros <-. apply Hq. by left. }
  assert (Hc2 : read_toml_table io f2 (grok_config_path home) = Ok (Some root)).
  { by rewrite (toml_elsewhere io _ _ _ _ Hat2) by by_grok_paths. }
  destruct (grok_uninstalls io home Hio f2 root _ Hc2 Hwr (set_table_reads _ _ _ _)) as (f3 & Hu & Hc3 & Ha & Hj & Hsk3 & Hat3).
  { rewrite obj_get_insert. by eexists. }
  exists f1, f3. eexists. split_and!; [exact Hi|exact Hsk|exact Hu|exact Ha|exact Hj| | |exact Hc3|].
  - rewrite Hsk3. unfold f2. rewrite lookup_insert_eq. by repeat case_bool_decide; try congruence.
  - eapply only_at_trans; [exact Hat1|]. eapply only_at_trans; [|exact Hat3]. eapply only_at_sub; [|exact Hat2].
    unfold grok_touched. intros p ->%list_elem_of_singleton. set_solver.
  - intros servers Hsv Hne Hf. pose proof (nested_wf _ _ _ _ Hw Hsv) as Hwsv.
    pose proof (proj1 (proj1 (toml_wf_table _) Hwsv)) as Hk.
    assert (table_at (default [] ot) ["mcp_servers"] = servers) as -> by (unfold table_at; by rewrite Hsv).
    rewrite obj_remove_inserted, obj_remove_absent by done. unfold root, set_table. rewrite put_put by done.
    assert (nested_parent true (default [] ot) ["mcp_servers"] = Ok (Some servers)) as Ht.
    { destruct (reaches_create _ _ Hs) as (u & [[Hcr Hn]|[Hcr Hn]]); congruence. }
    rewrite (put_same _ servers) by done. rewrite (prune_same _ servers) by done. destruct ot; [done|discriminate Hsv].
Qed.

(** ** The verdict *)
Lemma readiness_cases listen holder hook parked :
  exists ready reason remediation, wake_readiness listen holder hook parked = (ready, reason, Some remediation) /\
    ready <> TsTrue /\
    (ready = TsUnknown <-> listen = true /\ hs_present hook && tri_eqb (hs_trusted hook) TsTrue = true /\ holder <> HkCliRegister).
Proof.
  destruct listen, holder, (hs_present hook) eqn:Ep, (tri_eqb (hs_trusted hook) TsTrue) eqn:Et, parked;
    unfold wake_readiness; rewrite ?Ep, ?Et; cbn [negb andb]; do 3 eexists; (split; [reflexivity|]); (split; [discriminate|]);
    intuition congruence.
Qed.

(** Whatever the broker, the process table and the documents say, the diagnosis
    of a session never claims that it can be woken: the best verdict is that it is
    not known, given exactly when the session listens, the hook is installed with
    its trust entry, and the name is not held by a command-line registration; every
    other report says no, and every report tells what to do next. *)
Theorem wake_is_never_certain `{WL : WireLib} `{TL : TomlDocLib} `{CL : CryptoLib} {W} `{!BusSocket W}
    (io : HostIo) (files : Files) (env : SendEnv) (cmdline : N -> option string) (project_of : option string -> string)
    (home identity : string) (w : W) :
  match (inspect_wake io files env cmdline project_of home identity w).2 with
  | Ok report =>
      wk_ready report <> TsTrue /\
      (wk_ready report = TsUnknown <->
         wk_listen report = true /\ wk_configured report = true /\ wk_holder report <> HkCliRegister) /\
      wk_identity report = identity /\ is_some (wk_remediation report) = true
  | Err _ => True
  end.
Proof.
  unfold inspect_wake. destruct (raw_connect_probe w) as [w1 [conn| |]]; try done.
  destruct (ask_identities _) as [w2 [rows|]]; [|done]. destruct (List.find _ rows) as [row|]; [|done].
  destruct (raw_connect_probe w2) as [w3 [conn2| |]]; try done.
  destruct (inspect_call w3 conn2 InspectWaiters) as [w4 payload]. destruct (payload ≫= listed_waiters) as [waiters|]; [|done].
  destruct (sessions_run env false None w4) as [w5 [sessions|]]; [|done].
  set (holder := default HkUnknown _). set (parked := existsb _ _). cbv zeta. cbn [snd].
  destruct (inspect_hook io files home _) as [hook|]; [|done].
  destruct (readiness_cases (ir_listen_mode row) holder hook parked) as (ready & reason & rem & -> & Hne & Hiff). done.
Qed.

(** ** A TOML crate, and a home *)
Fixpoint toml_to_value (v : Toml) : Value :=
  match v with
  | TStr s => VString s
  | TInt z => VNumber (NegInt z)
  | TFloat b => VNumber (Float b)
  | TBool b => VBool b
  | TDate s => VArray [VNull; VString s]
  | TArr l => VArray (VBool true :: map toml_to_value l)
  | TTab m => VObject (map (fun kv => (kv.1, toml_to_value kv.2)) m)
  end.
Fixpoint value_to_toml (v : Value) : Toml :=
  match v with
  | VString s => TStr s
  | VNumber (NegInt z) => TInt z
  | VNumber (Float b) => TFloat b
  | VBool b => TBool b
  | VArray [VNull; VString s] => TDate s
  | VArray (_ :: l) => TArr (map value_to_toml l)
  | VObject m => TTab (map (fun kv => (kv.1, value_to_toml kv.2)) m)
  | _ => TBool false
  end.
Lemma value_of_toml v : value_to_toml (toml_to_value v) = v.
Proof.
  induction v as [s|z|b|b|s|l IH|m IH] using toml_ind_nested; try done.
  - cbn. f_equal. induction IH as [|x l Hx _ IHl]; [done|]. cbn. by rewrite Hx, IHl.
  - cbn. f_equal. induction IH as [|[k x] m Hx _ IHm]; [done|]. cbn in *. by rewrite Hx, IHm.
Qed.
#[export] Instance toy_toml_doc : TomlDocLib := {|
  toml_print t := Some (String.string_of_list_byte (toy_print (toml_to_value (TTab t))));
  toml_parse s := match toy_tree (String.list_byte_of_string s) with
                  | Some v => match value_to_toml v with TTab t => Some t | _ => None end
                  | None => None
                  end |}.
#[export] Instance toy_toml_doc_laws : TomlDocLaws.
Proof.
  split. intros t _. eexists. split; [done|]. split.
  - cbn -[toml_to_value value_to_toml toy_tree toy_print].
    by rewrite String.list_byte_of_string_of_list_byte, toy_tree_print, value_of_toml.
  - intros Hb%String.eqb_eq. by destruct (toy_not_blank _ Hb).
Qed.

Definition user_trust : Table := [("/elsewhere/hooks.json:stop:0:0", TTab (trust_table "sha256:aa"))].
Definition user_table : Table :=
  [("hooks", TTab [("state", TTab user_trust)]); ("mcp_servers", TTab [("other", TTab [("command", TStr "other")])])].
Definition codex_files : Files :=
  <[config_path "/h" := default EmptyString (toml_print user_table)]> (<[hooks_path "/p" := printed user_settings]> ∅).

Lemma codex_ready : codex_home home_io "/h" "/p" codex_files (Some user_table) (Some user_settings).
Proof.
  split; [vm_compute; reflexivity..|by eexists|by eexists|vm_compute; reflexivity|].
  right; eexists; reflexivity.
Qed.

Example codex_install_is_trusted_witness :
  exists files', install_codex home_io "/bin/famp" "/h" "/p" true codex_files = (files', Ok tt) /\
    inspect_hook home_io files' "/h" "/p" = Ok (mkHookState "/p/.codex/hooks.json" true TsTrue).
Proof.
  destruct (codex_install_is_trusted home_io "/bin/famp" "/h" "/p" codex_files _ _ home_healthy codex_ready)
    as (files' & doc & kept & Hi & _ & _ & _ & _ & Ht & _). exists files'. split; [exact Hi|exact Ht].
Defined.


(** The user's hook behind an earlier installation's, each with its trust entry. *)
Definition mixed_table : Table :=
  [("hooks", TTab [("state", TTab [("/p/.codex/hooks.json:stop:0:0", TTab (trust_table (own_hash "/bin/famp")));
                                   ("/p/.codex/hooks.json:stop:1:0", TTab (trust_table "sha256:aa"))])])].
Definition mixed_hooks : Obj := [("hooks", VObject [("Stop", VArray [codex_entry (codex_stop_command "/bin/famp"); user_hook])])].
Definition mixed_files : Files :=
  <[config_path "/h" := default EmptyString (toml_print mixed_table)]> (<[hooks_path "/p" := printed mixed_hooks]> ∅).
Lemma mixed_ready : codex_home home_io "/h" "/p" mixed_files (Some mixed_table) (Some mixed_hooks).
Proof.
  split; [vm_compute; reflexivity..|by eexists|by eexists|vm_compute; reflexivity|].
  right; eexists; reflexivity.
Qed.

Example reinstall_takes_users_trust_witness :
  exists files' root states, install_codex home_io "/bin/famp" "/h" "/p" true mixed_files = (files', Ok tt) /\
    read_toml_table home_io files' (config_path "/h") = Ok (Some root) /\
    nested_parent false root ["hooks"; "state"] = Ok (Some states) /\
    obj_get "/p/.codex/hooks.json:stop:1:0" states <> Some (TTab (trust_table "sha256:aa")).
Proof.
  destruct (reinstall_takes_users_trust home_io "/bin/famp" "/h" "/p" mixed_files _ _
              (codex_entry (codex_stop_command "/bin/famp")) user_hook (trust_table "sha256:aa") home_healthy mixed_ready)
    as (f' & doc & root & states & Hi & _ & _ & Hr & Hst & _ & Hne);
    [vm_compute; reflexivity|vm_compute; reflexivity|vm_compute; reflexivity|vm_compute; reflexivity|
     vm_compute; discriminate|].
  exists f', root, states. split; [exact Hi|]. split; [exact Hr|]. split; [exact Hst|exact Hne].
Qed.

Example grok_uninstall_spares_the_user_witness :
  exists files' files'', install_grok home_io "/bin/famp" "/h" codex_files = (files', Ok tt) /\
    uninstall_grok home_io "/h" (<[grok_skill_path "/h" := "my own"]> files') = (files'', Ok tt) /\
    files'' !! grok_skill_path "/h" = Some "my own".
Proof.
  destruct (grok_uninstall_spares_the_user home_io "/bin/famp" "/h" "my own" codex_files None home_healthy eq_refl eq_refl)
    as (f' & f'' & ot' & Hi & _ & Hu & _ & _ & Hsk & _); [by eexists|].
  exists f', f''. split; [exact Hi|]. split; [exact Hu|exact Hsk].
Qed.
