(* ===== verification/DaemonService.v ===== *)
(** * The service that keeps the broker up

    [crates/famp/src/cli/executable.rs] (which program the generated files name)
    and [cli/daemon/{install,linux,restart,status,uninstall}.rs]: the service files
    of launchd and systemd, what the commands run of the service manager, the wait
    for the restarted broker and the status with its exit code.  The service manager,
    the process table and the clock are a [ServiceHost]. *)

From Stdlib Require Import Ascii Lia.
From stdpp Require Import gmap strings list pretty.
From S2P Require Import Prelude Json Proto WireInstance Principal Derive Envelope EnvelopeProps Keyring KeyringFile.
From S2P Require Import BrokerState Client ClientSend Inspect TaskDir Render Receive HookScan Hook HostConfig HostConfigProps.
From S2P Require Import CodexConfig CodexProps.

(** ** Which program: [executable.rs] *)
Inductive CandidateSource := SrcExplicit | SrcCurrentExe | SrcPath.
Definition label (src : CandidateSource) : string :=
  match src with SrcExplicit => "explicit" | SrcCurrentExe => "current" | SrcPath => "PATH-discovered" end.
Inductive FampExecutableError :=
| EmptyExplicit | ExeNonUtf8 (origin : string) | ExeMetadata (origin path : string) | ExeNotAFile (origin path : string)
| ExeNotExecutable (origin path : string) | ExeNotFound | ExeAbsolute (origin path : string).

(** A regular file, and some bit of 0o111. *)
Record FileMeta := mkFileMeta { fm_is_file : bool; fm_executable : bool }.
(** [FampExecutableLocator] and the file system's answers; a path is its bytes. *)
Record ExeLocator := mkExeLocator {
  el_explicit : option string; el_current_exe : option string; el_path_lookup : option string;
  el_current_dir : option string; el_metadata : string -> option FileMeta }.

Definition to_lossy (s : string) : string := String.string_of_list_byte (utf8_lossy (String.list_byte_of_string s)).
(** [str::from_utf8] succeeds on what the lossy reading does not change. *)
Definition valid_utf8 (s : string) : bool := String.eqb (to_lossy s) s.

Definition is_famp_executable_name (name : string) : bool := String.eqb name "famp".

Definition validate_candidate (loc : ExeLocator) (path : string) (src : CandidateSource) : result string FampExecutableError :=
  if negb (valid_utf8 path) then Err (ExeNonUtf8 (label src)) else
  match el_metadata loc path with
  | None => Err (ExeMetadata (label src) path)
  | Some meta =>
      if negb (fm_is_file meta) then Err (ExeNotAFile (label src) path)
      else if negb (fm_executable meta) then Err (ExeNotExecutable (label src) path)
      else Ok path
  end.
Definition absolute_and_validate (loc : ExeLocator) (path : string) (src : CandidateSource) : result string FampExecutableError :=
  if String.prefix "/" path then validate_candidate loc path src else
  match el_current_dir loc with
  | None => Err (ExeAbsolute (label src) path)
  | Some cwd => validate_candidate loc (under cwd path) src
  end.
Definition resolve_with (loc : ExeLocator) : result string FampExecutableError :=
  match el_explicit loc with
  | Some raw => if is_blank (to_lossy raw) then Err EmptyExplicit else absolute_and_validate loc raw SrcExplicit
  | None =>
      let on_path := match el_path_lookup loc with
                     | Some path => absolute_and_validate loc path SrcPath
                     | None => Err ExeNotFound
                     end in
      match el_current_exe loc with
      | Some path => if match path_file_name path with Some n => is_famp_executable_name n | None => false end
                     then absolute_and_validate loc path SrcCurrentExe else on_path
      | None => on_path
      end
  end.

(** ** The service files: [daemon/install.rs] *)
Inductive DaemonError :=
| DeFampExecutable (e : FampExecutableError) | DeLogPathNonUtf8 | DeIo | DeSandboxedShell | DeLaunchctlFailed (code : Z)
| DeSystemctlAbsent | DeSystemctlFailed (code : Z) | DeNotInstalled | DeRestartTimedOut (waited_ms : N)
| DeOrphanBrokerHoldsSocket (pid : N) | DeUnitPathHasWhitespace (path : string).

Definition DQ : string := String "034"%char EmptyString.
Definition NL : string := String LF EmptyString.
Definition line (s : string) : string := s +:+ NL.
Definition broker_log (home : string) : string := under home ".famp/broker.log".

Definition xml_escape (s : string) : string :=
  str_replace ">" "&gt;" (str_replace "<" "&lt;" (str_replace "&" "&amp;" s)).

(** The text before the program, between it and the log's path, and the rest. *)
Definition plist_head : string :=
  line ("<?xml version=" +:+ DQ +:+ "1.0" +:+ DQ +:+ " encoding=" +:+ DQ +:+ "UTF-8" +:+ DQ +:+ "?>") +:+
  line ("<!DOCTYPE plist PUBLIC " +:+ DQ +:+ "-//Apple//DTD PLIST 1.0//EN" +:+ DQ +:+ " " +:+ DQ +:+
        "http://www.apple.com/DTDs/PropertyList-1.0.dtd" +:+ DQ +:+ ">") +:+
  line ("<plist version=" +:+ DQ +:+ "1.0" +:+ DQ +:+ ">") +:+
  line "<dict>" +:+ line "    <key>Label</key>" +:+ line "    <string>com.famp.broker</string>" +:+
  line "    <key>ProgramArguments</key>" +:+ line "    <array>" +:+ "        <string>".
Definition plist_arguments : string :=
  line "</string>" +:+ line "        <string>broker</string>" +:+ line "        <string>--no-idle-exit</string>" +:+
  line "    </array>" +:+ line "    <key>RunAtLoad</key>" +:+ line "    <true/>" +:+ line "    <key>KeepAlive</key>" +:+
  line "    <true/>" +:+ line "    <key>ProcessType</key>" +:+ line "    <string>Background</string>" +:+
  line "    <key>StandardOutPath</key>" +:+ "    <string>".
Definition plist_stderr : string := line "</string>" +:+ line "    <key>StandardErrorPath</key>" +:+ "    <string>".
Definition plist_tail : string := line "</string>" +:+ line "</dict>" +:+ line "</plist>".
Definition generate_plist (home exe : string) : string :=
  plist_head +:+ xml_escape exe +:+ plist_arguments +:+ xml_escape (broker_log home) +:+ plist_stderr +:+
  xml_escape (broker_log home) +:+ plist_tail.

Fixpoint any_whitespace (s : string) : bool :=
  match s with EmptyString => false | String _ t => (0 <? ws_len s)%nat || any_whitespace t end.

Definition unit_head : string :=
  line "[Unit]" +:+ line "Description=FAMP Local Bus Broker" +:+ line "After=default.target" +:+
  line "StartLimitIntervalSec=1h" +:+ line "StartLimitBurst=20" +:+ line "" +:+ line "[Service]" +:+ "ExecStart=".
Definition unit_limits : string :=
  line " broker --no-idle-exit" +:+ line "Restart=always" +:+ line "RestartSec=5" +:+ line "RestartSteps=5" +:+
  line "RestartMaxDelaySec=5min" +:+ line "MemoryMax=256M" +:+ "StandardOutput=append:".
Definition unit_tail : string := NL +:+ line "" +:+ line "[Install]" +:+ line "WantedBy=default.target".
Definition generate_systemd_unit (home exe : string) : result string DaemonError :=
  let log := broker_log home in
  if negb (valid_utf8 log) then Err DeLogPathNonUtf8 else
  if any_whitespace exe then Err (DeUnitPathHasWhitespace exe) else
  if any_whitespace log then Err (DeUnitPathHasWhitespace log) else
  Ok (unit_head +:+ exe +:+ unit_limits +:+ log +:+ NL +:+ "StandardError=append:" +:+ log +:+ unit_tail).

Inductive ServiceFileOutcome := FileCreated | FileUnchanged | FileUpdated.
Definition service_file_outcome (existing : option string) (generated : string) : ServiceFileOutcome :=
  match existing with
  | None => FileCreated
  | Some previous => if String.eqb previous generated then FileUnchanged else FileUpdated
  end.
Definition needs_reload_advisory (outcome : ServiceFileOutcome) (already_loaded : bool) : bool :=
  already_loaded && match outcome with FileUpdated => true | _ => false end.

(** ** The host *)

(** [CmdExit None] is a death by a signal. *)
Inductive CommandResult := CmdExit (code : option Z) | CmdNotFound | CmdIo.
Definition cmd_ok (r : CommandResult) : bool := match r with CmdExit (Some 0%Z) => true | _ => false end.
Definition exit_of (code : option Z) : Z := default (-1)%Z code.

(** [sh_probe_ms] is the time the next probe would take. *)
Class ServiceHost (W : Type) := {
  sh_run : W -> string -> list string -> W * CommandResult;
  sh_output : W -> string -> list string -> W * option string;
  sh_sleep : W -> N -> W;
  sh_cmdline : W -> N -> option string;
  sh_probe_ms : W -> N }.

(** [strict_bind_probe], of the directory made before. *)
Inductive BindProbe := BindOk | BindSandboxEperm | BindOther.
Definition check_not_sandboxed (probe : BindProbe) : result unit DaemonError :=
  match probe with BindOk => Ok tt | BindSandboxEperm => Err DeSandboxedShell | BindOther => Err DeIo end.

Definition plist_path (home : string) : string := under home "Library/LaunchAgents/com.famp.broker.plist".
Definition unit_path (home : string) : string := under home ".config/systemd/user/famp-broker.service".
Definition gui (uid : N) : string := "gui/" +:+ pretty uid.

Fixpoint split_lines (cur s : string) : list string :=
  match s with
  | EmptyString => [cur]
  | String c s => if Ascii.eqb c LF then cur :: split_lines EmptyString s else split_lines (cur +:+ String c EmptyString) s
  end.
Definition parse_linger (output : string) : bool :=
  existsb (fun l => String.eqb (trim l) "Linger=yes") (split_lines EmptyString output).

Section commands.
Context {W : Type} `{!ServiceHost W}.

(** A command that must succeed; [fail] is its error. *)
Definition must_run (fail : Z -> DaemonError) (missing : DaemonError) (w : W) (program : string) (args : list string) :
    W * result unit DaemonError :=
  let '(w, r) := sh_run w program args in
  (w, match r with
      | CmdExit (Some 0%Z) => Ok tt
      | CmdExit code => Err (fail (exit_of code))
      | CmdNotFound => Err missing
      | CmdIo => Err DeIo
      end).

Definition launchctl_is_registered (w : W) (uid : N) : W * bool :=
  let '(w, r) := sh_run w "launchctl" ["print"; gui uid +:+ "/com.famp.broker"] in (w, cmd_ok r).

Definition load_macos (w : W) (plist : string) (uid : N) : W * result unit DaemonError :=
  let '(w, registered) := launchctl_is_registered w uid in
  if registered then (w, Ok tt) else must_run DeLaunchctlFailed DeIo w "launchctl" ["bootstrap"; gui uid; plist].

(** What the commands tell besides their success: on macOS whether a reload is
    advised, on Linux whether lingering is off. *)
Definition install_linux (io : HostIo) (home text user : string) (files : Files) (w : W) :
    Files * W * result bool DaemonError :=
  let '(w, present) := sh_run w "sh" ["-c"; "command -v systemctl"] in
  if negb (cmd_ok present) then (files, w, Err DeSystemctlAbsent) else
  let '(files, r) := write_file io files (unit_path home) text in
  trying _ := r catch _ => (files, w, Err DeIo) in
  let '(w, r) := must_run DeSystemctlFailed DeIo w "systemctl" ["--user"; "daemon-reload"] in
  trying _ := r catch e => (files, w, Err e) in
  let '(w, r) := must_run DeSystemctlFailed DeIo w "systemctl" ["--user"; "enable"; "--now"; "famp-broker.service"] in
  trying _ := r catch e => (files, w, Err e) in
  let '(w, output) := sh_output w "loginctl" ["show-user"; user; "--property=Linger"] in
  (files, w, Ok (negb (default false (parse_linger <$> output)))).

(** [run_at] on either system; [exe] is the resolved program. *)
Definition daemon_install_linux (io : HostIo) (loc : ExeLocator) (probe : BindProbe) (home user : string) (files : Files) (w : W) :
    Files * W * result bool DaemonError :=
  trying exe := resolve_with loc catch e => (files, w, Err (DeFampExecutable e)) in
  trying text := generate_systemd_unit home exe catch e => (files, w, Err e) in
  trying _ := check_not_sandboxed probe catch e => (files, w, Err e) in
  install_linux io home text user files w.

Definition daemon_install_macos (io : HostIo) (loc : ExeLocator) (probe : BindProbe) (home : string) (uid : N) (files : Files) (w : W) :
    Files * W * result bool DaemonError :=
  trying exe := resolve_with loc catch e => (files, w, Err (DeFampExecutable e)) in
  trying _ := check_not_sandboxed probe catch e => (files, w, Err e) in
  let xml := generate_plist home exe in
  let '(w, loaded) := launchctl_is_registered w uid in
  let existing := if ho_readable io (plist_path home) then files !! plist_path home else None in
  let outcome := service_file_outcome existing xml in
  let '(files, r) := write_file io files (plist_path home) xml in
  trying _ := r catch _ => (files, w, Err DeIo) in
  let '(w, r) := load_macos w (plist_path home) uid in
  trying _ := r catch e => (files, w, Err e) in
  (files, w, Ok (needs_reload_advisory outcome loaded)).

(** [daemon/uninstall.rs]. *)
Definition drop_file (io : HostIo) (files : Files) (path : string) : Files * result unit DaemonError :=
  let '(files, r) := remove_file io files path in (files, match r with Ok _ => Ok tt | Err _ => Err DeIo end).
Definition daemon_uninstall_macos (io : HostIo) (home : string) (uid : N) (files : Files) (w : W) : Files * W * result unit DaemonError :=
  let '(w, _) := sh_run w "launchctl" ["bootout"; gui uid; plist_path home] in
  let '(files, r) := drop_file io files (plist_path home) in (files, w, r).
Definition daemon_uninstall_linux (io : HostIo) (home : string) (files : Files) (w : W) : Files * W * result unit DaemonError :=
  let '(w, _) := sh_run w "systemctl" ["--user"; "disable"; "--now"; "famp-broker.service"] in
  let '(files, r) := drop_file io files (unit_path home) in
  trying _ := r catch e => (files, w, Err e) in
  let '(w, _) := sh_run w "systemctl" ["--user"; "daemon-reload"] in (files, w, Ok tt).

(** ** [daemon/restart.rs] *)
Definition RESTART_READY_BUDGET : N := 5000.
Definition RESTART_READY_POLL : N := 100.
Definition RESTART_PROBE_ATTEMPT_CAP : N := 500.

Definition restart_macos (home : string) (uid : N) (files : Files) (w : W) : W * result unit DaemonError :=
  let '(w, registered) := launchctl_is_registered w uid in
  if negb registered then (w, Err DeNotInstalled) else
  if negb (is_some (files !! plist_path home)) then (w, Err DeNotInstalled) else
  let '(w, _) := sh_run w "launchctl" ["bootout"; gui uid; plist_path home] in
  let '(w, r) := must_run DeLaunchctlFailed DeIo w "launchctl" ["bootstrap"; gui uid; plist_path home] in
  trying _ := r catch e => (w, Err e) in
  must_run DeLaunchctlFailed DeIo w "launchctl" ["kickstart"; gui uid +:+ "/com.famp.broker"].
Definition restart_linux (w : W) : W * result unit DaemonError :=
  must_run DeSystemctlFailed DeSystemctlAbsent w "systemctl" ["--user"; "restart"; "famp-broker.service"].

Definition cmdline_is_daemon_managed (cmdline : string) : bool := str_contains "--no-idle-exit" cmdline.
Definition is_daemon_managed_pid (w : W) (pid : N) : bool :=
  match sh_cmdline w pid with Some c => cmdline_is_daemon_managed c | None => false end.
End commands.

(** [InspectBrokerReply]. *)
Inductive BrokerReply := BrInfo (info : BrokerInfoReply) | BrBudgetExceeded (elapsed_ms : N).
Definition broker_info_specs : field_specs :=
  [("pid", fault (d_unsigned u32_max)); ("socket_path", fault d_string); ("started_at_unix_seconds", fault (d_unsigned u64_max));
   ("build_version", fault d_string)].
Definition d_broker_info : decoder BrokerInfoReply := fun v =>
  try m := struct_fields broker_info_specs v in
  try pid := required (d_unsigned u32_max) m "pid" in
  try path := required d_string m "socket_path" in
  try started := required (d_unsigned u64_max) m "started_at_unix_seconds" in
  try build := required d_string m "build_version" in
  Ok (mkBrokerInfo pid path started build).
Definition tagged_broker_reply (tag : string) (content : Value) : option BrokerReply :=
  if String.eqb tag "info" then match d_broker_info content with Ok i => Some (BrInfo i) | Err _ => None end
  else if String.eqb tag "budget_exceeded" then
    match content with
    | VObject m => match required (d_unsigned u64_max) m "elapsed_ms" with Ok n => Some (BrBudgetExceeded n) | Err _ => None end
    | VArray [v] => match d_unsigned u64_max v with Ok n => Some (BrBudgetExceeded n) | Err _ => None end
    | _ => None
    end
  else None.
Definition broker_reply (payload : Value) : option BrokerReply :=
  match payload with
  | VObject m => tag ← (obj_get "kind" m ≫= as_str);
      tagged_broker_reply tag (VObject (List.filter (fun kv => negb (String.eqb kv.1 "kind")) m))
  | VArray (VString tag :: rest) => tagged_broker_reply tag (VArray rest)
  | _ => None
  end.

Section readiness.
Context {W : Type} `{!ServiceHost W} `{!BusSocket W}.

Definition probe_broker_info (w : W) : W * option BrokerInfoReply :=
  let '(w, probe) := raw_connect_probe w in
  match probe with
  | ProbeHealthy conn =>
      let '(w, payload) := inspect_call w conn InspectBroker in
      (w, match payload ≫= broker_reply with Some (BrInfo info) => Some info | _ => None end)
  | _ => (w, None)
  end.

(** [wait_until_healthy] from [t] milliseconds on: a probe that would take longer
    than its share of the budget is cut off and counts as none.  [None] is out of
    fuel. *)
Definition wait_ended (orphan : option N) : result BrokerInfoReply DaemonError :=
  match orphan with
  | Some pid => Err (DeOrphanBrokerHoldsSocket pid)
  | None => Err (DeRestartTimedOut RESTART_READY_BUDGET)
  end.
Definition timed_probe (w : W) (cap : N) : W * N * option BrokerInfoReply :=
  let ms := sh_probe_ms w in
  let '(w, r) := probe_broker_info w in
  if (ms <=? cap)%N then (w, ms, r) else (w, cap, None).
Fixpoint wait_loop (fuel : nat) (t : N) (orphan : option N) (w : W) : option (W * N * result BrokerInfoReply DaemonError) :=
  match fuel with
  | O => None
  | S fuel =>
      let remaining := (RESTART_READY_BUDGET - t)%N in
      if (remaining =? 0)%N then Some (w, t, wait_ended orphan) else
      let '(w, ms, found) := timed_probe w (N.min remaining RESTART_PROBE_ATTEMPT_CAP) in
      let t := (t + ms)%N in
      let go orphan :=
        let remaining := (RESTART_READY_BUDGET - t)%N in
        if (remaining =? 0)%N then Some (w, t, wait_ended orphan) else
        let d := N.min RESTART_READY_POLL remaining in
        wait_loop fuel (t + d)%N orphan (sh_sleep w d) in
      match found with
      | Some info => if is_daemon_managed_pid w (bi_pid info) then Some (w, t, Ok info) else go (Some (bi_pid info))
      | None => go orphan
      end
  end.
(** Every turn but the last takes at least a poll's pause. *)
Definition WAIT_FUEL : nat := 51.
Definition wait_until_healthy (w : W) : option (W * N * result BrokerInfoReply DaemonError) := wait_loop WAIT_FUEL 0 None w.

(** [run]. *)
Definition daemon_restart_linux (w : W) : option (W * N * result BrokerInfoReply DaemonError) :=
  let '(w, r) := restart_linux w in
  match r with Ok _ => wait_until_healthy w | Err e => Some (w, 0%N, Err e) end.
Definition daemon_restart_macos (home : string) (uid : N) (files : Files) (w : W) :
    option (W * N * result BrokerInfoReply DaemonError) :=
  let '(w, r) := restart_macos home uid files w in
  match r with Ok _ => wait_until_healthy w | Err e => Some (w, 0%N, Err e) end.

(** ** [daemon/status.rs] *)
Inductive Evidence := EvNotRegistered | EvInspectFailed | EvNoBroker | EvHelloRejected (summary : string).
Inductive DaemonStateRender :=
| NotInstalled (path : string)
| InstalledDown (path : string) (evidence : Evidence) (linger : option bool)
| Running (info : BrokerInfoReply) (linger : option bool)
| Busy (path : string) (elapsed_ms : N) (linger : option bool).
Definition exit_code (r : DaemonStateRender) : Z :=
  match r with Running _ _ => 0 | InstalledDown _ _ _ | Busy _ _ _ => 2 | NotInstalled _ => 1 end%Z.

Definition query_linger (user : string) (w : W) : W * option bool :=
  let '(w, output) := sh_output w "loginctl" ["show-user"; user; "--property=Linger"] in (w, parse_linger <$> output).
Definition systemctl_is_active (w : W) : W * bool :=
  let '(w, r) := sh_run w "systemctl" ["--user"; "is-active"; "famp-broker.service"] in (w, cmd_ok r).

(** On Linux; on macOS the service is asked for by [launchctl_is_registered] and
    lingering by nobody. *)
Definition daemon_status_linux (home user : string) (files : Files) (w : W) : W * DaemonStateRender :=
  let path := unit_path home in
  if negb (is_some (files !! path)) then (w, NotInstalled path) else
  let '(w, registered) := systemctl_is_active w in
  if negb registered then let '(w, linger) := query_linger user w in (w, InstalledDown path EvNotRegistered linger) else
  let '(w, probe) := raw_connect_probe w in
  match probe with
  | ProbeHealthy conn =>
      let '(w, payload) := inspect_call w conn InspectBroker in
      let '(w, linger) := query_linger user w in
      (w, match payload ≫= broker_reply with
          | Some (BrInfo info) => Running info linger
          | Some (BrBudgetExceeded ms) => Busy path ms linger
          | None => InstalledDown path EvInspectFailed linger
          end)
  | ProbeDown => let '(w, linger) := query_linger user w in (w, InstalledDown path EvNoBroker linger)
  | ProbeOrphan summary => let '(w, linger) := query_linger user w in (w, InstalledDown path (EvHelloRejected summary) linger)
  end.
Definition daemon_status_macos (home : string) (uid : N) (files : Files) (w : W) : W * DaemonStateRender :=
  let path := plist_path home in
  if negb (is_some (files !! path)) then (w, NotInstalled path) else
  let '(w, registered) := launchctl_is_registered w uid in
  if negb registered then (w, InstalledDown path EvNotRegistered None) else
  let '(w, probe) := raw_connect_probe w in
  match probe with
  | ProbeHealthy conn =>
      let '(w, payload) := inspect_call w conn InspectBroker in
      (w, match payload ≫= broker_reply with
          | Some (BrInfo info) => Running info None
          | Some (BrBudgetExceeded ms) => Busy path ms None
          | None => InstalledDown path EvInspectFailed None
          end)
  | ProbeDown => (w, InstalledDown path EvNoBroker None)
  | ProbeOrphan summary => (w, InstalledDown path (EvHelloRejected summary) None)
  end.
Definition emit_and_exit (r : DaemonStateRender) : result unit Z := if (exit_code r =? 0)%Z then Ok tt else Err (exit_code r).
End readiness.

(** ** The plist *)

(** A reader of XML text: the entities, and the contents of the [string] elements in
    their order. *)
Fixpoint xml_unescape (skip : nat) (s : string) : string :=
  match s with
  | EmptyString => EmptyString
  | String c t =>
      match skip with
      | S k => xml_unescape k t
      | O => if String.prefix "&amp;" s then String "&" (xml_unescape 4 t)
             else if String.prefix "&lt;" s then String "<" (xml_unescape 3 t)
             else if String.prefix "&gt;" s then String ">" (xml_unescape 3 t)
             else String c (xml_unescape 0 t)
      end
  end.
Fixpoint xml_strings (skip : nat) (cur : option string) (s : string) : list string :=
  match s with
  | EmptyString => []
  | String c t =>
      match skip, cur with
      | S k, _ => xml_strings k cur t
      | O, Some text => if Ascii.eqb c "<" then xml_unescape 0 text :: xml_strings 0 None t
                        else xml_strings 0 (Some (text +:+ String c EmptyString)) t
      | O, None => if String.prefix "<string>" s then xml_strings 7 (Some EmptyString) t else xml_strings 0 None t
      end
  end.

Fixpoint char_map (f : ascii -> string) (s : string) : string :=
  match s with EmptyString => EmptyString | String c t => f c +:+ char_map f t end.
Lemma char_map_app f s t : char_map f (s +:+ t) = char_map f s +:+ char_map f t.
Proof.
  induction s as [|c s IH]; [done|]. change (String c s +:+ t) with (String c (s +:+ t)). cbn [char_map].
  by rewrite IH, str_app_assoc.
Qed.
Lemma char_map_twice f g s : char_map f (char_map g s) = char_map (fun c => char_map f (g c)) s.
Proof. induction s as [|c s IH]; [done|]. cbn [char_map]. by rewrite char_map_app, IH. Qed.
Lemma char_map_ext f g s : (forall c, f c = g c) -> char_map f s = char_map g s.
Proof. intros H. induction s as [|c s IH]; [done|]. cbn [char_map]. by rewrite H, IH. Qed.

Lemma replace_char c new s :
  str_replace (String c EmptyString) new s = char_map (fun d => if Ascii.eqb d c then new else String d EmptyString) s.
Proof.
  unfold str_replace. induction s as [|d s IH]; [done|]. cbn [str_replace_from char_map].
  assert (String.prefix (String c EmptyString) (String d s) = Ascii.eqb d c) as ->.
  { cbn [String.prefix]. destruct (ascii_dec c d) as [->|Hn]; [rewrite Ascii.eqb_refl; by destruct s|].
    symmetry. apply Ascii.eqb_neq. congruence. }
  change (String.length (String c EmptyString) - 1)%nat with 0%nat. by destruct (Ascii.eqb d c); rewrite IH.
Qed.

Definition entity (c : ascii) : string :=
  if Ascii.eqb c "&" then "&amp;" else if Ascii.eqb c "<" then "&lt;" else if Ascii.eqb c ">" then "&gt;" else String c EmptyString.
Lemma xml_escape_map s : xml_escape s = char_map entity s.
Proof.
  unfold xml_escape. rewrite !replace_char, !char_map_twice. apply char_map_ext. intros c. unfold entity.
  destruct (Ascii.eqb_spec c "&") as [->|H1]; [reflexivity|]. cbn [char_map].
  destruct (Ascii.eqb_spec c "<") as [->|H2]; [reflexivity|]. cbn [char_map].
  destruct (Ascii.eqb_spec c ">") as [->|H3]; [reflexivity|]. reflexivity.
Qed.

Lemma prefix_not_amp p c t : c <> "&"%char -> String.prefix (String "&" p) (String c t) = false.
Proof. intros H. cbn [String.prefix]. destruct (ascii_dec "&" c); [congruence|done]. Qed.

Lemma xml_unescape_escape s : xml_unescape 0 (xml_escape s) = s.
Proof.
  rewrite xml_escape_map. induction s as [|c s IH]; [done|]. cbn [char_map]. unfold entity at 1.
  destruct (Ascii.eqb_spec c "&") as [->|H1]; [revert IH; generalize (char_map entity s); intros t <-; by destruct t|].
  destruct (Ascii.eqb_spec c "<") as [->|H2]; [revert IH; generalize (char_map entity s); intros t <-; by destruct t|].
  destruct (Ascii.eqb_spec c ">") as [->|H3]; [revert IH; generalize (char_map entity s); intros t <-; by destruct t|].
  change (String c EmptyString +:+ ?t) with (String c t). cbn [xml_unescape]. by rewrite !prefix_not_amp, IH.
Qed.

Fixpoint no_angle (s : string) : bool :=
  match s with EmptyString => true | String c t => negb (Ascii.eqb c "<") && no_angle t end.
Lemma no_angle_app s t : no_angle (s +:+ t) = no_angle s && no_angle t.
Proof.
  induction s as [|c s IH]; [done|]. change (String c s +:+ t) with (String c (s +:+ t)). cbn [no_angle]. by rewrite IH, andb_assoc.
Qed.
Lemma escaped_no_angle s : no_angle (xml_escape s) = true.
Proof.
  rewrite xml_escape_map. induction s as [|c s IH]; [done|]. cbn [char_map]. rewrite no_angle_app, IH, andb_true_r.
  unfold entity. destruct (Ascii.eqb c "&"); [done|]. destruct (Ascii.eqb c "<") eqn:E; [done|].
  destruct (Ascii.eqb c ">"); [done|]. simpl. by rewrite E.
Qed.

Lemma text_read text t r : no_angle t = true ->
  xml_strings 0 (Some text) (t +:+ String "<" r) = xml_unescape 0 (text +:+ t) :: xml_strings 0 None r.
Proof.
  revert text. induction t as [|c t IH]; intros text.
  - intros _. change (EmptyString +:+ ?u) with u. by rewrite str_app_nil.
  - cbn [no_angle]. intros [Hc Ht]%andb_true_iff. change (String c t +:+ ?u) with (String c (t +:+ u)). cbn [xml_strings].
    apply negb_true_iff in Hc as ->. rewrite IH by done. by rewrite str_app_assoc.
Qed.
Lemma escaped_read t r : xml_strings 0 (Some EmptyString) (xml_escape t +:+ String "<" r) = t :: xml_strings 0 None r.
Proof.
  rewrite text_read by apply escaped_no_angle. change (EmptyString +:+ ?u) with u. by rewrite xml_unescape_escape.
Qed.

(** Whatever characters the paths hold, launchd reads from the plist, element by
    element, the label, exactly the program and its two arguments, the kind of
    process, and the log twice: no path can end the element it is placed in or add
    another. *)
Theorem plist_says_what_it_should home exe :
  xml_strings 0 None (generate_plist home exe) =
  ["com.famp.broker"; exe; "broker"; "--no-idle-exit"; "Background"; broker_log home; broker_log home].
Proof.
  unfold generate_plist.
  assert (forall r, xml_strings 0 None (plist_head +:+ r) = "com.famp.broker" :: xml_strings 0 (Some EmptyString) r) as ->
    by (intros r; by destruct r).
  assert (forall r, exists r', plist_arguments +:+ r = String "<" r' /\ xml_strings 0 None r' =
    "broker" :: "--no-idle-exit" :: "Background" :: xml_strings 0 (Some EmptyString) r) as Ha
    by (intros r; eexists; split; [reflexivity|by destruct r]).
  assert (forall r, exists r', plist_stderr +:+ r = String "<" r' /\ xml_strings 0 None r' = xml_strings 0 (Some EmptyString) r)
    as Hs by (intros r; eexists; split; [reflexivity|by destruct r]).
  assert (exists r', plist_tail = String "<" r' /\ xml_strings 0 None r' = []) as (r3 & H3 & E3) by (eexists; by split).
  destruct (Hs (xml_escape (broker_log home) +:+ plist_tail)) as (r2 & H2 & E2).
  destruct (Ha (xml_escape (broker_log home) +:+ plist_stderr +:+ xml_escape (broker_log home) +:+ plist_tail)) as (r1 & H1 & E1).
  rewrite H1, escaped_read, E1, H2, escaped_read, E2, H3, escaped_read, E3. done.
Qed.

(** ** The unit *)

(** A reader of unit files: the value of a key, and the words of the command line,
    which systemd splits at white space. *)
Fixpoint after_prefix (p s : string) : option string :=
  match p, s with
  | EmptyString, _ => Some s
  | String a p, String b s => if Ascii.eqb a b then after_prefix p s else None
  | String _ _, EmptyString => None
  end.
Definition unit_value (key text : string) : option string := find_map (after_prefix key) (split_lines EmptyString text).
Definition exec_argv (text : string) : option (list string) := split_whitespace <$> unit_value "ExecStart=" text.

Lemma after_prefix_app p s : after_prefix p (p +:+ s) = Some s.
Proof.
  induction p as [|c p IH]; [by destruct s|]. change (String c p +:+ s) with (String c (p +:+ s)). cbn [after_prefix].
  by rewrite Ascii.eqb_refl.
Qed.

Fixpoint no_lf (s : string) : bool := match s with EmptyString => true | String c t => negb (Ascii.eqb c LF) && no_lf t end.
Lemma split_lines_more s t : no_lf s = true -> forall cur, split_lines cur (s +:+ t) = split_lines (cur +:+ s) t.
Proof.
  induction s as [|c s IH]; intros Hs cur; [by rewrite str_app_nil|]. cbn [no_lf] in Hs. apply andb_true_iff in Hs as [Hc Hs].
  change (String c s +:+ t) with (String c (s +:+ t)). cbn [split_lines]. apply negb_true_iff in Hc as ->.
  rewrite IH by done. by rewrite str_app_assoc.
Qed.
Lemma split_lines_line s t cur : no_lf s = true -> split_lines cur (line s +:+ t) = (cur +:+ s) :: split_lines EmptyString t.
Proof. intros Hs. unfold line, NL. by rewrite str_app_assoc, split_lines_more by done. Qed.

(** A word's characters are no white space, whatever low character follows it. *)
Lemma ws_len_ext s c t : low c -> s <> EmptyString -> ws_len s = 0%nat -> ws_len (s +:+ String c t) = 0%nat.
Proof.
  unfold low. intros Hc Hs Hw. destruct s as [|x s]; [done|]. change (String x s +:+ ?u) with (String x (s +:+ u)).
  cbn [ws_len] in Hw |- *. destruct (_ || _)%N; [done|]. destruct s as [|y s].
  - change (EmptyString +:+ String c t) with (String c t).
    assert ((N_of_ascii c =? 133)%N = false /\ (N_of_ascii c =? 160)%N = false) as [-> ->] by lia.
    rewrite andb_false_r. destruct t as [|d t]; [done|].
    assert ((N_of_ascii c =? 154)%N = false /\ (N_of_ascii c =? 128)%N = false /\ (N_of_ascii c =? 129)%N = false)
      as (-> & -> & ->) by lia. by rewrite !andb_false_r.
  - change (String y s +:+ ?u) with (String y (s +:+ u)). cbv iota. destruct ((N_of_ascii x =? 194) && ((N_of_ascii y =? 133) || (N_of_ascii y =? 160)))%N; [done|]. destruct s as [|z s].
    + change (EmptyString +:+ String c t) with (String c t).
      assert ((N_of_ascii c =? 128)%N = false /\ (N_of_ascii c =? 159)%N = false /\ (128 <=? N_of_ascii c)%N = false /\
              (N_of_ascii c =? 168)%N = false /\ (N_of_ascii c =? 169)%N = false /\ (N_of_ascii c =? 175)%N = false)
        as (-> & -> & -> & -> & -> & ->) by lia. cbn [andb orb]. rewrite ?andb_false_r. cbn [orb]. done.
    + change (String z s +:+ ?u) with (String z (s +:+ u)). exact Hw.
Qed.

Lemma word_split w r : any_whitespace w = false -> forall cur,
  split_ws 0 cur (w +:+ String " " r) = flush (cur +:+ w) (split_ws 0 EmptyString r).
Proof.
  induction w as [|c w IH]; intros Hw cur.
  - change (EmptyString +:+ ?u) with u. cbn [split_ws]. assert (ws_len (String " " r) = 1%nat) as -> by reflexivity.
    by rewrite str_app_nil.
  - cbn [any_whitespace] in Hw. apply orb_false_iff in Hw as [Hc Hw].
    change (String c w +:+ ?u) with (String c (w +:+ u)). cbn [split_ws].
    assert (ws_len (String c (w +:+ String " " r)) = 0%nat) as ->.
    { change (String c (w +:+ ?u)) with (String c w +:+ u). apply ws_len_ext; [unfold low; vm_compute; reflexivity|done|].
      apply Nat.ltb_ge in Hc. lia. }
    rewrite IH by done. by rewrite str_app_assoc.
Qed.

Lemma no_whitespace_no_lf s : any_whitespace s = false -> no_lf s = true.
Proof.
  induction s as [|c s IH]; [done|]. cbn [any_whitespace no_lf]. intros [Hc Hs]%orb_false_iff. rewrite IH by done.
  destruct (Ascii.eqb_spec c LF) as [->|]; [discriminate Hc|done].
Qed.

(** A unit is generated exactly when neither path holds white space and the log's
    is UTF-8; systemd then reads from it a command line of exactly the program and
    its two arguments, and the broker's log for both streams. *)
Theorem unit_runs_the_program home exe : exe <> EmptyString ->
  match generate_systemd_unit home exe with
  | Ok text =>
      exec_argv text = Some [exe; "broker"; "--no-idle-exit"] /\
      unit_value "StandardOutput=append:" text = Some (broker_log home) /\
      unit_value "StandardError=append:" text = Some (broker_log home)
  | Err _ => valid_utf8 (broker_log home) = false \/ any_whitespace exe = true \/ any_whitespace (broker_log home) = true
  end.
Proof.
  intros Hne. unfold generate_systemd_unit. destruct (valid_utf8 (broker_log home)); [|by left]. cbn [negb].
  destruct (any_whitespace exe) eqn:He; [by right; left|]. destruct (any_whitespace (broker_log home)) eqn:Hl; [by right; right|].
  set (log := broker_log home) in *. set (text := unit_head +:+ _).
  assert (Ht : exists before tail, split_lines EmptyString text = before ++ [("ExecStart=" +:+ exe) +:+ " broker --no-idle-exit";
     "Restart=always"; "RestartSec=5"; "RestartSteps=5"; "RestartMaxDelaySec=5min"; "MemoryMax=256M";
     "StandardOutput=append:" +:+ log; "StandardError=append:" +:+ log] ++ tail /\
     before = ["[Unit]"; "Description=FAMP Local Bus Broker"; "After=default.target"; "StartLimitIntervalSec=1h";
               "StartLimitBurst=20"; ""; "[Service]"]).
  { eexists _, _. split; [|reflexivity]. unfold text.
    assert (forall r, split_lines EmptyString (unit_head +:+ r) = ["[Unit]"; "Description=FAMP Local Bus Broker";
      "After=default.target"; "StartLimitIntervalSec=1h"; "StartLimitBurst=20"; ""; "[Service]"] ++ split_lines "ExecStart=" r)
      as -> by reflexivity.
    f_equal. rewrite split_lines_more by (by apply no_whitespace_no_lf). unfold unit_limits. rewrite !str_app_assoc.
    rewrite split_lines_line by reflexivity. cbn [app]. f_equal. do 5 (rewrite split_lines_line by reflexivity; cbn [app]; f_equal).
    rewrite !(split_lines_more _ _) by first [reflexivity | by apply no_whitespace_no_lf].
    change (NL +:+ ?u) with (String LF u). cbn [split_lines]. change (Ascii.eqb LF LF) with true. cbv iota. f_equal.
    rewrite !(split_lines_more _ _) by first [reflexivity | by apply no_whitespace_no_lf].
    unfold unit_tail. change (NL +:+ ?u) with (String LF u). cbn [split_lines]. change (Ascii.eqb LF LF) with true. cbv iota.
    reflexivity. }
  destruct Ht as (before & tail & Ht & ->). unfold exec_argv, unit_value. rewrite Ht. split_and!.
  - rewrite str_app_assoc.
    change (Some (split_ws 0 EmptyString (exe +:+ String " " "broker --no-idle-exit")) = Some [exe; "broker"; "--no-idle-exit"]).
    rewrite word_split by done. change (EmptyString +:+ exe) with exe. unfold flush.
    destruct (String.eqb_spec exe EmptyString); [done|]. reflexivity.
  - reflexivity.
  - reflexivity.
Qed.

(** ** The wait for the restarted broker *)
Section waiting.
Context {W : Type} `{!ServiceHost W} `{!BusSocket W}.

(** Some probe met a broker that is not the service's. *)
Definition seen_orphan (pid : N) : Prop := exists w w' info,
  probe_broker_info w = (w', Some info) /\ bi_pid info = pid /\ is_daemon_managed_pid w' pid = false.
Definition wait_verdict (w : W) (r : result BrokerInfoReply DaemonError) : Prop :=
  match r with
  | Ok info => (exists w0, probe_broker_info w0 = (w, Some info)) /\ is_daemon_managed_pid w (bi_pid info) = true
  | Err (DeOrphanBrokerHoldsSocket pid) => seen_orphan pid
  | Err e => e = DeRestartTimedOut RESTART_READY_BUDGET
  end.

Lemma timed_probe_spec w cap : exists w' ms found, timed_probe w cap = (w', ms, found) /\ (ms <= cap)%N /\
  forall info, found = Some info -> probe_broker_info w = (w', Some info).
Proof.
  unfold timed_probe. destruct (probe_broker_info w) as [w' r]. destruct (sh_probe_ms w <=? cap)%N eqn:E.
  - exists w', (sh_probe_ms w), r. apply N.leb_le in E. split_and!; [done|done|by intros info ->].
  - exists w', cap, None. split_and!; [done|lia|done].
Qed.

Lemma wait_ended_verdict w orphan : (forall pid, orphan = Some pid -> seen_orphan pid) -> wait_verdict w (wait_ended orphan).
Proof. intros H. destruct orphan as [pid|]; [by apply H|done]. Qed.

Lemma wait_loop_ends fuel : forall t orphan w,
  (t <= 5000)%N -> (5000 - t + 100 <= 100 * N.of_nat fuel)%N -> (forall pid, orphan = Some pid -> seen_orphan pid) ->
  exists w' t' r, wait_loop fuel t orphan w = Some (w', t', r) /\ (t' <= 5000)%N /\ wait_verdict w' r.
Proof.
  induction fuel as [|fuel IH]; intros t orphan w Ht Hf Ho; [lia|]. cbn [wait_loop]. unfold RESTART_READY_BUDGET at 1 2.
  destruct (5000 - t =? 0)%N eqn:E0; [by exists w, t, (wait_ended orphan); split_and!; [| |apply wait_ended_verdict]|].
  apply N.eqb_neq in E0. unfold RESTART_PROBE_ATTEMPT_CAP.
  destruct (timed_probe_spec w (N.min (5000 - t) 500)) as (w1 & ms & found & -> & Hms & Hfound).
  assert (Hgo : forall orphan', (forall pid, orphan' = Some pid -> seen_orphan pid) -> exists w' t' r,
    (if (RESTART_READY_BUDGET - (t + ms) =? 0)%N then Some (w1, (t + ms)%N, wait_ended orphan')
     else wait_loop fuel (t + ms + N.min RESTART_READY_POLL (RESTART_READY_BUDGET - (t + ms))) orphan'
            (sh_sleep w1 (N.min RESTART_READY_POLL (RESTART_READY_BUDGET - (t + ms))))) = Some (w', t', r) /\
    (t' <= 5000)%N /\ wait_verdict w' r).
  { intros orphan' Ho'. unfold RESTART_READY_BUDGET, RESTART_READY_POLL. destruct (5000 - (t + ms) =? 0)%N eqn:E1.
    - exists w1, (t + ms)%N, (wait_ended orphan'). split_and!; [done|lia|by apply wait_ended_verdict].
    - apply N.eqb_neq in E1. apply IH; [lia|lia|done]. }
  destruct found as [info|]; [|by apply Hgo]. specialize (Hfound info eq_refl).
  destruct (is_daemon_managed_pid w1 (bi_pid info)) eqn:Em.
  - exists w1, (t + ms)%N, (Ok info). split_and!; [done|lia|]. split; [by exists w|done].
  - apply Hgo. intros pid [= <-]. by exists w, w1, info.
Qed.

(** C40. Waiting for the restarted broker ends within the five seconds, whatever the
    broker does and however long its answers take; it reports a restart only for a
    broker that answered the last probe and whose command line is the service's, it
    blames a broker only if a probe met it answering with another command line, and
    otherwise it says that the time is over. *)
Theorem restart_reports_only_the_daemon (w : W) : exists w' t r,
  wait_until_healthy w = Some (w', t, r) /\ (t <= RESTART_READY_BUDGET)%N /\ wait_verdict w' r.
Proof. apply wait_loop_ends; [done| |done]. unfold WAIT_FUEL. lia. Qed.

(** The status command's exit code is zero exactly when the service file is there,
    the service manager calls the service active, and the probe the restart waits
    for gets the broker's answer. *)
Theorem status_agrees_with_restart (home user : string) (files : Files) (w : W) :
  emit_and_exit (daemon_status_linux home user files w).2 = Ok tt <->
  is_some (files !! unit_path home) = true /\ (systemctl_is_active w).2 = true /\
  is_some (probe_broker_info (systemctl_is_active w).1).2 = true.
Proof.
  unfold daemon_status_linux, probe_broker_info. destruct (files !! unit_path home); [|by simpl; intuition]. cbn [is_some negb].
  destruct (systemctl_is_active w) as [w1 [|]]; [|by simpl; destruct (query_linger user w1); simpl; intuition]. cbn [negb fst snd].
  destruct (raw_connect_probe w1) as [w2 [conn| |summary]]; cbn [snd].
  - destruct (inspect_call w2 conn InspectBroker) as [w3 payload]. destruct (query_linger user w3) as [w4 linger].
    destruct (payload ≫= broker_reply) as [[info|ms]|]; cbn; intuition discriminate.
  - destruct (query_linger user w2). cbn. intuition discriminate.
  - destruct (query_linger user w2). cbn. intuition discriminate.
Qed.

(** ** Installing *)

(** Installing under systemd either writes the unit of the resolved program, and then
    only if the directory can be bound to, or leaves every other file as it was; a
    program that is not found, a path systemd cannot take and a sandboxed shell are
    refused before any file is written or any command run; uninstalling removes
    exactly the unit. *)
Theorem install_writes_only_the_unit (io : HostIo) (loc : ExeLocator) (probe : BindProbe) (home user : string) (files : Files) (w : W) :
  match daemon_install_linux io loc probe home user files w with
  | (files', w', Ok _) => exists exe text,
      resolve_with loc = Ok exe /\ generate_systemd_unit home exe = Ok text /\ probe = BindOk /\
      files' = <[unit_path home := text]> files /\
      (forall w2, ho_writable io (unit_path home) = true -> exists w3,
         daemon_uninstall_linux io home files' w2 = (delete (unit_path home) files, w3, Ok tt))
  | (files', w', Err e) =>
      only_at [unit_path home] files files' /\
      match e with
      | DeFampExecutable _ | DeLogPathNonUtf8 | DeUnitPathHasWhitespace _ | DeSandboxedShell => files' = files /\ w' = w
      | _ => True
      end
  end.
Proof.
  unfold daemon_install_linux. destruct (resolve_with loc) as [exe|e] eqn:Er; [|by split].
  destruct (generate_systemd_unit home exe) as [text|e] eqn:Et.
  2: { split; [done|]. revert Et. unfold generate_systemd_unit. repeat case_match; intros [=]; by subst. }
  destruct probe; [|by split..]. cbn [check_not_sandboxed]. unfold install_linux.
  destruct (sh_run w "sh" _) as [w1 present]. destruct (cmd_ok present); [|by split]. cbn [negb].
  unfold write_file. destruct (ho_writable io (unit_path home)) eqn:Ew; [|by split].
  assert (Hat : only_at [unit_path home] files (<[unit_path home := text]> files)).
  { intros q Hq. apply lookup_insert_ne. intros <-. apply Hq. by left. }
  assert (Hfail : forall w2 args, exists w3 r, must_run DeSystemctlFailed DeIo w2 "systemctl" args = (w3, r) /\
    match r with Err (DeSystemctlFailed _) | Err DeIo | Ok _ => True | _ => False end).
  { intros w2 args. unfold must_run. destruct (sh_run w2 "systemctl" args) as [w3 r]. eexists _, _. split; [done|].
    by destruct r as [[[]|]| |]. }
  destruct (Hfail w1 ["--user"; "daemon-reload"]) as (w2 & r2 & -> & H2).
  destruct r2 as [[]|e2]; [|split; [done|by destruct e2]].
  destruct (Hfail w2 ["--user"; "enable"; "--now"; "famp-broker.service"]) as (w3 & r3 & -> & H3).
  destruct r3 as [[]|e3]; [|split; [done|by destruct e3]].
  destruct (sh_output w3 "loginctl" _) as [w4 output]. exists exe, text. split_and!; try done.
  intros w5 _. unfold daemon_uninstall_linux, drop_file, remove_file. destruct (sh_run w5 _ _) as [w6 ?].
  rewrite lookup_insert_eq, Ew. destruct (sh_run w6 _ _) as [w7 ?]. exists w7. by rewrite delete_insert_eq.
Qed.
End waiting.

(** ** The program *)

(** The program named in the generated files is a path that is UTF-8 and an executable
    regular file, given by the environment if it says anything, else the running
    program if that is called exactly [famp], else the one on the path; no other
    answer of the host can come through, and a program the environment names is never
    replaced by another. *)
Theorem resolved_program_can_run loc :
  match resolve_with loc with
  | Ok exe =>
      valid_utf8 exe = true /\ el_metadata loc exe = Some (mkFileMeta true true) /\
      exists given, (exe = given /\ String.prefix "/" given = true \/
                     exists cwd, el_current_dir loc = Some cwd /\ exe = under cwd given) /\
        match el_explicit loc with
        | Some raw => given = raw
        | None => el_current_exe loc = Some given /\ path_file_name given = Some "famp" \/ el_path_lookup loc = Some given
        end
  | Err e => el_explicit loc = None -> el_current_exe loc = None -> el_path_lookup loc = None -> e = ExeNotFound
  end.
Proof.
  assert (Hv : forall path src exe, validate_candidate loc path src = Ok exe ->
    exe = path /\ valid_utf8 exe = true /\ el_metadata loc exe = Some (mkFileMeta true true)).
  { intros path src exe. unfold validate_candidate. destruct (valid_utf8 path) eqn:Eu; [|done]. cbn [negb].
    destruct (el_metadata loc path) as [[[|] [|]]|] eqn:Em; try done. by intros [= <-]. }
  assert (Ha : forall path src exe, absolute_and_validate loc path src = Ok exe ->
    valid_utf8 exe = true /\ el_metadata loc exe = Some (mkFileMeta true true) /\
    (exe = path /\ String.prefix "/" path = true \/ exists cwd, el_current_dir loc = Some cwd /\ exe = under cwd path)).
  { intros path src exe. unfold absolute_and_validate. destruct (String.prefix "/" path) eqn:Ep.
    - intros (-> & Hu & Hm)%Hv. split_and!; [done|done|by left].
    - destruct (el_current_dir loc) as [cwd|] eqn:Ec; [|done]. intros (-> & Hu & Hm)%Hv. split_and!; [done|done|right; by exists cwd]. }
  unfold resolve_with. destruct (el_explicit loc) as [raw|] eqn:Ee.
  { destruct (is_blank (to_lossy raw)); [done|]. destruct (absolute_and_validate loc raw SrcExplicit) as [exe|e] eqn:E; [|done].
    apply Ha in E as (Hu & Hm & Hp). split_and!; [done|done|by exists raw]. }
  assert (Hpath : match (match el_path_lookup loc with Some path => absolute_and_validate loc path SrcPath | None => Err ExeNotFound end) with
    | Ok exe => valid_utf8 exe = true /\ el_metadata loc exe = Some (mkFileMeta true true) /\
        exists given, (exe = given /\ String.prefix "/" given = true \/
                       exists cwd, el_current_dir loc = Some cwd /\ exe = under cwd given) /\ el_path_lookup loc = Some given
    | Err e => el_path_lookup loc = None -> e = ExeNotFound
    end).
  { destruct (el_path_lookup loc) as [path|]; [|done]. destruct (absolute_and_validate loc path SrcPath) as [exe|e] eqn:E; [|done].
    apply Ha in E as (Hu & Hm & Hp). split_and!; [done|done|by exists path]. }
  destruct (el_current_exe loc) as [path|] eqn:Ec.
  - destruct (path_file_name path) as [n|] eqn:En; [destruct (String.eqb_spec n "famp") as [->|Hn]|].
    + cbn. destruct (absolute_and_validate loc path SrcCurrentExe) as [exe|e] eqn:E; [|done].
      apply Ha in E as (Hu & Hm & Hp). split_and!; [done|done|exists path; split; [done|by left]].
    + unfold is_famp_executable_name. rewrite (proj2 (String.eqb_neq _ _) Hn).
      destruct (match el_path_lookup loc with Some _ => _ | None => _ end) as [exe|e]; [|done].
      destruct Hpath as (Hu & Hm & given & Hg & Hl). split_and!; [done|done|exists given; split; [done|by right]].
    + destruct (match el_path_lookup loc with Some _ => _ | None => _ end) as [exe|e]; [|done].
      destruct Hpath as (Hu & Hm & given & Hg & Hl). split_and!; [done|done|exists given; split; [done|by right]].
  - destruct (match el_path_lookup loc with Some _ => _ | None => _ end) as [exe|e]; [|by intros _ _].
    destruct Hpath as (Hu & Hm & given & Hg & Hl). split_and!; [done|done|exists given; split; [done|by right]].
Qed.
